(* ===== verification/_CoqProject ===== *)
-Q . S2P
Prelude.v
GoStrings.v
Errors.v
Json.v
Crypto.v
GoJson.v
JsonText.v
Canonical.v
CanonicalTheory.v
Schema.v
SchemaTheory.v
Flow.v
Bundle.v
BundleTheory.v
Policy.v
WorkflowTables.v
WorkflowPin.v
Declared.v
Locks.v
Store.v
TxLogic.v
Moves.v
LifecycleSpec.v
ResourceEvents.v
Attempts.v
Claim.v
Complete.v
Takeover.v
CommitLocks.v
Edit.v
WorkflowStart.v
Pooled.v
WorkflowRun.v
WorkflowRepair.v
WorkflowRevise.v
Dependencies.v
Skills.v
SkillsSpec.v
SkillsTheory.v
Dedup.v
Create.v
StepUpdate.v
Lifecycle.v
Handover.v
WorkflowReads.v
WorkflowSpec.v
WorkflowLifecycle.v
CommitSpec.v
EditSpec.v
DepGraph.v
StepSpec.v
CreateSpec.v
System.v
WorkflowHistory.v
WorkflowInvariant.v
WorkflowTermination.v
Versions.v
Scenario.v
WorkflowScenario.v
WorkflowContracts.v
CreateContracts.v
CommitContracts.v
Guarantees.v
Contracts.v
EditContracts.v
Endings.v
GraphContracts.v
StepContracts.v
Findings.v
PolicyTheory.v
PolicyContracts.v
PinContracts.v
ContentContracts.v
SkillsContracts.v
Fallback.v
FallbackContracts.v
Idempotency.v
IdempotencyTheory.v
IdempotencyContracts.v
