(* ===== verification/Prelude.v ===== *)
(** * aihub / polyforge: the work-item lifecycle, verified (root file)

    The repository is a server (Go, PostgreSQL) through which people and coding
    agents share a backlog.  A _work item_ is claimed by a _run attempt_, which
    holds _resource locks_ (files, repositories, worktrees, services) while it
    works, moves through _steps_, and ends the item (wrapped, failed) or parks
    it (paused).  Work items depend on each other.  An attempt proves who it is
    with three things: that it is the item's current attempt, the _claim epoch_
    it was given, and a session secret.  The epoch is a fencing token: each claim
    or takeover raises it, so a client that lost its claim can do nothing more.

    This development models that lifecycle from the source, statement by
    statement, and proves what its clients rely on.  Go paths below are
    relative to [src/].

    ** How the parts interact

    Every handler is a transaction over the same tables (which of them run
    SERIALIZABLE is said below).  The claim, completion, takeover, extension,
    cancellation and step handlers all write the lock table through the same few
    statements ([resource_events.go]), which emit an event per lock; what is
    locked is derived from the item's stored declarations ([conflicts.go],
    [declared_resources.go]).  Endings requeue dependents ([dependencies.go]);
    two periodic sweeps ([gc.go]) repair what a crash can leave behind.

    ** Files

    Foundations
    - [Prelude]: results ([inl] is Go's error return), validation loops, the
      shared lemmas, tactics and hints.
    - [GoStrings]: Go strings as byte strings with the functions of package
      [strings] the program calls, UTF-8 rune counting included.
    - [Errors]: [internal/domain/errors.go], [pgx_err.go]: the codes, their HTTP
      status, and which code a driver error becomes.
    - [Json]: decoded JSON values.  [Crypto]: [HashSecret]
      ([internal/domain/ids.go]) with an executable SHA-256.

    Resources and tables
    - [Declared]: [declared_resources.go], the closed vocabularies, the
      validator and the report of entries nothing understands.
    - [Locks]: [conflicts.go], from declarations to lock keys and to the probe
      that decides which existing rows block a key, in SQL and in Go.
    - [Store]: the rows ([internal/db/migrations]) and the transaction monad
      [Tx].  [TxLogic]: a program logic for it.

    Handlers (one definition per stretch of Go, composed as the Go composes them)
    - [ResourceEvents]: [resource_events.go] and the lock statements of
      [run_attempts.go].
    - [Attempts]: what the handlers share: row lookups, the credential check,
      the foreign-holder probe, requeueing of dependents, forced step
      termination.
    - [Claim]: [FnClaimWorkItem].  [Complete]: [FnCompleteAttempt].
      [Takeover]: [FnForceTakeover], [FnAcquireLocks], [FnRecordRepoPins],
      [VerifyAttemptCredentialPool], [CancelWorkItem].
    - [CommitLocks]: [FnReconcileCommitLocks] of [commit_locks.go].
    - [Edit]: [UpdateWorkItem] of [work_items.go]: the field checks
      ([work_item_fields.go]), the editability matrix, the compiled UPDATE with
      its compare-and-set on [resources_version], the release of locks whose
      path is no longer declared, the audit events.
    - [Dependencies]: [CreateDependency] with [detectCycle],
      [DeleteDependency], [ListDependencies], the sweeps [RunOrphanLockSweep]
      and [RunUnblockDependentWI] of [gc.go], and the administrator's
      [handleUnblockWorkItem] of [internal/server/router.go].
    - [Dedup], [Create]: [CreateWorkItem] of [work_items.go]: the request checks,
      the search for duplicates ([checkDedup]) in float64 arithmetic, best
      effort as the code's (a failed read of a row ends it), the parent, the
      number, the row, the first workflow generation, the blockers.
    - [StepUpdate]: [handleUpdateStep] of [internal/server/routes_step.go].

    Workflow runs: a work item may be given a flow, whose steps are started,
    answered with results, approved by humans and repaired
    - [GoJson]: the text [json.Marshal] writes for a decoded value, which the
      digest of an artifact hashes.
    - [WorkflowTables]: the tables of migration [0044_wi_workflows.sql], and the
      rows of users, projects and skills.
      [WorkflowPin]: [workflow.go], from the steps a client names to a validated
      generation.
    - [WorkflowStart]: [StartWorkflowStep] of [workflow_run.go] with the rules
      that order starts, repairs and approvals.  [WorkflowRun]:
      [RecordWorkflowResult].  [WorkflowRepair]: [ApproveWorkflowStep],
      [AuthorizeWorkflowRepair], [ReconcileWorkflowInvocations].
      [WorkflowRevise]: [UpdateWorkItemWorkflow], the pinning at creation, and
      the view [GetWorkItemWorkflow].

    Specification and refinement
    - [LifecycleSpec]: the lifecycle without SQL, errors or faults: a state of
      items, attempts and locks ([AState]), its transitions ([astep]), its
      invariant ([Inv]) and what follows from it.
    - [Lifecycle], [Handover], [CommitSpec], [EditSpec], [DepGraph], [StepSpec],
      [CreateSpec]: every handler, whatever its arguments and faults, leaves
      tables reached from those it found by transitions of [LifecycleSpec]; and
      the postcondition of each handler.
    - [System]: executions.  A [request] is any handler with any arguments and
      any faults; a [run] is a sequence of them.  [run_refines] lifts the
      refinement to runs.  Two kinds of request break promises of the lifecycle:
      a takeover decided on a stale read and a step failure that is escalated.
      A [LifecycleSpec.Mode] says whether a run may hold them; the invariant
      ([Inv]) holds in every mode, mutual exclusion ([Exclusive]) where nothing
      is escalated, finality in a [calm] run.
    - [Moves]: a rule for facts every statement respects.  [Versions]: two such
      facts along executions: declarations change only under a higher version,
      and the history of workflows only grows.
    - [WorkflowReads]: what each check of the workflow handlers has established
      when it passes.  [WorkflowSpec]: what each handler commits.
      [WorkflowLifecycle]: those commits are transitions of the lifecycle.
      [WorkflowHistory], [WorkflowInvariant], [WorkflowTermination]: how the
      workflow tables grow, the invariant every commit preserves, and the depth
      of retries that bounds the loops.

    Theorems
    - [Guarantees]: promises over whole executions.  At most one running
      attempt per item, unless a step failure is escalated; every lock is owned
      by a live attempt under that attempt's own epoch; a superseded attempt can
      never again complete, lock or record; finished items stay finished,
      unless a step failure is escalated or a takeover acts on a stale read.
    - [Contracts], [Endings]: what a claim, completion, takeover and
      cancellation do when they succeed, which errors they answer when they
      refuse, that a repeated claim is idempotent, and that no claim displaces
      a conflicting lock of another item.
    - [CommitContracts]: a commit the gate lets through, for a repository with a
      name, is covered by locks of its attempt on the keys of its files, taken
      from nobody; a refusal names every blocked path.
    - [EditContracts]: an edit never overwrites declarations its client did not
      read, releases the locks of the paths it gives up and no lock that answers
      to none of their probes, is permitted by one table, touches what it names
      only, and never violates a CHECK of the table.
    - [GraphContracts]: [detectCycle] decides reachability, checked edges keep
      the graph acyclic, items are requeued exactly when nothing open blocks
      them, listings hide what the caller may not read.
    - [StepContracts]: the compare-and-set on the step state.
    - [WorkflowContracts], [PinContracts]: the tables of workflows stay
      consistent and keep their history; steps start in order and after the
      approvals they need; only the current attempt records a result, once; a
      revision never loses another; a human's decision is final; the loops over
      retries end; what is pinned was validated; the server's check of a result
      against the policy's.
    - [CreateContracts]: a creation is all or nothing and does what it reports;
      a slug names one item for ever; an open item cannot be filed again
      unforced, whatever the rounding of its score, as long as the search for
      duplicates gets to read it.
    - [Locks], [Declared]: the SQL and Go conflict predicates agree, and no
      declaration is dropped without a report.
    - [Scenario], [WorkflowScenario] hold the small installation the witnesses
      run on, and [Findings] the executions in which the handlers do what nobody
      means.

    Skill content, [internal/skillregistry]: what a published skill is made of
    - [JsonText]: the JSON parser of [encoding/json] with its string escapes and
      the text [json.Marshal] writes; reading that text gives the value back, and
      the parser's fuel is enough.
    - [Canonical]: [canonical.go], [canonicalizeJSON]: members sorted, duplicates
      refused, numbers as exact decimals.  [CanonicalTheory]: two texts have one
      canonical form exactly when they are one value.
    - [Schema]: [schema.go] and the strict decoder of [strict.go]: [CompileSchema],
      [CheckValue].  [SchemaTheory] holds an independent reading of the keywords
      ([conforms]), the bound the check adds to it ([canonical], the size of
      numbers under [uniqueItems]) and what compilation establishes.
    - [Bundle]: [path.go], [bundle.go], [contract.go], the digest of a version and
      the content half of [PublishSkillVersion].  [BundleTheory]: where paths
      lead, and the round trips of bundles and contracts.
    - [ContentContracts]: a bundle stays below the directory it is written to;
      schemas fail closed and values are checked as JSON Schema reads them;
      canonical texts decide equality; a digest is reproduced from any spelling.

    The skill registry, [internal/domain/skill_registry.go] and
    [skill_registry_sharing.go]
    - [Pooled]: queries and single statements outside a transaction, each of
      which may see another state of the database.
    - [Skills]: creating, publishing, sharing and reading skills, with the one
      access predicate.  [SkillsSpec]: the registry as a transition system
      ([reg_step]), its invariant, and that every handler makes one step or none.
      [SkillsTheory]: the rule the predicate encodes ([may_read]), the databases
      a caller cannot tell apart ([sees_same]).
    - [SkillsContracts]: versions are numbered without gaps and
      never change; publishing is a compare-and-set; queries reveal only what the
      caller may read, and a publication is invisible to strangers; sharing is
      authorized; the pages of a listing cover it.

    Three components beside the lifecycle, each with its definitions, its
    theory and its promises in a file of its own
    - [Flow]: the workflow contract, [internal/workflow/contract.go] and
      [validate.go]: [Validate] with the safety gates it demands.  [Policy]:
      [policy.go], [Decide], which computes the next state of a workflow run
      from the result of a step.  [PolicyTheory] holds what [Validate] implies
      of a contract and the frame lemmas of [Decide]; [PolicyContracts]: a flow
      advances only on results the contract calls done; the last write, each
      repair and the one retry are inspected afterwards, in the order of the
      events; shipping needs its gates; retries need the authority the contract
      names; the history follows the flow.
    - [Fallback]: [internal/modelruntime/fallback.go], the walk over a chain of
      models.  [FallbackContracts]: the chain is tried in
      order, a verdict is final, every walk ends within its chain.
    - [Idempotency]: [internal/server/idempotency.go], the replay cache of the
      HTTP layer.  [IdempotencyTheory] relates the map and the linked list of
      the Go to one list in recency order; [IdempotencyContracts]: the cache
      refines that LRU list, its bounds hold after every operation, the
      fingerprint separates requests, and a replay repeats a stored response
      of the same request.

    ** Modelling choices

    - A transaction is a state-passing computation with errors ([Store.Tx]).
      Each statement may meet a _fault_ from the environment ([Env]): a lost
      connection, a serialization failure, an aborted transaction; COMMIT may
      fail, or take effect with its acknowledgement lost.  A failed statement
      aborts the transaction unless a savepoint contains it.
    - Isolation.  [FnClaimWorkItem], [FnCompleteAttempt], [FnAcquireLocks],
      [FnRecordRepoPins] and [FnReconcileCommitLocks] are SERIALIZABLE, so that
      a committed one ran alone.  The others run at the default level (READ
      COMMITTED as deployed): [FnForceTakeover], [VerifyAttemptCredentialPool],
      [CancelWorkItem], [CreateWorkItem], [UpdateWorkItem], the dependency
      handlers, the step handler, the sweeps, the workflow and the skill
      handlers.  Their transactions are modelled as running alone too: no other
      request commits between the first statement and COMMIT.  Many of
      them begin by locking the row they write, which gives them this for that
      row; for the takeover it is an assumption, and every theorem about it is
      about such executions.  What its commit window allows is in
      [ResourceEvents.lockUpsert_window]: a claim that commits inside it can lose
      a lock to the takeover ([Findings.takeover_window_displaces_live_lock]).
    - A handler that reads through the pool _before_ its transaction takes the
      database of that moment as an argument of its own ([d0]), and a run may
      give it any earlier state.
    - [UpdateWorkItem] locks the row of its item with its first statement, reads
      no other row, and writes the lock table with one DELETE; it is modelled as
      running alone on the database that DELETE meets.  Its final read, after the
      commit, is given whatever other requests made of the database since
      ([later]).
    - [CreateWorkItem]: from the UPDATE of its project's counter on it is
      modelled as running alone; the search for duplicates
      comes before that lock and may see an earlier state.  Its float64
      arithmetic is [SpecFloat]'s, rounded after each operation (a compiler that
      fuses multiply and add, as on arm64, may differ in the last bit); how
      [unicode.ToLower] maps a rune outside ASCII and PostgreSQL's [@>] on jsonb
      are parameters.
    - The workflow handlers each lock the row of their item first, as every
      writer of the workflow tables does.  The view [GetWorkItemWorkflow] runs outside a
      transaction: each of its queries sees a state of its own ([Pool]).
    - What the skill registry, the users table and the JSON schema compiler
      answer, and the digest of a generation, are fields of [Outside]; every
      theorem holds for all of them.  JSONB columns the server wrote itself are
      kept decoded.
    - A failed [Scan] of a row ([cx_scan]) ends the loop over the rows, as in
      [unblockDependentWI] and [checkDedup], where the statement before it has
      succeeded and the transaction goes on.
    - Texts are well-formed UTF-8.  PostgreSQL refuses NUL in a text (22021) and
      in a jsonb value (22P05): modelled for the creation and the edit of an
      item, the events and the skill registry; elsewhere texts are free of NUL.
      Its size limits for rows, indexes and numbers are left out.
    - The clock, fresh ids and the session secret are fields of [Ctx]: one clock
      reading per request (a transaction's [NOW()] does not advance).  The
      column CHECKs, primary keys, UNIQUE indexes and triggers the handlers
      rely on are in the insert and update statements.
    - A query without ORDER BY returns rows in the order of [map_to_list]; no
      theorem depends on that order.
    - Integers are [Z].  [claim_epoch] is a PostgreSQL [bigint]; a claim needs
      room for the next one ([epoch_room]), which a run states as a condition of
      a claim or takeover.
    - Message texts are dropped; codes and structured details are kept.
    - Fuel: [Dependencies.reach_iter] runs one round per edge, enough for the
      fixed point of the recursive query ([DepGraph.reachable_spec] has no fuel
      in its statement); [ResourceEvents.emit_batches] and the string
      functions of [GoStrings] are given their input's length, and every step
      consumes some of it; [Idempotency.make_room] evicts at most once per
      list element and is given their number plus one.
      [WorkflowStart.overlay] follows at most as many links as there are
      replacements, and [WorkflowRepair.lineage_walk] the number of hops after
      which the code gives up; [retry_loops_end] proves that neither runs out in
      a reachable state.  [JsonText.parse_json] is given two units per character
      ([JsonText.parse_fuel_enough]: more changes nothing);
      [Bundle.ancestors] the length of the path, which each step shortens.  No
      other definition needs fuel.
    - The replay cache keeps its list elements in a heap of pointers, since the
      Go map and list alias them; [IdempotencyTheory.repr] says they agree.
      Only its request-fingerprint texts are built, not other log texts.

    ** Outside the model

    HTTP binding, authentication and project membership checks before a handler;
    API keys; foreign keys to users (their failure is one of the faults);
    [net/url.Parse], a parameter of the validator; Go's regular expressions,
    parameters of the schema compiler, whose answers are arguments of
    [Flow.Validate]; the decoding of a step result from JSON; the contents of
    goals, memories and artifacts; the ticker that runs the cache's purge and its
    log line.  Listing items and the ready queue, the embedding refresh after an edit and memories (but for the
    row an artifact names) are read-only searches over PostgreSQL text search and
    vectors; the web pages, the MCP server and the command line are clients; the
    drain runner starts processes.  None of these is modelled, nor are the
    handlers that edit users and projects.  A registry query returns stored
    [jsonb] values; how PostgreSQL spells them is left open. *)

From stdpp Require Export base tactics option list gmap strings fin_maps.
From Stdlib Require Export ZArith Lia.

Create HintDb polyforge discriminated.
Create Rewrite HintDb polyforge.

(** ** Results of Go functions

    A Go function returning [(T, error)] is a [sum]: [inl e] is the error
    return, [inr v] the value.  [result] fixes that reading. *)

Declare Scope go_scope.
Delimit Scope go_scope with go.

Definition result (E A : Type) : Type := (E + A)%type.
Definition Err {E A} (e : E) : result E A := inl e.
Definition Ok {E A} (a : A) : result E A := inr a.

Definition rbind {E A B} (m : result E A) (k : A → result E B) : result E B :=
  match m with inl e => inl e | inr a => k a end.

Notation "x <-? c1 ;; c2" := (rbind c1 (λ x, c2))
  (at level 100, c1 at next level, right associativity) : go_scope.
Notation "'guard?' b 'else' e ;; c2" := (if (b : bool) then c2 else Err e)
  (at level 100, b at level 99, e at level 99, right associativity) : go_scope.

Lemma rbind_ok {E A B} (m : result E A) (k : A → result E B) b :
  rbind m k = inr b ↔ ∃ a, m = inr a ∧ k a = inr b.
Proof. destruct m; simpl; [|split; [eauto|by intros (? & [= ->] & ?)]]. split; [done|by intros (? & ? & ?)]. Qed.

(** Sequential checks over a list, with the index, stopping at the first
    error: the shape of every [for i, x := range xs] validation loop. *)
Fixpoint check_from {E A} (f : nat → A → result E unit) (i : nat) (l : list A)
  : result E unit :=
  match l with
  | [] => inr tt
  | x :: l => rbind (f i x) (λ _, check_from f (S i) l)
  end.

Lemma check_from_ok {E A} (f : nat → A → result E unit) i l :
  check_from f i l = inr tt ↔ ∀ k x, l !! k = Some x → f (i + k) x = inr tt.
Proof.
  revert i. induction l as [|y l IH]; intros i; simpl.
  - split; [intros _ k x Hk; by rewrite lookup_nil in Hk | done].
  - rewrite rbind_ok. split.
    + intros ([] & Hy & Hl) k x Hk. destruct k as [|k]; simpl in Hk.
      * simplify_eq. by rewrite Nat.add_0_r.
      * rewrite Nat.add_succ_r. by apply (proj1 (IH (S i)) Hl).
    + intros H. exists tt. split.
      * specialize (H 0 y eq_refl). by rewrite Nat.add_0_r in H.
      * apply IH. intros k x Hk. specialize (H (S k) x Hk).
        by rewrite Nat.add_succ_r in H.
Qed.

(** ** Booleans *)

Lemma orb_false_split (a b : bool) : a || b = false → a = false ∧ b = false.
Proof. by destruct a, b. Qed.

(** ** Machine integers

    Go's [int64] and [int] (64 bit on every platform the program ships to)
    are [Z] with wrap-around written out. *)

Definition wrap64 (z : Z) : Z := ((z + 2 ^ 63) mod 2 ^ 64 - 2 ^ 63)%Z.
Definition max_int64 : Z := (2 ^ 63 - 1)%Z.
Definition in_int64 (z : Z) : Prop := (- 2 ^ 63 <= z <= max_int64)%Z.

Lemma wrap64_id z : in_int64 z → wrap64 z = z.
Proof.
  unfold in_int64, wrap64, max_int64. intros H.
  rewrite Z.mod_small; lia.
Qed.

Lemma wrap64_range z : in_int64 (wrap64 z).
Proof.
  unfold in_int64, wrap64, max_int64.
  pose proof (Z.mod_pos_bound (z + 2 ^ 63) (2 ^ 64)). lia.
Qed.

#[export] Hint Resolve wrap64_range : polyforge.

(** ** Tactics shared by the components *)

Ltac break_match_goal :=
  match goal with
  | |- context [match ?x with _ => _ end] => destruct x eqn:?
  end.

Ltac break_match_hyp H :=
  match type of H with
  | context [match ?x with _ => _ end] => destruct x eqn:?
  end.

Ltac break_all H := repeat (break_match_hyp H; simplify_eq/=).

(** Booleans of the code turned into the propositions they decide. *)
Ltac reflect_bools :=
  repeat match goal with
    | H : _ && _ = true |- _ => apply andb_true_iff in H as [??]
    | H : _ || _ = false |- _ => apply orb_false_split in H as [??]
    | H : negb _ = true |- _ => apply negb_true_iff in H
    | H : negb _ = false |- _ => apply negb_false_iff in H
    | H : bool_decide _ = true |- _ => apply bool_decide_eq_true in H
    | H : bool_decide _ = false |- _ => apply bool_decide_eq_false in H
    | H : String.eqb _ _ = true |- _ => apply String.eqb_eq in H
    | H : String.eqb _ _ = false |- _ => apply String.eqb_neq in H
    | H : Z.eqb _ _ = true |- _ => apply Z.eqb_eq in H
    | H : Z.eqb _ _ = false |- _ => apply Z.eqb_neq in H
    end.

(** A fact about a row that a concrete lookup found. *)
Ltac row_fact H := vm_compute in H; injection H as <-; first [reflexivity|done].
