(* ===== verification/GoStrings.v ===== *)
(** * Go strings

    Go strings are byte sequences; they are Rocq's [string] (8-bit [ascii]).
    The functions of package [strings] the program uses are defined here,
    with the lemmas the components share. *)

From S2P Require Import Prelude.
From Stdlib Require Import Ascii String.

Open Scope string_scope.

(** ** Prefixes and suffixes *)

Fixpoint strip_prefix (p s : string) : option string :=
  match p, s with
  | EmptyString, _ => Some s
  | String a p, String b s => if Ascii.eqb a b then strip_prefix p s else None
  | String _ _, EmptyString => None
  end.

Definition hasPrefix (s p : string) : bool :=
  match strip_prefix p s with Some _ => true | None => false end.

Definition trimPrefix (s p : string) : string :=
  match strip_prefix p s with Some r => r | None => s end.

Fixpoint sdrop (n : nat) (s : string) : string :=
  match n, s with
  | O, _ => s
  | S n, String _ s => sdrop n s
  | S _, EmptyString => EmptyString
  end.

Definition hasSuffix (s q : string) : bool :=
  (String.length q <=? String.length s)%nat
  && String.eqb (sdrop (String.length s - String.length q) s) q.

Fixpoint stake (n : nat) (s : string) : string :=
  match n, s with
  | S n, String c s => String c (stake n s)
  | _, _ => EmptyString
  end.

Definition trimSuffix (s q : string) : string :=
  if hasSuffix s q then stake (String.length s - String.length q) s else s.

Lemma string_app_nil (a : string) : "" +:+ a = a.
Proof. reflexivity. Qed.

Lemma string_app_cons c (a b : string) : String c a +:+ b = String c (a +:+ b).
Proof. reflexivity. Qed.

Lemma strip_prefix_spec p s r : strip_prefix p s = Some r ↔ s = p +:+ r.
Proof.
  revert s. induction p as [|a p IH]; intros s; simpl.
  - rewrite string_app_nil. split; congruence.
  - destruct s as [|b s]; [done|]. rewrite string_app_cons.
    destruct (Ascii.eqb_spec a b) as [->|]; [rewrite IH|]; split; congruence.
Qed.

Lemma hasPrefix_spec s p : hasPrefix s p = true ↔ ∃ r, s = p +:+ r.
Proof.
  unfold hasPrefix. destruct (strip_prefix p s) as [r|] eqn:E.
  - apply strip_prefix_spec in E. naive_solver.
  - split; [done|]. intros [r ->].
    by rewrite (proj2 (strip_prefix_spec p (p +:+ r) r)) in E.
Qed.

Lemma trimPrefix_app p r : trimPrefix (p +:+ r) p = r.
Proof.
  unfold trimPrefix. by rewrite (proj2 (strip_prefix_spec p (p +:+ r) r)).
Qed.

Lemma length_sapp a b :
  String.length (a +:+ b) = String.length a + String.length b.
Proof. induction a; rewrite ?string_app_nil, ?string_app_cons; simpl; auto. Qed.

Lemma sapp_nil_r a : a +:+ "" = a.
Proof. induction a; rewrite ?string_app_nil, ?string_app_cons; simpl; congruence. Qed.

Lemma sapp_assoc a b c : a +:+ (b +:+ c) = (a +:+ b) +:+ c.
Proof. induction a as [|x a IH]; [done|]. rewrite !string_app_cons. congruence. Qed.

Lemma sapp_inj_l a b c : a +:+ b = a +:+ c → b = c.
Proof. induction a; rewrite ?string_app_nil, ?string_app_cons; naive_solver. Qed.

Lemma sdrop_app a b : sdrop (String.length a) (a +:+ b) = b.
Proof. by induction a. Qed.

Lemma stake_app a b : stake (String.length a) (a +:+ b) = a.
Proof. induction a; rewrite ?string_app_nil, ?string_app_cons; simpl; congruence. Qed.

Lemma stake_sdrop n s : stake n s +:+ sdrop n s = s.
Proof.
  revert s. induction n; intros [|c s]; simpl; rewrite ?string_app_cons; try done.
  congruence.
Qed.

Lemma length_stake n s : String.length (stake n s) = min n (String.length s).
Proof. revert s. induction n; intros [|c s]; simpl; auto. Qed.

Lemma length_sdrop n s : String.length (sdrop n s) = String.length s - n.
Proof. revert s. induction n; intros [|c s]; simpl; auto. Qed.

(** Two splits of one string at the same place are the same split. *)
Lemma sapp_inj_length a b c d :
  a +:+ b = c +:+ d → String.length b = String.length d → a = c ∧ b = d.
Proof.
  intros H Hl.
  assert (String.length a = String.length c) as Hac.
  { pose proof (f_equal String.length H) as E. rewrite !length_sapp in E. lia. }
  split.
  - by rewrite <- (stake_app a b), H, Hac, stake_app.
  - by rewrite <- (sdrop_app a b), H, Hac, sdrop_app.
Qed.

Lemma sapp_inj_r a b c : a +:+ c = b +:+ c → a = b.
Proof. intros H. by apply (sapp_inj_length a c b c). Qed.

(** *** Strings without a colon *)

Fixpoint no_colon (s : string) : bool :=
  match s with
  | EmptyString => true
  | String c s => negb (Ascii.eqb c ":") && no_colon s
  end.

(** The first colon splits a string in one way only. *)
Lemma colon_split a b c d :
  no_colon a = true → no_colon c = true →
  a +:+ ":" +:+ b = c +:+ ":" +:+ d → a = c ∧ b = d.
Proof.
  revert c. induction a as [|x a IH]; intros [|y c]; cbn [no_colon];
    rewrite ?string_app_nil, ?string_app_cons, ?andb_true_iff, ?negb_true_iff.
  - intros _ _ H. by injection H.
  - intros _ [Hy _] [= <- _]. by rewrite Ascii.eqb_refl in Hy.
  - intros [Hx _] _ [= -> _]. by rewrite Ascii.eqb_refl in Hx.
  - intros [_ Ha] [_ Hc] [= -> H]. destruct (IH c Ha Hc H) as [-> ->]. done.
Qed.

Lemma no_colon_split s :
  no_colon s = false → ∃ a b, s = a +:+ ":" +:+ b ∧ no_colon a = true.
Proof.
  induction s as [|c s IH]; cbn [no_colon]; [done|].
  destruct (Ascii.eqb_spec c ":") as [->|Hc]; cbn [negb andb].
  - intros _. by exists "", s.
  - intros (a & b & -> & Ha)%IH. exists (String c a), b. split; [done|].
    cbn [no_colon]. by destruct (Ascii.eqb_spec c ":").
Qed.

Lemma colon_not_free a b s : no_colon s = true → s ≠ a +:+ ":" +:+ b.
Proof.
  revert s. induction a as [|x a IH]; intros [|y s]; cbn [no_colon];
    rewrite ?string_app_nil, ?string_app_cons, ?andb_true_iff, ?negb_true_iff;
    try done.
  - intros [Hy _] [= -> _]. by rewrite Ascii.eqb_refl in Hy.
  - intros [_ Hs] [= _ H]. by apply (IH s Hs).
Qed.

Lemma hasSuffix_spec s q : hasSuffix s q = true ↔ ∃ r, s = r +:+ q.
Proof.
  unfold hasSuffix. rewrite andb_true_iff, Nat.leb_le, String.eqb_eq. split.
  - intros [Hl Hd]. exists (stake (String.length s - String.length q) s).
    rewrite <- Hd at 2. by rewrite stake_sdrop.
  - intros [r ->]. rewrite length_sapp. split; [lia|].
    replace (_ + _ - _) with (String.length r) by lia. apply sdrop_app.
Qed.

#[export] Hint Rewrite length_sapp sapp_nil_r : polyforge.

(** ** [strings.TrimSpace]

    Unicode white space, as the UTF-8 byte sequences it is encoded by. *)

Definition bytes (l : list nat) : string :=
  foldr (λ n s, String (ascii_of_nat n) s) EmptyString l.

Definition white_space : list string :=
  bytes <$>
  [ [9]; [10]; [11]; [12]; [13]; [32]; [194; 133]; [194; 160]; [225; 154; 128];
    [226; 128; 128]; [226; 128; 129]; [226; 128; 130]; [226; 128; 131];
    [226; 128; 132]; [226; 128; 133]; [226; 128; 134]; [226; 128; 135];
    [226; 128; 136]; [226; 128; 137]; [226; 128; 138]; [226; 128; 168];
    [226; 128; 169]; [226; 128; 175]; [226; 129; 159]; [227; 128; 128] ].

Fixpoint first_strip (ws : list string) (s : string) : option string :=
  match ws with
  | [] => None
  | w :: ws =>
      match strip_prefix w s with Some r => Some r | None => first_strip ws s end
  end.

(** The fuel is the length of the string: each round removes at least one
    byte, so it never runs out before a round finds nothing to remove. *)
Fixpoint trim_left_fuel (fuel : nat) (s : string) : string :=
  match fuel with
  | O => s
  | S fuel =>
      match first_strip white_space s with
      | Some r => trim_left_fuel fuel r
      | None => s
      end
  end.

Definition trimLeft (s : string) : string := trim_left_fuel (String.length s) s.

Fixpoint first_strip_suffix (ws : list string) (s : string) : option string :=
  match ws with
  | [] => None
  | w :: ws =>
      if hasSuffix s w then Some (stake (String.length s - String.length w) s)
      else first_strip_suffix ws s
  end.

Fixpoint trim_right_fuel (fuel : nat) (s : string) : string :=
  match fuel with
  | O => s
  | S fuel =>
      match first_strip_suffix white_space s with
      | Some r => trim_right_fuel fuel r
      | None => s
      end
  end.

Definition trimRight (s : string) : string :=
  trim_right_fuel (String.length s) s.

Definition trimSpace (s : string) : string := trimRight (trimLeft s).

(** A blank string: [strings.TrimSpace(s) == ""]. *)
Definition blank (s : string) : bool := String.eqb (trimSpace s) "".

Lemma white_space_nonempty w : w ∈ white_space → 0 < String.length w.
Proof.
  intros Hw.
  assert (Forall (λ w, 0 < String.length w) white_space) as HF
    by (apply (bool_decide_unpack _); by vm_compute).
  by eapply Forall_forall in HF.
Qed.

Lemma first_strip_shorter ws s r :
  (∀ w, w ∈ ws → 0 < String.length w) →
  first_strip ws s = Some r → String.length r < String.length s.
Proof.
  induction ws as [|w ws IH]; simpl; [done|]. intros Hws H.
  destruct (strip_prefix w s) as [r'|] eqn:E; simplify_eq.
  - apply strip_prefix_spec in E as ->. rewrite length_sapp.
    assert (0 < String.length w) by (apply Hws; left). lia.
  - apply IH; [|done]. intros w' Hw'. apply Hws. by right.
Qed.

(** The fuel of [trimLeft] is enough: no white space is left in front. *)
Lemma trimLeft_done s : first_strip white_space (trimLeft s) = None.
Proof.
  unfold trimLeft.
  assert (∀ n s, String.length s <= n →
    first_strip white_space (trim_left_fuel n s) = None) as H;
    [clear s|apply H; lia]. induction n as [|n IH]; intros s Hn; cbn [trim_left_fuel].
  - destruct s; [reflexivity|simpl in Hn; lia].
  - destruct (first_strip white_space s) as [r|] eqn:E; [|done].
    apply IH. apply first_strip_shorter in E; [lia|].
    apply white_space_nonempty.
Qed.

(** *** Blank strings are concatenations of white space *)

Inductive all_ws : string → Prop :=
  | all_ws_nil : all_ws ""
  | all_ws_cons w s : w ∈ white_space → all_ws s → all_ws (w +:+ s).

#[export] Hint Constructors all_ws : polyforge.

Lemma all_ws_app a b : all_ws a → all_ws b → all_ws (a +:+ b).
Proof.
  induction 1 as [|w s Hw Hs IH]; intros Hb; [done|].
  rewrite <- sapp_assoc. constructor; auto.
Qed.

Lemma all_ws_one w : w ∈ white_space → all_ws w.
Proof. intros. rewrite <- (sapp_nil_r w). constructor; auto with polyforge. Qed.

Lemma first_strip_Some ws s r :
  first_strip ws s = Some r → ∃ w, w ∈ ws ∧ s = w +:+ r.
Proof.
  induction ws as [|w ws IH]; cbn [first_strip]; [done|].
  destruct (strip_prefix w s) as [r'|] eqn:E; intros; simplify_eq.
  - exists w. split; [left|by apply strip_prefix_spec].
  - destruct IH as (w' & ? & ->); [done|]. exists w'. split; [by right|done].
Qed.

Lemma first_strip_suffix_Some ws s r :
  first_strip_suffix ws s = Some r → ∃ w, w ∈ ws ∧ s = r +:+ w.
Proof.
  induction ws as [|w ws IH]; cbn [first_strip_suffix]; [done|].
  destruct (hasSuffix s w) eqn:E; intros; simplify_eq.
  - exists w. split; [left|]. apply hasSuffix_spec in E as [a ->].
    rewrite length_sapp. replace (_ + _ - _) with (String.length a) by lia.
    by rewrite stake_app.
  - destruct IH as (w' & ? & ->); [done|]. exists w'. split; [by right|done].
Qed.

Lemma first_strip_suffix_None ws s w :
  first_strip_suffix ws s = None → w ∈ ws → hasSuffix s w = false.
Proof.
  induction ws as [|w' ws IH]; cbn [first_strip_suffix].
  - by intros _ ?%elem_of_nil.
  - destruct (hasSuffix s w') eqn:E; [done|].
    intros H [->|?]%elem_of_cons; auto.
Qed.

Lemma trimLeft_split s : ∃ a, all_ws a ∧ s = a +:+ trimLeft s.
Proof.
  unfold trimLeft. generalize (String.length s) as n. intros n. revert s.
  induction n as [|n IH]; intros s; cbn [trim_left_fuel].
  - exists "". split; [constructor|done].
  - destruct (first_strip white_space s) as [r|] eqn:E.
    + apply first_strip_Some in E as (w & Hw & ->).
      destruct (IH r) as (a & Ha & Hr). exists (w +:+ a).
      split; [by constructor|]. by rewrite <- sapp_assoc, <- Hr.
    + exists "". split; [constructor|done].
Qed.

Lemma trimRight_split s : ∃ b, all_ws b ∧ s = trimRight s +:+ b.
Proof.
  unfold trimRight. generalize (String.length s) as n. intros n. revert s.
  induction n as [|n IH]; intros s; cbn [trim_right_fuel].
  - exists "". split; [constructor|by rewrite sapp_nil_r].
  - destruct (first_strip_suffix white_space s) as [r|] eqn:E.
    + apply first_strip_suffix_Some in E as (w & Hw & ->).
      destruct (IH r) as (b & Hb & Hr). exists (b +:+ w).
      split; [auto using all_ws_app, all_ws_one|]. by rewrite sapp_assoc, <- Hr.
    + exists "". split; [constructor|by rewrite sapp_nil_r].
Qed.

Lemma blank_all_ws s : blank s = true → all_ws s.
Proof.
  unfold blank, trimSpace. rewrite String.eqb_eq. intros H.
  destruct (trimLeft_split s) as (a & Ha & Hs).
  destruct (trimRight_split (trimLeft s)) as (b & Hb & Hl).
  rewrite H, string_app_nil in Hl. rewrite Hs, Hl. by apply all_ws_app.
Qed.

(** The fuel of [trimRight] is enough: it satisfies its recursion equation. *)
Lemma trim_right_fuel_enough n s :
  String.length s <= n → trim_right_fuel n s = trimRight s.
Proof.
  unfold trimRight. remember (String.length s) as m eqn:Hm.
  assert (String.length s <= m) as Hsm by lia. clear Hm.
  revert n s Hsm. induction m as [|m IH]; intros n s Hsm Hn.
  - assert (s = "") as -> by (destruct s; [done|simpl in *; lia]).
    cbn [trim_right_fuel]. by destruct n.
  - destruct n as [|n]; [lia|]. cbn [trim_right_fuel].
    destruct (first_strip_suffix white_space s) as [r|] eqn:E; [|done].
    apply first_strip_suffix_Some in E as (w & Hw%white_space_nonempty & ->).
    rewrite length_sapp in Hsm. apply IH; lia.
Qed.

Lemma trimRight_eq s :
  trimRight s = match first_strip_suffix white_space s with
                | Some r => trimRight r | None => s end.
Proof.
  rewrite <- (trim_right_fuel_enough (S (String.length s)) s) by lia.
  cbn [trim_right_fuel].
  destruct (first_strip_suffix white_space s) as [r|] eqn:E; [|done].
  apply trim_right_fuel_enough.
  apply first_strip_suffix_Some in E as (w & _ & ->). rewrite length_sapp. lia.
Qed.

Lemma suffix_of_longer a b c d :
  a +:+ b = c +:+ d → String.length b <= String.length d → ∃ e, d = e +:+ b.
Proof.
  intros H Hl.
  remember (String.length d - String.length b) as n eqn:Hn. exists (stake n d).
  rewrite <- (stake_sdrop n d), sapp_assoc in H.
  apply sapp_inj_length in H as [_ ->]; [by rewrite stake_sdrop|].
  rewrite length_sdrop. lia.
Qed.

(** No encoding of a white space character is a suffix of another one. *)
Lemma white_space_suffix_free w w' e :
  w ∈ white_space → w' ∈ white_space → w' = e +:+ w → w = w'.
Proof.
  intros Hw Hw' He.
  assert (Forall (λ w', Forall (λ w, hasSuffix w' w = true → w = w') white_space)
            white_space) as HF by (apply (bool_decide_unpack _); by vm_compute).
  rewrite Forall_forall in HF. specialize (HF _ Hw').
  rewrite Forall_forall in HF. apply (HF _ Hw), hasSuffix_spec. eauto.
Qed.

Lemma trimRight_snoc x w : w ∈ white_space → trimRight (x +:+ w) = trimRight x.
Proof.
  intros Hw. rewrite trimRight_eq.
  destruct (first_strip_suffix white_space (x +:+ w)) as [r|] eqn:E.
  - apply first_strip_suffix_Some in E as (w' & Hw' & H). f_equal.
    assert (w = w') as <-; [|by apply sapp_inj_r in H].
    destruct (Nat.le_ge_cases (String.length w) (String.length w')) as [Hl|Hl].
    + destruct (suffix_of_longer _ _ _ _ H Hl) as [e He].
      by eapply white_space_suffix_free.
    + destruct (suffix_of_longer _ _ _ _ (eq_sym H) Hl) as [e He].
      symmetry. by eapply white_space_suffix_free.
  - apply (first_strip_suffix_None _ _ w) in E; [|done].
    rewrite (proj2 (hasSuffix_spec (x +:+ w) w)) in E; [done|eauto].
Qed.

Lemma trimRight_app_ws x b : all_ws b → trimRight (x +:+ b) = trimRight x.
Proof.
  intros Hb. revert x. induction Hb as [|w s Hw Hs IH]; intros x.
  - by rewrite sapp_nil_r.
  - by rewrite sapp_assoc, IH, trimRight_snoc.
Qed.

(** ** Order: Go compares strings byte by byte. *)

Definition sltb (a b : string) : bool :=
  match String.compare a b with Lt => true | _ => false end.

(** ** [strings.ContainsAny] *)

Fixpoint containsAny (s chars : string) : bool :=
  match s with
  | EmptyString => false
  | String c s =>
      existsb (Ascii.eqb c) (String.list_ascii_of_string chars)
      || containsAny s chars
  end.

(** ** [utf8.RuneCountInString]

    A well-formed sequence counts once, every other byte counts once. *)

Definition byte_of (c : ascii) : nat := nat_of_ascii c.
Definition in_range (lo hi : nat) (c : ascii) : bool :=
  (lo <=? byte_of c)%nat && (byte_of c <=? hi)%nat.

(** How many bytes the rune at the head of the string takes. *)
Definition rune_width (s : string) : nat :=
  match s with
  | EmptyString => 0
  | String a s =>
      let cont := in_range 128 191 in
      let second lo hi := match s with String b _ => in_range lo hi b | _ => false end in
      let third := match s with String _ (String c _) => cont c | _ => false end in
      let fourth :=
        match s with String _ (String _ (String d _)) => cont d | _ => false end in
      let n := byte_of a in
      if in_range 194 223 a then if second 128 191 then 2 else 1
      else if in_range 224 239 a then
        let lo := if (n =? 224)%nat then 160 else 128 in
        let hi := if (n =? 237)%nat then 159 else 191 in
        if second lo hi && third then 3 else 1
      else if in_range 240 244 a then
        let lo := if (n =? 240)%nat then 144 else 128 in
        let hi := if (n =? 244)%nat then 143 else 191 in
        if second lo hi && third && fourth then 4 else 1
      else 1
  end%nat.

Fixpoint rune_count_fuel (fuel : nat) (s : string) : nat :=
  match fuel, s with
  | S fuel, String _ _ => S (rune_count_fuel fuel (sdrop (rune_width s) s))
  | _, _ => 0
  end.

Definition RuneCountInString (s : string) : nat := rune_count_fuel (String.length s) s.

Example rune_count_mixed :
  RuneCountInString (bytes [97; 195; 169; 226; 130; 172; 240; 159; 152; 128; 255; 195]%nat)
  = 6%nat.
Proof. reflexivity. Qed.

Lemma rune_width_pos c s : (1 <= rune_width (String c s))%nat.
Proof.
  unfold rune_width.
  repeat match goal with |- context [if ?b then _ else _] => destruct b end; lia.
Qed.

(** The fuel is enough: every rune takes at least one byte. *)
Lemma rune_count_fuel_enough n s :
  (String.length s <= n)%nat → rune_count_fuel n s = RuneCountInString s.
Proof.
  assert (∀ m k s, (String.length s <= m)%nat → (String.length s <= k)%nat →
            rune_count_fuel m s = rune_count_fuel k s) as H.
  { induction m as [|m IH]; intros [|k] [|c t] Hm Hk; try done; simpl in Hm, Hk; try lia.
    cbn [rune_count_fuel]. f_equal. pose proof (rune_width_pos c t).
    apply IH; rewrite length_sdrop; cbn [String.length]; lia. }
  intros Hn. by apply H.
Qed.
