(* ===== verification/Errors.v ===== *)
(** * Errors

    The structured error type of the domain layer ([internal/domain/errors.go])
    and the classification of database errors ([internal/domain/pgx_err.go]). *)

From Stdlib Require SpecFloat.
From S2P Require Import Prelude GoStrings.

(** ** Error codes *)

Inductive ErrCode : Type :=
  | ErrBadRequest
  | ErrGoalMultiline
  | ErrGoalChangeNotAllowed
  | ErrInvalidPhaseYAML
  | ErrInvalidStepTransition
  | ErrProjectAmbiguous
  | ErrWITypeMismatch
  | ErrInvalidMemoryType
  | ErrComposeFailed
  | ErrUnauthorized
  | ErrStaleCredential
  | ErrForbidden
  | ErrAttemptMismatch
  | ErrWIReclassifyForbidden
  | ErrNotFound
  | ErrNotImplemented
  | ErrConflictEpochMismatch
  | ErrAttemptPaused
  | ErrConflictStepInProgress
  | ErrConflictStepAttemptMismatch
  | ErrConflictCASFailed
  | ErrConflictWIAlreadyClaimed
  | ErrConflictHardBlock
  | ErrConflictDuplicate
  | ErrConflictCandidates
  | ErrConflictSimilarMemory
  | ErrConflictDependencyCycle
  | ErrConflictLockTaken
  | ErrConflictDualWIAgent
  | ErrConflictNoStepsRecorded
  | ErrConflictComposePending
  | ErrRequiresHumanSessionMismatch
  | ErrConflictVersionMismatch
  | ErrConflictTerminalState
  | ErrConflictSerializationFailure
  | ErrIdempotencyKeyReused
  | ErrPreconditionFailed
  | ErrProjectMembersUndeclaredRemoval
  | ErrPayloadTooLarge
  | ErrInternalError
  | ErrServiceUnavailable
  | ErrAihubUnavailable
  | ErrProjectNotFound
  | ErrProjectAlreadyExists
  | ErrProjectNameInvalid
  | ErrProjectScenarioInvalid
  | ErrProjectAccessDenied
  | ErrProjectOwnerRequired
  | ErrProjectHasWorkItems
  | ErrRepoDuplicateName
  | ErrRepoDuplicateURL
  | ErrRepoIncompleteDescription
  | ErrInvalidProjectIdentifier.

#[export] Instance ErrCode_eq_dec : EqDecision ErrCode.
Proof. solve_decision. Defined.

Definition ErrCode_text (c : ErrCode) : string :=
  match c with
  | ErrBadRequest => "BAD_REQUEST"
  | ErrGoalMultiline => "GOAL_MULTILINE"
  | ErrGoalChangeNotAllowed => "GOAL_CHANGE_NOT_ALLOWED"
  | ErrInvalidPhaseYAML => "INVALID_PHASE_YAML"
  | ErrInvalidStepTransition => "INVALID_STEP_TRANSITION"
  | ErrProjectAmbiguous => "PROJECT_AMBIGUOUS"
  | ErrWITypeMismatch => "WI_TYPE_MISMATCH"
  | ErrInvalidMemoryType => "INVALID_MEMORY_TYPE"
  | ErrComposeFailed => "COMPOSE_FAILED"
  | ErrUnauthorized => "UNAUTHORIZED"
  | ErrStaleCredential => "STALE_LOCAL_CREDENTIAL"
  | ErrForbidden => "FORBIDDEN"
  | ErrAttemptMismatch => "ATTEMPT_MISMATCH"
  | ErrWIReclassifyForbidden => "WI_RECLASSIFY_FORBIDDEN"
  | ErrNotFound => "NOT_FOUND"
  | ErrNotImplemented => "NOT_IMPLEMENTED"
  | ErrConflictEpochMismatch => "CONFLICT_EPOCH_MISMATCH"
  | ErrAttemptPaused => "ATTEMPT_PAUSED"
  | ErrConflictStepInProgress => "CONFLICT_STEP_IN_PROGRESS"
  | ErrConflictStepAttemptMismatch => "CONFLICT_STEP_ATTEMPT_MISMATCH"
  | ErrConflictCASFailed => "CONFLICT_CAS_FAILED"
  | ErrConflictWIAlreadyClaimed => "CONFLICT_WI_ALREADY_CLAIMED"
  | ErrConflictHardBlock => "CONFLICT_HARD_BLOCK"
  | ErrConflictDuplicate => "CONFLICT_DUPLICATE"
  | ErrConflictCandidates => "CONFLICT_CANDIDATES"
  | ErrConflictSimilarMemory => "CONFLICT_SIMILAR_MEMORY"
  | ErrConflictDependencyCycle => "CONFLICT_DEPENDENCY_CYCLE"
  | ErrConflictLockTaken => "CONFLICT_LOCK_TAKEN"
  | ErrConflictDualWIAgent => "CONFLICT_DUAL_WI_AGENT"
  | ErrConflictNoStepsRecorded => "CONFLICT_NO_STEPS_RECORDED"
  | ErrConflictComposePending => "COMPOSE_PENDING"
  | ErrRequiresHumanSessionMismatch => "REQUIRES_HUMAN_SESSION_MISMATCH"
  | ErrConflictVersionMismatch => "CONFLICT_VERSION_MISMATCH"
  | ErrConflictTerminalState => "CONFLICT_TERMINAL_STATE"
  | ErrConflictSerializationFailure => "CONFLICT_SERIALIZATION_FAILURE"
  | ErrIdempotencyKeyReused => "IDEMPOTENCY_KEY_REUSED"
  | ErrPreconditionFailed => "PRECONDITION_FAILED"
  | ErrProjectMembersUndeclaredRemoval => "PROJECT_MEMBERS_UNDECLARED_REMOVAL"
  | ErrPayloadTooLarge => "PAYLOAD_TOO_LARGE"
  | ErrInternalError => "INTERNAL_ERROR"
  | ErrServiceUnavailable => "SERVICE_UNAVAILABLE"
  | ErrAihubUnavailable => "AIHUB_UNAVAILABLE"
  | ErrProjectNotFound => "PROJECT_NOT_FOUND"
  | ErrProjectAlreadyExists => "PROJECT_ALREADY_EXISTS"
  | ErrProjectNameInvalid => "PROJECT_NAME_INVALID"
  | ErrProjectScenarioInvalid => "PROJECT_SCENARIO_INVALID"
  | ErrProjectAccessDenied => "PROJECT_ACCESS_DENIED"
  | ErrProjectOwnerRequired => "PROJECT_OWNER_REQUIRED"
  | ErrProjectHasWorkItems => "PROJECT_HAS_WORK_ITEMS"
  | ErrRepoDuplicateName => "REPO_DUPLICATE_NAME"
  | ErrRepoDuplicateURL => "REPO_DUPLICATE_URL"
  | ErrRepoIncompleteDescription => "REPO_INCOMPLETE_DESCRIPTION"
  | ErrInvalidProjectIdentifier => "INVALID_PROJECT_IDENTIFIER"
  end.

(** The cases are the [switch] of the code, grouped by status; every code it
    does not name takes its [default] arm. *)
Definition codeToHTTPStatus (c : ErrCode) : Z :=
  match c with
  | ErrBadRequest | ErrGoalMultiline | ErrInvalidPhaseYAML
  | ErrInvalidStepTransition | ErrProjectAmbiguous | ErrInvalidMemoryType
  | ErrComposeFailed | ErrProjectNameInvalid | ErrProjectScenarioInvalid
  | ErrProjectHasWorkItems | ErrRepoDuplicateName | ErrRepoDuplicateURL
  | ErrRepoIncompleteDescription | ErrInvalidProjectIdentifier => 400
  | ErrUnauthorized | ErrStaleCredential => 401
  | ErrForbidden | ErrAttemptMismatch | ErrWIReclassifyForbidden
  | ErrProjectAccessDenied | ErrProjectOwnerRequired => 403
  | ErrNotFound | ErrProjectNotFound => 404
  | ErrNotImplemented => 405
  | ErrGoalChangeNotAllowed | ErrWITypeMismatch | ErrConflictEpochMismatch
  | ErrAttemptPaused | ErrConflictStepInProgress
  | ErrConflictStepAttemptMismatch | ErrConflictCASFailed
  | ErrConflictWIAlreadyClaimed | ErrConflictHardBlock
  | ErrConflictDuplicate | ErrConflictCandidates | ErrConflictSimilarMemory
  | ErrConflictDependencyCycle | ErrConflictLockTaken
  | ErrConflictDualWIAgent | ErrConflictNoStepsRecorded
  | ErrConflictComposePending | ErrRequiresHumanSessionMismatch
  | ErrConflictVersionMismatch | ErrConflictTerminalState
  | ErrConflictSerializationFailure | ErrIdempotencyKeyReused
  | ErrProjectAlreadyExists => 409
  | ErrPreconditionFailed | ErrProjectMembersUndeclaredRemoval => 412
  | ErrPayloadTooLarge => 413
  | ErrServiceUnavailable | ErrAihubUnavailable => 503
  | _ => 500
  end%Z.

(** ** Error values

    [Message] is prose for people and no code branches on it: it is left out.
    [Details] keeps the payloads a client reads. *)

(** [commitLockConflict] ([commit_locks.go]): a path held by somebody else. *)
Record commitLockConflict : Type := mkConflict {
  cc_path : string; cc_key : string; cc_attempt : string;
  cc_display : string; cc_slug : string;
}.

Inductive Details : Type :=
  | NoDetails
  | DIndex (index : nat)
  | DRetryable (sqlstate : string)
  | DConflictWith (attempt_id actor_display work_item_slug : string)
  | DCurrentAttempt (id actor_display : string) (claim_epoch : Z)
  | DSupersededBy (actor_display : option string)
  | DWorkflowMode (mode : string)
  | DCyclePath (path : list string)
  | DVersions (expected current : Z)
  | DVocabulary (field got : string) (allowed : list string)
  | DLimit (field : string) (got max : Z)
  | DField (field got : string)
  | DExisting (id slug goal status : string)
  | DCandidates (candidates : list (string * string * string * SpecFloat.spec_float))
  | DCommitConflicts (conflicts : list commitLockConflict)
      (first_attempt first_display first_slug : string)
      (blocked_paths : list string) (advice : string).

Record AihubError : Type := mkErr { err_code : ErrCode; err_details : Details }.

Definition HTTPStatus (e : AihubError) : Z := codeToHTTPStatus (err_code e).

Definition NewErr (c : ErrCode) : AihubError := mkErr c NoDetails.
Definition NewErrDetails (c : ErrCode) (d : Details) : AihubError := mkErr c d.

(** ** Database errors

    What [pgx] hands back for a failed statement: [ErrNoRows] for an empty
    [QueryRow], a [*pgconn.PgError] with its SQLSTATE, or an error that is not
    a [PgError] (a lost connection, a failed [Scan], [ErrTxCommitRollback]). *)

Inductive DbErr : Type :=
  | NoRows
  | PgError (sqlstate : string)
  | OtherErr.

#[export] Instance DbErr_eq_dec : EqDecision DbErr.
Proof. solve_decision. Defined.

Definition pgSerializationFailure : string := "40001".
Definition pgDeadlockDetected : string := "40P01".
Definition pgUniqueViolation : string := "23505".
Definition pgCheckViolation : string := "23514".
Definition pgForeignKeyViolation : string := "23503".
Definition pgInFailedTransaction : string := "25P02".

Definition retryConflictErr (err : DbErr) : option AihubError :=
  match err with
  | PgError code =>
      if String.eqb code pgSerializationFailure
         || String.eqb code pgDeadlockDetected
      then Some (NewErrDetails ErrConflictSerializationFailure (DRetryable code))
      else None
  | _ => None
  end.

Definition dbErr (err : DbErr) : AihubError :=
  match retryConflictErr err with
  | Some e => e
  | None => NewErr ErrInternalError
  end.

(** [dbErrCause] differs from [dbErr] in the message only. *)
Definition dbErrCause (err : DbErr) : AihubError := dbErr err.

Definition pgxErr (err : DbErr) : AihubError :=
  match err with
  | NoRows => NewErr ErrNotFound
  | _ => dbErr err
  end.

(** Every database error that is a lost concurrency race is reported as the
    retryable 409, and nothing else is. *)
Lemma dbErr_status err :
  HTTPStatus (dbErr err) =
    if decide (err = PgError "40001" ∨ err = PgError "40P01") then 409%Z
    else 500%Z.
Proof.
  destruct err as [|s|]; try by rewrite decide_False by intuition congruence.
  unfold dbErr, retryConflictErr, pgSerializationFailure, pgDeadlockDetected.
  destruct (String.eqb_spec s "40001") as [->|]; [done|].
  destruct (String.eqb_spec s "40P01") as [->|]; [done|].
  by rewrite decide_False by intuition congruence.
Qed.
