(* ===== verification/Json.v ===== *)
(** * JSON values

    What [encoding/json] hands the program after decoding into
    [map[string]any] / [[]map[string]any]: a value tree.  Objects keep their
    members in source order; [encoding/json] keeps the last of duplicates. *)

From S2P Require Import Prelude GoStrings.

Inductive json : Type :=
  | JNull
  | JBool (b : bool)
  | JNum (literal : string)
  | JStr (s : string)
  | JArr (l : list json)
  | JObj (l : list (string * json)).

(** A [json.RawMessage]: absent or white space only, not JSON at all, or the
    bytes of one value. *)
Inductive RawMessage : Type :=
  | RawEmpty
  | RawInvalid
  | RawJSON (j : json).

Definition jobj : Type := list (string * json).

(** [m[key]] on the decoded map: the last member named [key]. *)
Fixpoint jlookup (o : jobj) (key : string) : option json :=
  match o with
  | [] => None
  | (k, v) :: o =>
      match jlookup o key with
      | Some w => Some w
      | None => if String.eqb k key then Some v else None
      end
  end.

(** [s, _ := m[key].(string)]: anything but a string is the zero value. *)
Definition jstr (o : jobj) (key : string) : string :=
  match jlookup o key with Some (JStr s) => s | _ => "" end.

(** [json.Unmarshal] of one array element into a [map[string]any]: an object,
    or [null], which leaves the map nil. *)
Definition as_object (j : json) : option jobj :=
  match j with JObj o => Some o | JNull => Some [] | _ => None end.

(** [json.Unmarshal(raw, &items)] with [items []map[string]any]. *)
Definition unmarshal_objects (raw : RawMessage) : option (list jobj) :=
  match raw with
  | RawJSON (JArr l) => mapM as_object l
  | RawJSON JNull => Some []
  | _ => None
  end.

(** [strings.TrimSpace(string(raw))] is empty or ["null"]. *)
Definition raw_absent (raw : RawMessage) : bool :=
  match raw with RawEmpty | RawJSON JNull => true | _ => false end.
