(* ===== verification/Crypto.v ===== *)
(** * Session secrets: SHA-256 and hexadecimal

    [HashSecret] ([internal/domain/ids.go], [internal/auth/attempt.go]) and the
    part of [crypto/sha256] and [encoding/hex] it and the credential check use.
    Bytes are [Z] between 0 and 255, words are [Z] below 2^32. *)

From S2P Require Import Prelude GoStrings.

Open Scope Z_scope.

Definition word (z : Z) : Z := Z.land z 0xffffffff.
Definition wadd (a b : Z) : Z := word (a + b).
Definition rotr (n x : Z) : Z :=
  Z.lor (Z.shiftr x n) (word (Z.shiftl x (32 - n))).
Definition wnot (x : Z) : Z := Z.lxor x 0xffffffff.

(** The constants are those FIPS 180-4 defines: the first 32 bits of the
    fractional parts of the square roots of the first 8 primes, and of the cube
    roots of the first 64 primes. *)
Fixpoint primes_from (fuel : nat) (n : Z) (found : list Z) : list Z :=
  match fuel with
  | O => []
  | S fuel =>
      if forallb (λ p, negb (n mod p =? 0)) found
      then n :: primes_from fuel (n + 1) (found ++ [n])
      else primes_from fuel (n + 1) found
  end.

(** Cube root, rounded down, of [x < 2^(3 * bits)], bit by bit. *)
Fixpoint cube_root (bits : nat) (r x : Z) : Z :=
  match bits with
  | O => r
  | S bits =>
      let r' := r + 2 ^ Z.of_nat bits in
      cube_root bits (if r' * r' * r' <=? x then r' else r) x
  end.

Definition sha_primes : list Z := Eval vm_compute in primes_from 311 2 [].

Definition sha_k : list Z := Eval vm_compute in
  map (λ p, word (cube_root 40 0 (Z.shiftl p 96))) sha_primes.

Definition sha_h0 : list Z := Eval vm_compute in
  map (λ p, word (Z.sqrt (Z.shiftl p 64))) (take 8 sha_primes).

Example sha_primes_64 : length sha_primes = 64%nat.
Proof. reflexivity. Qed.

Definition big_sigma0 (x : Z) := Z.lxor (rotr 2 x) (Z.lxor (rotr 13 x) (rotr 22 x)).
Definition big_sigma1 (x : Z) := Z.lxor (rotr 6 x) (Z.lxor (rotr 11 x) (rotr 25 x)).
Definition small_sigma0 (x : Z) :=
  Z.lxor (rotr 7 x) (Z.lxor (rotr 18 x) (Z.shiftr x 3)).
Definition small_sigma1 (x : Z) :=
  Z.lxor (rotr 17 x) (Z.lxor (rotr 19 x) (Z.shiftr x 10)).
Definition sha_ch (x y z : Z) := Z.lxor (Z.land x y) (Z.land (wnot x) z).
Definition sha_maj (x y z : Z) :=
  Z.lxor (Z.land x y) (Z.lxor (Z.land x z) (Z.land y z)).

(** The message schedule, newest word first. *)
Fixpoint sha_extend (n : nat) (w : list Z) : list Z :=
  match n with
  | O => w
  | S n =>
      let x := wadd (wadd (small_sigma1 (nth 1 w 0)) (nth 6 w 0))
                    (wadd (small_sigma0 (nth 14 w 0)) (nth 15 w 0)) in
      sha_extend n (x :: w)
  end.

Definition sha_round (s : list Z) (kw : Z * Z) : list Z :=
  match s with
  | [a; b; c; d; e; f; g; h] =>
      let t1 := wadd (wadd h (big_sigma1 e))
                     (wadd (sha_ch e f g) (wadd kw.1 kw.2)) in
      let t2 := wadd (big_sigma0 a) (sha_maj a b c) in
      [wadd t1 t2; a; b; c; wadd d t1; e; f; g]
  | _ => s
  end.

Definition sha_block (s : list Z) (block : list Z) : list Z :=
  let w := rev (sha_extend 48 (rev block)) in
  zip_with wadd s (fold_left sha_round (zip sha_k w) s).

Fixpoint be_words (bs : list Z) : list Z :=
  match bs with
  | a :: b :: c :: d :: bs =>
      (Z.shiftl a 24 + Z.shiftl b 16 + Z.shiftl c 8 + d) :: be_words bs
  | _ => []
  end.

Definition be_bytes (n : nat) (z : Z) : list Z :=
  rev (map (λ i, Z.land (Z.shiftr z (8 * Z.of_nat i)) 255) (seq 0 n)).

Definition sha_pad (msg : list Z) : list Z :=
  let len := Z.of_nat (length msg) in
  (msg ++ [128] ++ repeat 0%Z (Z.to_nat ((55 - len) mod 64))
       ++ be_bytes 8 (8 * len))%list.

Fixpoint sha_blocks (n : nat) (s : list Z) (ws : list Z) : list Z :=
  match n with
  | O => s
  | S n => sha_blocks n (sha_block s (take 16 ws)) (drop 16 ws)
  end.

Definition Sum256 (msg : list Z) : list Z :=
  let ws := be_words (sha_pad msg) in
  (sha_blocks (length ws / 16) sha_h0 ws) ≫= be_bytes 4.

(** ** Hexadecimal *)

Definition hex_digit (n : Z) : Ascii.ascii :=
  Ascii.ascii_of_nat (Z.to_nat (if n <? 10 then 48 + n else 87 + n)).

Fixpoint EncodeToString (bs : list Z) : string :=
  match bs with
  | [] => EmptyString
  | b :: bs =>
      String (hex_digit (b / 16)) (String (hex_digit (b mod 16)) (EncodeToString bs))
  end.

Definition hex_value (c : Ascii.ascii) : option Z :=
  let n := Z.of_nat (Ascii.nat_of_ascii c) in
  if (48 <=? n) && (n <=? 57) then Some (n - 48)
  else if (97 <=? n) && (n <=? 102) then Some (n - 87)
  else if (65 <=? n) && (n <=? 70) then Some (n - 55)
  else None.

Fixpoint DecodeString (s : string) : option (list Z) :=
  match s with
  | EmptyString => Some []
  | String a (String b s) =>
      match hex_value a, hex_value b, DecodeString s with
      | Some x, Some y, Some bs => Some (x * 16 + y :: bs)
      | _, _, _ => None
      end
  | String _ EmptyString => None
  end.

Definition bytes_of (s : string) : list Z :=
  (λ c, Z.of_nat (Ascii.nat_of_ascii c)) <$> String.list_ascii_of_string s.

Definition HashSecret (secret : string) : string :=
  EncodeToString (Sum256 (bytes_of secret)).

(** [subtle.ConstantTimeCompare(a, b) == 1] *)
Definition ConstantTimeCompare (a b : list Z) : bool := bool_decide (a = b).

Example sha256_abc :
  HashSecret "abc" =
  "ba7816bf8f01cfea414140de5dae2223b00361a396177a9cb410ff61f20015ad".
Proof. vm_compute. reflexivity. Qed.

Example sha256_two_blocks :
  HashSecret "abcdbcdecdefdefgefghfghighijhijkijkljklmklmnlmnomnopnopq" =
  "248d6a61d20638b8e5c026930c3e6039a33ce45964ff2167f6ecedd419db06c1".
Proof. vm_compute. reflexivity. Qed.

Lemma hex_value_digit n : 0 <= n < 16 → hex_value (hex_digit n) = Some n.
Proof.
  intros H.
  assert (In n (map Z.of_nat (seq 0 16))) as Hin.
  { apply in_map_iff. exists (Z.to_nat n). rewrite in_seq. lia. }
  simpl in Hin. repeat destruct Hin as [<-|Hin]; done.
Qed.

(** [hex.DecodeString] inverts [hex.EncodeToString] on bytes. *)
Lemma DecodeString_EncodeToString bs :
  Forall (λ b, 0 <= b < 256) bs → DecodeString (EncodeToString bs) = Some bs.
Proof.
  induction 1 as [|b bs Hb _ IH]; [done|]. cbn [EncodeToString DecodeString].
  rewrite !hex_value_digit, IH.
  - f_equal. f_equal. pose proof (Z.div_mod b 16). lia.
  - apply Z.mod_pos_bound. lia.
  - split; [apply Z.div_pos; lia|apply Z.div_lt_upper_bound; lia].
Qed.

Lemma Sum256_bytes msg : Forall (λ b, 0 <= b < 256) (Sum256 msg).
Proof.
  unfold Sum256. apply Forall_bind, Forall_true. intros z.
  unfold be_bytes. apply Forall_rev, Forall_map, Forall_true. intros i; simpl.
  change 255 with (Z.ones 8). rewrite Z.land_ones by lia.
  apply (Z.mod_pos_bound _ 256). lia.
Qed.

(** A hash the program wrote always decodes. *)
Lemma HashSecret_decodes secret :
  DecodeString (HashSecret secret) = Some (Sum256 (bytes_of secret)).
Proof. apply DecodeString_EncodeToString, Sum256_bytes. Qed.

#[export] Hint Resolve Sum256_bytes : polyforge.
#[export] Hint Rewrite HashSecret_decodes : polyforge.
