(* ===== verification/GoJson.v ===== *)
(** * The text [encoding/json] writes for a decoded value

    [json.Marshal] of a value decoded with [UseNumber]: members sorted by name,
    number literals as they were read, and the default escapes, which cover the
    HTML characters and the two Unicode line separators.  Strings are taken to
    be well-formed UTF-8, as PostgreSQL's [jsonb] keeps them. *)

From stdpp Require Import sorting.
From Stdlib Require Import Ascii.
From S2P Require Import Prelude GoStrings Json Crypto.

Open Scope list_scope.

Definition dquote : ascii := ascii_of_nat 34.
Definition esc (c : ascii) : string := String (ascii_of_nat 92) (String c "").

(** [\u00xy] *)
Definition esc_hex (n : nat) : string :=
  String (ascii_of_nat 92) ("u00" +:+ EncodeToString [Z.of_nat n]).

Definition json_char (c : ascii) : string :=
  let n := nat_of_ascii c in
  if bool_decide (n ∈ [34; 92]%nat) then esc c
  else if Nat.eqb n 8 then esc "b" else if Nat.eqb n 12 then esc "f"
  else if Nat.eqb n 10 then esc "n" else if Nat.eqb n 13 then esc "r"
  else if Nat.eqb n 9 then esc "t"
  else if Nat.ltb n 32 || bool_decide (c ∈ ["<"; ">"; "&"]%char) then esc_hex n
  else String c "".

(** U+2028 and U+2029 are the bytes E2 80 A8 and E2 80 A9. *)
Fixpoint json_chars (s : string) : string :=
  match s with
  | String a (String b (String c r) as t) =>
      if Nat.eqb (nat_of_ascii a) 226 && Nat.eqb (nat_of_ascii b) 128
         && bool_decide (nat_of_ascii c ∈ [168; 169]%nat)
      then String (ascii_of_nat 92) ("u202" +:+ String (ascii_of_nat (nat_of_ascii c - 112))
                                                   (json_chars r))
      else json_char a +:+ json_chars t
  | String a t => json_char a +:+ json_chars t
  | EmptyString => ""
  end.

Definition json_string (s : string) : string :=
  String dquote (json_chars s +:+ String dquote "").

Fixpoint commas (l : list string) : string :=
  match l with
  | [] => ""
  | [x] => x
  | x :: l => x +:+ "," +:+ commas l
  end.

Definition name_le (a b : string * string) : Prop := Is_true (String.leb a.1 b.1).
#[export] Instance name_le_dec : RelDecision name_le.
Proof. intros a b. unfold name_le. apply _. Defined.

(** The members of the Go map: the last of each name, in the order of names. *)
Definition sorted_members (o : list (string * string)) : list (string * string) :=
  merge_sort name_le (map_to_list (list_to_map (M := gmap string string) (reverse o))).

Fixpoint json_text (j : json) : string :=
  match j with
  | JNull => "null"
  | JBool b => if b then "true" else "false"
  | JNum l => l
  | JStr s => json_string s
  | JArr l => "[" +:+ commas (map json_text l) +:+ "]"
  | JObj o =>
      "{" +:+ commas (map (λ kv, json_string kv.1 +:+ ":" +:+ kv.2)
                (sorted_members (map (λ kv, let '(k, v) := kv in (k, json_text v)) o))) +:+ "}"
  end.

Example json_text_sample :
  json_text (JObj [("b", JNum "1.50"); ("a", JArr [JStr "x<y"; JNull]); ("b", JBool true)])
  = "{" +:+ json_string "a" +:+ ":[" +:+ String dquote "x\u003cy" +:+ String dquote ",null],"
    +:+ json_string "b" +:+ ":true}".
Proof. by vm_compute. Qed.
