(* ===== verification/JsonText.v ===== *)
(** * JSON text

    The grammar of [encoding/json] read with [UseNumber]: [parse_json] is one
    value with white space around it and nothing else, members in the order of
    the text.  A string that is not well-formed UTF-8, or an escape that is half
    a surrogate pair, decodes to U+FFFD.  [plain_text] is the text [json.Marshal]
    writes, members in the order given. *)

From Stdlib Require Import Ascii.
From S2P Require Import Prelude GoStrings Json Crypto GoJson.

Open Scope nat_scope.
Open Scope list_scope.

(** ** Strings *)

Definition utf8_bytes (l : list Z) : string := bytes (Z.to_nat <$> l).

(** [utf8.EncodeRune] *)
Definition encode_rune (r : Z) : string :=
  let low k := Z.lor 0x80 (Z.land (Z.shiftr r k) 0x3f) in
  utf8_bytes
    (if Z.ltb r 0x80 then [r]
     else if Z.ltb r 0x800 then [Z.lor 0xc0 (Z.shiftr r 6); low 0%Z]
     else if Z.ltb r 0x10000 then [Z.lor 0xe0 (Z.shiftr r 12); low 6%Z; low 0%Z]
     else [Z.lor 0xf0 (Z.shiftr r 18); low 12%Z; low 6%Z; low 0%Z]).

Definition RuneError : Z := 0xfffd.

(** Four hexadecimal digits. *)
Definition hex4 (s : string) : option (Z * string) :=
  match s with
  | String a (String b (String c (String d r))) =>
      w ← hex_value a; x ← hex_value b; y ← hex_value c; z ← hex_value d;
      Some ((((w * 16 + x) * 16 + y) * 16 + z)%Z, r)
  | _ => None
  end.

Definition simple_escape (c : ascii) : option ascii :=
  match byte_of c with
  | 34 | 47 | 92 => Some c
  | 98 => Some (ascii_of_nat 8)
  | 102 => Some (ascii_of_nat 12)
  | 110 => Some (ascii_of_nat 10)
  | 114 => Some (ascii_of_nat 13)
  | 116 => Some (ascii_of_nat 9)
  | _ => None
  end.

Definition is_surrogate (r : Z) : bool := Z.leb 0xd800 r && Z.ltb r 0xe000.
(** [utf16.DecodeRune] of two surrogates in the right order *)
Definition surrogate_pair (a b : Z) : option Z :=
  if Z.ltb a 0xdc00 && Z.leb 0xdc00 b && Z.ltb b 0xe000
  then Some (0x10000 + Z.lor (Z.shiftl (a - 0xd800) 10) (b - 0xdc00))%Z else None.

(** After [\u]: the rune, and what is left. *)
Definition unicode_escape (s : string) : option (Z * string) :=
  '(a, r) ← hex4 s;
  if negb (is_surrogate a) then Some (a, r)
  else
    let pair := q ← strip_prefix (esc "u") r;
                '(b, q') ← hex4 q;
                c ← surrogate_pair a b;
                Some (c, q') in
    Some (default (RuneError, r) pair).

Definition prefix_chars (p : string) (q : option (string * string)) : option (string * string) :=
  '(t, r) ← q; Some (p +:+ t, r).

(** The characters up to the closing quote; the opening one has been read. *)
Fixpoint parse_chars (fuel : nat) (s : string) : option (string * string) :=
  match fuel, s with
  | S fuel, String c r =>
      let n := byte_of c in
      if Nat.eqb n 34 then Some ("", r)
      else if Nat.eqb n 92 then
        match r with
        | "" => None
        | String e r' =>
            if Nat.eqb (byte_of e) 117 then
              '(u, r2) ← unicode_escape r'; prefix_chars (encode_rune u) (parse_chars fuel r2)
            else
              x ← simple_escape e; prefix_chars (String x "") (parse_chars fuel r')
        end
      else if Nat.ltb n 32 then None
      else
        let w := rune_width s in
        if Nat.leb 128 n && Nat.eqb w 1
        then prefix_chars (encode_rune RuneError) (parse_chars fuel r)
        else prefix_chars (stake w s) (parse_chars fuel (sdrop w s))
  | _, _ => None
  end.

Definition parse_string (s : string) : option (string * string) :=
  match s with
  | String c r =>
      if Nat.eqb (byte_of c) 34 then parse_chars (String.length r) r else None
  | "" => None
  end.

(** [utf8.ValidString] *)
Fixpoint valid_fuel (fuel : nat) (s : string) : bool :=
  match fuel, s with
  | _, "" => true
  | S fuel, String c _ =>
      (Nat.ltb (byte_of c) 128 || Nat.ltb 1 (rune_width s)) && valid_fuel fuel (sdrop (rune_width s) s)
  | O, _ => false
  end.
Definition ValidString (s : string) : bool := valid_fuel (String.length s) s.

(** ** Numbers *)

Definition is_digit (c : ascii) : bool := in_range 48 57 c.

Fixpoint span_digits (s : string) : string * string :=
  match s with
  | String c r =>
      if is_digit c then let '(d, q) := span_digits r in (String c d, q) else ("", s)
  | "" => ("", "")
  end.

Definition take_sign (signs : list nat) (s : string) : string * string :=
  match s with
  | String c r => if bool_decide (byte_of c ∈ signs) then (String c "", r) else ("", s)
  | "" => ("", "")
  end.

(** A zero, or digits that do not start with one. *)
Definition scan_int (s : string) : option (string * string) :=
  match s with
  | String c r =>
      if Nat.eqb (byte_of c) 48 then Some (String c "", r)
      else if is_digit c then Some (span_digits s) else None
  | "" => None
  end.

Definition scan_frac (s : string) : option (string * string) :=
  match s with
  | String c r =>
      if Nat.eqb (byte_of c) 46 then
        let '(d, q) := span_digits r in
        if String.eqb d "" then None else Some (String c d, q)
      else Some ("", s)
  | "" => Some ("", s)
  end.

Definition scan_exp (s : string) : option (string * string) :=
  match s with
  | String c r =>
      if bool_decide (byte_of c ∈ [69; 101]) then
        let '(sg, r1) := take_sign [43; 45] r in
        let '(d, q) := span_digits r1 in
        if String.eqb d "" then None else Some (String c (sg +:+ d), q)
      else Some ("", s)
  | "" => Some ("", s)
  end.

Definition scan_number (s : string) : option (string * string) :=
  let '(sg, s1) := take_sign [45] s in
  '(i, s2) ← scan_int s1;
  '(f, s3) ← scan_frac s2;
  '(e, s4) ← scan_exp s3;
  Some (sg +:+ i +:+ f +:+ e, s4).

(** ** Values *)

Definition is_space (c : ascii) : bool := bool_decide (byte_of c ∈ [9; 10; 13; 32]).
Fixpoint skip_ws (s : string) : string :=
  match s with
  | String c r => if is_space c then skip_ws r else s
  | "" => ""
  end.

Definition scan_scalar (s : string) : option (json * string) :=
  match strip_prefix "null" s, strip_prefix "true" s, strip_prefix "false" s with
  | Some r, _, _ => Some (JNull, r)
  | _, Some r, _ => Some (JBool true, r)
  | _, _, Some r => Some (JBool false, r)
  | _, _, _ => '(l, r) ← scan_number s; Some (JNum l, r)
  end.

(** The next character that is not white space, and what follows it. *)
Definition next_char (s : string) : option (nat * string) :=
  match skip_ws s with String c r => Some (byte_of c, r) | "" => None end.

Fixpoint parse_value (fuel : nat) (s : string) : option (json * string) :=
  match fuel with
  | O => None
  | S fuel =>
      '(n, r) ← next_char s;
      match n with
      | 123 =>                                           (* { *)
          match next_char r with
          | Some (125, r') => Some (JObj [], r')
          | _ => '(l, r') ← parse_members fuel r; Some (JObj l, r')
          end
      | 91 =>                                            (* [ *)
          match next_char r with
          | Some (93, r') => Some (JArr [], r')
          | _ => '(l, r') ← parse_elems fuel r; Some (JArr l, r')
          end
      | 34 => '(t, r') ← parse_string (skip_ws s); Some (JStr t, r')
      | _ => scan_scalar (skip_ws s)
      end
  end
with parse_elems (fuel : nat) (s : string) : option (list json * string) :=
  match fuel with
  | O => None
  | S fuel =>
      '(j, r) ← parse_value fuel s;
      '(n, r1) ← next_char r;
      match n with
      | 44 => '(l, r2) ← parse_elems fuel r1; Some (j :: l, r2)
      | 93 => Some ([j], r1)
      | _ => None
      end
  end
with parse_members (fuel : nat) (s : string) : option (list (string * json) * string) :=
  match fuel with
  | O => None
  | S fuel =>
      '(k, r) ← parse_string (skip_ws s);
      '(n, r1) ← next_char r;
      if negb (Nat.eqb n 58) then None
      else
        '(j, r2) ← parse_value fuel r1;
        '(n', r3) ← next_char r2;
        match n' with
        | 44 => '(l, r4) ← parse_members fuel r3; Some ((k, j) :: l, r4)
        | 125 => Some ([(k, j)], r3)
        | _ => None
        end
  end.

(** Two calls per character at most. *)
Definition parse_fuel (s : string) : nat := 2 * String.length s + 2.

Definition parse_json (s : string) : option json :=
  '(j, r) ← parse_value (parse_fuel s) s;
  if String.eqb (skip_ws r) "" then Some j else None.

(** A [json.RawMessage] with this text. *)
Definition raw_of_text (s : string) : RawMessage :=
  if String.eqb (skip_ws s) "" then RawEmpty
  else match parse_json s with Some j => RawJSON j | None => RawInvalid end.

(** ** The text of a value *)

Definition member_text (kt : string * string) : string := json_string kt.1 +:+ ":" +:+ kt.2.

Fixpoint plain_text (j : json) : string :=
  match j with
  | JNull => "null"
  | JBool b => if b then "true" else "false"
  | JNum l => l
  | JStr s => json_string s
  | JArr l => "[" +:+ commas (map plain_text l) +:+ "]"
  | JObj o =>
      "{" +:+ commas (map (λ kv, let '(k, v) := kv in member_text (k, plain_text v)) o) +:+ "}"
  end.

(** Text with double quotes written as single ones, for examples. *)
Fixpoint quoted (s : string) : string :=
  match s with
  | "" => ""
  | String c r => String (if Ascii.eqb c "'"%char then dquote else c) (quoted r)
  end.

Example parse_sample :
  parse_json (bytes [32; 123; 34; 92; 117; 48; 48; 54; 49; 34; 58; 91; 49; 46; 53; 44; 110; 117;
                     108; 108; 93; 125; 10])
  = Some (JObj [("a", JArr [JNum "1.5"; JNull])]).
Proof. by vm_compute. Qed.
Example parse_refuses_trailing : parse_json "{} garbage" = None.
Proof. by vm_compute. Qed.
Example parse_surrogates :
  parse_json (String dquote (esc "u" +:+ "d83d" +:+ esc "u" +:+ "de00" +:+ esc "u" +:+ "d83dx"
              +:+ String dquote ""))
  = Some (JStr (bytes [240; 159; 152; 128; 239; 191; 189; 120])).
Proof. by vm_compute. Qed.

(** * Reading back what was written

    [JsonText.parse_json] needs no more fuel than it is given, and it recovers
    every well-formed value from its text. *)

(** ** Runes *)

Abbreviation byte_in lo hi c := (lo <= byte_of c <= hi).

(** One well-formed UTF-8 sequence. *)
Inductive rune : string → Prop :=
  | rune1 a : byte_of a < 128 → rune (String a "")
  | rune2 a b : byte_in 194 223 a → byte_in 128 191 b → rune (String a (String b ""))
  | rune3 a b c :
      byte_in 224 239 a → byte_in 128 191 b → byte_in 128 191 c →
      (byte_of a = 224 → 160 <= byte_of b) → (byte_of a = 237 → byte_of b <= 159) →
      rune (String a (String b (String c "")))
  | rune4 a b c d :
      byte_in 240 244 a → byte_in 128 191 b → byte_in 128 191 c → byte_in 128 191 d →
      (byte_of a = 240 → 144 <= byte_of b) → (byte_of a = 244 → byte_of b <= 143) →
      rune (String a (String b (String c (String d "")))).

Lemma in_range_true lo hi c : in_range lo hi c = true ↔ byte_in lo hi c.
Proof. unfold in_range. rewrite andb_true_iff, !Nat.leb_le. done. Qed.

Ltac ranges :=
  repeat match goal with
    | H : in_range _ _ _ = true |- _ => apply in_range_true in H
    | H : in_range _ _ _ = false |- _ => rewrite <- not_true_iff_false, in_range_true in H
    | H : _ && _ = true |- _ => apply andb_true_iff in H as [??]
    | H : (_ =? _) = true |- _ => apply Nat.eqb_eq in H
    | H : (_ =? _) = false |- _ => apply Nat.eqb_neq in H
    | H : (_ <? _) = true |- _ => apply Nat.ltb_lt in H
    | H : (_ <? _) = false |- _ => apply Nat.ltb_ge in H
    end.

Lemma rune_width_rune p s : rune p → rune_width (p +:+ s) = String.length p.
Proof.
  assert (∀ lo hi c, byte_in lo hi c → in_range lo hi c = true) as Ht
    by (intros; by apply in_range_true).
  assert (∀ lo hi c, byte_of c < lo ∨ hi < byte_of c → in_range lo hi c = false) as Hf
    by (intros; rewrite <- not_true_iff_false, in_range_true; lia).
  destruct 1; rewrite ?string_app_cons, ?string_app_nil; cbn [String.length]; unfold rune_width; cbv zeta beta.
  - by rewrite !Hf by lia.
  - rewrite !Ht by lia. done.
  - rewrite (Hf 194 223 a), (Ht 224 239 a), (Ht 128 191 c) by lia.
    rewrite Ht; [done|]. destruct (byte_of a =? 224) eqn:E1, (byte_of a =? 237) eqn:E2; ranges; lia.
  - rewrite (Hf 194 223 a), (Hf 224 239 a), (Ht 240 244 a), (Ht 128 191 c), (Ht 128 191 d) by lia.
    rewrite Ht; [done|]. destruct (byte_of a =? 240) eqn:E1, (byte_of a =? 244) eqn:E2; ranges; lia.
Qed.

Lemma rune_pos p : rune p → 1 <= String.length p.
Proof. destruct 1; simpl; lia. Qed.

(** The head of a valid string is a rune. *)
Lemma valid_head c s :
  Nat.ltb (byte_of c) 128 || Nat.ltb 1 (rune_width (String c s)) = true →
  ∃ p q, String c s = p +:+ q ∧ rune p.
Proof.
  intros [H|H]%orb_true_iff.
  { exists (String c ""), s. split; [done|]. constructor. by apply Nat.ltb_lt. }
  apply Nat.ltb_lt in H. revert H. unfold rune_width. cbv zeta beta.
  destruct (in_range 194 223 c) eqn:E2.
  { destruct s as [|b q]; [simpl; lia|]. destruct (in_range 128 191 b) eqn:Eb; [|simpl; lia].
    intros _. exists (String c (String b "")), q. ranges. split; [done|by constructor]. }
  destruct (in_range 224 239 c) eqn:E3.
  { destruct s as [|b [|d q]]; [simpl; lia|cbn; rewrite andb_false_r; lia|].
    match goal with |- context [if ?x then 3 else 1] => destruct x eqn:Ex end; [|lia].
    intros _. exists (String c (String b (String d ""))), q. ranges. split; [done|].
    destruct (byte_of c =? 224) eqn:E4, (byte_of c =? 237) eqn:E5; ranges; constructor; lia. }
  destruct (in_range 240 244 c) eqn:E4; [|lia].
  destruct s as [|b [|d [|e q]]]; [simpl; lia|cbn; rewrite ?andb_false_r; lia..|].
  match goal with |- context [if ?x then 4 else 1] => destruct x eqn:Ex end; [|lia].
  intros _. exists (String c (String b (String d (String e "")))), q. ranges. split; [done|].
  destruct (byte_of c =? 240) eqn:E5, (byte_of c =? 244) eqn:E6; ranges; constructor; lia.
Qed.

Lemma valid_fuel_le n m s :
  String.length s <= n → String.length s <= m → valid_fuel n s = valid_fuel m s.
Proof.
  revert m s. induction n as [|n IH]; intros [|m] [|c s] Hn Hm; simpl in Hn, Hm; try lia; try done.
  cbn [valid_fuel]. f_equal. pose proof (rune_width_pos c s).
  apply IH; rewrite length_sdrop; cbn [String.length]; lia.
Qed.

Lemma ValidString_app p s : rune p → ValidString (p +:+ s) = ValidString s.
Proof.
  intros Hp. unfold ValidString. pose proof (rune_pos p Hp) as Hl.
  destruct p as [|a p]; [simpl in Hl; lia|]. rewrite length_sapp.
  cbn [String.length Nat.add]. change (String a p +:+ s) with (String a (p +:+ s)).
  cbn [valid_fuel]. change (String a (p +:+ s)) with (String a p +:+ s).
  rewrite (rune_width_rune _ s Hp), sdrop_app.
  replace (_ || _) with true; [simpl; apply valid_fuel_le; lia|].
  symmetry. apply orb_true_iff. rewrite !Nat.ltb_lt. inversion Hp; subst; simpl; auto; right; lia.
Qed.

(** Induction over the runes of a valid string. *)
Lemma valid_ind (P : string → Prop) :
  P "" → (∀ p s, rune p → ValidString s = true → P s → P (p +:+ s)) →
  ∀ s, ValidString s = true → P s.
Proof.
  intros H0 Hs s. remember (String.length s) as n eqn:En. revert s En.
  induction (lt_wf n) as [n _ IH]. intros [|c s] En Hv; [done|].
  assert (∃ p q, String c s = p +:+ q ∧ rune p) as (p & q & E & Hp).
  { apply valid_head. unfold ValidString in Hv. cbn [String.length valid_fuel] in Hv.
    by apply andb_true_iff in Hv as [? _]. }
  rewrite E in *. rewrite ValidString_app in Hv by done. apply Hs; [done|done|].
  pose proof (rune_pos p Hp). rewrite length_sapp in En. by eapply IH; [|reflexivity|]; [lia|].
Qed.

Lemma ValidString_runes p s : rune p → ValidString s = true → ValidString (p +:+ s) = true.
Proof. intros Hp Hs. by rewrite ValidString_app. Qed.

(** ** Strings *)

Lemma json_char_high c : 128 <= byte_of c → json_char c = String c "".
Proof.
  unfold byte_of. destruct c as [[] [] [] [] [] [] [] []]; vm_compute; intros H;
    solve [reflexivity | exfalso; revert H; rewrite <- Nat.leb_le; discriminate].
Qed.

Lemma json_chars_cons c s :
  byte_of c ≠ 226 → json_chars (String c s) = json_char c +:+ json_chars s.
Proof.
  intros Hc. destruct s as [|b [|d r]]; [done..|].
  cbn [json_chars]. apply Nat.eqb_neq in Hc. unfold byte_of in Hc. by rewrite Hc.
Qed.

Lemma json_chars_three a b c s :
  json_chars (String a (String b (String c s))) =
  if Nat.eqb (byte_of a) 226 && Nat.eqb (byte_of b) 128 && bool_decide (byte_of c ∈ [168; 169])
  then String (ascii_of_nat 92)
         ("u202" +:+ String (ascii_of_nat (byte_of c - 112)) (json_chars s))
  else json_char a +:+ json_chars (String b (String c s)).
Proof. done. Qed.

(** What is written for one rune. *)
Definition json_rune (p : string) : string :=
  match p with
  | String c "" => json_char c
  | String a (String b (String c "")) =>
      if Nat.eqb (byte_of a) 226 && Nat.eqb (byte_of b) 128
         && bool_decide (byte_of c ∈ [168; 169])
      then String (ascii_of_nat 92) ("u202" +:+ String (ascii_of_nat (byte_of c - 112)) "")
      else p
  | _ => p
  end.

Lemma json_chars_rune p s : rune p → json_chars (p +:+ s) = json_rune p +:+ json_chars s.
Proof.
  destruct 1; rewrite ?string_app_cons, ?string_app_nil; cbn [json_rune].
  - apply json_chars_cons. lia.
  - rewrite !json_chars_cons, !json_char_high by lia. done.
  - rewrite json_chars_three. destruct (_ && _ && _); [by rewrite !string_app_cons|].
    rewrite !json_chars_cons, !json_char_high by lia. done.
  - rewrite !json_chars_cons, !json_char_high by lia. done.
Qed.

Lemma parse_high_rune p n q :
  rune p → 1 < String.length p →
  parse_chars (S n) (p +:+ q) = prefix_chars p (parse_chars n q).
Proof.
  intros Hp Hl. pose proof (rune_width_rune p q Hp) as Hw.
  assert (∃ a p', p = String a p' ∧ 128 <= byte_of a) as (a & p' & -> & Ha).
  { destruct Hp; simpl in Hl; try lia; eexists _, _; (split; [done|lia]). }
  change (String a p' +:+ q) with (String a (p' +:+ q)) in *. cbn [parse_chars].
  rewrite Hw, (proj2 (Nat.eqb_neq (byte_of a) 34)), (proj2 (Nat.eqb_neq (byte_of a) 92)) by lia.
  rewrite (proj2 (Nat.ltb_ge _ _)), (proj2 (Nat.eqb_neq (String.length _) 1)), andb_false_r by lia.
  change (String a (p' +:+ q)) with (String a p' +:+ q). by rewrite stake_app, sdrop_app.
Qed.

(** One round of [parse_chars]. *)
Definition chars_step (F : string → option (string * string)) (c : ascii) (r : string)
  : option (string * string) :=
  let n := byte_of c in
  if Nat.eqb n 34 then Some ("", r)
  else if Nat.eqb n 92 then
    match r with
    | "" => None
    | String e r' =>
        if Nat.eqb (byte_of e) 117 then
          '(u, r2) ← unicode_escape r'; prefix_chars (encode_rune u) (F r2)
        else x ← simple_escape e; prefix_chars (String x "") (F r')
    end
  else if Nat.ltb n 32 then None
  else
    let w := rune_width (String c r) in
    if Nat.leb 128 n && Nat.eqb w 1 then prefix_chars (encode_rune RuneError) (F r)
    else prefix_chars (stake w (String c r)) (F (sdrop w (String c r))).

Lemma parse_chars_step n c r :
  parse_chars (S n) (String c r) = chars_step (parse_chars n) c r.
Proof. done. Qed.

Lemma json_char_step c F q :
  byte_of c < 128 →
  ∃ a r, json_char c +:+ q = String a r ∧ chars_step F a r = prefix_chars (String c "") (F q).
Proof.
  rewrite <- Nat.ltb_lt. unfold byte_of. destruct c as [[] [] [] [] [] [] [] []]; intros H;
    first [vm_compute in H; discriminate | eexists _, _; split; [reflexivity|by vm_compute]].
Qed.

Lemma parse_json_char c n q :
  byte_of c < 128 →
  parse_chars (S n) (json_char c +:+ q) = prefix_chars (String c "") (parse_chars n q).
Proof.
  intros H. destruct (json_char_step c (parse_chars n) q H) as (a & r & -> & Hs).
  by rewrite parse_chars_step.
Qed.

Lemma parse_json_rune p n q :
  rune p → parse_chars (S n) (json_rune p +:+ q) = prefix_chars p (parse_chars n q).
Proof.
  intros Hp. destruct Hp; cbn [json_rune].
  - by apply parse_json_char.
  - apply parse_high_rune; [by constructor|simpl; lia].
  - destruct (_ && _ && _) eqn:E; [|apply parse_high_rune; [by constructor|simpl; lia]].
    reflect_bools. rewrite Nat.eqb_eq in *.
    assert (a = ascii_of_nat 226 ∧ b = ascii_of_nat 128) as [-> ->].
    { unfold byte_of in *. split; [rewrite <- (ascii_nat_embedding a)|rewrite <- (ascii_nat_embedding b)];
        congruence. }
    assert (c = ascii_of_nat 168 ∨ c = ascii_of_nat 169) as [-> | ->].
    2,3: etransitivity; [apply parse_chars_step|]; generalize (parse_chars n); intros F;
      by vm_compute.
    rewrite <- (ascii_nat_embedding c). unfold byte_of in *.
    match goal with H : _ ∈ _ |- _ => rewrite !elem_of_cons in H; destruct H as [->|[->|Hc]] end;
      [auto..|by apply not_elem_of_nil in Hc].
  - apply parse_high_rune; [by constructor|simpl; lia].
Qed.

Lemma json_rune_pos p : rune p → 1 <= String.length (json_rune p).
Proof.
  destruct 1; cbn [json_rune]; try (simpl; lia).
  - destruct a as [[] [] [] [] [] [] [] []]; vm_compute; lia.
  - destruct (_ && _); simpl; lia.
Qed.

Lemma parse_json_chars s n rest :
  ValidString s = true → String.length (json_chars s) < n →
  parse_chars n (json_chars s +:+ String dquote rest) = Some (s, rest).
Proof.
  intros Hs. revert n. revert s Hs. apply (valid_ind (λ s, ∀ n, _ < n → _ = _)).
  - intros [|n] Hn; [simpl in Hn; lia|done].
  - intros p s Hp Hs IH n Hn. rewrite json_chars_rune in * by done.
    pose proof (json_rune_pos p Hp) as Hpos. rewrite length_sapp in Hn.
    destruct n as [|n]; [lia|]. rewrite <- sapp_assoc, parse_json_rune by done.
    rewrite IH by lia. done.
Qed.

Lemma parse_json_string s rest :
  ValidString s = true → parse_string (json_string s +:+ rest) = Some (s, rest).
Proof.
  intros Hs. unfold json_string. rewrite string_app_cons, <- sapp_assoc, string_app_cons, string_app_nil.
  cbn [parse_string]. replace (byte_of dquote =? 34) with true by done.
  apply parse_json_chars; [done|]. rewrite length_sapp. simpl. lia.
Qed.

(** ** Numbers *)

Definition is_number (l : string) : Prop := scan_number l = Some (l, "").

(** A text that cannot continue a number. *)
Definition stops (rest : string) : Prop :=
  match rest with
  | "" => True
  | String c _ => is_digit c = false ∧ byte_of c ∉ [46; 69; 101]
  end.

Lemma span_digits_app s rest d q :
  stops rest → span_digits s = (d, q) → span_digits (s +:+ rest) = (d, q +:+ rest).
Proof.
  intros Hr. revert d q. induction s as [|c s IH]; intros d q.
  - intros [= <- <-]. rewrite !string_app_nil. destruct rest as [|c r]; [done|].
    cbn [span_digits]. by destruct Hr as [-> _].
  - rewrite string_app_cons. cbn [span_digits]. destruct (is_digit c).
    + destruct (span_digits s) as [d' q']. intros [= <- <-]. by rewrite (IH d' q').
    + by intros [= <- <-].
Qed.

Lemma span_digits_split s d q : span_digits s = (d, q) → s = d +:+ q.
Proof.
  revert d q. induction s as [|c s IH]; intros d q; [by intros [= <- <-]|].
  cbn [span_digits]. destruct (is_digit c); [|by intros [= <- <-]].
  destruct (span_digits s) as [d' q']. intros [= <- <-]. by rewrite (IH d' q').
Qed.

Lemma take_sign_app l s rest sg q :
  s ≠ "" → take_sign l s = (sg, q) → take_sign l (s +:+ rest) = (sg, q +:+ rest).
Proof.
  destruct s as [|c s]; [done|]. intros _. rewrite string_app_cons. cbn [take_sign].
  destruct (bool_decide _); by intros [= <- <-].
Qed.

Lemma take_sign_split l s sg q : take_sign l s = (sg, q) → s = sg +:+ q.
Proof. destruct s as [|c s]; cbn [take_sign]; [|destruct (bool_decide _)]; by intros [= <- <-]. Qed.

Lemma scan_int_app s rest i q :
  stops rest → scan_int s = Some (i, q) → scan_int (s +:+ rest) = Some (i, q +:+ rest).
Proof.
  intros Hr. destruct s as [|c s]; [done|]. rewrite string_app_cons. cbn [scan_int].
  destruct (byte_of c =? 48); [by intros [= <- <-]|]. destruct (is_digit c); [|done].
  intros [= H]. f_equal. by apply span_digits_app with (s := String c s).
Qed.

Lemma scan_frac_app s rest i q :
  stops rest → scan_frac s = Some (i, q) → scan_frac (s +:+ rest) = Some (i, q +:+ rest).
Proof.
  intros Hr. destruct s as [|c s].
  - intros [= <- <-]. destruct rest as [|c r]; [done|]. rewrite !string_app_nil. cbn [scan_frac].
    destruct (byte_of c =? 46) eqn:E; [|done]. apply Nat.eqb_eq in E. destruct Hr as [_ []].
    rewrite E. set_solver.
  - rewrite string_app_cons. cbn [scan_frac]. destruct (byte_of c =? 46); [|by intros [= <- <-]].
    destruct (span_digits s) as [d q'] eqn:E. rewrite (span_digits_app _ _ _ _ Hr E).
    destruct (String.eqb d ""); by intros [= <- <-].
Qed.

Lemma scan_exp_app s rest i q :
  stops rest → scan_exp s = Some (i, q) → scan_exp (s +:+ rest) = Some (i, q +:+ rest).
Proof.
  intros Hr. destruct s as [|c s].
  - intros [= <- <-]. destruct rest as [|c r]; [done|]. rewrite !string_app_nil. cbn [scan_exp].
    rewrite bool_decide_false; [done|]. destruct Hr as [_ Hr]. set_solver.
  - rewrite string_app_cons. cbn [scan_exp]. destruct (bool_decide _); [|by intros [= <- <-]].
    destruct (take_sign [43; 45] s) as [sg r1] eqn:Es, (span_digits r1) as [d q'] eqn:E.
    destruct (String.eqb d "") eqn:Ed; [done|]. intros [= <- <-].
    rewrite (take_sign_app _ s rest sg r1); [|by intros ->; simplify_eq/=|done].
    rewrite (span_digits_app _ _ _ _ Hr E). by rewrite Ed.
Qed.

Lemma scan_number_app s rest l q :
  stops rest → scan_number s = Some (l, q) → scan_number (s +:+ rest) = Some (l, q +:+ rest).
Proof.
  intros Hr. unfold scan_number. destruct (take_sign [45] s) as [sg s1] eqn:Es.
  intros ([i s2] & Ei & ([f s3] & Ef & ([e s4] & Ee & [= <- <-])%bind_Some)%bind_Some)%bind_Some.
  rewrite (take_sign_app _ s rest sg s1); [|by intros ->; simplify_eq/=|done].
  rewrite (scan_int_app _ _ _ _ Hr Ei). cbn [mbind option_bind].
  rewrite (scan_frac_app _ _ _ _ Hr Ef). cbn [mbind option_bind].
  by rewrite (scan_exp_app _ _ _ _ Hr Ee).
Qed.

Lemma number_head l :
  is_number l → ∃ c r, l = String c r ∧ (is_digit c = true ∨ byte_of c = 45).
Proof.
  unfold is_number, scan_number. destruct l as [|c r]; [done|]. cbn [take_sign].
  destruct (bool_decide _) eqn:E; intros H; exists c, r; split; try done.
  - right. reflect_bools. set_solver.
  - left. apply bind_Some in H as ([i s2] & Ei & _). cbn [scan_int] in Ei.
    destruct (is_digit c) eqn:Ed; [done|]. destruct (byte_of c =? 48) eqn:E0; [|done].
    ranges. revert Ed. unfold is_digit. rewrite <- not_true_iff_false, in_range_true. lia.
Qed.

(** ** Values *)

Lemma json_ind' (P : json → Prop) :
  P JNull → (∀ b, P (JBool b)) → (∀ l, P (JNum l)) → (∀ s, P (JStr s)) →
  (∀ l, Forall P l → P (JArr l)) → (∀ o, Forall (λ kv, P kv.2) o → P (JObj o)) →
  ∀ j, P j.
Proof.
  intros Hnull Hb Hn Hs Ha Ho. fix IH 1. intros [| | | |l|o]; [done|apply Hb|apply Hn|apply Hs|..].
  - apply Ha. induction l; constructor; auto.
  - apply Ho. induction o as [|[k v] o IHo]; constructor; [apply IH|exact IHo].
Qed.

(** Numbers in the grammar, strings in UTF-8. *)
Inductive wf_json : json → Prop :=
  | wf_null : wf_json JNull
  | wf_bool b : wf_json (JBool b)
  | wf_num l : is_number l → wf_json (JNum l)
  | wf_str s : ValidString s = true → wf_json (JStr s)
  | wf_arr l : Forall wf_json l → wf_json (JArr l)
  | wf_obj o : Forall (λ kv, ValidString kv.1 = true ∧ wf_json kv.2) o → wf_json (JObj o).

Lemma next_char_cons c r : is_space c = false → next_char (String c r) = Some (byte_of c, r).
Proof. intros H. unfold next_char. cbn [skip_ws]. by rewrite H. Qed.

Lemma skip_ws_cons c r : is_space c = false → skip_ws (String c r) = String c r.
Proof. intros H. cbn [skip_ws]. by rewrite H. Qed.

Lemma plain_head j :
  wf_json j → ∃ c r, plain_text j = String c r ∧ is_space c = false ∧ byte_of c ≠ 93.
Proof.
  destruct 1; cbn [plain_text]; try (eexists _, _; split; [reflexivity|by vm_compute]).
  - destruct b; (eexists _, _; split; [reflexivity|by vm_compute]).
  - destruct (number_head l) as (c & r & -> & Hc); [done|]. exists c, r. split; [done|].
    unfold is_space. rewrite bool_decide_eq_false.
    assert (byte_of c ∈ [45; 48; 49; 50; 51; 52; 53; 54; 55; 56; 57]) as Hin.
    { rewrite !elem_of_cons, elem_of_nil.
      destruct Hc as [Hc|Hc]; [apply in_range_true in Hc|]; lia. }
    revert Hin. rewrite !elem_of_cons, !elem_of_nil. lia.
Qed.

Lemma not_93 {A} (n : nat) (x y : A) : n ≠ 93 → match n with 93 => x | _ => y end = y.
Proof. intros H. do 94 (destruct n as [|n]; [done|]). done. Qed.

Lemma stops_delimiter c r : byte_of c ∈ [44; 93; 125] → stops (String c r).
Proof.
  rewrite !elem_of_cons, elem_of_nil. intros H. cbn [stops]. rewrite !not_elem_of_cons.
  unfold is_digit. rewrite <- not_true_iff_false, in_range_true.
  repeat split; try lia. apply not_elem_of_nil.
Qed.
Hint Resolve stops_delimiter : core.
Hint Extern 1 (byte_of _ ∈ _) => (vm_compute; set_solver) : core.

Definition parses (j : json) : Prop :=
  ∀ n rest, wf_json j → stops rest → 2 * String.length (plain_text j) <= n →
  parse_value n (plain_text j +:+ rest) = Some (j, rest).

Lemma parse_elems_commas l n rest' :
  l ≠ [] → Forall parses l → Forall wf_json l →
  2 * String.length (commas (map plain_text l)) + 2 <= n →
  parse_elems n (commas (map plain_text l) +:+ String "]" rest') = Some (l, rest').
Proof.
  intros Hne HP. revert n Hne. induction HP as [|j l Hj HP IH]; intros n Hne Hw Hn; [done|].
  apply Forall_cons in Hw as [Hwj Hw]. destruct n as [|n]; [lia|]. cbn [parse_elems].
  destruct l as [|k l].
  - cbn [map commas] in *. rewrite Hj; [done|done|by auto|lia].
  - cbn [map commas] in *. rewrite !length_sapp in Hn.
    rewrite <- !sapp_assoc, !string_app_cons, string_app_nil.
    rewrite Hj; [|done|by auto|lia]. cbn [mbind option_bind]. rewrite next_char_cons by done. cbn [mbind option_bind].
    change (byte_of ",") with 44. cbv iota. rewrite IH; [done|done|done|]. cbn [map].
    simpl String.length in Hn. lia.
Qed.

Lemma member_text_app k t q :
  member_text (k, t) +:+ q = json_string k +:+ String ":" (t +:+ q).
Proof. unfold member_text. cbn [fst snd]. by rewrite <- !sapp_assoc. Qed.

Lemma member_text_length k t :
  String.length (member_text (k, t)) = String.length (json_string k) + 1 + String.length t.
Proof. unfold member_text. rewrite !length_sapp. simpl. lia. Qed.

(** One round of [parse_members] on a member that was written. *)
Lemma parse_member k j n q :
  ValidString k = true → wf_json j → parses j → stops q → 2 * String.length (plain_text j) <= n →
  parse_members (S n) (member_text (k, plain_text j) +:+ q) =
  '(n', r3) ← next_char q;
  match n' with
  | 44 => '(l, r4) ← parse_members n r3; Some ((k, j) :: l, r4)
  | 125 => Some ([(k, j)], r3)
  | _ => None
  end.
Proof.
  intros Hk Hw Hj Hq Hn. rewrite member_text_app. cbn [parse_members].
  replace (skip_ws (json_string k +:+ String ":" (plain_text j +:+ q)))
    with (json_string k +:+ String ":" (plain_text j +:+ q)) by done.
  rewrite parse_json_string by done. cbn [mbind option_bind].
  rewrite next_char_cons by done. cbn [mbind option_bind].
  change (byte_of ":") with 58. cbn [Nat.eqb negb]. by rewrite Hj.
Qed.

Definition plain_member (kv : string * json) : string :=
  let '(k, v) := kv in member_text (k, plain_text v).

Lemma parse_members_commas o n rest' :
  o ≠ [] → Forall (λ kv, parses kv.2) o →
  Forall (λ kv, ValidString kv.1 = true ∧ wf_json kv.2) o →
  2 * String.length (commas (map plain_member o)) + 2 <= n →
  parse_members n (commas (map plain_member o) +:+ String "}" rest') = Some (o, rest').
Proof.
  intros Hne HP. revert n Hne. induction HP as [|[k j] o Hj HP IH]; intros n Hne Hw Hn; [done|].
  apply Forall_cons in Hw as [[Hk Hwj] Hw]. destruct n as [|n]; [lia|].
  simpl in Hk, Hwj, Hj. destruct o as [|[k' j'] o].
  - cbn [map commas plain_member] in *. rewrite member_text_length in Hn.
    rewrite parse_member; [|done|done|done|by auto|lia]. by rewrite next_char_cons.
  - change (commas (map plain_member ((k, j) :: (k', j') :: o))) with
      (member_text (k, plain_text j) +:+ "," +:+ commas (map plain_member ((k', j') :: o))) in *.
    rewrite !length_sapp, member_text_length in Hn. change (String.length ",") with 1 in Hn.
    rewrite <- !sapp_assoc, !string_app_cons, string_app_nil.
    rewrite parse_member; [|done|done|done|by auto|lia].
    rewrite next_char_cons by done. cbn [mbind option_bind].
    change (byte_of ",") with 44. cbv iota. rewrite IH; [done|done|done|lia].
Qed.

Lemma scalar_number c r rest :
  is_digit c = true ∨ byte_of c = 45 → is_number (String c r) → stops rest →
  ∀ n, parse_value (S n) (String c r +:+ rest) = Some (JNum (String c r), rest).
Proof.
  intros Hc Hl Hr n. unfold is_number in Hl.
  apply (scan_number_app _ rest) in Hl; [|done]. rewrite string_app_nil in Hl.
  rewrite string_app_cons in *. revert Hl. generalize (r +:+ rest).
  destruct c as [[] [] [] [] [] [] [] []]; try (exfalso; vm_compute in Hc; by destruct Hc);
    intros q Hl;
    lazymatch goal with |- parse_value _ ?s = _ =>
      change (parse_value (S n) s) with ('(l, r) ← scan_number s; Some (JNum l, r))
    end; by rewrite Hl.
Qed.

Lemma parses_all j : parses j.
Proof.
  induction j as [|b|l|s|l IH|o IH] using json_ind'; intros n rest Hw Hr Hn;
    (destruct n as [|n]; [exfalso; revert Hn; destruct (plain_head _ Hw) as (c & r & -> & _);
                          simpl; lia|]); inversion Hw as [|? |? Hl|? Hs|? Hl|? Ho]; subst; clear Hw.
  - done.
  - by destruct b.
  - cbn [plain_text]. destruct (number_head l Hl) as (c & r & -> & Hc). by apply scalar_number.
  - cbn [plain_text].
    assert (json_string s +:+ rest = String dquote ((json_chars s +:+ String dquote "") +:+ rest))
      as E by done.
    rewrite E. cbn [parse_value]. rewrite next_char_cons, skip_ws_cons by done.
    cbn [mbind option_bind]. change (byte_of dquote) with 34. cbv iota.
    by rewrite <- E, parse_json_string.
  - destruct l as [|x l]; [done|].
    change (plain_text (JArr (x :: l))) with ("[" +:+ commas (map plain_text (x :: l)) +:+ "]") in *.
    rewrite !length_sapp in Hn. change (String.length "[") with 1 in Hn.
    change (String.length "]") with 1 in Hn.
    rewrite <- !sapp_assoc, !string_app_cons, !string_app_nil. cbn [parse_value].
    rewrite next_char_cons by done. cbn [mbind option_bind]. change (byte_of "[") with 91. cbv iota.
    assert (∃ c r, commas (map plain_text (x :: l)) = String c r ∧ is_space c = false ∧ byte_of c ≠ 93)
      as (c & r & E & Hc & H93).
    { apply Forall_cons in Hl as [Hx _]. destruct (plain_head x Hx) as (c & r & E & ?).
      destruct l; cbn [map commas]; rewrite E; eauto. }
    assert (next_char (commas (map plain_text (x :: l)) +:+ String "]" rest)
            = Some (byte_of c, r +:+ String "]" rest)) as ->.
    { rewrite E, string_app_cons. by apply next_char_cons. }
    rewrite not_93 by done. rewrite parse_elems_commas by (done || lia). done.
  - destruct o as [|x o]; [done|].
    change (plain_text (JObj (x :: o))) with ("{" +:+ commas (map plain_member (x :: o)) +:+ "}") in *.
    rewrite !length_sapp in Hn. change (String.length "{") with 1 in Hn.
    change (String.length "}") with 1 in Hn.
    rewrite <- !sapp_assoc, !string_app_cons, !string_app_nil. cbn [parse_value].
    rewrite next_char_cons by done. cbn [mbind option_bind]. change (byte_of "{") with 123. cbv iota.
    assert (∃ r, commas (map plain_member (x :: o)) = String dquote r) as (r & E).
    { destruct x as [k v], o; cbn [map commas]; unfold plain_member, member_text, json_string;
        rewrite ?string_app_cons; eauto. }
    assert (next_char (commas (map plain_member (x :: o)) +:+ String "}" rest)
            = Some (34, r +:+ String "}" rest)) as ->.
    { rewrite E, string_app_cons. by apply next_char_cons. }
    cbv iota. rewrite parse_members_commas by (done || lia). done.
Qed.

(** Reading the text of a well-formed value gives the value. *)
Lemma parse_plain j : wf_json j → parse_json (plain_text j) = Some j.
Proof.
  intros Hw. unfold parse_json, parse_fuel.
  pose proof (parses_all j (2 * String.length (plain_text j) + 2) "" Hw I ltac:(lia)) as H.
  rewrite sapp_nil_r in H. by rewrite H.
Qed.

Lemma plain_text_inj j k : wf_json j → wf_json k → plain_text j = plain_text k → j = k.
Proof. intros Hj Hk E. apply parse_plain in Hj, Hk. congruence. Qed.

(** ** The fuel is enough *)

Lemma skip_ws_le s : String.length (skip_ws s) <= String.length s.
Proof. induction s as [|c s IH]; simpl; [done|]. destruct (is_space c); simpl; lia. Qed.

Lemma next_char_lt s n r : next_char s = Some (n, r) → String.length r < String.length s.
Proof.
  unfold next_char. pose proof (skip_ws_le s) as H. destruct (skip_ws s) as [|c q]; [done|].
  intros [= <- <-]. simpl in H. lia.
Qed.

Lemma strip_prefix_le p s r : strip_prefix p s = Some r → String.length r <= String.length s.
Proof. intros ->%strip_prefix_spec. rewrite length_sapp. lia. Qed.

Lemma hex4_lt s a r : hex4 s = Some (a, r) → String.length r < String.length s.
Proof.
  destruct s as [|? [|? [|? [|? q]]]]; cbn [hex4]; try done. intros H.
  apply bind_Some in H as (? & _ & (? & _ & (? & _ & (? & _ & [= _ <-])%bind_Some)%bind_Some)%bind_Some).
  simpl. lia.
Qed.

Lemma unicode_escape_lt s a r : unicode_escape s = Some (a, r) → String.length r < String.length s.
Proof.
  unfold unicode_escape. intros ([b q] & Hq%hex4_lt & H)%bind_Some.
  destruct (is_surrogate b); cbn [negb] in H; [|by injection H as <- <-].
  set (o := mbind _ _) in H. destruct o as [[c q']|] eqn:E; injection H as <- <-; [|done].
  subst o. apply bind_Some in E as (t & Ht%strip_prefix_le & ([d u] & Hu%hex4_lt & E)%bind_Some).
  apply bind_Some in E as (? & _ & [= <- <-]). lia.
Qed.

Lemma parse_chars_lt n s t r : parse_chars n s = Some (t, r) → String.length r < String.length s.
Proof.
  revert s t r. induction n as [|n IH]; intros [|c s] t r; try done.
  assert (∀ p q t r, prefix_chars p (parse_chars n q) = Some (t, r) → String.length r < String.length q)
    as IH'.
  { unfold prefix_chars. intros p q t' r' ([t1 r1] & H%IH & [= _ <-])%bind_Some. done. }
  rewrite parse_chars_step. unfold chars_step. cbv zeta. cbn [String.length].
  pose proof (rune_width_pos c s) as Hw.
  destruct (_ =? 34); [intros [= <- <-]; lia|]. destruct (_ =? 92).
  { destruct s as [|e s]; [done|]. destruct (_ =? 117).
    - intros ([u q] & Hq%unicode_escape_lt & H%IH')%bind_Some. simpl. lia.
    - intros (x & _ & H%IH')%bind_Some. simpl. lia. }
  destruct (_ <? 32); [done|]. destruct (_ && _); intros H%IH'; [lia|].
  rewrite length_sdrop in H. simpl in H. lia.
Qed.

Lemma parse_string_lt s t r : parse_string s = Some (t, r) → String.length r < String.length s.
Proof.
  destruct s as [|c s]; [done|]. cbn [parse_string]. destruct (_ =? 34); [|done].
  intros H%parse_chars_lt. simpl. lia.
Qed.

Lemma span_digits_le s d q : span_digits s = (d, q) → String.length q <= String.length s.
Proof. intros ->%span_digits_split. rewrite length_sapp. lia. Qed.

Lemma scan_number_lt s l q : scan_number s = Some (l, q) → String.length q < String.length s.
Proof.
  unfold scan_number. destruct (take_sign [45] s) as [sg s1] eqn:Es. apply take_sign_split in Es as ->.
  intros ([i s2] & Ei & ([f s3] & Ef & ([e s4] & Ee & [= _ <-])%bind_Some)%bind_Some)%bind_Some.
  assert (String.length s2 < String.length s1) as H2.
  { destruct s1 as [|c r]; [done|]. cbn [scan_int] in Ei.
    destruct (_ =? 48); [injection Ei as <- <-; simpl; lia|]. destruct (is_digit c) eqn:Ed; [|done].
    injection Ei as Ei. cbn [span_digits] in Ei. rewrite Ed in Ei.
    destruct (span_digits r) as [d q] eqn:E. injection Ei as <- <-.
    apply span_digits_le in E. simpl. lia. }
  assert (String.length s3 <= String.length s2) as H3.
  { destruct s2 as [|c r]; [by injection Ef as <- <-|]. cbn [scan_frac] in Ef.
    destruct (_ =? 46); [|by injection Ef as <- <-].
    destruct (span_digits r) as [d q] eqn:E. destruct (String.eqb d ""); [done|].
    injection Ef as <- <-. apply span_digits_le in E. simpl. lia. }
  assert (String.length s4 <= String.length s3) as H4.
  { destruct s3 as [|c r]; [by injection Ee as <- <-|]. cbn [scan_exp] in Ee.
    destruct (bool_decide _); [|by injection Ee as <- <-].
    destruct (take_sign _ r) as [sg' r1] eqn:Es, (span_digits r1) as [d q] eqn:E.
    destruct (String.eqb d ""); [done|]. injection Ee as <- <-.
    apply take_sign_split in Es as ->. apply span_digits_le in E. simpl. rewrite length_sapp. lia. }
  rewrite length_sapp. lia.
Qed.

Lemma scan_scalar_lt s j r : scan_scalar s = Some (j, r) → String.length r < String.length s.
Proof.
  unfold scan_scalar. destruct (strip_prefix "null" s) eqn:E1.
  { apply strip_prefix_spec in E1 as ->. intros [= _ <-]. rewrite length_sapp. simpl. lia. }
  destruct (strip_prefix "true" s) eqn:E2.
  { apply strip_prefix_spec in E2 as ->. intros [= _ <-]. rewrite length_sapp. simpl. lia. }
  destruct (strip_prefix "false" s) eqn:E3.
  { apply strip_prefix_spec in E3 as ->. intros [= _ <-]. rewrite length_sapp. simpl. lia. }
  intros ([l q] & H%scan_number_lt & [= _ <-])%bind_Some. done.
Qed.

Lemma value_dispatch {A} (n : nat) (x y z w : A) :
  match n with 123 => x | 91 => y | 34 => z | _ => w end =
  if n =? 123 then x else if n =? 91 then y else if n =? 34 then z else w.
Proof. do 124 (destruct n as [|n]; [done|]). done. Qed.

(** What is left is shorter. *)
Lemma parse_shorter n :
  (∀ s j r, parse_value n s = Some (j, r) → String.length r < String.length s)
  ∧ (∀ s l r, parse_elems n s = Some (l, r) → String.length r < String.length s)
  ∧ (∀ s l r, parse_members n s = Some (l, r) → String.length r < String.length s).
Proof.
  induction n as [|n (IHv & IHe & IHm)]; [done|]. split; [|split]; intros s x r.
  - cbn [parse_value]. intros ([k q] & Hq%next_char_lt & H)%bind_Some. revert H.
    rewrite value_dispatch. destruct (k =? 123); [|destruct (k =? 91); [|destruct (k =? 34)]].
    + assert (∀ y, parse_members n q ≫= (λ '(l, r'), Some (JObj l, r')) = Some (y, r) →
                   String.length r < String.length s) as Hrec.
      { intros y ([l' r'] & H%IHm & [= _ <-])%bind_Some. lia. }
      destruct (next_char q) as [[k' q']|] eqn:E; [|by apply Hrec]. apply next_char_lt in E.
      do 126 (destruct k' as [|k']; [first [by apply Hrec | intros [= _ <-]; lia]|]). by apply Hrec.
    + assert (∀ y, parse_elems n q ≫= (λ '(l, r'), Some (JArr l, r')) = Some (y, r) →
                   String.length r < String.length s) as Hrec.
      { intros y ([l' r'] & H%IHe & [= _ <-])%bind_Some. lia. }
      destruct (next_char q) as [[k' q']|] eqn:E; [|by apply Hrec]. apply next_char_lt in E.
      do 94 (destruct k' as [|k']; [first [by apply Hrec | intros [= _ <-]; lia]|]). by apply Hrec.
    + intros ([t r'] & H%parse_string_lt & [= _ <-])%bind_Some. pose proof (skip_ws_le s). lia.
    + intros H%scan_scalar_lt. pose proof (skip_ws_le s). lia.
  - cbn [parse_elems]. intros ([j q] & Hq%IHv & ([k q1] & Hk%next_char_lt & H)%bind_Some)%bind_Some.
    revert H. do 94 (destruct k as [|k]; [first [done | intros [= _ <-]; lia
      | intros ([l r'] & H%IHe & [= _ <-])%bind_Some; lia]|]). done.
  - cbn [parse_members]. intros ([t q] & Ht%parse_string_lt & ([k q1] & Hk%next_char_lt & H)%bind_Some)%bind_Some.
    destruct (k =? 58); [|done]. cbn [negb] in H. pose proof (skip_ws_le s).
    apply bind_Some in H as ([j q2] & Hj%IHv & ([k' q3] & Hk'%next_char_lt & H)%bind_Some).
    revert H. do 126 (destruct k' as [|k']; [first [done | intros [= _ <-]; lia
      | intros ([l r'] & H%IHm & [= _ <-])%bind_Some; lia]|]). done.
Qed.

(** More fuel than two units per character changes nothing. *)
Lemma parse_fuel_enough n :
  (∀ m s, 2 * String.length s + 1 <= n → 2 * String.length s + 1 <= m →
     parse_value n s = parse_value m s)
  ∧ (∀ m s, 2 * String.length s + 2 <= n → 2 * String.length s + 2 <= m →
     parse_elems n s = parse_elems m s)
  ∧ (∀ m s, 2 * String.length s + 2 <= n → 2 * String.length s + 2 <= m →
     parse_members n s = parse_members m s).
Proof.
  induction n as [|n (IHv & IHe & IHm)]; (split; [|split]); intros [|m] s Hn Hm; try lia.
  - cbn [parse_value]. destruct (next_char s) as [[k q]|] eqn:E; [|done]. cbn [mbind option_bind].
    apply next_char_lt in E. by rewrite (IHe m q), (IHm m q) by lia.
  - cbn [parse_elems]. rewrite (IHv m s) by lia.
    destruct (parse_value m s) as [[j q]|] eqn:Ev; [|done]. cbn [mbind option_bind].
    apply (proj1 (parse_shorter m)) in Ev.
    destruct (next_char q) as [[k q1]|] eqn:E; [|done]. cbn [mbind option_bind].
    apply next_char_lt in E. by rewrite (IHe m q1) by lia.
  - cbn [parse_members].
    destruct (parse_string (skip_ws s)) as [[t q]|] eqn:Et; [|done]. cbn [mbind option_bind].
    apply parse_string_lt in Et. pose proof (skip_ws_le s).
    destruct (next_char q) as [[k q1]|] eqn:E; [|done]. cbn [mbind option_bind].
    apply next_char_lt in E. destruct (negb _); [done|]. rewrite (IHv m q1) by lia.
    destruct (parse_value m q1) as [[j q2]|] eqn:Ev; [|done]. cbn [mbind option_bind].
    apply (proj1 (parse_shorter m)) in Ev.
    destruct (next_char q2) as [[k' q3]|] eqn:E'; [|done]. cbn [mbind option_bind].
    apply next_char_lt in E'. by rewrite (IHm m q3) by lia.
Qed.
