(* ===== verification/Canonical.v ===== *)
(** * The canonical form of a JSON document

    [internal/skillregistry/canonical.go]: members sorted by name, duplicate
    names refused, strings in one spelling, numbers as exact decimals without an
    exponent.  The Go writes the text while it reads tokens; here the document
    is read first ([JsonText.parse_json]), then [writeCanonicalValue] gives the
    value whose [plain_text] is written. *)

From stdpp Require Import sorting.
From Stdlib Require Import Ascii.
From S2P Require Import Prelude GoStrings Json JsonText.

Open Scope nat_scope.
Open Scope list_scope.

Definition maxCanonicalMantissaDigits : Z := 1000.
Definition maxCanonicalExponent : Z := 1000.

(** ** Numbers *)

(** [strings.IndexAny(s, chars)]: what is before the first of these bytes, and
    after it if there is one. *)
Fixpoint cut_any (chars : list nat) (s : string) : string * option string :=
  match s with
  | "" => ("", None)
  | String c r =>
      if bool_decide (byte_of c ∈ chars) then ("", Some r)
      else let '(a, b) := cut_any chars r in (String c a, b)
  end.

Fixpoint digits_value (acc : Z) (s : string) : Z :=
  match s with
  | "" => acc
  | String c r => digits_value (acc * 10 + (Z.of_nat (byte_of c) - 48)) r
  end.

Fixpoint all_digits (s : string) : bool :=
  match s with "" => true | String c r => is_digit c && all_digits r end.

(** [strconv.ParseInt(s, 10, 64)] *)
Definition ParseInt (s : string) : option Z :=
  let '(sg, d) := take_sign [43; 45] s in
  if String.eqb d "" || negb (all_digits d) then None
  else
    let z := if String.eqb sg "-" then (- digits_value 0 d)%Z else digits_value 0 d in
    if Z.leb (- 2 ^ 63) z && Z.ltb z (2 ^ 63) then Some z else None.

Fixpoint trim_left_zeros (s : string) : string :=
  match s with
  | String c r => if Nat.eqb (byte_of c) 48 then trim_left_zeros r else s
  | "" => ""
  end.

(** The digits up to the last one that is not 0, and how many zeros follow. *)
Fixpoint trim_right_zeros (s : string) : string * nat :=
  match s with
  | "" => ("", 0)
  | String c r =>
      match trim_right_zeros r with
      | ("", n) => if Nat.eqb (byte_of c) 48 then ("", S n) else (String c "", n)
      | (d, n) => (String c d, n)
      end
  end.

Fixpoint zeros (n : nat) : string :=
  match n with O => "" | S n => String "0"%char (zeros n) end.

(** The sign, the mantissa as it is written and the exponent it is raised to. *)
Definition split_literal (literal : string) : option (bool * string * string * Z) :=
  let negative := hasPrefix literal "-" in
  let s := if negative then sdrop 1 literal else literal in
  let '(mantissa, ex) := cut_any [69; 101] s in
  exponent ← match ex with None => Some 0%Z | Some e => ParseInt e end;
  let '(whole, fr) := cut_any [46] mantissa in
  Some (negative, whole, default "" fr, exponent).

(** The sign, digits that neither begin nor end with 0, and the power of ten;
    no digits is zero. *)
Definition number_parts (literal : string) : option (bool * string * Z) :=
  '(negative, whole, fraction, exponent) ← split_literal literal;
  let digits := whole +:+ fraction in
  if String.eqb digits "" || negb (all_digits digits) then None
  else
    let exponent := wrap64 (exponent - Z.of_nat (String.length fraction)) in
    let '(digits, trimmedZeros) := trim_right_zeros (trim_left_zeros digits) in
    Some (negative, digits, wrap64 (exponent + Z.of_nat trimmedZeros)).

Definition render_number (negative : bool) (digits : string) (exponent : Z) : string :=
  let sign := if negative then "-" else "" in
  let point := (Z.of_nat (String.length digits) + exponent)%Z in
  sign +:+
  (if Z.leb 0 exponent then digits +:+ zeros (Z.to_nat exponent)
   else if Z.ltb 0 point
   then stake (Z.to_nat point) digits +:+ "." +:+ sdrop (Z.to_nat point) digits
   else "0." +:+ zeros (Z.to_nat (- point)) +:+ digits).

Definition normalizeJSONNumber (literal : string) : option string :=
  '(negative, digits, exponent) ← number_parts literal;
  if String.eqb digits "" then Some "0"
  else if Z.ltb maxCanonicalMantissaDigits (Z.of_nat (String.length digits)) then None
  else if Z.ltb maxCanonicalExponent exponent || Z.ltb exponent (- maxCanonicalExponent) then None
  else Some (render_number negative digits exponent).

(** ** Values *)

Definition key_le (a b : string * json) : Prop := Is_true (String.leb a.1 b.1).
#[export] Instance key_le_dec : RelDecision key_le.
Proof. intros a b. unfold key_le. apply _. Defined.

Fixpoint sequence {A} (l : list (option A)) : option (list A) :=
  match l with
  | [] => Some []
  | x :: l => a ← x; r ← sequence l; Some (a :: r)
  end.

Fixpoint writeCanonicalValue (j : json) : option json :=
  match j with
  | JNum l => JNum <$> normalizeJSONNumber l
  | JArr l => JArr <$> sequence (map writeCanonicalValue l)
  | JObj o =>
      if bool_decide (NoDup (map fst o)) then
        members ← sequence (map (λ kv, let '(k, v) := kv in pair k <$> writeCanonicalValue v) o);
        Some (JObj (merge_sort key_le members))
      else None
  | _ => Some j
  end.

Definition canonicalizeJSON (raw : string) : option string :=
  j ← parse_json raw; plain_text <$> writeCanonicalValue j.

Example normalize_samples :
  map normalizeJSONNumber
    ["1"; "1.0"; "1e0"; "-0"; "0.300"; "1.5e3"; "-12.50"; "1e-3"; "100e-1"; "1e1001"; "0e99999"]
  = [Some "1"; Some "1"; Some "1"; Some "0"; Some "0.3"; Some "1500"; Some "-12.5"; Some "0.001";
     Some "10"; None; Some "0"].
Proof. by vm_compute. Qed.
