(* ===== verification/CanonicalTheory.v ===== *)
(** * Canonical numbers

    [Canonical.normalizeJSONNumber] gives one text per number: two literals it
    accepts have the same canonical text exactly when they are the same number,
    and a canonical text is its own canonical text. *)

From Stdlib Require Import Ascii.
From stdpp Require Import sorting.
From S2P Require Import Prelude GoStrings Json Crypto GoJson JsonText Canonical.

Open Scope nat_scope.
Open Scope list_scope.

(** ** The value of a literal *)

(** [m] times ten to the [e]. *)
Definition num_value (literal : string) : option (Z * Z) :=
  '(negative, whole, fraction, exponent) ← split_literal literal;
  let m := digits_value 0 (whole +:+ fraction) in
  Some (if (negative : bool) then (- m)%Z else m, (exponent - Z.of_nat (String.length fraction))%Z).

Definition same_value (a b : Z * Z) : Prop :=
  (let e := Z.min a.2 b.2 in a.1 * 10 ^ (a.2 - e) = b.1 * 10 ^ (b.2 - e))%Z.

Lemma same_value_at k a b :
  (k <= a.2 → k <= b.2 → same_value a b ↔ a.1 * 10 ^ (a.2 - k) = b.1 * 10 ^ (b.2 - k))%Z.
Proof.
  intros Ha Hb. unfold same_value. set (e := Z.min a.2 b.2).
  assert (∀ x, (e <= x → 10 ^ (x - k) = 10 ^ (x - e) * 10 ^ (e - k))%Z) as Hp.
  { intros x Hx. rewrite <- Z.pow_add_r by lia. f_equal. lia. }
  rewrite (Hp a.2), (Hp b.2), !Z.mul_assoc by lia.
  assert (0 < 10 ^ (e - k))%Z by (apply Z.pow_pos_nonneg; lia).
  split; [by intros ->|]. intros H'. by apply Z.mul_reg_r in H'; [|lia].
Qed.

#[export] Instance same_value_equiv : Equivalence same_value.
Proof.
  split; [by intros a|intros a b; unfold same_value; rewrite Z.min_comm; congruence|].
  intros a b c. set (k := Z.min a.2 (Z.min b.2 c.2)).
  rewrite (same_value_at k a b), (same_value_at k b c), (same_value_at k a c) by lia. congruence.
Qed.

(** ** Digits *)

Lemma digits_value_app a b acc : digits_value acc (a +:+ b) = digits_value (digits_value acc a) b.
Proof. revert acc. induction a as [|c a IH]; intros acc; [done|]. rewrite string_app_cons. apply IH. Qed.

Lemma digits_value_zeros n acc : digits_value acc (zeros n) = (acc * 10 ^ Z.of_nat n)%Z.
Proof.
  revert acc. induction n as [|n IH]; intros acc; [simpl; lia|].
  cbn [zeros digits_value]. rewrite IH, Nat2Z.inj_succ, Z.pow_succ_r by lia.
  change (Z.of_nat (byte_of "0")) with 48%Z. lia.
Qed.

Lemma all_digits_app a b : all_digits (a +:+ b) = all_digits a && all_digits b.
Proof. induction a as [|c a IH]; [done|]. rewrite string_app_cons. simpl. by rewrite IH, andb_assoc. Qed.

Lemma all_digits_zeros n : all_digits (zeros n) = true.
Proof. induction n; [done|]. simpl. done. Qed.

Lemma digit_range c : is_digit c = true ↔ byte_in 48 57 c.
Proof. apply in_range_true. Qed.

Lemma byte_of_inj a b : byte_of a = byte_of b → a = b.
Proof. unfold byte_of. intros H. rewrite <- (ascii_nat_embedding a), <- (ascii_nat_embedding b). congruence. Qed.

(** The value of [n] digits after [acc]. *)
Lemma digits_value_bounds s acc :
  all_digits s = true →
  (acc * 10 ^ Z.of_nat (String.length s) <= digits_value acc s
   < (acc + 1) * 10 ^ Z.of_nat (String.length s))%Z.
Proof.
  revert acc. induction s as [|c s IH]; intros acc H; [simpl; lia|].
  cbn [all_digits] in H. apply andb_true_iff in H as [Hc%digit_range H].
  cbn [digits_value String.length]. rewrite Nat2Z.inj_succ, Z.pow_succ_r by lia.
  specialize (IH (acc * 10 + (Z.of_nat (byte_of c) - 48))%Z H).
  assert (0 < 10 ^ Z.of_nat (String.length s))%Z by (apply Z.pow_pos_nonneg; lia). nia.
Qed.

Lemma digits_value_inj a b acc acc' :
  all_digits a = true → all_digits b = true → String.length a = String.length b →
  digits_value acc a = digits_value acc' b → acc = acc' ∧ a = b.
Proof.
  revert b acc acc'. induction a as [|c a IH]; intros [|d b] acc acc' Ha Hb Hl; try done.
  cbn [all_digits] in Ha, Hb. apply andb_true_iff in Ha as [Hc%digit_range Ha].
  apply andb_true_iff in Hb as [Hd%digit_range Hb]. injection Hl as Hl. cbn [digits_value].
  intros [H ->]%IH; [|done..]. assert (acc = acc' ∧ byte_of c = byte_of d) as [-> E] by lia.
  by rewrite (byte_of_inj c d).
Qed.

(** Digits as [number_parts] leaves them: none, or without a 0 at either end. *)
Fixpoint ends_nonzero (s : string) : bool :=
  match s with
  | "" => true
  | String c "" => negb (Nat.eqb (byte_of c) 48)
  | String _ r => ends_nonzero r
  end.
Definition starts_nonzero (s : string) : bool :=
  match s with "" => true | String c _ => negb (Nat.eqb (byte_of c) 48) end.

Record trimmed (d : string) : Prop := mkTrimmed {
  td_digits : all_digits d = true;
  td_start : starts_nonzero d = true;
  td_end : ends_nonzero d = true;
}.

Lemma trimmed_pos d : trimmed d → d ≠ "" → (0 < digits_value 0 d)%Z.
Proof.
  intros [Hd Hs _] Hne. destruct d as [|c d]; [done|]. cbn [all_digits starts_nonzero] in *.
  apply andb_true_iff in Hd as [Hc%digit_range Hd]. apply negb_true_iff, Nat.eqb_neq in Hs.
  cbn [digits_value]. pose proof (digits_value_bounds d (0 * 10 + (Z.of_nat (byte_of c) - 48)) Hd).
  assert (0 < 10 ^ Z.of_nat (String.length d))%Z by (apply Z.pow_pos_nonneg; lia). nia.
Qed.

Lemma ends_nonzero_mod d acc :
  all_digits d = true → ends_nonzero d = true → d ≠ "" → (digits_value acc d mod 10 ≠ 0)%Z.
Proof.
  revert acc. induction d as [|c d IH]; intros acc Hd He Hne; [done|].
  cbn [all_digits] in Hd. apply andb_true_iff in Hd as [Hc%digit_range Hd].
  destruct d as [|b d]; [|by apply IH].
  cbn [ends_nonzero digits_value] in *. apply negb_true_iff, Nat.eqb_neq in He.
  rewrite Z.add_comm, Z.mod_add by lia. rewrite Z.mod_small; lia.
Qed.

Lemma trimmed_inj a b : trimmed a → trimmed b → digits_value 0 a = digits_value 0 b → a = b.
Proof.
  intros Ha Hb E. destruct (decide (a = "")) as [->|Hna], (decide (b = "")) as [->|Hnb]; [done|..].
  - pose proof (trimmed_pos b Hb Hnb). simpl in E. lia.
  - pose proof (trimmed_pos a Ha Hna). simpl in E. lia.
  - assert (∀ d, trimmed d → d ≠ "" →
      10 ^ (Z.of_nat (String.length d) - 1) <= digits_value 0 d < 10 ^ Z.of_nat (String.length d))%Z as Hr.
    { intros [|c d] [Hd Hs _] Hne; [done|]. cbn [all_digits starts_nonzero] in *.
      pose proof (digits_value_bounds (String c d) 0 Hd) as [_ Hu]. split; [|lia].
      apply andb_true_iff in Hd as [Hc%digit_range Hd]. apply negb_true_iff, Nat.eqb_neq in Hs.
      cbn [digits_value String.length]. rewrite Nat2Z.inj_succ.
      replace (Z.succ _ - 1)%Z with (Z.of_nat (String.length d)) by lia.
      pose proof (digits_value_bounds d (0 * 10 + (Z.of_nat (byte_of c) - 48)) Hd) as [Hl _].
      assert (0 < 10 ^ Z.of_nat (String.length d))%Z by (apply Z.pow_pos_nonneg; lia). nia. }
    pose proof (Hr a Ha Hna) as Ra. pose proof (Hr b Hb Hnb) as Rb. rewrite E in Ra.
    assert (String.length a = String.length b) as Hl.
    { destruct (Nat.lt_trichotomy (String.length a) (String.length b)) as [H|[H|H]]; [|done|];
        exfalso; [pose proof (Z.pow_le_mono_r 10 (Z.of_nat (String.length a)) (Z.of_nat (String.length b) - 1))
                 |pose proof (Z.pow_le_mono_r 10 (Z.of_nat (String.length b)) (Z.of_nat (String.length a) - 1))];
        lia. }
    by apply (digits_value_inj a b 0 0); [apply Ha|apply Hb|..].
Qed.

(** ** Trimming *)

Lemma trim_left_zeros_spec s :
  all_digits s = true →
  let d := trim_left_zeros s in
  all_digits d = true ∧ starts_nonzero d = true ∧ digits_value 0 d = digits_value 0 s
  ∧ String.length d <= String.length s.
Proof.
  induction s as [|c s IH]; intros H; [by auto|]. cbn [all_digits] in H.
  apply andb_true_iff in H as [Hc H]. cbn [trim_left_zeros].
  destruct (byte_of c =? 48) eqn:E.
  - apply Nat.eqb_eq in E. destruct (IH H) as (? & ? & Hv & ?). cbn [digits_value String.length].
    rewrite E. repeat split; [done..| |lia]. simpl. done.
  - cbn [all_digits starts_nonzero]. rewrite Hc, H, E. by auto.
Qed.

Lemma trim_right_zeros_spec s d n :
  trim_right_zeros s = (d, n) →
  s = d +:+ zeros n ∧ ends_nonzero d = true
  ∧ (starts_nonzero s = true → starts_nonzero d = true).
Proof.
  revert d n. induction s as [|c s IH]; intros d n; [by intros [= <- <-]|].
  cbn [trim_right_zeros]. destruct (trim_right_zeros s) as [d' m].
  destruct (IH d' m eq_refl) as (-> & He & _).
  destruct d' as [|b d'].
  - destruct (byte_of c =? 48) eqn:E; intros [= <- <-].
    + repeat split. apply Nat.eqb_eq in E. rewrite (byte_of_inj c "0"%char); done.
    + repeat split; [|done]. cbn [ends_nonzero]. by rewrite E.
  - intros [= <- <-]. by repeat split.
Qed.

Lemma trim_right_zeros_app d n :
  ends_nonzero d = true → trim_right_zeros (d +:+ zeros n) = (d, n).
Proof.
  intros He. assert (∀ n, trim_right_zeros (zeros n) = ("", n)) as Hz.
  { clear. induction n as [|n IH]; [done|]. cbn [zeros trim_right_zeros]. by rewrite IH. }
  induction d as [|c d IH]; [by rewrite string_app_nil|].
  rewrite string_app_cons. cbn [trim_right_zeros]. destruct d as [|b d].
  - cbn [ends_nonzero] in He. apply negb_true_iff in He. rewrite string_app_nil, Hz. by rewrite He.
  - by rewrite IH.
Qed.

(** ** The parts of a literal *)

Lemma wrap64_once x z y :
  wrap64 (wrap64 x + z) = y → (- 2 ^ 62 <= y < 2 ^ 62 → - 3 * 2 ^ 62 <= x + z < 3 * 2 ^ 62 → x + z = y)%Z.
Proof.
  unfold wrap64. intros <-. revert x z. intros x z.
  replace ((x + 2 ^ 63) mod 2 ^ 64 - 2 ^ 63 + z + 2 ^ 63)%Z
    with ((x + 2 ^ 63) mod 2 ^ 64 + z)%Z by lia.
  rewrite Zplus_mod_idemp_l. intros H1 H2.
  replace (x + 2 ^ 63 + z)%Z with (x + z + 2 ^ 63)%Z in * by lia.
  set (v := (x + z)%Z) in *. clearbody v.
  destruct (Z.lt_ge_cases (v + 2 ^ 63) 0) as [Hn|Hn].
  { rewrite <- (Z.mod_add _ 1), Z.mod_small in H1 |- * by lia. lia. }
  destruct (Z.lt_ge_cases (v + 2 ^ 63) (2 ^ 64)) as [Hs|Hs].
  { rewrite Z.mod_small by lia. lia. }
  rewrite <- (Z.mod_add _ (-1)), Z.mod_small in H1 |- * by lia. lia.
Qed.

Definition short (s : string) : Prop := (Z.of_nat (String.length s) < 2 ^ 61)%Z.

Lemma cut_any_length chars s :
  String.length (cut_any chars s).1 + String.length (default "" (cut_any chars s).2) <= String.length s.
Proof.
  induction s as [|c s IH]; [done|]. cbn [cut_any]. destruct (bool_decide _); [simpl; lia|].
  destruct (cut_any chars s) as [a b]. cbn [fst snd String.length] in *. lia.
Qed.

Lemma split_literal_bounds l neg w f e :
  split_literal l = Some (neg, w, f, e) →
  String.length w + String.length f <= String.length l ∧ (- 2 ^ 63 <= e < 2 ^ 63)%Z.
Proof.
  unfold split_literal. set (s := if hasPrefix l "-" then _ else l).
  assert (String.length s <= String.length l) as Hs.
  { subst s. destruct (hasPrefix l "-"); [rewrite length_sdrop|]; lia. }
  pose proof (cut_any_length [69; 101] s) as H1. destruct (cut_any [69; 101] s) as [m ex].
  intros (e' & He & H)%bind_Some. pose proof (cut_any_length [46] m) as H2.
  destruct (cut_any [46] m) as [w' fr]. injection H as <- <- <- <-. cbn [fst snd] in *.
  split; [lia|]. destruct ex as [t|]; [|injection He as <-; lia].
  unfold ParseInt in He. destruct (take_sign _ t) as [sg d]. destruct (_ || _); [done|].
  destruct (Z.leb _ _ && Z.ltb _ _) eqn:E; [|done]. injection He as <-.
  apply andb_true_iff in E as [?%Z.leb_le ?%Z.ltb_lt]. lia.
Qed.

Definition signed (neg : bool) (m : Z) : Z := if neg then (- m)%Z else m.

(** The trimmed parts have the value of the literal. *)
Lemma number_parts_value l neg d e :
  short l → number_parts l = Some (neg, d, e) → (d ≠ "" → - 1000 <= e <= 1000)%Z →
  trimmed d ∧ ∃ v, num_value l = Some v ∧ same_value v (signed neg (digits_value 0 d), e).
Proof.
  unfold number_parts, num_value. intros Hl.
  intros ([[[neg' w] f] ex] & Hs & H)%bind_Some He. rewrite Hs. cbn [mbind option_bind].
  pose proof (split_literal_bounds l _ _ _ _ Hs) as [Hlen Hex].
  destruct (String.eqb _ "" || _) eqn:Hg; [done|]. apply orb_false_split in Hg as [_ Hd].
  apply negb_false_iff in Hd. destruct (trim_left_zeros_spec _ Hd) as (Ha & Hst & Hv & Hle).
  destruct (trim_right_zeros (trim_left_zeros (w +:+ f))) as [d' n] eqn:Et.
  injection H as <- <- <-.
  destruct (trim_right_zeros_spec _ _ _ Et) as (Eq & Hend & Hst').
  assert (trimmed d') as Ht.
  { split; [|by apply Hst'|done]. rewrite Eq, all_digits_app in Ha. by apply andb_true_iff in Ha as [? _]. }
  split; [done|]. eexists; split; [done|].
  assert (digits_value 0 (w +:+ f) = (digits_value 0 d' * 10 ^ Z.of_nat n)%Z) as Hval.
  { by rewrite <- Hv, Eq, digits_value_app, digits_value_zeros. }
  rewrite length_sapp in Hle. rewrite Eq in Hle. rewrite length_sapp in Hle.
  assert (String.length (zeros n) = n) as Hz by (clear; induction n; simpl; lia). rewrite Hz in Hle.
  unfold short in Hl. rewrite Hval. clear Hz Eq Et Hst Hst' Hv Ha.
  destruct (decide (d' = "")) as [->|Hne].
  { unfold same_value, signed. simpl digits_value. destruct neg'; simpl; lia. }
  specialize (He Hne).
  assert (wrap64 (wrap64 (ex - Z.of_nat (String.length f)) + Z.of_nat n)
          = ex - Z.of_nat (String.length f) + Z.of_nat n)%Z as ->.
  { symmetry. eapply wrap64_once; [reflexivity|lia..]. }
  rewrite (same_value_at (ex - Z.of_nat (String.length f))) by (cbn [fst snd]; lia).
  cbn [fst snd]. rewrite Z.sub_diag, Z.mul_1_r.
  replace (_ + Z.of_nat n - _)%Z with (Z.of_nat n) by lia. unfold signed. destruct neg'; lia.
Qed.

(** ** One triple per number *)

Lemma exponent_unique m1 m2 e1 e2 :
  (same_value (m1, e1) (m2, e2) → m1 mod 10 ≠ 0 → m2 mod 10 ≠ 0 → e1 = e2 ∧ m1 = m2)%Z.
Proof.
  assert (∀ m1 m2 e1 e2, (e1 < e2 → same_value (m1, e1) (m2, e2) → m1 mod 10 ≠ 0 → False))%Z as Hlt.
  { clear. intros m1 m2 e1 e2 He Hs H1. rewrite (same_value_at e1) in Hs by (simpl; lia).
    cbn [fst snd] in Hs. rewrite Z.sub_diag, Z.mul_1_r in Hs.
    replace (e2 - e1)%Z with (Z.succ (e2 - e1 - 1)) in Hs by lia. rewrite Z.pow_succ_r in Hs by lia.
    apply H1. rewrite Hs. replace (m2 * (10 * 10 ^ (e2 - e1 - 1)))%Z
      with (m2 * 10 ^ (e2 - e1 - 1) * 10)%Z by lia. by rewrite Z.mod_mul. }
  intros Hs H1 H2. destruct (Z.lt_trichotomy e1 e2) as [H|[->|H]].
  - exfalso. eauto.
  - split; [done|]. rewrite (same_value_at e2) in Hs by (simpl; lia).
    cbn [fst snd] in Hs. by rewrite Z.sub_diag, !Z.mul_1_r in Hs.
  - exfalso. symmetry in Hs. eauto.
Qed.

Lemma parts_unique n1 n2 d1 d2 e1 e2 :
  trimmed d1 → trimmed d2 → d1 ≠ "" →
  same_value (signed n1 (digits_value 0 d1), e1) (signed n2 (digits_value 0 d2), e2) →
  d2 ≠ "" ∧ n1 = n2 ∧ d1 = d2 ∧ e1 = e2.
Proof.
  intros H1 H2 Hne Hs. pose proof (trimmed_pos d1 H1 Hne) as P1.
  assert (d2 ≠ "") as Hne2.
  { intros ->. unfold same_value in Hs. cbn [fst snd digits_value] in Hs.
    assert (0 < 10 ^ (e1 - Z.min e1 e2))%Z by (apply Z.pow_pos_nonneg; lia).
    destruct n1, n2; unfold signed in Hs; nia. }
  split; [done|]. pose proof (trimmed_pos d2 H2 Hne2) as P2.
  assert (∀ n d, trimmed d → d ≠ "" → (signed n (digits_value 0 d) mod 10 ≠ 0)%Z) as Hm.
  { intros n d [Ha _ He] Hd. pose proof (ends_nonzero_mod d 0 Ha He Hd).
    destruct n; [|done]. unfold signed. intros Hz. apply Z.mod_opp_l_z in Hz; [|lia].
    by rewrite Z.opp_involutive in Hz. }
  apply exponent_unique in Hs as [-> Hs]; [|by apply Hm..].
  assert (n1 = n2 ∧ digits_value 0 d1 = digits_value 0 d2) as [-> Ed]
    by (destruct n1, n2; unfold signed in Hs; split; try done; lia).
  by rewrite (trimmed_inj d1 d2).
Qed.

(** ** The parts of a canonical text *)

Fixpoint free (chars : list nat) (s : string) : bool :=
  match s with
  | "" => true
  | String c r => negb (bool_decide (byte_of c ∈ chars)) && free chars r
  end.

Lemma cut_any_free chars s : free chars s = true → cut_any chars s = (s, None).
Proof.
  induction s as [|c s IH]; [done|]. cbn [free cut_any]. intros [Hc%negb_true_iff H]%andb_true_iff.
  by rewrite Hc, IH.
Qed.

Lemma cut_any_at chars a c b :
  free chars a = true → byte_of c ∈ chars → cut_any chars (a +:+ String c b) = (a, Some b).
Proof.
  intros Ha Hc. induction a as [|x a IH].
  - rewrite string_app_nil. cbn [cut_any]. by rewrite bool_decide_true.
  - cbn [free] in Ha. apply andb_true_iff in Ha as [Hx%negb_true_iff Ha].
    rewrite string_app_cons. cbn [cut_any]. by rewrite Hx, IH.
Qed.

Lemma free_app chars a b : free chars (a +:+ b) = free chars a && free chars b.
Proof. induction a as [|c a IH]; [done|]. rewrite string_app_cons. simpl. by rewrite IH, andb_assoc. Qed.

Lemma digits_free chars s :
  all_digits s = true → (∀ c, is_digit c = true → byte_of c ∉ chars) → free chars s = true.
Proof.
  intros H Hc. induction s as [|c s IH]; [done|]. cbn [all_digits free] in *.
  apply andb_true_iff in H as [Hd H]. rewrite IH by done. rewrite bool_decide_false; auto.
Qed.

Lemma digit_not_dot c : is_digit c = true → byte_of c ∉ [46].
Proof. intros H%digit_range. rewrite list_elem_of_singleton. lia. Qed.
Lemma digit_not_e c : is_digit c = true → byte_of c ∉ [69; 101].
Proof. intros H%digit_range. rewrite !elem_of_cons, elem_of_nil. lia. Qed.
#[local] Hint Resolve digit_not_dot digit_not_e : core.

(** The optional fraction of a literal. *)
Definition dotted (f : string) : string := if String.eqb f "" then "" else "." +:+ f.
Definition sign_of (neg : bool) : string := if neg then "-" else "".

Lemma split_plain neg w f :
  all_digits w = true → w ≠ "" → all_digits f = true →
  split_literal (sign_of neg +:+ w +:+ dotted f) = Some (neg, w, f, 0%Z).
Proof.
  intros Hw Hne Hf. unfold split_literal.
  assert (hasPrefix (sign_of neg +:+ w +:+ dotted f) "-" = neg) as ->.
  { destruct neg; [by apply hasPrefix_spec; eexists|].
    apply not_true_iff_false. intros (r & H)%hasPrefix_spec. unfold sign_of in H.
    rewrite string_app_nil in H. destruct w as [|c w]; [done|].
    rewrite !string_app_cons in H. injection H as -> _. done. }
  assert ((if neg then sdrop 1 (sign_of neg +:+ w +:+ dotted f)
           else sign_of neg +:+ w +:+ dotted f) = w +:+ dotted f) as -> by (by destruct neg).
  unfold dotted. destruct (String.eqb_spec f "") as [->|Hnf].
  - rewrite sapp_nil_r, cut_any_free by (apply digits_free; auto). cbn [mbind option_bind].
    by rewrite cut_any_free by (apply digits_free; auto).
  - rewrite cut_any_free.
    2: { rewrite !free_app, (digits_free _ w), (digits_free _ f) by auto. by vm_compute. }
    cbn [mbind option_bind]. rewrite string_app_cons, string_app_nil, cut_any_at; [done|..].
    + apply digits_free; auto.
    + by rewrite list_elem_of_singleton.
Qed.

Lemma trim_left_start d : starts_nonzero d = true → trim_left_zeros d = d.
Proof. destruct d; [done|]. cbn. by intros ->%negb_true_iff. Qed.

Lemma trim_left_zeros_app n d : trim_left_zeros (zeros n +:+ d) = trim_left_zeros d.
Proof. induction n as [|n IH]; [done|]. cbn [zeros]. rewrite string_app_cons. done. Qed.

Lemma wrap64_small z : (- 2 ^ 62 <= z <= 2 ^ 62)%Z → wrap64 z = z.
Proof. intros H. apply wrap64_id. unfold in_int64, max_int64. lia. Qed.

Lemma number_parts_plain neg w f d k e :
  all_digits w = true → w ≠ "" → all_digits f = true →
  trim_left_zeros (w +:+ f) = d +:+ zeros k → ends_nonzero d = true →
  e = (Z.of_nat k - Z.of_nat (String.length f))%Z →
  (Z.of_nat k <= 2 ^ 61)%Z → (Z.of_nat (String.length f) <= 2 ^ 61)%Z →
  number_parts (sign_of neg +:+ w +:+ dotted f) = Some (neg, d, e).
Proof.
  intros Hw Hne Hf Ht Hd -> Hk Hl. unfold number_parts. rewrite split_plain by done.
  cbn [mbind option_bind]. rewrite all_digits_app, Hw, Hf. cbn [andb negb].
  destruct (String.eqb_spec (w +:+ f) "") as [E|_]; [by destruct w|]. cbn [orb].
  rewrite Ht, trim_right_zeros_app by done. rewrite (wrap64_small (0 - _)) by lia.
  rewrite wrap64_small by lia. do 2 f_equal. lia.
Qed.

Lemma length_zeros n : String.length (zeros n) = n.
Proof. induction n; simpl; lia. Qed.

(** The shape of a canonical text. *)
Lemma render_shape neg d e :
  trimmed d → d ≠ "" → (- 1000 <= e <= 1000)%Z → (Z.of_nat (String.length d) <= 1000)%Z →
  ∃ w f k, render_number neg d e = sign_of neg +:+ w +:+ dotted f
    ∧ all_digits w = true ∧ w ≠ "" ∧ all_digits f = true ∧ (w = "0" ∨ starts_nonzero w = true)
    ∧ trim_left_zeros (w +:+ f) = d +:+ zeros k
    ∧ e = (Z.of_nat k - Z.of_nat (String.length f))%Z
    ∧ (Z.of_nat k <= 2000)%Z ∧ (Z.of_nat (String.length f) <= 2000)%Z.
Proof.
  intros [Ha Hs He] Hne Hb Hl. unfold render_number. fold (sign_of neg).
  destruct (Z.leb_spec 0 e) as [H0|H0]; [|destruct (Z.ltb_spec 0 (Z.of_nat (String.length d) + e))].
  - exists (d +:+ zeros (Z.to_nat e)), "", (Z.to_nat e). unfold dotted. cbn [String.eqb].
    rewrite !sapp_nil_r, all_digits_app, Ha, all_digits_zeros.
    assert (starts_nonzero (d +:+ zeros (Z.to_nat e)) = true) as Hst by (by destruct d).
    repeat split; try done; [by destruct d|by right|by apply trim_left_start|..]; simpl; lia.
  - set (p := Z.to_nat (Z.of_nat (String.length d) + e)).
    pose proof (stake_sdrop p d) as E. pose proof (length_stake p d) as L1.
    pose proof (length_sdrop p d) as L2.
    assert (all_digits (stake p d) = true ∧ all_digits (sdrop p d) = true) as [Ht Hd].
    { rewrite <- E, all_digits_app in Ha. by apply andb_true_iff in Ha. }
    exists (stake p d), (sdrop p d), 0. cbn [zeros]. rewrite E, sapp_nil_r.
    assert (stake p d ≠ "") as Hnw by (intros Z0; rewrite Z0 in L1; simpl in L1; lia).
    repeat split; try done; [..|lia|lia].
    + unfold dotted. destruct (String.eqb_spec (sdrop p d) "") as [Z0|]; [|done].
      rewrite Z0 in L2. simpl in L2. lia.
    + right. destruct (stake p d) eqn:Ep; [done|]. rewrite <- E in Hs. done.
    + by apply trim_left_start.
  - set (k := Z.to_nat (- (Z.of_nat (String.length d) + e))).
    exists "0", (zeros k +:+ d), 0. cbn [zeros]. rewrite sapp_nil_r, all_digits_app, Ha, all_digits_zeros.
    rewrite length_sapp, length_zeros. repeat split; try done; [| by left| |lia..].
    + unfold dotted. destruct (String.eqb_spec (zeros k +:+ d) "") as [Z0|]; [|done].
      destruct k, d; done.
    + rewrite string_app_cons, string_app_nil. cbn [trim_left_zeros].
      change (byte_of "0" =? 48) with true. cbv iota.
      by rewrite trim_left_zeros_app, trim_left_start.
Qed.

Lemma number_parts_render neg d e :
  trimmed d → d ≠ "" → (- 1000 <= e <= 1000)%Z → (Z.of_nat (String.length d) <= 1000)%Z →
  number_parts (render_number neg d e) = Some (neg, d, e).
Proof.
  intros Ht Hne He Hl.
  destruct (render_shape neg d e Ht Hne He Hl) as (w & f & k & -> & ? & ? & ? & _ & ? & ? & ? & ?).
  eapply number_parts_plain; eauto; [apply Ht|lia..].
Qed.

(** ** Canonical texts *)

Definition within (d : string) (e : Z) : Prop :=
  (- 1000 <= e <= 1000)%Z ∧ (Z.of_nat (String.length d) <= 1000)%Z.

(** What a normalised literal is. *)
Lemma normalize_cases l t :
  normalizeJSONNumber l = Some t →
  ∃ neg d e, number_parts l = Some (neg, d, e)
    ∧ (d = "" ∧ t = "0" ∨ d ≠ "" ∧ within d e ∧ t = render_number neg d e).
Proof.
  unfold normalizeJSONNumber. intros ([[neg d] e] & Hp & H)%bind_Some. exists neg, d, e.
  split; [done|]. destruct (String.eqb_spec d "") as [->|Hne]; [left; by simplify_eq|right].
  destruct (Z.ltb_spec maxCanonicalMantissaDigits (Z.of_nat (String.length d))); [done|].
  destruct (Z.ltb_spec maxCanonicalExponent e); [done|]. cbn [orb] in H.
  destruct (Z.ltb_spec e (- maxCanonicalExponent)); [done|]. simplify_eq.
  unfold within, maxCanonicalMantissaDigits, maxCanonicalExponent in *. split; [done|]. split; [lia|done].
Qed.

Lemma normalize_value l t :
  short l → normalizeJSONNumber l = Some t →
  ∃ neg d e v, trimmed d ∧ num_value l = Some v ∧ same_value v (signed neg (digits_value 0 d), e)
    ∧ (d = "" ∧ t = "0" ∨ d ≠ "" ∧ within d e ∧ t = render_number neg d e).
Proof.
  intros Hl (neg & d & e & Hp & Ht)%normalize_cases.
  destruct (number_parts_value l neg d e Hl Hp) as (Htr & v & Hv & Hs).
  { intros Hne. destruct Ht as [[-> _]|(_ & [? _] & _)]; [done|lia]. }
  by exists neg, d, e, v.
Qed.

Lemma normalize_render neg d e :
  trimmed d → d ≠ "" → within d e →
  normalizeJSONNumber (render_number neg d e) = Some (render_number neg d e).
Proof.
  intros Ht Hne [He Hd]. unfold normalizeJSONNumber. rewrite number_parts_render by done.
  cbn [mbind option_bind]. rewrite (proj2 (String.eqb_neq d "")) by done.
  unfold maxCanonicalMantissaDigits, maxCanonicalExponent.
  rewrite (proj2 (Z.ltb_ge _ _)) by lia. rewrite !(proj2 (Z.ltb_ge _ _)) by lia. done.
Qed.

Lemma normalize_idempotent l t :
  short l → normalizeJSONNumber l = Some t → normalizeJSONNumber t = Some t.
Proof.
  intros Hl (neg & d & e & v & Ht & _ & _ & [[_ ->]|(Hne & Hw & ->)])%normalize_value;
    [done|by apply normalize_render|done].
Qed.

(** Two literals have one text exactly when they are one number. *)
Lemma normalize_decides l1 l2 t1 t2 v1 v2 :
  short l1 → short l2 → normalizeJSONNumber l1 = Some t1 → normalizeJSONNumber l2 = Some t2 →
  num_value l1 = Some v1 → num_value l2 = Some v2 →
  t1 = t2 ↔ same_value v1 v2.
Proof.
  intros S1 S2 (n1 & d1 & e1 & w1 & T1 & V1 & E1 & C1)%normalize_value; [|done].
  intros (n2 & d2 & e2 & w2 & T2 & V2 & E2 & C2)%normalize_value ? ?; [|done]. simplify_eq.
  rewrite E1, E2.
  assert (∀ n e n' d' e', trimmed d' → d' ≠ "" →
    ¬ same_value (signed n (digits_value 0 ""), e) (signed n' (digits_value 0 d'), e')) as H0.
  { intros n e n' d' e' Ht Hd Hs. symmetry in Hs.
    destruct (parts_unique _ _ _ _ _ _ Ht (mkTrimmed "" eq_refl eq_refl eq_refl) Hd Hs). done. }
  assert (∀ n d e, trimmed d → d ≠ "" → within d e → render_number n d e ≠ "0") as Hr.
  { intros n d e Ht Hd [He Hl] E. pose proof (number_parts_render n d e Ht Hd He Hl) as P.
    rewrite E in P. vm_compute in P. by injection P as <- <- <-. }
  destruct C1 as [[-> ->]|(N1 & W1 & ->)], C2 as [[-> ->]|(N2 & W2 & ->)].
  - split; [|done]. intros _. unfold same_value, signed. destruct n1, n2; simpl; lia.
  - split; intros H; [by symmetry in H; apply Hr in H|by apply H0 in H].
  - split; intros H; [by apply Hr in H|symmetry in H; by apply H0 in H].
  - split.
    + intros H. pose proof (number_parts_render n1 d1 e1 T1 N1 (proj1 W1) (proj2 W1)) as P1.
      pose proof (number_parts_render n2 d2 e2 T2 N2 (proj1 W2) (proj2 W2)) as P2.
      rewrite H in P1. rewrite P1 in P2. by injection P2 as -> -> ->.
    + intros H. by destruct (parts_unique _ _ _ _ _ _ T1 T2 N1 H) as (_ & -> & -> & ->).
Qed.

(** ** Canonical texts are numbers of the grammar *)

Lemma span_all_digits a : all_digits a = true → span_digits a = (a, "").
Proof.
  induction a as [|c a IH]; [done|]. cbn [all_digits span_digits].
  intros [Hc H]%andb_true_iff. by rewrite Hc, IH.
Qed.

Lemma span_digits_dot a f : all_digits a = true → span_digits (a +:+ "." +:+ f) = (a, "." +:+ f).
Proof.
  induction a as [|c a IH]; [done|]. cbn [all_digits]. intros [Hc H]%andb_true_iff.
  rewrite string_app_cons. cbn [span_digits]. by rewrite Hc, IH.
Qed.

Lemma number_plain neg w f :
  all_digits w = true → w ≠ "" → all_digits f = true → w = "0" ∨ starts_nonzero w = true →
  is_number (sign_of neg +:+ w +:+ dotted f).
Proof.
  intros Hw Hne Hf Hz. unfold is_number, scan_number.
  assert (take_sign [45] (sign_of neg +:+ w +:+ dotted f) = (sign_of neg, w +:+ dotted f)) as ->.
  { destruct neg; [by vm_compute|]. destruct w as [|c w]; [done|]. cbn [all_digits] in Hw.
    apply andb_true_iff in Hw as [Hc%digit_range _]. unfold sign_of. rewrite string_app_nil, string_app_cons.
    cbn [take_sign]. rewrite bool_decide_false; [done|]. rewrite list_elem_of_singleton. lia. }
  assert (span_digits (w +:+ dotted f) = (w, dotted f)) as Hsp.
  { unfold dotted. destruct (String.eqb f ""); [by rewrite sapp_nil_r, span_all_digits|].
    by apply span_digits_dot. }
  assert (scan_int (w +:+ dotted f) = Some (w, dotted f)) as ->.
  { destruct Hz as [->|Hs]; [done|]. destruct w as [|c w]; [done|]. cbn [starts_nonzero] in Hs.
    apply negb_true_iff in Hs. rewrite string_app_cons in *. cbn [scan_int]. rewrite Hs, Hsp.
    cbn [all_digits] in Hw. by apply andb_true_iff in Hw as [-> _]. }
  cbn [mbind option_bind].
  assert (scan_frac (dotted f) = Some (dotted f, "")) as ->.
  { unfold dotted. destruct (String.eqb_spec f "") as [->|Hnf]; [done|].
    rewrite string_app_cons, string_app_nil. cbn [scan_frac]. change (byte_of "." =? 46) with true.
    cbv iota. rewrite span_all_digits by done. by rewrite (proj2 (String.eqb_neq f "")). }
  cbn [mbind option_bind scan_exp]. rewrite ?sapp_nil_r. done.
Qed.

Lemma normalize_number l t : short l → normalizeJSONNumber l = Some t → is_number t.
Proof.
  intros Hl (neg & d & e & v & Ht & _ & _ & [[_ ->]|(Hne & [He Hd] & ->)])%normalize_value; [done| |done].
  destruct (render_shape neg d e Ht Hne He Hd) as (w & f & k & -> & ? & ? & ? & ? & _).
  by apply number_plain.
Qed.

(** * Canonical documents

    What [JsonText.parse_json] returns is well formed; the canonical form of a
    document is a fixed point, and it depends on the value of the document and
    on nothing else. *)

(** ** What the parser returns *)

Lemma lor_small c n :
  forallb (λ x, Z.eqb (Z.lor c x) (c + x)) (seqZ 0 n) = true →
  (∀ x, 0 <= x < n → Z.lor c x = c + x)%Z.
Proof.
  intros H x Hx. rewrite forallb_forall in H. apply Z.eqb_eq, H, list_elem_of_In, elem_of_seqZ. lia.
Qed.

Lemma low_bits r k :
  (0 <= r → 0 <= k → Z.lor 0x80 (Z.land (Z.shiftr r k) 0x3f) = 128 + (r / 2 ^ k) mod 64)%Z.
Proof.
  intros Hr Hk. change 0x3f%Z with (Z.ones 6). rewrite Z.land_ones, Z.shiftr_div_pow2 by lia.
  apply (lor_small 0x80 64); [by vm_compute|]. change (2 ^ 6)%Z with 64%Z. apply Z.mod_pos_bound. lia.
Qed.

Lemma byte_of_nat n : n < 256 → byte_of (ascii_of_nat n) = n.
Proof. apply nat_ascii_embedding. Qed.

(** A scalar value is written as one rune. *)
Lemma encode_rune_rune r :
  (0 <= r < 0x110000)%Z → is_surrogate r = false → rune (encode_rune r).
Proof.
  intros Hr Hs. unfold is_surrogate in Hs. unfold encode_rune. cbv zeta.
  rewrite !low_bits, !Z.shiftr_div_pow2 by lia.
  change (2 ^ 0)%Z with 1%Z. change (2 ^ 6)%Z with 64%Z. change (2 ^ 12)%Z with 4096%Z.
  change (2 ^ 18)%Z with 262144%Z. rewrite Z.div_1_r.
  assert (∀ z lo hi, (lo <= z <= hi → 0 <= lo → hi < 256 →
            Z.of_nat (byte_of (ascii_of_nat (Z.to_nat z))) = z)%Z) as Hb.
  { intros z lo hi H1 H2 H3. rewrite byte_of_nat by lia. lia. }
  destruct (Z.ltb_spec r 0x80); [|destruct (Z.ltb_spec r 0x800); [|destruct (Z.ltb_spec r 0x10000)]].
  - constructor. rewrite byte_of_nat; lia.
  - rewrite (lor_small 0xc0 32); [|by vm_compute|Z.to_euclidean_division_equations; lia].
    constructor; rewrite byte_of_nat; Z.to_euclidean_division_equations; lia.
  - rewrite (lor_small 0xe0 16); [|by vm_compute|Z.to_euclidean_division_equations; lia].
    constructor; rewrite ?byte_of_nat by (Z.to_euclidean_division_equations; lia);
      Z.to_euclidean_division_equations; lia.
  - rewrite (lor_small 0xf0 8); [|by vm_compute|Z.to_euclidean_division_equations; lia].
    constructor; rewrite ?byte_of_nat by (Z.to_euclidean_division_equations; lia);
      Z.to_euclidean_division_equations; lia.
Qed.

Lemma hex_value_range c v : hex_value c = Some v → (0 <= v < 16)%Z.
Proof.
  unfold hex_value. set (n := Z.of_nat _).
  destruct ((48 <=? n)%Z && (n <=? 57)%Z) eqn:E1; [intros [= <-]; lia|].
  destruct ((97 <=? n)%Z && (n <=? 102)%Z) eqn:E2; [intros [= <-]; lia|].
  destruct ((65 <=? n)%Z && (n <=? 70)%Z) eqn:E3; [intros [= <-]; lia|done].
Qed.

Lemma hex4_range s a r : hex4 s = Some (a, r) → (0 <= a < 0x10000)%Z.
Proof.
  destruct s as [|? [|? [|? [|? q]]]]; cbn [hex4]; try done. intros H.
  apply bind_Some in H as (w & ?%hex_value_range & (x & ?%hex_value_range & H)%bind_Some).
  apply bind_Some in H as (y & ?%hex_value_range & (z & ?%hex_value_range & [= <- _])%bind_Some). lia.
Qed.

Lemma surrogate_pair_range a b c :
  (0xd800 <= a → surrogate_pair a b = Some c → 0x10000 <= c < 0x110000)%Z.
Proof.
  unfold surrogate_pair. intros Ha. destruct (_ && _ && _) eqn:E; [|done]. intros [= <-].
  assert (a < 0xdc00 ∧ 0xdc00 <= b < 0xe000)%Z as [H1 H2] by lia. clear E.
  assert (0 <= Z.lor (Z.shiftl (a - 0xd800) 10) (b - 0xdc00) < 2 ^ 20)%Z; [|lia].
  rewrite Z.shiftl_mul_pow2 by lia. set (x := ((a - 0xd800) * 2 ^ 10)%Z). set (y := (b - 0xdc00)%Z).
  assert (0 <= x < 2 ^ 20 ∧ 0 <= y < 2 ^ 10)%Z as [Hx Hy] by lia. split; [apply Z.lor_nonneg; lia|].
  destruct (Z.eq_dec (Z.lor x y) 0) as [->|Hne]; [lia|].
  assert (0 <= Z.lor x y)%Z by (apply Z.lor_nonneg; lia).
  apply Z.log2_lt_pow2; [lia|]. rewrite Z.log2_lor by lia. apply Z.max_lub_lt.
  - destruct (Z.eq_dec x 0) as [->|]; [by vm_compute|]. apply Z.log2_lt_pow2; lia.
  - destruct (Z.eq_dec y 0) as [->|]; [by vm_compute|]. apply Z.log2_lt_pow2; lia.
Qed.

Lemma unicode_escape_rune s a r : unicode_escape s = Some (a, r) → rune (encode_rune a).
Proof.
  assert (rune (encode_rune RuneError)) as Herr by (by apply encode_rune_rune).
  unfold unicode_escape. intros ([b q] & Hq%hex4_range & H)%bind_Some.
  destruct (is_surrogate b) eqn:Es; cbn [negb] in H.
  2: { injection H as <- <-. apply encode_rune_rune; [lia|done]. }
  set (o := mbind _ _) in H. destruct o as [[c q']|] eqn:E; injection H as <- <-; [|done].
  subst o. apply bind_Some in E as (t & _ & ([d u] & _ & E)%bind_Some).
  apply bind_Some in E as (c' & Hc & [= -> _]).
  apply surrogate_pair_range in Hc; [|unfold is_surrogate in Es; lia].
  apply encode_rune_rune; [lia|]. unfold is_surrogate. lia.
Qed.

Lemma simple_escape_ascii c x : simple_escape c = Some x → byte_of x < 128.
Proof.
  unfold simple_escape. destruct (byte_of c) as [|n] eqn:E; [done|].
  do 117 (destruct n as [|n]; [first [done | intros [= <-]; first [rewrite E; lia | vm_compute; lia]]|]).
  done.
Qed.

Lemma parse_chars_valid n s t r : parse_chars n s = Some (t, r) → ValidString t = true.
Proof.
  revert s t r. induction n as [|n IH]; intros [|c s] t r; try done.
  assert (∀ p q t r, rune p → prefix_chars p (parse_chars n q) = Some (t, r) → ValidString t = true) as IH'.
  { unfold prefix_chars. intros p q t' r' Hp ([t1 r1] & H%IH & [= <- _])%bind_Some.
    by rewrite ValidString_app. }
  rewrite parse_chars_step. unfold chars_step. cbv zeta.
  destruct (_ =? 34) eqn:E34; [by intros [= <- <-]|]. destruct (_ =? 92) eqn:E92.
  { destruct s as [|e s]; [done|]. destruct (_ =? 117).
    - intros ([u q] & Hu%unicode_escape_rune & H)%bind_Some. by eapply IH'.
    - intros (x & Hx%simple_escape_ascii & H)%bind_Some. eapply IH'; [by constructor|done]. }
  destruct (_ <? 32); [done|]. destruct (_ && _) eqn:E.
  - apply IH'. by apply encode_rune_rune.
  - destruct (valid_head c s) as (p & q & Eq & Hp).
    { pose proof (rune_width_pos c s). rewrite orb_true_iff, !Nat.ltb_lt.
      apply andb_false_iff in E as [?%Nat.leb_gt|?%Nat.eqb_neq]; [left|right]; lia. }
    rewrite Eq, (rune_width_rune p q Hp), stake_app, sdrop_app. by apply IH'.
Qed.

Lemma parse_string_valid s t r : parse_string s = Some (t, r) → ValidString t = true.
Proof. destruct s as [|c s]; [done|]. cbn [parse_string]. destruct (_ =? 34); [|done]. apply parse_chars_valid. Qed.

(** A scanned number is in the grammar. *)
Lemma span_digits_fst s d q : span_digits s = (d, q) → span_digits d = (d, "").
Proof.
  revert d q. induction s as [|c s IH]; intros d q; [by intros [= <- <-]|].
  cbn [span_digits]. destruct (is_digit c) eqn:Ec; [|by intros [= <- <-]].
  destruct (span_digits s) as [d' q'] eqn:E. intros [= <- <-]. cbn [span_digits].
  by rewrite Ec, (IH d' q').
Qed.

Lemma span_digits_all s d q : span_digits s = (d, q) → all_digits d = true.
Proof.
  revert d q. induction s as [|c s IH]; intros d q; [by intros [= <- <-]|].
  cbn [span_digits]. destruct (is_digit c) eqn:Ec; [|by intros [= <- <-]].
  destruct (span_digits s) as [d' q'] eqn:E. intros [= <- <-]. cbn [all_digits].
  by rewrite Ec, (IH d' q').
Qed.

Definition nodigit (rest : string) : Prop :=
  match rest with "" => True | String c _ => is_digit c = false end.

Lemma span_digits_again d rest : all_digits d = true → nodigit rest → span_digits (d +:+ rest) = (d, rest).
Proof.
  intros Hd Hr. induction d as [|c d IH].
  - rewrite string_app_nil. destruct rest as [|c r]; [done|]. cbn in *. by rewrite Hr.
  - cbn [all_digits] in Hd. apply andb_true_iff in Hd as [Hc Hd]. rewrite string_app_cons.
    cbn [span_digits]. by rewrite Hc, IH.
Qed.

Lemma scan_int_again s i q rest :
  scan_int s = Some (i, q) → nodigit rest →
  scan_int (i +:+ rest) = Some (i, rest) ∧ take_sign [45] (i +:+ rest) = ("", i +:+ rest).
Proof.
  destruct s as [|c s]; [done|]. cbn [scan_int]. destruct (byte_of c =? 48) eqn:E0.
  - intros [= <- <-] Hr. rewrite string_app_cons, string_app_nil. cbn [scan_int take_sign]. rewrite E0.
    split; [done|]. rewrite bool_decide_false; [done|]. apply Nat.eqb_eq in E0. rewrite E0. set_solver.
  - destruct (is_digit c) eqn:Ec; [|done]. intros [= H] Hr.
    pose proof (span_digits_all (String c s) _ _ H) as Ha. rewrite Ec in H.
    destruct (span_digits s) as [d q'] eqn:Ed. injection H as <- <-. rewrite string_app_cons.
    cbn [scan_int take_sign]. rewrite E0, Ec. split.
    + f_equal. rewrite <- string_app_cons. by apply span_digits_again.
    + rewrite bool_decide_false; [done|]. apply digit_range in Ec. rewrite list_elem_of_singleton. lia.
Qed.

Lemma scan_frac_again s f q rest :
  scan_frac s = Some (f, q) → nodigit rest → nodigit (f +:+ rest) ∧
  ((match rest with String c _ => byte_of c ≠ 46 | "" => True end) →
   scan_frac (f +:+ rest) = Some (f, rest)).
Proof.
  intros Hs Hr.
  assert ((match rest with String c _ => byte_of c ≠ 46 | "" => True end) →
          scan_frac rest = Some ("", rest)) as H0.
  { destruct rest as [|c r]; [done|]. intros Hc%Nat.eqb_neq. cbn [scan_frac]. by rewrite Hc. }
  destruct s as [|c s]; [injection Hs as <- <-; by rewrite string_app_nil|]. cbn [scan_frac] in Hs.
  destruct (byte_of c =? 46) eqn:E; [|injection Hs as <- <-; by rewrite string_app_nil].
  destruct (span_digits s) as [d q'] eqn:Ed. destruct (String.eqb d "") eqn:En; [done|].
  injection Hs as <- <-. rewrite string_app_cons. split.
  - apply Nat.eqb_eq in E. cbn [nodigit]. unfold is_digit. rewrite <- not_true_iff_false, in_range_true. lia.
  - intros _. cbn [scan_frac]. rewrite E, span_digits_again, En; [done|by eapply span_digits_all|done].
Qed.

Lemma scan_exp_again s e q :
  scan_exp s = Some (e, q) → nodigit e ∧ (match e with String c _ => byte_of c ≠ 46 | "" => True end)
  ∧ scan_exp e = Some (e, "").
Proof.
  destruct s as [|c s]; [by intros [= <- <-]|]. cbn [scan_exp].
  destruct (bool_decide _) eqn:E; [|by intros [= <- <-]].
  destruct (take_sign _ s) as [sg r] eqn:Es, (span_digits r) as [d q'] eqn:Ed.
  destruct (String.eqb d "") eqn:En; [done|]. intros [= <- <-].
  assert (byte_of c = 69 ∨ byte_of c = 101) as Hc.
  { apply bool_decide_eq_true in E. rewrite !elem_of_cons, elem_of_nil in E. tauto. }
  split; [cbn [nodigit]; unfold is_digit; rewrite <- not_true_iff_false, in_range_true; lia|].
  split; [lia|]. cbn [scan_exp]. rewrite E.
  pose proof (span_digits_all _ _ _ Ed) as Ha.
  assert (take_sign [43; 45] (sg +:+ d) = (sg, d)) as ->.
  { destruct s as [|b s]; [by injection Es as <- <-; injection Ed as <- <-|]. cbn [take_sign] in Es.
    destruct (bool_decide (byte_of b ∈ _)) eqn:Eb; injection Es as <- <-.
    - rewrite string_app_cons, string_app_nil. cbn [take_sign]. by rewrite Eb.
    - rewrite string_app_nil. cbn [span_digits] in Ed. destruct (is_digit b); [|by injection Ed as <- <-].
      destruct (span_digits s). injection Ed as <- <-. cbn [take_sign]. by rewrite Eb. }
  rewrite span_all_digits by done. by rewrite En.
Qed.

Lemma scan_number_again s l q : scan_number s = Some (l, q) → is_number l.
Proof.
  unfold scan_number. destruct (take_sign [45] s) as [sg s1] eqn:Es.
  intros ([i s2] & Ei & ([f s3] & Ef & ([e s4] & Ee & [= <- _])%bind_Some)%bind_Some)%bind_Some.
  destruct (scan_exp_again _ _ _ Ee) as (He & Hd & Ee').
  destruct (scan_frac_again _ _ _ e Ef He) as (Hf & Ef').
  destruct (scan_int_again _ _ _ (f +:+ e) Ei Hf) as [Ei' Et].
  assert (take_sign [45] (sg +:+ i +:+ f +:+ e) = (sg, i +:+ f +:+ e)) as Hs.
  { destruct s as [|c s]; [by injection Es as <- <-|]. cbn [take_sign] in Es.
    destruct (bool_decide _) eqn:Ec; injection Es as <- <-; [|done].
    rewrite string_app_cons, string_app_nil. cbn [take_sign]. by rewrite Ec. }
  unfold is_number, scan_number. rewrite Hs, Ei'. cbn [mbind option_bind].
  rewrite Ef' by done. cbn [mbind option_bind]. by rewrite Ee'.
Qed.

Lemma scan_number_split s l q : scan_number s = Some (l, q) → s = l +:+ q.
Proof.
  unfold scan_number. destruct (take_sign [45] s) as [sg s1] eqn:Es. apply take_sign_split in Es as ->.
  intros ([i s2] & Ei & ([f s3] & Ef & ([e s4] & Ee & [= <- <-])%bind_Some)%bind_Some)%bind_Some.
  assert (s1 = i +:+ s2) as ->.
  { destruct s1 as [|c r]; [done|]. cbn [scan_int] in Ei.
    destruct (_ =? 48); [by injection Ei as <- <-|]. destruct (is_digit c) eqn:Ed; [|done].
    injection Ei as Ei. exact (span_digits_split (String c r) _ _ Ei). }
  assert (s2 = f +:+ s3) as ->.
  { destruct s2 as [|c r]; [by injection Ef as <- <-|]. cbn [scan_frac] in Ef.
    destruct (_ =? 46); [|by injection Ef as <- <-].
    destruct (span_digits r) as [d q] eqn:E. destruct (String.eqb d ""); [done|].
    injection Ef as <- <-. apply span_digits_split in E as ->. done. }
  assert (s3 = e +:+ s4) as ->.
  { destruct s3 as [|c r]; [by injection Ee as <- <-|]. cbn [scan_exp] in Ee.
    destruct (bool_decide _); [|by injection Ee as <- <-].
    destruct (take_sign _ r) as [sg' r1] eqn:Es, (span_digits r1) as [d q] eqn:E.
    destruct (String.eqb d ""); [done|]. injection Ee as <- <-.
    apply take_sign_split in Es as ->. apply span_digits_split in E as ->.
    by rewrite string_app_cons, <- sapp_assoc. }
  by rewrite <- !sapp_assoc.
Qed.

(** Well formed, with number literals of at most [N] bytes. *)
Inductive fine (N : nat) : json → Prop :=
  | fine_null : fine N JNull
  | fine_bool b : fine N (JBool b)
  | fine_num l : is_number l → String.length l <= N → fine N (JNum l)
  | fine_str s : ValidString s = true → fine N (JStr s)
  | fine_arr l : Forall (fine N) l → fine N (JArr l)
  | fine_obj o : Forall (λ kv, ValidString kv.1 = true ∧ fine N kv.2) o → fine N (JObj o).

Lemma fine_wf N j : fine N j → wf_json j.
Proof.
  induction j as [|b|l|s|l IH|o IH] using json_ind'; intros H; inversion H; subst; constructor; auto.
  - rewrite Forall_forall in *. auto.
  - rewrite Forall_forall in *. intros kv Hkv. naive_solver.
Qed.

Lemma scan_scalar_fine N s j r : String.length s <= N → scan_scalar s = Some (j, r) → fine N j.
Proof.
  intros HN. unfold scan_scalar. destruct (strip_prefix "null" s); [intros [= <- _]; constructor|].
  destruct (strip_prefix "true" s); [intros [= <- _]; constructor|].
  destruct (strip_prefix "false" s); [intros [= <- _]; constructor|].
  intros ([l q] & H & [= <- _])%bind_Some. pose proof (scan_number_split _ _ _ H) as ->.
  apply scan_number_again in H. rewrite length_sapp in HN. constructor; [done|lia].
Qed.

Lemma parse_fine N n :
  (∀ s j r, String.length s <= N → parse_value n s = Some (j, r) → fine N j)
  ∧ (∀ s l r, String.length s <= N → parse_elems n s = Some (l, r) → Forall (fine N) l)
  ∧ (∀ s o r, String.length s <= N → parse_members n s = Some (o, r) →
       Forall (λ kv, ValidString kv.1 = true ∧ fine N kv.2) o).
Proof.
  induction n as [|n (IHv & IHe & IHm)]; [done|].
  destruct (parse_shorter n) as (Lv & _ & _). split; [|split]; intros s x r HN.
  - cbn [parse_value]. intros ([k q] & Hq%next_char_lt & H)%bind_Some. revert H.
    rewrite value_dispatch. destruct (k =? 123); [|destruct (k =? 91); [|destruct (k =? 34)]].
    + assert (parse_members n q ≫= (λ '(l, r'), Some (JObj l, r')) = Some (x, r) → fine N x) as Hrec.
      { intros ([l' r'] & H%IHm & [= <- _])%bind_Some; [by constructor|lia]. }
      destruct (next_char q) as [[k' q']|]; [|by apply Hrec].
      do 126 (destruct k' as [|k']; [first [by apply Hrec | intros [= <- _]; by repeat constructor]|]).
      by apply Hrec.
    + assert (parse_elems n q ≫= (λ '(l, r'), Some (JArr l, r')) = Some (x, r) → fine N x) as Hrec.
      { intros ([l' r'] & H%IHe & [= <- _])%bind_Some; [by constructor|lia]. }
      destruct (next_char q) as [[k' q']|]; [|by apply Hrec].
      do 94 (destruct k' as [|k']; [first [by apply Hrec | intros [= <- _]; by repeat constructor]|]).
      by apply Hrec.
    + intros ([t r'] & H%parse_string_valid & [= <- _])%bind_Some. by constructor.
    + pose proof (skip_ws_le s). apply scan_scalar_fine. lia.
  - cbn [parse_elems]. intros ([j q] & Hj & ([k q1] & Hq1%next_char_lt & H)%bind_Some)%bind_Some.
    pose proof (Lv _ _ _ Hj). apply IHv in Hj; [|done].
    revert H. do 94 (destruct k as [|k]; [first [done | intros [= <- _]; by repeat constructor
      | intros ([l r'] & H'%IHe & [= <- _])%bind_Some; [by constructor|lia]]|]). done.
  - cbn [parse_members]. intros ([t q] & Ht & ([k q1] & Hq1%next_char_lt & H)%bind_Some)%bind_Some.
    pose proof (parse_string_lt _ _ _ Ht). pose proof (skip_ws_le s). apply parse_string_valid in Ht.
    destruct (k =? 58); [|done]. cbn [negb] in H.
    apply bind_Some in H as ([j q2] & Hj & ([k' q3] & Hq3%next_char_lt & H)%bind_Some).
    pose proof (Lv _ _ _ Hj). apply IHv in Hj; [|lia].
    revert H. do 126 (destruct k' as [|k']; [first [done | intros [= <- _]; by repeat constructor
      | intros ([l r'] & H'%IHm & [= <- _])%bind_Some; [by constructor|lia]]|]). done.
Qed.

Lemma parse_json_fine s j : parse_json s = Some j → fine (String.length s) j.
Proof.
  unfold parse_json. intros ([k r] & H & E)%bind_Some. destruct (String.eqb _ _); [|done].
  injection E as <-. by apply parse_fine with (N := String.length s) in H.
Qed.

(** ** Sorted members *)

#[export] Instance key_le_trans : Transitive key_le.
Proof. intros a b c. unfold key_le. change (String.le a.1 b.1 → String.le b.1 c.1 → String.le a.1 c.1). by intros ->. Qed.
#[export] Instance key_le_total : Total key_le.
Proof. intros a b. apply (total String.le a.1 b.1). Qed.
Lemma key_le_antisym a b : key_le a b → key_le b a → a.1 = b.1.
Proof. intros H1 H2. by apply (anti_symm String.le). Qed.

(** Members with distinct names have one order. *)
Lemma merge_sort_unique (o o' : list (string * json)) :
  NoDup (map fst o) → o ≡ₚ o' → merge_sort key_le o = merge_sort key_le o'.
Proof.
  intros Hn Hp. apply (Sorted_unique_strong key_le).
  - intros x y Hx Hy H1 H2. rewrite merge_sort_Permutation in Hx, Hy. rewrite <- Hp in Hy.
    pose proof (key_le_antisym x y H1 H2) as Hk.
    apply list_elem_of_lookup in Hx as [i Hi], Hy as [k Hk'].
    assert (map fst o !! i = Some x.1) as Ei by (by rewrite list_lookup_fmap, Hi).
    assert (map fst o !! k = Some x.1) as Ek by (rewrite list_lookup_fmap, Hk', Hk; done).
    pose proof (NoDup_lookup _ _ _ _ Hn Ei Ek) as ->. by simplify_eq.
  - apply Sorted_merge_sort, _.
  - apply Sorted_merge_sort, _.
  - by rewrite !merge_sort_Permutation.
Qed.

(** ** The canonical form as a relation *)

Lemma sequence_Forall2 {A B} (f : A → option B) l m :
  sequence (map f l) = Some m ↔ Forall2 (λ x y, f x = Some y) l m.
Proof.
  revert m. induction l as [|x l IH]; intros m; cbn [map sequence].
  - split; [intros [= <-]; constructor|by inversion 1].
  - split.
    + intros (y & Hy & (r & Hr%IH & [= <-])%bind_Some)%bind_Some. by constructor.
    + inversion 1; subst. match goal with H : f x = _ |- _ => rewrite H end. cbn [mbind option_bind].
      match goal with H : Forall2 _ l _ |- _ => apply IH in H as -> end. done.
Qed.

Definition canon_member (kv kw : string * json) : Prop :=
  kv.1 = kw.1 ∧ writeCanonicalValue kv.2 = Some kw.2.

Lemma canon_obj o c :
  writeCanonicalValue (JObj o) = Some c ↔
  NoDup (map fst o) ∧ ∃ m, Forall2 canon_member o m ∧ c = JObj (merge_sort key_le m).
Proof.
  cbn [writeCanonicalValue]. case_bool_decide as Hn; [|split; [done|by intros [? _]]].
  rewrite bind_Some. setoid_rewrite (sequence_Forall2 _ o).
  assert (∀ m, Forall2 (λ x y : string * json,
     (let '(k, v) := x in pair k <$> writeCanonicalValue v) = Some y) o m ↔ Forall2 canon_member o m) as E.
  { intros m. split; intros H; (eapply Forall2_impl; [exact H|]); intros [k v] [k' w];
      unfold canon_member; cbn [fst snd]; rewrite fmap_Some; naive_solver. }
  setoid_rewrite E. naive_solver.
Qed.

Lemma canon_arr l c :
  writeCanonicalValue (JArr l) = Some c ↔
  ∃ m, Forall2 (λ x y, writeCanonicalValue x = Some y) l m ∧ c = JArr m.
Proof.
  cbn [writeCanonicalValue]. rewrite fmap_Some. setoid_rewrite sequence_Forall2. naive_solver.
Qed.

Lemma Forall2_permute {A B} (R : A → B → Prop) l l' m :
  Forall2 R l m → l ≡ₚ l' → ∃ m', m ≡ₚ m' ∧ Forall2 R l' m'.
Proof.
  intros H Hp. revert m H. induction Hp as [|x l l' _ IH|x y l|l1 l2 l3 _ IH1 _ IH2]; intros m H.
  - inversion H; subst. by exists [].
  - inversion H as [|? y ? m0 Hxy Hm]; subst. destruct (IH _ Hm) as (m' & Hp & Hf).
    exists (y :: m'). split; [by constructor|by constructor].
  - inversion H as [|? a ? m0 Ha Hm]; subst. inversion Hm as [|? b ? m1 Hb Hm']; subst.
    exists (b :: a :: m1). split; [constructor|by repeat constructor].
  - destruct (IH1 _ H) as (m2 & P1 & F1). destruct (IH2 _ F1) as (m3 & P2 & F2).
    exists m3. split; [by etransitivity|done].
Qed.

Lemma Forall2_canon_keys o m : Forall2 canon_member o m → map fst o = map fst m.
Proof. induction 1 as [|[] [] ? ? [? _] _ IH]; simpl in *; congruence. Qed.

Lemma merge_sort_keys m : NoDup (map fst m) → NoDup (map fst (merge_sort key_le m)).
Proof. intros H. eapply NoDup_Permutation_proper; [|exact H]. apply (fmap_Permutation fst), merge_sort_Permutation. Qed.

Section small.
Variable N : nat.
Hypothesis HN : (Z.of_nat N < 2 ^ 61)%Z.

Lemma fine_short l : String.length l <= N → short l.
Proof. unfold short. lia. Qed.

(** A canonical value is well formed and its own canonical value. *)
Lemma canon_fixed j c :
  fine N j → writeCanonicalValue j = Some c → wf_json c ∧ writeCanonicalValue c = Some c.
Proof.
  revert c. induction j as [|b|l|s|l IH|o IH] using json_ind'; intros c Hf.
  - intros [= <-]. by split; [constructor|].
  - intros [= <-]. by split; [constructor|].
  - inversion Hf; subst. cbn [writeCanonicalValue]. intros (t & Ht & ->)%fmap_Some.
    assert (short l) as Hs by (by apply fine_short). split.
    + constructor. by eapply normalize_number.
    + cbn [writeCanonicalValue]. by rewrite (normalize_idempotent l t).
  - inversion Hf; subst. intros [= <-]. by split; [constructor|].
  - inversion Hf as [| | | |? Hl|]; subst. intros (m & Hm & ->)%canon_arr.
    assert (Forall wf_json m ∧ Forall2 (λ x y, writeCanonicalValue x = Some y) m m) as [Hw H2].
    { clear Hf. induction Hm as [|x y l m Hxy Hm IHm]; [by split; constructor|].
      apply Forall_cons in IH as [Hx IH], Hl as [Fx Hl]. destruct (IHm IH Hl) as [? ?].
      destruct (Hx y Fx Hxy) as [? ?]. by split; constructor. }
    split; [by constructor|]. apply canon_arr. by exists m.
  - inversion Hf as [| | | | |? Ho]; subst. intros (Hn & m & Hm & ->)%canon_obj.
    pose proof (Forall2_canon_keys _ _ Hm) as Hk. rewrite Hk in Hn.
    assert (Forall (λ kv, ValidString kv.1 = true ∧ wf_json kv.2) m ∧ Forall2 canon_member m m) as [Hw H2].
    { clear Hf Hk Hn. induction Hm as [|x y o m [Hxk Hxy] Hm IHm]; [by split; constructor|].
      apply Forall_cons in IH as [Hx IH], Ho as [[Vx Fx] Ho]. destruct (IHm IH Ho) as [? ?].
      destruct (Hx y.2 Fx Hxy) as [? ?]. split; (constructor; [|done]); split; congruence. }
    split; [constructor; by rewrite merge_sort_Permutation|].
    apply canon_obj. split; [by apply merge_sort_keys|]. exists (merge_sort key_le m). split.
    + rewrite Forall2_same_length_lookup in H2 |- *. destruct H2 as [_ H2]. split; [done|].
      intros i x y Hx Hy. rewrite Hx in Hy. injection Hy as <-.
      assert (x ∈ m) as [k Hk']%list_elem_of_lookup.
      { rewrite <- (merge_sort_Permutation key_le m). by eapply list_elem_of_lookup_2. }
      eauto.
    + f_equal. apply merge_sort_unique; [done|]. by rewrite merge_sort_Permutation.
Qed.
End small.

(** ** Equality of values *)

Inductive json_eqv : json → json → Prop :=
  | eqv_null : json_eqv JNull JNull
  | eqv_bool b : json_eqv (JBool b) (JBool b)
  | eqv_str s : json_eqv (JStr s) (JStr s)
  | eqv_num l1 l2 v1 v2 :
      num_value l1 = Some v1 → num_value l2 = Some v2 → same_value v1 v2 →
      json_eqv (JNum l1) (JNum l2)
  | eqv_arr l1 l2 : Forall2 json_eqv l1 l2 → json_eqv (JArr l1) (JArr l2)
  | eqv_obj o1 o o2 :
      o1 ≡ₚ o → Forall2 (λ kv kw, kv.1 = kw.1 ∧ json_eqv kv.2 kw.2) o o2 →
      json_eqv (JObj o1) (JObj o2).

Section decides.
Variable N : nat.
Hypothesis HN : (Z.of_nat N < 2 ^ 61)%Z.

Definition decides (j : json) : Prop :=
  ∀ k c d, fine N j → fine N k → writeCanonicalValue j = Some c → writeCanonicalValue k = Some d →
  c = d ↔ json_eqv j k.

Lemma decides_list l k m n :
  Forall decides l → Forall (fine N) l → Forall (fine N) k →
  Forall2 (λ x y, writeCanonicalValue x = Some y) l m →
  Forall2 (λ x y, writeCanonicalValue x = Some y) k n →
  m = n ↔ Forall2 json_eqv l k.
Proof.
  intros Hd Hl Hk Hm. revert k n Hk. induction Hm as [|x y l m Hxy Hm IH]; intros k n Hk Hn.
  - destruct Hn; [by split; [constructor|]|]. by split; [|inversion 1].
  - apply Forall_cons in Hd as [Dx Hd], Hl as [Fx Hl].
    destruct Hn as [|u v k n Huv Hn]; [by split; [|inversion 1]|].
    apply Forall_cons in Hk as [Fu Hk]. specialize (IH Hd Hl k n Hk Hn).
    pose proof (Dx u y v Fx Fu Hxy Huv) as Hd'. split.
    + intros [= -> ->]. constructor; [by apply Hd'|by apply IH].
    + inversion 1; subst. f_equal; [by apply Hd'|by apply IH].
Qed.

Lemma decides_members l k m n :
  Forall (λ kv, decides kv.2) l → Forall (λ kv, fine N kv.2) l → Forall (λ kv, fine N kv.2) k →
  Forall2 canon_member l m → Forall2 canon_member k n →
  m = n ↔ Forall2 (λ kv kw, kv.1 = kw.1 ∧ json_eqv kv.2 kw.2) l k.
Proof.
  intros Hd Hl Hk Hm. revert k n Hk. induction Hm as [|x y l m [Hxk Hxy] Hm IH]; intros k n Hk Hn.
  - destruct Hn; [by split; [constructor|]|]. by split; [|inversion 1].
  - apply Forall_cons in Hd as [Dx Hd], Hl as [Fx Hl].
    destruct Hn as [|u v k n [Huk Huv] Hn]; [by split; [|inversion 1]|].
    apply Forall_cons in Hk as [Fu Hk]. specialize (IH Hd Hl k n Hk Hn).
    pose proof (Dx u.2 y.2 v.2 Fx Fu Hxy Huv) as Hd'. split.
    + intros [= -> ->]. constructor; [|by apply IH]. split; [congruence|by apply Hd'].
    + inversion 1 as [|? ? ? ? [E1 E2]]; subst. f_equal; [|by apply IH].
      destruct y, v; simpl in *. f_equal; [congruence|by apply Hd'].
Qed.

Lemma forall_snd o : Forall (λ kv, ValidString kv.1 = true ∧ fine N kv.2) o → Forall (λ kv, fine N kv.2) o.
Proof. intros H. eapply Forall_impl; [exact H|]. intros kv [_ ?]. done. Qed.

Lemma canon_scalar k d :
  writeCanonicalValue k = Some d → match d with JNull | JBool _ | JStr _ => k = d | _ => True end.
Proof.
  destruct k; intros H; [by injection H as <-..| | | |]; [|by injection H as <-|..].
  - by apply fmap_Some in H as (t & _ & ->).
  - by apply canon_arr in H as (m & _ & ->).
  - by apply canon_obj in H as (_ & m & _ & ->).
Qed.

Lemma canon_decides j : decides j.
Proof.
  induction j as [|b|l|s|l IH|o IH] using json_ind'; intros k c d Fj Fk Hc Hd.
  1,2,4: injection Hc as <-; split;
    [intros <-; apply canon_scalar in Hd; rewrite Hd; constructor
    |inversion 1; subst; cbn [writeCanonicalValue] in Hd; congruence].
  - inversion Fj; subst. apply fmap_Some in Hc as (t & Ht & ->).
    destruct k as [| |l2| | |]; try (injection Hd as <-).
    1,2,4: split; [done|by inversion 1].
    + apply fmap_Some in Hd as (t2 & Ht2 & ->). inversion Fk; subst.
      assert (short l ∧ short l2) as [S1 S2] by (by split; eapply fine_short).
      destruct (normalize_value l t S1 Ht) as (_ & _ & _ & v1 & _ & V1 & _ & _).
      destruct (normalize_value l2 t2 S2 Ht2) as (_ & _ & _ & v2 & _ & V2 & _ & _).
      pose proof (normalize_decides l l2 t t2 v1 v2 S1 S2 Ht Ht2 V1 V2) as H. split.
      * intros [= E]. econstructor; [done|done|by apply H].
      * inversion 1; subst. f_equal. apply H. congruence.
    + apply canon_arr in Hd as (m & _ & ->). split; [done|by inversion 1].
    + apply canon_obj in Hd as (_ & m & _ & ->). split; [done|by inversion 1].
  - apply canon_arr in Hc as (m & Hm & ->). destruct k as [| | | |l2|o2].
    1,2,4: injection Hd as <-; split; [done|by inversion 1].
    + apply fmap_Some in Hd as (? & _ & ->). split; [done|by inversion 1].
    + apply canon_arr in Hd as (n & Hn & ->). inversion Fj; subst. inversion Fk; subst.
      pose proof (decides_list l l2 m n IH) as H. split.
      * intros [= E]. constructor. by apply H.
      * inversion 1; subst. f_equal. by apply H.
    + apply canon_obj in Hd as (_ & n & _ & ->). split; [done|by inversion 1].
  - apply canon_obj in Hc as (Nm & m & Hm & ->). destruct k as [| | | |l2|o2].
    1,2,4: injection Hd as <-; split; [done|by inversion 1].
    + apply fmap_Some in Hd as (? & _ & ->). split; [done|by inversion 1].
    + apply canon_arr in Hd as (n & _ & ->). split; [done|by inversion 1].
    + apply canon_obj in Hd as (Nn & n & Hn & ->).
      inversion Fj as [| | | | |? Ho]; subst. inversion Fk as [| | | | |? Ho2]; subst.
      apply forall_snd in Ho, Ho2. split.
      * intros [= E]. assert (m ≡ₚ n) as P.
        { rewrite <- (merge_sort_Permutation key_le m), E. by rewrite merge_sort_Permutation. }
        apply Forall2_flip in Hm. destruct (Forall2_permute _ _ _ _ Hm P) as (o' & Po & Hm').
        apply Forall2_flip in Hm'. apply (eqv_obj o o'); [done|].
        apply (decides_members o' o2 n n); [by rewrite <- Po..|done|done|done|done].
      * inversion 1 as [| | | | |? o' ? Po Ho']; subst.
        destruct (Forall2_permute _ _ _ _ Hm Po) as (m' & Pm & Hm').
        assert (m' = n) as -> by (apply (decides_members o' o2); [by rewrite <- Po..|done|done|done|done]).
        f_equal. apply merge_sort_unique; [|done]. by rewrite <- (Forall2_canon_keys _ _ Hm).
Qed.
End decides.

(** ** Documents as texts *)

Definition text_short (s : string) : Prop := (Z.of_nat (String.length s) < 2 ^ 61)%Z.

Lemma canonicalize_cases s t :
  text_short s → canonicalizeJSON s = Some t →
  ∃ j c, parse_json s = Some j ∧ fine (String.length s) j ∧ writeCanonicalValue j = Some c
    ∧ wf_json c ∧ writeCanonicalValue c = Some c ∧ t = plain_text c.
Proof.
  intros Hs. unfold canonicalizeJSON. intros (j & Hj & (c & Hc & ->)%fmap_Some)%bind_Some.
  pose proof (parse_json_fine s j Hj) as Hf. exists j, c. pose proof (canon_fixed _ Hs j c Hf Hc) as [? ?].
  auto 10.
Qed.

Lemma canonicalize_fixed_point s t :
  text_short s → canonicalizeJSON s = Some t → canonicalizeJSON t = Some t.
Proof.
  intros Hs (j & c & _ & _ & _ & Hw & Hc & ->)%canonicalize_cases; [|done].
  unfold canonicalizeJSON. rewrite parse_plain by done. cbn [mbind option_bind]. by rewrite Hc.
Qed.

Lemma fine_le N M j : fine N j → N <= M → fine M j.
Proof.
  intros H HM. induction j as [|b|l|s|l IH|o IH] using json_ind'; inversion H; subst; constructor; auto.
  - lia.
  - rewrite Forall_forall in *. auto.
  - rewrite Forall_forall in *. naive_solver.
Qed.

Lemma canonicalize_iff s1 s2 t1 t2 j1 j2 :
  text_short s1 → text_short s2 →
  canonicalizeJSON s1 = Some t1 → canonicalizeJSON s2 = Some t2 →
  parse_json s1 = Some j1 → parse_json s2 = Some j2 →
  t1 = t2 ↔ json_eqv j1 j2.
Proof.
  intros S1 S2 (k1 & c1 & P1 & F1 & C1 & W1 & _ & ->)%canonicalize_cases; [|done].
  intros (k2 & c2 & P2 & F2 & C2 & W2 & _ & ->)%canonicalize_cases E1 E2; [|done].
  rewrite E1 in P1. rewrite E2 in P2. injection P1 as <-. injection P2 as <-.
  set (N := max (String.length s1) (String.length s2)).
  assert (Z.of_nat N < 2 ^ 61)%Z as HN by (unfold text_short, N in *; lia).
  rewrite <- (canon_decides N HN j1 j2 c1 c2); [|eapply fine_le; [eassumption|subst N; lia]..|done|done].
  split; [by apply plain_text_inj|by intros ->].
Qed.
