(* ===== verification/Schema.v ===== *)
(** * The JSON Schema subset of skill contracts

    [internal/skillregistry/schema.go] and the strict decoder of [strict.go]:
    [CompileSchema] accepts a schema only when every keyword in it is one this
    package implements; [CheckValue] checks a value against a compiled schema.

    Go's regular expressions are parameters: which texts compile, and which
    strings they match.  [encoding/json] hands back a decoded value; values are
    decoded with [UseNumber] wherever the program calls [CheckValue], so the
    arms for [float64] are left out.  Errors carry prose only: a refusal is
    [None] or [false]. *)

From stdpp Require Import sorting.
From S2P Require Import Prelude GoStrings Json JsonText Canonical CanonicalTheory.

Open Scope nat_scope.
Open Scope list_scope.

(** ** Strict decoding *)

(** Nesting beyond this is refused by [json.Unmarshal]. *)
Definition maxNestingDepth : Z := 10000.
Fixpoint json_depth (j : json) : Z :=
  match j with
  | JArr l => 1 + foldr Z.max 0 (map json_depth l)
  | JObj o => 1 + foldr Z.max 0 (map (λ kv, let '(_, v) := kv in json_depth v) o)
  | _ => 0
  end%Z.

(** The canonical document [decodeStrictOne] decodes from. *)
Definition strict_document (raw : string) : option json :=
  j ← parse_json raw; c ← writeCanonicalValue j;
  if Z.leb (json_depth c) maxNestingDepth then Some c else None.

Definition SupportedSchemaKeywords : list string :=
  ["additionalProperties"; "description"; "enum"; "exclusiveMaximum"; "exclusiveMinimum"; "items";
   "maxItems"; "maxLength"; "maximum"; "minItems"; "minLength"; "minimum"; "pattern"; "properties";
   "required"; "title"; "type"; "uniqueItems"].

Definition keys_within (allowed : list string) (o : jobj) : bool :=
  forallb (λ kv : string * json, bool_decide (kv.1 ∈ allowed)) o.

(** [validateExactObject] on a schema. *)
Fixpoint schema_keys_exact (j : json) : bool :=
  match j with
  | JObj o =>
      forallb (λ kv, let '(k, v) := kv in
        bool_decide (k ∈ SupportedSchemaKeywords)
        && (if String.eqb k "properties" then
              match v with
              | JObj p => forallb (λ nv, let '(_, n) := nv in schema_keys_exact n) p
              | _ => true
              end
            else if String.eqb k "items" then schema_keys_exact v else true)) o
  | _ => true
  end.

(** ** Decoding the fields of [schemaDoc]

    [None] is a type error; an absent key keeps the zero value. *)

Definition field {A} (o : jobj) (key : string) (zero : A) (f : json → option A) : option A :=
  match jlookup o key with None => Some zero | Some v => f v end.

Definition as_string (j : json) : option string :=
  match j with JStr s => Some s | JNull => Some "" | _ => None end.
Definition as_bool (j : json) : option bool :=
  match j with JBool b => Some b | _ => None end.
(** An [int] field: a literal without fraction or exponent. *)
Definition as_int (j : json) : option Z :=
  match j with JNum l => ParseInt l | _ => None end.
Definition as_list {A} (f : json → option A) (j : json) : option (list A) :=
  match j with JArr l => sequence (map f l) | _ => None end.

(** ** Numbers as exact rationals *)

(** [big.Rat.SetString] on a literal: [m] times ten to the [e]; a huge exponent
    is refused unless the number is zero. *)
Definition exactRuntimeNumber (literal : string) : option (Z * Z) :=
  '(m, e) ← num_value literal;
  if Z.eqb m 0 then Some (0, 0)%Z
  else if Z.ltb 1000000 (Z.abs e) then None else Some (m, e).

(** [Rat.Cmp] *)
Definition rat_cmp (a b : Z * Z) : comparison :=
  let e := Z.min a.2 b.2 in Z.compare (a.1 * 10 ^ (a.2 - e)) (b.1 * 10 ^ (b.2 - e)).
Definition rat_is_int (a : Z * Z) : bool :=
  Z.leb 0 a.2 || Z.eqb (a.1 mod 10 ^ (- a.2)) 0.

Definition schemaNumber (j : json) : option (Z * Z) :=
  match j with JNum l => exactRuntimeNumber l | _ => None end.

(** ** Compilation *)

Definition schemaTypeVocabulary : list string :=
  ["object"; "array"; "string"; "number"; "integer"; "boolean"; "null"].

(** The fields of [compiledSchema] that hold no schema. *)
Record schemaDoc : Type := mkSchemaDoc {
  sd_types : list string;
  sd_required : list string;
  sd_additional : option bool;
  sd_minItems : option Z;
  sd_maxItems : option Z;
  sd_uniqueItems : bool;
  sd_minLength : option Z;
  sd_maxLength : option Z;
  sd_pattern : option string;
  sd_minimum : option (Z * Z);
  sd_maximum : option (Z * Z);
  sd_exclusiveMinimum : option (Z * Z);
  sd_exclusiveMaximum : option (Z * Z);
  sd_enum : list json;
}.

Inductive compiledSchema : Type :=
  | mkCompiled (doc : schemaDoc) (properties : list (string * compiledSchema))
      (items : option compiledSchema).

Definition compile_types (j : json) : option (list string) :=
  match j with
  | JStr t => if bool_decide (t ∈ schemaTypeVocabulary) then Some [t] else None
  | JArr [] => None
  | JArr l =>
      sequence (map (λ e, match e with
                          | JStr t => if bool_decide (t ∈ schemaTypeVocabulary) then Some t else None
                          | _ => None
                          end) l)
  | _ => None
  end.

Definition required_ok (required properties : list string) : bool :=
  forallb (λ name, negb (String.eqb name "")) required
  && bool_decide (NoDup required)
  && (match properties with [] => true | _ => false end
      || forallb (λ name, bool_decide (name ∈ properties)) required).

Definition non_negative (v : option Z) : bool :=
  match v with Some n => Z.leb 0 n | None => true end.
Definition ordered (lo hi : option Z) : bool :=
  match lo, hi with Some a, Some b => Z.leb a b | _, _ => true end.

Section regexps.
Variable regexp_compiles : string → bool.
Variable regexp_matches : string → string → bool.

(** The fields of one node, with the names its [properties] define. *)
Definition compile_doc (o : jobj) (properties : list string) : option schemaDoc :=
  types ← field o "type" [] compile_types;
  required ← field o "required" [] (as_list as_string);
  additional ← field o "additionalProperties" None (λ j, Some <$> as_bool j);
  minItems ← field o "minItems" None (λ j, Some <$> as_int j);
  maxItems ← field o "maxItems" None (λ j, Some <$> as_int j);
  uniqueItems ← field o "uniqueItems" false as_bool;
  minLength ← field o "minLength" None (λ j, Some <$> as_int j);
  maxLength ← field o "maxLength" None (λ j, Some <$> as_int j);
  pattern ← field o "pattern" None (λ j, Some <$> as_string j);
  minimum ← field o "minimum" None (λ j, Some <$> schemaNumber j);
  maximum ← field o "maximum" None (λ j, Some <$> schemaNumber j);
  exMinimum ← field o "exclusiveMinimum" None (λ j, Some <$> schemaNumber j);
  exMaximum ← field o "exclusiveMaximum" None (λ j, Some <$> schemaNumber j);
  enum ← field o "enum" None (λ j, Some <$> as_list Some j);
  _ ← field o "title" "" as_string;
  _ ← field o "description" "" as_string;
  if required_ok required properties
     && non_negative minItems && non_negative maxItems
     && non_negative minLength && non_negative maxLength
     && ordered minItems maxItems && ordered minLength maxLength
     && match pattern with Some p => regexp_compiles p | None => true end
     && match minimum, maximum with
        | Some a, Some b => match rat_cmp a b with Gt => false | _ => true end
        | _, _ => true
        end
     && match enum with
        | Some [] => false
        | Some l => bool_decide (NoDup (map plain_text l))
        | None => true
        end
  then Some (mkSchemaDoc types required additional minItems maxItems uniqueItems minLength
               maxLength pattern minimum maximum exMinimum exMaximum (default [] enum))
  else None.

(** [compileSchema] of a canonical node; the nodes below it are canonical, so
    canonicalizing them again, as the Go does, changes nothing
    ([CanonicalTheory.canon_fixed]). *)
Fixpoint compile_node (j : json) : option compiledSchema :=
  match j with
  | JObj o =>
      if negb (schema_keys_exact (JObj o)) then None
      else if existsb (λ kv, match kv.2 with JNull => true | _ => false end) o then None
      else
        properties ← (fix find (l : list (string * json)) :=
           match l with
           | [] => Some []
           | (k, v) :: l =>
               if String.eqb k "properties" then
                 match v with
                 | JObj p => sequence (map (λ nv, let '(n, s) := nv in pair n <$> compile_node s) p)
                 | _ => None
                 end
               else find l
           end) o;
        items ← (fix find (l : list (string * json)) :=
           match l with
           | [] => Some None
           | (k, v) :: l => if String.eqb k "items" then Some <$> compile_node v else find l
           end) o;
        doc ← compile_doc o (map fst properties);
        Some (mkCompiled doc properties items)
  | _ => None
  end.

Definition CompileSchema (raw : string) : option compiledSchema :=
  c ← strict_document raw; compile_node c.

(** ** Checking a value *)

(** [map[string]any] of an object: the last of each name, in the order of
    names. *)
Fixpoint decode_any (j : json) : json :=
  match j with
  | JArr l => JArr (map decode_any l)
  | JObj o =>
      JObj (merge_sort key_le (map_to_list (list_to_map (M := gmap string json)
              (reverse (map (λ kv, let '(k, v) := kv in (k, decode_any v)) o)))))
  | _ => j
  end.

(** [decodeOneValue] of [internal/workflow/validate.go] *)
Definition decodeOneValue (raw : string) : option json :=
  j ← parse_json raw;
  if Z.leb (json_depth j) maxNestingDepth then Some (decode_any j) else None.

Definition jsonTypeName (value : json) : string :=
  match value with
  | JNull => "null"
  | JBool _ => "boolean"
  | JStr _ => "string"
  | JArr _ => "array"
  | JObj _ => "object"
  | JNum l =>
      match exactRuntimeNumber l with
      | None => "unknown"
      | Some r => if negb (containsAny l ".eE") || rat_is_int r then "integer" else "number"
      end
  end.

Definition typeMatches (types : list string) (value : json) : bool :=
  let jsonType := jsonTypeName value in
  existsb (λ t, String.eqb t jsonType || String.eqb t "number" && String.eqb jsonType "integer") types.

Fixpoint semanticJSONEqual (a b : json) : bool :=
  match a, b with
  | JObj av, JObj bv =>
      Nat.eqb (length av) (length bv)
      && forallb (λ kv, let '(k, v) := kv in
           match jlookup bv k with Some w => semanticJSONEqual v w | None => false end) av
  | JArr av, JArr bv =>
      (fix pairwise (l m : list json) : bool :=
         match l, m with
         | [], [] => true
         | x :: l, y :: m => semanticJSONEqual x y && pairwise l m
         | _, _ => false
         end) av bv
  | JNum x, JNum y =>
      match exactRuntimeNumber x, exactRuntimeNumber y with
      | Some r, Some q => match rat_cmp r q with Eq => true | _ => false end
      | _, _ => false
      end
  | JStr x, JStr y => String.eqb x y
  | JBool x, JBool y => Bool.eqb x y
  | JNull, JNull => true
  | _, _ => false
  end.

(** [uniqueItemsKey] *)
Definition uniqueItemsKey (v : json) : option string := plain_text <$> writeCanonicalValue v.

Definition items_unique (l : list json) : bool :=
  match sequence (map uniqueItemsKey l) with
  | Some keys => bool_decide (NoDup keys)
  | None => false
  end.

Definition at_least (n : Z) (lo : option Z) : bool :=
  match lo with Some m => Z.leb m n | None => true end.
Definition at_most (n : Z) (hi : option Z) : bool :=
  match hi with Some m => Z.leb n m | None => true end.

Definition bound_ok (n : Z * Z) (bound : option (Z * Z)) (p : comparison → bool) : bool :=
  match bound with Some m => p (rat_cmp n m) | None => true end.

Definition number_ok (d : schemaDoc) (n : Z * Z) : bool :=
  bound_ok n (sd_minimum d) (λ c, match c with Lt => false | _ => true end)
  && bound_ok n (sd_maximum d) (λ c, match c with Gt => false | _ => true end)
  && bound_ok n (sd_exclusiveMinimum d) (λ c, match c with Gt => true | _ => false end)
  && bound_ok n (sd_exclusiveMaximum d) (λ c, match c with Lt => true | _ => false end).

(** [s.check(value, path)]; the child schemas are checked where they apply. *)
Fixpoint check (s : compiledSchema) (value : json) : bool :=
  match s with
  | mkCompiled d properties items =>
      (match sd_types d with [] => true | ts => typeMatches ts value end)
      && (match sd_enum d with
          | [] => true
          | l => existsb (semanticJSONEqual value) l
          end)
      && match value with
         | JObj o =>
             forallb (λ name, bool_decide (is_Some (jlookup o name))) (sd_required d)
             && forallb (λ kv : string * json,
                  (fix child (ps : list (string * compiledSchema)) : bool :=
                     match ps with
                     | [] => negb (bool_decide (sd_additional d = Some false))
                     | (n, c) :: ps => if String.eqb n kv.1 then check c kv.2 else child ps
                     end) properties) o
         | JArr l =>
             at_least (Z.of_nat (length l)) (sd_minItems d)
             && at_most (Z.of_nat (length l)) (sd_maxItems d)
             && (negb (sd_uniqueItems d) || items_unique l)
             && match items with Some c => forallb (check c) l | None => true end
         | JStr v =>
             at_least (Z.of_nat (RuneCountInString v)) (sd_minLength d)
             && at_most (Z.of_nat (RuneCountInString v)) (sd_maxLength d)
             && match sd_pattern d with Some p => regexp_matches p v | None => true end
         | JNum l =>
             match exactRuntimeNumber l with Some n => number_ok d n | None => false end
         | _ => true
         end
  end.

Definition CheckValue (s : compiledSchema) (value : json) : bool := check s value.
End regexps.
