(* ===== verification/SchemaTheory.v ===== *)
(** * The schema subset: theory

    Equality of decoded values is the equality canonical forms decide; what the
    compiler has established of a schema it accepts; and the check of a value
    against the reading of the keywords JSON Schema gives them. *)

From stdpp Require Import sorting.
From Stdlib Require Import Ascii.
From S2P Require Import Prelude GoStrings Json JsonText Canonical.
From S2P Require Import CanonicalTheory Schema.

Open Scope nat_scope.
Open Scope list_scope.

(** ** Objects as finite maps *)

Lemma jlookup_Some o k v : NoDup (map fst o) → jlookup o k = Some v ↔ (k, v) ∈ o.
Proof.
  revert v. induction o as [|[k' w] o IH]; cbn [map fst jlookup]; intros v Hn.
  - split; [done|by intros ?%not_elem_of_nil].
  - apply NoDup_cons in Hn as [Hk Hn]. pose proof (λ v, IH v Hn) as IHv. rewrite elem_of_cons.
    destruct (jlookup o k) as [x|] eqn:E.
    + rewrite <- (IHv v). split; [by right|]. intros [[= -> ->]|H]; [|done].
      exfalso. apply Hk. assert ((k', x) ∈ o) as Hin by (by apply IHv).
      apply (list_elem_of_fmap_2 fst) in Hin. done.
    + destruct (String.eqb_spec k' k) as [->|Hne].
      * split; [intros [= ->]; by left|]. intros [[= ->]|H%IHv]; [done|done].
      * split; [done|]. intros [[= -> ->]|H%IHv]; [done|done].
Qed.

(** ** Exact values *)

(** Decoded values whose numbers are within the reach of [big.Rat]. *)
Inductive exact : json → Prop :=
  | ex_null : exact JNull
  | ex_bool b : exact (JBool b)
  | ex_str s : exact (JStr s)
  | ex_num l r : exactRuntimeNumber l = Some r → exact (JNum l)
  | ex_arr l : Forall exact l → exact (JArr l)
  | ex_obj o : NoDup (map fst o) → Forall (λ kv, exact kv.2) o → exact (JObj o).

Lemma exact_value l r :
  exactRuntimeNumber l = Some r → ∃ v, num_value l = Some v ∧ same_value v r.
Proof.
  unfold exactRuntimeNumber. intros ([m e] & Hv & H)%bind_Some. exists (m, e). split; [done|].
  destruct (Z.eqb_spec m 0) as [->|]; [injection H as <-; unfold same_value; simpl; lia|].
  destruct (Z.ltb _ _); by simplify_eq.
Qed.

Lemma rat_cmp_eq a b : rat_cmp a b = Eq ↔ same_value a b.
Proof. unfold rat_cmp, same_value. apply Z.compare_eq_iff. Qed.

Lemma same_number x y r q :
  exactRuntimeNumber x = Some r → exactRuntimeNumber y = Some q →
  rat_cmp r q = Eq ↔ json_eqv (JNum x) (JNum y).
Proof.
  intros (v & Hv & Ev)%exact_value (w & Hw & Ew)%exact_value. rewrite rat_cmp_eq. split.
  - intros H. econstructor; [done|done|]. by rewrite Ev, Ew.
  - inversion 1; subst. simplify_eq. by rewrite <- Ev, <- Ew.
Qed.

Definition equality_decided (a : json) : Prop :=
  ∀ b, exact a → exact b → semanticJSONEqual a b = true ↔ json_eqv a b.

Lemma semantic_objects av bv :
  Forall (λ kv, equality_decided kv.2) av → exact (JObj av) → exact (JObj bv) →
  semanticJSONEqual (JObj av) (JObj bv) = true ↔ json_eqv (JObj av) (JObj bv).
Proof.
  intros IH Ha Hb. inversion Ha as [| | | | |? Na Ea]; subst. inversion Hb as [| | | | |? Nb Eb]; subst.
  rewrite Forall_forall in IH, Ea, Eb. cbn [semanticJSONEqual].
  rewrite andb_true_iff, Nat.eqb_eq, forallb_forall. split.
  - intros [Hl Hf].
    assert (Forall2 (λ kv kw, kv.1 = kw.1 ∧ json_eqv kv.2 kw.2 ∧ kw ∈ bv) av
              (map (λ kv, (kv.1, default JNull (jlookup bv kv.1))) av)) as H2.
    { apply Forall2_fmap_r, Forall_Forall2_diag, Forall_forall. intros [k v] Hin. simpl.
      specialize (Hf _ (proj1 (list_elem_of_In _ _) Hin)). cbn in Hf.
      destruct (jlookup bv k) as [w|] eqn:Ew; [|done]. apply jlookup_Some in Ew; [|done].
      split; [done|]. split; [|exact Ew].
      apply (IH (k, v)); [done|by apply (Ea (k, v))|by apply (Eb (k, w))|exact Hf]. }
    set (m := map _ av) in H2.
    assert (map fst m = map fst av) as Hk by (subst m; rewrite map_map; done).
    assert (m ≡ₚ bv) as Hp.
    { apply submseteq_length_Permutation; [|subst m; rewrite length_map; lia].
      apply NoDup_submseteq; [apply (NoDup_fmap_1 fst); change (NoDup (map fst m)); by rewrite Hk|].
      intros x Hx. apply list_elem_of_lookup in Hx as [i Hi].
      destruct (Forall2_lookup_r _ _ _ _ _ H2 Hi) as (y & _ & _ & _ & ?). done. }
    apply Forall2_flip in H2. destruct (Forall2_permute _ _ _ _ H2 Hp) as (o & Ho & H3).
    apply (eqv_obj av o bv); [done|]. apply Forall2_flip in H3.
    eapply Forall2_impl; [exact H3|]. cbn. tauto.
  - inversion 1 as [| | | | |? o ? Hp H2]; subst. split.
    { rewrite Hp. by apply Forall2_length in H2. }
    intros [k v] Hin. apply list_elem_of_In in Hin. assert ((k, v) ∈ o) as Ho by (by rewrite <- Hp).
    apply list_elem_of_lookup in Ho as [i Hi].
    destruct (Forall2_lookup_l _ _ _ _ _ H2 Hi) as ([k' w] & Hw & Hk & He). cbn [fst snd] in *. subst k'.
    apply list_elem_of_lookup_2 in Hw. rewrite (proj2 (jlookup_Some bv k w Nb)) by done.
    apply (IH (k, v)); [done|by apply (Ea (k, v))|by apply (Eb (k, w))|done].
Qed.

(** The equality of the checks is equality of values. *)
Lemma semantic_equal_iff a : equality_decided a.
Proof.
  induction a as [|b|l|s|l IH|o IH] using json_ind'; intros c Ha Hc.
  - destruct c; cbn; (split; [by intros|by inversion 1]) || (split; [constructor|done]).
  - destruct c; cbn; try (split; [done|by inversion 1]).
    rewrite eqb_true_iff. split; [intros ->; constructor|by inversion 1].
  - destruct c as [| |y| | |]; cbn [semanticJSONEqual]; try (split; [done|by inversion 1]).
    inversion Ha as [| | |? r Hr| |]; subst. inversion Hc as [| | |? q Hq| |]; subst. rewrite Hr, Hq.
    rewrite <- (same_number l y r q Hr Hq). by destruct (rat_cmp r q).
  - destruct c; cbn; try (split; [done|by inversion 1]).
    rewrite String.eqb_eq. split; [intros ->; constructor|by inversion 1].
  - destruct c as [| | | |m|]; try (split; [done|by inversion 1]).
    inversion Ha as [| | | |? Hl|]; subst. inversion Hc as [| | | |? Hm|]; subst. clear Ha Hc.
    transitivity (Forall2 json_eqv l m); [|split; [by constructor|by inversion 1]].
    revert m Hm. induction IH as [|x l Hx IH IH']; intros [|y m] Hm; cbn in *.
    + by split.
    + split; [done|by inversion 1].
    + split; [done|by inversion 1].
    + apply Forall_cons in Hl as [Fx Hl], Hm as [Fy Hm]. rewrite andb_true_iff, (Hx y Fx Fy).
      specialize (IH' Hl m Hm). cbn in IH'. rewrite IH'.
      split; [intros [? ?]; by constructor|inversion 1; by subst].
  - destruct c as [| | | | |bv]; try (split; [done|by inversion 1]). by apply semantic_objects.
Qed.

(** ** Canonical values are exact *)

Lemma canonical_number_exact l t :
  short l → normalizeJSONNumber l = Some t → ∃ r, exactRuntimeNumber t = Some r.
Proof.
  intros Hl (neg & d & e & v & Ht & _ & _ & [[_ ->]|(Hne & [He Hd] & ->)])%normalize_value;
    [by eexists| |done].
  destruct (render_shape neg d e Ht Hne He Hd) as (w & f & k & -> & Hw & Hnw & Hf & _ & _ & _ & _ & Hb).
  unfold exactRuntimeNumber, num_value. rewrite split_plain by done. cbn [mbind option_bind].
  destruct (Z.eqb _ 0); [by eexists|]. rewrite (proj2 (Z.ltb_ge _ _)) by lia. by eexists.
Qed.

Lemma canon_exact N j c :
  (Z.of_nat N < 2 ^ 61)%Z → fine N j → writeCanonicalValue j = Some c → exact c.
Proof.
  intros HN. revert c. induction j as [|b|l|s|l IH|o IH] using json_ind'; intros c Hf.
  1,2,4: intros [= <-]; constructor.
  - inversion Hf; subst. intros (t & Ht & ->)%fmap_Some.
    destruct (canonical_number_exact l t) as [r Hr]; [by eapply fine_short|done|]. by econstructor.
  - inversion Hf as [| | | |? Hl|]; subst. intros (m & Hm & ->)%canon_arr. constructor. clear Hf.
    induction Hm as [|x y l m Hxy Hm IHm]; [constructor|].
    apply Forall_cons in IH as [Hx IH], Hl as [Fx Hl]. constructor; auto.
  - inversion Hf as [| | | | |? Ho]; subst. intros (Hn & m & Hm & ->)%canon_obj.
    rewrite (Forall2_canon_keys _ _ Hm) in Hn.
    constructor; [by apply merge_sort_keys|]. rewrite merge_sort_Permutation. clear Hf Hn.
    induction Hm as [|x y o m [_ Hxy] Hm IHm]; [constructor|].
    apply Forall_cons in IH as [Hx IH], Ho as [[_ Fx] Ho]. constructor; auto.
Qed.

(** ** What the compiler accepted *)

(** [n] is a schema node of the document [j]. *)
Inductive schema_node (j : json) : json → Prop :=
  | node_root : schema_node j j
  | node_property o p name n :
      schema_node j (JObj o) → ("properties", JObj p) ∈ o → (name, n) ∈ p → schema_node j n
  | node_items o n :
      schema_node j (JObj o) → ("items", n) ∈ o → schema_node j n.

(** The two lookups of [compile_node]. *)
Definition find_properties (compile : json → option compiledSchema) (o : list (string * json))
  : option (list (string * compiledSchema)) :=
  (fix find (l : list (string * json)) :=
     match l with
     | [] => Some []
     | (k, v) :: l =>
         if String.eqb k "properties" then
           match v with
           | JObj p => sequence (map (λ nv, let '(n, s) := nv in pair n <$> compile s) p)
           | _ => None
           end
         else find l
     end) o.

Definition find_items (compile : json → option compiledSchema) (o : list (string * json))
  : option (option compiledSchema) :=
  (fix find (l : list (string * json)) :=
     match l with
     | [] => Some None
     | (k, v) :: l => if String.eqb k "items" then Some <$> compile v else find l
     end) o.

Section compiled.
Variable regexp_compiles : string → bool.
Notation compile_node := (compile_node regexp_compiles).

Lemma compile_node_obj o s :
  compile_node (JObj o) = Some s →
  schema_keys_exact (JObj o) = true ∧ (∀ k, (k, JNull) ∉ o)
  ∧ ∃ ps it d, find_properties compile_node o = Some ps ∧ find_items compile_node o = Some it
      ∧ compile_doc regexp_compiles o (map fst ps) = Some d ∧ s = mkCompiled d ps it.
Proof.
  intros H.
  assert (compile_node (JObj o) =
    if negb (schema_keys_exact (JObj o)) then None
    else if existsb (λ kv : string * json, match kv.2 with JNull => true | _ => false end) o then None
    else ps ← find_properties compile_node o; it ← find_items compile_node o;
         d ← compile_doc regexp_compiles o (map fst ps); Some (mkCompiled d ps it)) as E by done.
  rewrite E in H. clear E. destruct (schema_keys_exact _); [|done]. cbn [negb] in H.
  destruct (existsb _ o) eqn:Ex; [done|]. split; [done|]. split.
  { intros k Hk. apply not_true_iff_false in Ex. apply Ex, existsb_exists. exists (k, JNull).
    by rewrite <- list_elem_of_In. }
  apply bind_Some in H as (ps & Hp & (it & Hi & (d & Hd & [= <-])%bind_Some)%bind_Some).
  by exists ps, it, d.
Qed.

Lemma compile_obj j s : compile_node j = Some s → ∃ o, j = JObj o.
Proof. destruct j as [| | | | |o]; try done. by exists o. Qed.

Lemma find_property o ps p name n :
  NoDup (map fst o) → find_properties compile_node o = Some ps →
  ("properties", JObj p) ∈ o → (name, n) ∈ p → ∃ c, (name, c) ∈ ps ∧ compile_node n = Some c.
Proof.
  induction o as [|[k v] o IH]; [by intros _ _ ?%not_elem_of_nil|].
  cbn [map fst find_properties]. intros Hn Hf Hin Hp. apply NoDup_cons in Hn as [Hk Hn].
  destruct (String.eqb_spec k "properties") as [->|Hne].
  - apply elem_of_cons in Hin as [[= <-]|Hin].
    2: { apply (list_elem_of_fmap_2 fst) in Hin. done. }
    apply sequence_Forall2 in Hf. apply list_elem_of_lookup in Hp as [i Hi].
    destruct (Forall2_lookup_l _ _ _ _ _ Hf Hi) as ([m c] & Hc & (c' & Hc' & [= <- <-])%fmap_Some).
    exists c. split; [by eapply list_elem_of_lookup_2|done].
  - apply IH; [done|done| |done]. apply elem_of_cons in Hin as [[= ]|]; [congruence|done].
Qed.

Lemma find_item o it n :
  NoDup (map fst o) → find_items compile_node o = Some it → ("items", n) ∈ o →
  ∃ c, it = Some c ∧ compile_node n = Some c.
Proof.
  induction o as [|[k v] o IH]; [by intros _ _ ?%not_elem_of_nil|].
  cbn [map fst find_items]. intros Hn Hf Hin. apply NoDup_cons in Hn as [Hk Hn].
  destruct (String.eqb_spec k "items") as [->|Hne].
  - apply elem_of_cons in Hin as [[= <-]|Hin].
    2: { apply (list_elem_of_fmap_2 fst) in Hin. done. }
    apply fmap_Some in Hf as (c & Hc & ->). by exists c.
  - apply IH; [done|done|]. apply elem_of_cons in Hin as [[= ]|]; [congruence|done].
Qed.

Lemma exact_parts o : exact (JObj o) → NoDup (map fst o) ∧ ∀ k v, (k, v) ∈ o → exact v.
Proof.
  inversion 1 as [| | | | |? Hn Ho]; subst. split; [done|]. intros k v Hin.
  by apply (proj1 (Forall_forall _ _) Ho (k, v)).
Qed.

(** Every schema node of a compiled document compiles. *)
Lemma nodes_compile j s :
  exact j → compile_node j = Some s →
  ∀ n, schema_node j n → exact n ∧ ∃ c, compile_node n = Some c.
Proof.
  intros Hj Hs n Hn. induction Hn as [|o p name n _ [Ho (c & Hc)] Hp Hin|o n _ [Ho (c & Hc)] Hin].
  - by eauto.
  - apply exact_parts in Ho as [Hn Hv]. pose proof (Hv _ _ Hp) as [_ Hv']%exact_parts.
    split; [by eapply Hv'|].
    apply compile_node_obj in Hc as (_ & _ & ps & it & d & Hps & _).
    destruct (find_property o ps p name n Hn Hps Hp Hin) as (c' & _ & ?). by exists c'.
  - apply exact_parts in Ho as [Hn Hv]. split; [by eapply Hv|].
    apply compile_node_obj in Hc as (_ & _ & ps & it & d & _ & Hit & _).
    destruct (find_item o it n Hn Hit Hin) as (c' & _ & ?). by exists c'.
Qed.

Lemma exact_keys o k v :
  schema_keys_exact (JObj o) = true → (k, v) ∈ o → k ∈ SupportedSchemaKeywords.
Proof.
  cbn [schema_keys_exact]. rewrite forallb_forall. intros H Hin.
  specialize (H _ (proj1 (list_elem_of_In _ _) Hin)). cbn in H.
  apply andb_true_iff in H as [H _]. by apply bool_decide_eq_true in H.
Qed.

Lemma strict_document_exact raw c :
  text_short raw → strict_document raw = Some c →
  exact c ∧ wf_json c ∧ writeCanonicalValue c = Some c.
Proof.
  intros Hs. unfold strict_document. intros (j & Hj & (c' & Hc & H)%bind_Some)%bind_Some.
  destruct (Z.leb _ _); [|done]. injection H as ->. pose proof (parse_json_fine _ _ Hj) as Hf.
  split; [by eapply canon_exact|by eapply canon_fixed].
Qed.

(** Fail closed: every keyword of every node is implemented, and none is null. *)
Lemma compile_closed raw s :
  text_short raw → CompileSchema regexp_compiles raw = Some s →
  ∃ c, strict_document raw = Some c ∧
  ∀ n, schema_node c n → ∃ o, n = JObj o ∧ ∀ k v, (k, v) ∈ o → k ∈ SupportedSchemaKeywords ∧ v ≠ JNull.
Proof.
  intros Hs. unfold CompileSchema. intros (c & Hc & Hn)%bind_Some. exists c. split; [done|].
  apply strict_document_exact in Hc as (He & _); [|done]. intros n Hnode.
  destruct (nodes_compile c s He Hn n Hnode) as [_ (t & Ht)].
  destruct (compile_obj _ _ Ht) as [o ->]. exists o. split; [done|]. intros k v Hin.
  apply compile_node_obj in Ht as (Hk & Hnull & _). split; [by eapply exact_keys|].
  intros ->. by apply (Hnull k).
Qed.
End compiled.

(** ** What a schema says of a value *)

Lemma compiled_ind' (P : compiledSchema → Prop) :
  (∀ d ps it, Forall (λ nc, P nc.2) ps → (∀ c, it = Some c → P c) → P (mkCompiled d ps it)) →
  ∀ s, P s.
Proof.
  intros H. fix IH 1. intros [d ps it]. apply H.
  - induction ps as [|[n c] ps IHps]; constructor; [apply IH|exact IHps].
  - intros c. destruct it as [c'|]; [|clear IH; done]. pose proof (IH c') as Hc. clear IH.
    by intros [= <-].
Qed.

Definition has_type (t : string) (v : json) : Prop :=
  match v with
  | JNull => t = "null"
  | JBool _ => t = "boolean"
  | JStr _ => t = "string"
  | JArr _ => t = "array"
  | JObj _ => t = "object"
  | JNum l => t = "number" ∨ t = "integer" ∧ ∃ v z, num_value l = Some v ∧ same_value v (z, 0%Z)
  end.

Definition value_le (a b : Z * Z) : Prop :=
  (let e := Z.min a.2 b.2 in a.1 * 10 ^ (a.2 - e) <= b.1 * 10 ^ (b.2 - e))%Z.

Definition within_bounds (d : schemaDoc) (n : Z * Z) : Prop :=
  (∀ m, sd_minimum d = Some m → value_le m n) ∧
  (∀ m, sd_maximum d = Some m → value_le n m) ∧
  (∀ m, sd_exclusiveMinimum d = Some m → ¬ value_le n m) ∧
  (∀ m, sd_exclusiveMaximum d = Some m → ¬ value_le m n).

Definition size_within (n : Z) (lo hi : option Z) : Prop :=
  (∀ m, lo = Some m → m <= n)%Z ∧ (∀ m, hi = Some m → n <= m)%Z.

(** No two items are the same value. *)
Definition distinct (l : list json) : Prop :=
  ∀ i k x y, l !! i = Some x → l !! k = Some y → i ≠ k → ¬ json_eqv x y.

Section conforms.
Variable regexp_matches : string → string → bool.

(** The reading of the keywords, given one of [uniqueItems]: numbers and equality
    are those of values, not of spellings. *)
Section unique.
Variable unique : list json → Prop.
Fixpoint conforms_by (s : compiledSchema) (v : json) : Prop :=
  match s with
  | mkCompiled d properties items =>
      (sd_types d = [] ∨ ∃ t, t ∈ sd_types d ∧ has_type t v)
      ∧ (sd_enum d = [] ∨ ∃ e, e ∈ sd_enum d ∧ json_eqv v e)
      ∧ match v with
        | JObj o =>
            (∀ name, name ∈ sd_required d → name ∈ map fst o)
            ∧ ∀ k x, (k, x) ∈ o →
                (fix child (ps : list (string * compiledSchema)) : Prop :=
                   match ps with
                   | [] => sd_additional d ≠ Some false
                   | (n, c) :: ps => if String.eqb n k then conforms_by c x else child ps
                   end) properties
        | JArr l =>
            size_within (Z.of_nat (length l)) (sd_minItems d) (sd_maxItems d)
            ∧ (sd_uniqueItems d = true → unique l)
            ∧ match items with Some c => ∀ x, x ∈ l → conforms_by c x | None => True end
        | JStr t =>
            size_within (Z.of_nat (RuneCountInString t)) (sd_minLength d) (sd_maxLength d)
            ∧ ∀ p, sd_pattern d = Some p → regexp_matches p t = true
        | JNum l => ∃ n, num_value l = Some n ∧ within_bounds d n
        | _ => True
        end
  end.

End unique.

(** JSON Schema's reading. *)
Definition conforms : compiledSchema → json → Prop := conforms_by distinct.

(** What the check decides: the items also have canonical forms, which it
    compares. *)
Definition canonical (x : json) : Prop := is_Some (writeCanonicalValue x).
Definition accepted : compiledSchema → json → Prop :=
  conforms_by (λ l, (∀ x, x ∈ l → canonical x) ∧ distinct l).

(** Every [enum] of the schema and of its children holds exact values. *)
Fixpoint enums_exact (s : compiledSchema) : Prop :=
  match s with
  | mkCompiled d properties items =>
      Forall exact (sd_enum d)
      ∧ (fix all (ps : list (string * compiledSchema)) : Prop :=
           match ps with [] => True | (_, c) :: ps => enums_exact c ∧ all ps end) properties
      ∧ match items with Some c => enums_exact c | None => True end
  end.

(** *** The keywords one by one *)

Lemma value_le_at k a b :
  (k <= a.2 → k <= b.2 → value_le a b ↔ a.1 * 10 ^ (a.2 - k) <= b.1 * 10 ^ (b.2 - k))%Z.
Proof.
  intros Ha Hb. unfold value_le. set (e := Z.min a.2 b.2).
  assert (∀ x, (e <= x → 10 ^ (x - k) = 10 ^ (x - e) * 10 ^ (e - k))%Z) as Hp.
  { intros x Hx. rewrite <- Z.pow_add_r by lia. f_equal. lia. }
  rewrite (Hp a.2), (Hp b.2), !Z.mul_assoc by lia.
  assert (0 < 10 ^ (e - k))%Z by (apply Z.pow_pos_nonneg; lia). nia.
Qed.

#[export] Instance value_le_proper : Proper (same_value ==> same_value ==> iff) value_le.
Proof.
  intros a a' Ha b b' Hb.
  set (k := Z.min (Z.min a.2 a'.2) (Z.min b.2 b'.2)).
  rewrite (value_le_at k a b), (value_le_at k a' b') by lia.
  rewrite (same_value_at k) in Ha, Hb by lia. by rewrite Ha, Hb.
Qed.

Lemma rat_cmp_le a b : rat_cmp a b ≠ Gt ↔ value_le a b.
Proof. unfold rat_cmp, value_le. by rewrite Z.compare_le_iff. Qed.
Lemma rat_cmp_ge a b : rat_cmp a b ≠ Lt ↔ value_le b a.
Proof. unfold rat_cmp, value_le. rewrite Z.min_comm. by rewrite Z.compare_ge_iff. Qed.

Lemma number_ok_iff d n : number_ok d n = true ↔ within_bounds d n.
Proof.
  unfold number_ok, within_bounds. rewrite !andb_true_iff.
  assert (∀ o p (Q : Z * Z → Prop), (∀ m, p (rat_cmp n m) = true ↔ Q m) →
    bound_ok n o p = true ↔ ∀ m, o = Some m → Q m) as Hb.
  { intros [m|] p Q Hp; cbn [bound_ok]; [rewrite Hp; naive_solver|naive_solver]. }
  rewrite (Hb (sd_minimum d) _ (λ m, value_le m n)).
  2: { intros m. rewrite <- rat_cmp_ge. by destruct (rat_cmp n m). }
  rewrite (Hb (sd_maximum d) _ (λ m, value_le n m)).
  2: { intros m. rewrite <- rat_cmp_le. by destruct (rat_cmp n m). }
  rewrite (Hb (sd_exclusiveMinimum d) _ (λ m, ¬ value_le n m)).
  2: { intros m. rewrite <- rat_cmp_le. destruct (rat_cmp n m); naive_solver. }
  rewrite (Hb (sd_exclusiveMaximum d) _ (λ m, ¬ value_le m n)); [tauto|].
  intros m. rewrite <- rat_cmp_ge. destruct (rat_cmp n m); naive_solver.
Qed.

Lemma within_bounds_same d n m : same_value n m → within_bounds d n ↔ within_bounds d m.
Proof. intros H. unfold within_bounds. by setoid_rewrite H. Qed.

Lemma size_within_iff n lo hi : at_least n lo && at_most n hi = true ↔ size_within n lo hi.
Proof.
  unfold size_within, at_least, at_most. rewrite andb_true_iff.
  destruct lo, hi; rewrite ?Z.leb_le; naive_solver.
Qed.

Lemma rat_is_int_iff r : rat_is_int r = true ↔ ∃ z, same_value r (z, 0%Z).
Proof.
  unfold rat_is_int. rewrite orb_true_iff, Z.leb_le, Z.eqb_eq. destruct r as [m e]. cbn [fst snd].
  destruct (Z.le_ge_cases 0 e) as [H|H].
  - split; [intros _|by left]. exists (m * 10 ^ e)%Z. rewrite (same_value_at 0) by (simpl; lia).
    cbn [fst snd]. rewrite !Z.sub_0_r. lia.
  - assert (10 ^ (- e) ≠ 0)%Z as Hp by (apply Z.pow_nonzero; lia). split.
    + intros [H'|Hm].
      * assert (e = 0%Z) as -> by lia. exists m. done.
      * apply Z.mod_divide in Hm as [z ->]; [|done]. exists z.
        rewrite (same_value_at e) by (simpl; lia). cbn [fst snd].
        rewrite Z.sub_diag. replace (0 - e)%Z with (- e)%Z by lia. lia.
    + intros [z Hz]. right. rewrite (same_value_at e) in Hz by (simpl; lia). cbn [fst snd] in Hz.
      rewrite Z.sub_diag, Z.mul_1_r in Hz. replace (0 - e)%Z with (- e)%Z in Hz by lia.
      rewrite Hz. by apply Z.mod_mul.
Qed.

Lemma no_point_free l : containsAny l ".eE" = false → free [46] l = true ∧ free [69; 101] l = true.
Proof.
  induction l as [|c l IH]; [done|]. cbn [containsAny free]. intros [Hc H]%orb_false_split.
  destruct (IH H) as [-> ->]. rewrite !andb_true_r, !negb_true_iff.
  assert (∀ n, n ∈ [46; 69; 101] → byte_of c ≠ n) as Hn.
  { intros n Hn Hb. revert Hc. cbn. rewrite !orb_false_iff.
    rewrite !elem_of_cons, elem_of_nil in Hn. intros (H1 & H2 & H3 & _).
    apply Ascii.eqb_neq in H1, H2, H3.
    destruct Hn as [->|[->|[->|[]]]];
      [apply H1|apply H3|apply H2]; by apply byte_of_inj. }
  rewrite !bool_decide_eq_false, !elem_of_cons, !elem_of_nil.
  pose proof (Hn 46 ltac:(set_solver)). pose proof (Hn 69 ltac:(set_solver)).
  pose proof (Hn 101 ltac:(set_solver)). naive_solver.
Qed.

Lemma free_sdrop chars n s : free chars s = true → free chars (sdrop n s) = true.
Proof.
  revert s. induction n as [|n IH]; intros s H; [by destruct s|]. destruct s as [|c s]; [done|].
  cbn [free] in H. apply andb_true_iff in H as [_ H]. by apply IH.
Qed.

(** A literal without point or exponent is an integer. *)
Lemma integer_literal l r :
  exactRuntimeNumber l = Some r → negb (containsAny l ".eE") || rat_is_int r = rat_is_int r.
Proof.
  intros H. destruct (containsAny l ".eE") eqn:E; [done|]. cbn [negb orb]. symmetry.
  apply no_point_free in E as [Hd He]. unfold exactRuntimeNumber, num_value, split_literal in H.
  set (s := if hasPrefix l "-" then sdrop 1 l else l) in H.
  assert (free [46] s = true ∧ free [69; 101] s = true) as [Hd' He']
    by (subst s; destruct (hasPrefix l "-"); auto using free_sdrop).
  rewrite (cut_any_free [69; 101] s He') in H. cbn [mbind option_bind] in H.
  rewrite (cut_any_free [46] s Hd') in H. cbn [mbind option_bind default String.length] in H.
  destruct (Z.eqb _ 0); [by injection H as <-|]. by injection H as <-.
Qed.

Lemma typeMatches_iff ts v :
  exact v → typeMatches ts v = true ↔ ∃ t, t ∈ ts ∧ has_type t v.
Proof.
  intros Hv. unfold typeMatches. rewrite existsb_exists. setoid_rewrite <- list_elem_of_In.
  apply exist_proper. intros t. apply and_iff_compat_l. rewrite orb_true_iff, andb_true_iff, !String.eqb_eq.
  destruct v as [| |l| | |]; cbn [jsonTypeName has_type]; try naive_solver.
  inversion Hv as [| | |? r Hr| |]; subst. rewrite Hr, (integer_literal l r Hr).
  pose proof (exact_value l r Hr) as (n & Hn & Hnr). pose proof (rat_is_int_iff r) as Hi.
  assert ((∃ v z, num_value l = Some v ∧ same_value v (z, 0%Z)) ↔ rat_is_int r = true) as ->.
  { rewrite Hi. split.
    - intros (v & z & Hv' & Hz). exists z. rewrite Hv' in Hn. injection Hn as ->. by rewrite <- Hnr.
    - intros [z Hz]. exists n, z. split; [done|]. by rewrite Hnr. }
  destruct (rat_is_int r); naive_solver.
Qed.

Lemma items_unique_iff N l :
  (Z.of_nat N < 2 ^ 61)%Z → Forall (fine N) l →
  items_unique l = true ↔ (∀ x, x ∈ l → canonical x) ∧ distinct l.
Proof.
  intros HN Hf. unfold items_unique. rewrite Forall_forall in Hf.
  assert (∀ x y c d, x ∈ l → y ∈ l → writeCanonicalValue x = Some c → writeCanonicalValue y = Some d →
    plain_text c = plain_text d ↔ json_eqv x y) as Hd.
  { intros x y c d Hx Hy Hc Hd. rewrite <- (canon_decides N HN x y c d) by auto.
    pose proof (canon_fixed N HN x c (Hf _ Hx) Hc) as [? _].
    pose proof (canon_fixed N HN y d (Hf _ Hy) Hd) as [? _].
    split; [by apply plain_text_inj|by intros ->]. }
  destruct (sequence (map uniqueItemsKey l)) as [keys|] eqn:E.
  - apply sequence_Forall2 in E. rewrite bool_decide_eq_true. split.
    + intros Hn. split.
      * intros x [i Hi]%list_elem_of_lookup.
        destruct (Forall2_lookup_l _ _ _ _ _ E Hi) as (key & _ & (c & Hc & _)%fmap_Some). by eexists.
      * intros i k x y Hi Hk Hne Heq.
        destruct (Forall2_lookup_l _ _ _ _ _ E Hi) as (s & Hs & (c & Hc & ->)%fmap_Some).
        destruct (Forall2_lookup_l _ _ _ _ _ E Hk) as (t & Ht & (c' & Hc' & ->)%fmap_Some).
        apply (Hd x y c c') in Heq; [|by eapply list_elem_of_lookup_2..|done|done].
        apply Hne. rewrite Heq in Hs. by eapply NoDup_lookup.
    + intros [_ Hu]. apply NoDup_alt. intros i k key Hi Hk. destruct (decide (i = k)) as [|Hne]; [done|].
      destruct (Forall2_lookup_r _ _ _ _ _ E Hi) as (x & Hx & (c & Hc & Ec)%fmap_Some).
      destruct (Forall2_lookup_r _ _ _ _ _ E Hk) as (y & Hy & (c' & Hc' & Ec')%fmap_Some).
      exfalso. apply (Hu i k x y Hx Hy Hne). apply (Hd x y c c');
        [by eapply list_elem_of_lookup_2..|done|done|congruence].
  - split; [done|]. intros [Hs _]. exfalso.
    assert (∀ l', (∀ x, x ∈ l' → is_Some (writeCanonicalValue x)) →
              is_Some (sequence (map uniqueItemsKey l'))) as Hsome.
    { clear. induction l' as [|x l' IH]; intros Hs; cbn [map sequence]; [by eexists|].
      destruct (Hs x ltac:(by left)) as [c Hc].
      assert (uniqueItemsKey x = Some (plain_text c)) as -> by (unfold uniqueItemsKey; by rewrite Hc).
      destruct IH as [r Hr]; [intros y Hy; apply Hs; by right|]. rewrite Hr. by eexists. }
    destruct (Hsome l Hs) as [keys Hk]. congruence.
Qed.

(** *** All keywords *)

Lemma existsb_enum v l :
  exact v → Forall exact l →
  existsb (semanticJSONEqual v) l = true ↔ ∃ e, e ∈ l ∧ json_eqv v e.
Proof.
  intros Hv Hl. rewrite existsb_exists. setoid_rewrite <- list_elem_of_In. rewrite Forall_forall in Hl.
  split; intros (e & He & H); exists e; (split; [done|]); apply (semantic_equal_iff v e); auto.
Qed.

Definition check_agrees (s : compiledSchema) : Prop :=
  ∀ N v, (Z.of_nat N < 2 ^ 61)%Z → enums_exact s → fine N v → exact v →
  check regexp_matches s v = true ↔ accepted s v.

Lemma check_object d ps (o : list (string * json)) :
  Forall (λ nc, check_agrees nc.2) ps →
  (fix all (ps : list (string * compiledSchema)) : Prop :=
     match ps with [] => True | (_, c) :: ps => enums_exact c ∧ all ps end) ps →
  ∀ N k x, (Z.of_nat N < 2 ^ 61)%Z → (k, x) ∈ o → fine N x → exact x →
  (fix child (ps : list (string * compiledSchema)) : bool :=
     match ps with
     | [] => negb (bool_decide (sd_additional d = Some false))
     | (n, c) :: ps => if String.eqb n k then check regexp_matches c x else child ps
     end) ps = true ↔
  (fix child (ps : list (string * compiledSchema)) : Prop :=
     match ps with
     | [] => sd_additional d ≠ Some false
     | (n, c) :: ps => if String.eqb n k then accepted c x else child ps
     end) ps.
Proof.
  intros Hps He N k x HN _ Hf Hx. induction ps as [|[n c] ps IH].
  - by rewrite negb_true_iff, bool_decide_eq_false.
  - apply Forall_cons in Hps as [Hc Hps]. destruct He as [Ec He].
    destruct (String.eqb n k); [by apply (Hc N)|by apply IH].
Qed.

Lemma keys_present o names :
  forallb (λ name, bool_decide (is_Some (jlookup o name))) names = true ↔
  ∀ name, name ∈ names → name ∈ map fst o.
Proof.
  rewrite forallb_forall. setoid_rewrite <- list_elem_of_In. setoid_rewrite bool_decide_eq_true.
  assert (∀ name, is_Some (jlookup o name) ↔ name ∈ map fst o) as E; [|by setoid_rewrite E].
  intros name. induction o as [|[k v] o IH]; cbn [map fst jlookup].
  - split; [by intros [? ?]|by intros ?%not_elem_of_nil].
  - rewrite elem_of_cons, <- IH. destruct (jlookup o name); [split; [by right|by eexists]|].
    destruct (String.eqb_spec k name) as [->|Hne]; [split; [by left|by eexists]|].
    split; [by intros [? ?]|]. intros [->|[? ?]]; done.
Qed.

Lemma check_accepts s : check_agrees s.
Proof.
  induction s as [d ps it Hps Hit] using compiled_ind'. intros N v HN (Hen & Hall & Hie) Hf Hx.
  unfold accepted. cbn [check conforms_by]. rewrite !andb_true_iff.
  assert (∀ A B C A' B' C' : Prop, (A ↔ A') → (B ↔ B') → (C ↔ C') → (A ∧ B) ∧ C ↔ A' ∧ B' ∧ C') as Hand
    by tauto.
  apply Hand; clear Hand.
  - destruct (sd_types d) as [|t ts] eqn:Et; [naive_solver|]. rewrite typeMatches_iff by done. naive_solver.
  - destruct (sd_enum d) as [|e es] eqn:Ee; [naive_solver|]. rewrite existsb_enum by done. naive_solver.
  - destruct v as [| |l|t|l|o]; [done|done|..].
    + inversion Hx as [| | |? r Hr| |]; subst. rewrite Hr.
      destruct (exact_value l r Hr) as (n & Hn & Hnr). rewrite number_ok_iff, <- (within_bounds_same d n r Hnr).
      split; [by exists n|]. intros (n' & Hn' & Hw). rewrite Hn in Hn'. by injection Hn' as <-.
    + rewrite andb_true_iff, size_within_iff. apply and_iff_compat_l. destruct (sd_pattern d); naive_solver.
    + inversion Hx as [| | | |? Hxl|]; subst. inversion Hf as [| | | |? Hfl|]; subst.
      do 2 rewrite andb_true_iff. rewrite size_within_iff, orb_true_iff, negb_true_iff, (items_unique_iff N) by done.
      assert (∀ A B B' C C' : Prop, (B ↔ B') → (C ↔ C') → (A ∧ B) ∧ C ↔ A ∧ B' ∧ C') as Hand by tauto.
      apply Hand; clear Hand; [destruct (sd_uniqueItems d); naive_solver|].
      destruct it as [c|]; [|done]. rewrite forallb_forall. setoid_rewrite <- list_elem_of_In.
      rewrite Forall_forall in Hxl, Hfl.
      split; intros H x Hin; specialize (H x Hin); revert H; apply (Hit c eq_refl N x HN Hie); auto.
    + inversion Hx as [| | | | |? Hn Hxo]; subst. inversion Hf as [| | | | |? Hfo]; subst.
      rewrite andb_true_iff, keys_present. apply and_iff_compat_l.
      rewrite forallb_forall. setoid_rewrite <- list_elem_of_In. rewrite Forall_forall in Hxo, Hfo.
      split.
      * intros H k x Hin. apply (check_object d ps o Hps Hall N k x HN Hin);
          [by apply (Hfo (k, x))|by apply (Hxo (k, x))|by apply (H (k, x))].
      * intros H [k x] Hin. apply (check_object d ps o Hps Hall N k x HN Hin);
          [by apply (Hfo (k, x))|by apply (Hxo (k, x))|by apply H].
Qed.

(** *** Against JSON Schema's reading *)

(** A stronger reading of [uniqueItems] on every array of [v] is a stronger
    reading of the schema; [P] holds of [v] and passes to its parts. *)
Section readings.
Context (U U' : list json → Prop) (P : json → Prop).
Hypothesis P_item : ∀ l x, P (JArr l) → x ∈ l → P x.
Hypothesis P_member : ∀ o k x, P (JObj o) → (k, x) ∈ o → P x.
Hypothesis P_unique : ∀ l, P (JArr l) → U l → U' l.

Definition reading_follows (s : compiledSchema) : Prop :=
  ∀ v, P v → conforms_by U s v → conforms_by U' s v.

Lemma member_follows d ps k x :
  Forall (λ nc, reading_follows nc.2) ps → P x →
  (fix child (ps : list (string * compiledSchema)) : Prop :=
     match ps with
     | [] => sd_additional d ≠ Some false
     | (n, c) :: ps => if String.eqb n k then conforms_by U c x else child ps
     end) ps →
  (fix child (ps : list (string * compiledSchema)) : Prop :=
     match ps with
     | [] => sd_additional d ≠ Some false
     | (n, c) :: ps => if String.eqb n k then conforms_by U' c x else child ps
     end) ps.
Proof.
  intros Hps Hx. induction Hps as [|[n c] ps Hc Hps IH]; [done|].
  destruct (String.eqb n k); [by apply Hc|exact IH].
Qed.

Lemma reading_mono s : reading_follows s.
Proof.
  induction s as [d ps it Hps Hit] using compiled_ind'. intros v Hv.
  cbn [conforms_by]. intros (Ht & He & Hk). split; [done|]. split; [done|].
  destruct v as [| | | |l|o]; try done.
  - destruct Hk as (Hs & Hu & Hi). split; [done|]. split; [by intros; apply P_unique, Hu|].
    destruct it as [c|]; [|done]. intros x Hx. apply (Hit c eq_refl); [by eapply P_item|by apply Hi].
  - destruct Hk as (Hr & Hm). split; [done|]. intros k x Hin.
    apply (member_follows d ps k x Hps); [by eapply P_member|by apply Hm].
Qed.
End readings.

(** Acceptance is sound, and complete for values with a canonical form. *)
Lemma accepted_conforms s v : accepted s v → conforms s v.
Proof.
  apply (reading_mono (λ l, (∀ x, x ∈ l → canonical x) ∧ distinct l) distinct (λ _, True));
    try done. by intros l _ [_ H].
Qed.

Lemma canonical_item l x : canonical (JArr l) → x ∈ l → canonical x.
Proof.
  intros [c (m & Hm & _)%canon_arr] [i Hi]%list_elem_of_lookup.
  destruct (Forall2_lookup_l _ _ _ _ _ Hm Hi) as (y & _ & Hy). by exists y.
Qed.

Lemma canonical_member o k x : canonical (JObj o) → (k, x) ∈ o → canonical x.
Proof.
  intros [c (_ & m & Hm & _)%canon_obj] [i Hi]%list_elem_of_lookup.
  destruct (Forall2_lookup_l _ _ _ _ _ Hm Hi) as (y & _ & _ & Hy). by exists y.2.
Qed.

Lemma conforms_accepted s v : canonical v → conforms s v → accepted s v.
Proof.
  intros Hv. revert v Hv.
  apply (reading_mono distinct (λ l, (∀ x, x ∈ l → canonical x) ∧ distinct l) canonical
           canonical_item canonical_member).
  intros l Hl Hd. split; [|done]. intros x Hx. by eapply canonical_item.
Qed.
End conforms.

(** ** What the compiler has established *)

Lemma field_Some {A} o key (zero : A) f a :
  field o key zero f = Some a →
  jlookup o key = None ∧ a = zero ∨ ∃ v, jlookup o key = Some v ∧ f v = Some a.
Proof. unfold field. destruct (jlookup o key) as [v|]; [by eauto|]. intros [= <-]. by left. Qed.

Lemma sequence_Some {A} (l m : list A) : sequence (map Some l) = Some m → m = l.
Proof. intros H%sequence_Forall2. induction H as [|x y l m [= <-] _ IH]; [done|]. by rewrite IH. Qed.

(** What compiling a node checks of its fields: known types, required names that
    are distinct, not empty and defined by [properties] when it defines any, a
    pattern that compiles, lower bounds not above the upper ones of the same
    kind, no [enum] value twice.  Bounds of different kinds are not compared
    ([unsatisfiable_schemas]). *)
Record doc_checked (rc : string → bool) (properties : list string) (d : schemaDoc) : Prop := mkChecked {
  sn_types : ∀ t, t ∈ sd_types d → t ∈ schemaTypeVocabulary;
  sn_named : "" ∉ sd_required d;
  sn_required : NoDup (sd_required d);
  sn_defined : properties ≠ [] → ∀ name, name ∈ sd_required d → name ∈ properties;
  sn_items : ∀ a b, sd_minItems d = Some a → sd_maxItems d = Some b → (0 <= a <= b)%Z;
  sn_length : ∀ a b, sd_minLength d = Some a → sd_maxLength d = Some b → (0 <= a <= b)%Z;
  sn_range : ∀ a b, sd_minimum d = Some a → sd_maximum d = Some b → value_le a b;
  sn_pattern : ∀ p, sd_pattern d = Some p → rc p = true;
  sn_enum : NoDup (map plain_text (sd_enum d));
}.

Lemma compile_types_known j ts t :
  compile_types j = Some ts → t ∈ ts → t ∈ schemaTypeVocabulary.
Proof.
  destruct j as [| | |s|l|]; try done; cbn [compile_types].
  - case_bool_decide; [|done]. intros [= <-] ->%list_elem_of_singleton. done.
  - destruct l as [|x l]; [done|]. intros H%sequence_Forall2 [i Hi]%list_elem_of_lookup.
    destruct (Forall2_lookup_r _ _ _ _ _ H Hi) as (y & _ & Hy).
    destruct y as [| | |s| |]; try done. case_bool_decide; [|done]. by injection Hy as <-.
Qed.

Lemma compile_doc_checked rc o properties d :
  compile_doc rc o properties = Some d →
  doc_checked rc properties d
  ∧ (sd_enum d = [] ∨ jlookup o "enum" = Some (JArr (sd_enum d))).
Proof.
  unfold compile_doc.
  intros (ty & Hty & (rq & _ & (ad & _ & (mi & _ & (ma & _ & (un & _ & H)%bind_Some)%bind_Some)%bind_Some)%bind_Some)%bind_Some)%bind_Some.
  apply bind_Some in H as (ml & _ & (xl & _ & (pa & _ & (mn & _ & (mx & _ & H)%bind_Some)%bind_Some)%bind_Some)%bind_Some).
  apply bind_Some in H as (en & _ & (ex & _ & (em & Hem & (ti & _ & (de & _ & H)%bind_Some)%bind_Some)%bind_Some)%bind_Some).
  match type of H with (if ?b then _ else _) = _ => destruct b eqn:E; [|done] end. injection H as <-.
  repeat (apply andb_true_iff in E as [E ?]).
  match goal with H : bool_decide (NoDup rq) = true |- _ => apply bool_decide_eq_true in H; rename H into Hn end.
  match goal with H : _ || forallb _ rq = true |- _ => rename H into Hp end. split.
  - constructor; cbn [sd_types sd_required sd_minItems sd_maxItems sd_minLength sd_maxLength
      sd_minimum sd_maximum sd_pattern sd_enum].
    + intros t Hin. apply field_Some in Hty as [[_ ->]|(v & _ & Hv)];
        [by apply not_elem_of_nil in Hin|by eapply compile_types_known].
    + intros Hin%list_elem_of_In. rewrite forallb_forall in E. by apply E in Hin.
    + done.
    + intros Hne name Hin. destruct properties as [|p ps]; [done|]. cbn [orb] in Hp.
      rewrite forallb_forall in Hp. apply list_elem_of_In, Hp, bool_decide_eq_true in Hin. done.
    + intros a b -> ->. cbn [non_negative ordered] in *. lia.
    + intros a b -> ->. cbn [non_negative ordered] in *. lia.
    + intros a b -> ->. rewrite <- rat_cmp_le. by destruct (rat_cmp a b).
    + by intros p ->.
    + destruct em as [[|e l]|]; [constructor| |constructor].
      match goal with H : bool_decide _ = true |- _ => by apply bool_decide_eq_true in H end.
  - cbn [sd_enum]. apply field_Some in Hem as [[_ ->]|(v & Hv & Hf)]; [by left|].
    apply fmap_Some in Hf as (l & Hl & ->). right. destruct v as [| | | |m|]; try done.
    apply sequence_Some in Hl as ->. done.
Qed.

Section closed.
Variable regexp_compiles : string → bool.

Definition gives_exact (j : json) : Prop :=
  ∀ s, exact j → compile_node regexp_compiles j = Some s → enums_exact s.

Lemma find_properties_exact o ps :
  exact (JObj o) → (∀ p, ("properties", JObj p) ∈ o → Forall (λ kv, gives_exact kv.2) p) →
  find_properties (compile_node regexp_compiles) o = Some ps →
  (fix all (ps : list (string * compiledSchema)) : Prop :=
     match ps with [] => True | (_, c) :: ps => enums_exact c ∧ all ps end) ps.
Proof.
  intros [_ Ho]%exact_parts Hp. induction o as [|[k v] o IH]; cbn [find_properties]; [by intros [= <-]|].
  destruct (String.eqb_spec k "properties") as [->|Hne].
  - destruct v as [| | | | |p]; try done. intros H%sequence_Forall2.
    pose proof (Hp p ltac:(by left)) as Hg. pose proof (Ho _ _ ltac:(by left)) as [_ Hpe]%exact_parts.
    clear Hp Ho IH. induction H as [|[n x] [m c] p ps Hxc _ IH]; [done|].
    apply Forall_cons in Hg as [Gx Hg]. apply fmap_Some in Hxc as (c' & Hc' & [= -> ->]).
    split; [|apply IH; [done|]; intros k w Hin; eapply Hpe; by right].
    apply (Gx c'); [|done]. by eapply Hpe; left.
  - apply IH; [intros; eapply Ho|intros; apply Hp]; by right.
Qed.

Lemma find_items_exact o c :
  (∀ k v, (k, v) ∈ o → exact v) → (∀ k v, (k, v) ∈ o → gives_exact v) →
  find_items (compile_node regexp_compiles) o = Some (Some c) → enums_exact c.
Proof.
  induction o as [|[k v] o IH]; intros Ho Hg; cbn [find_items]; [done|].
  destruct (String.eqb k "items").
  - intros (c' & Hc' & [= ->])%fmap_Some. apply (Hg k v); [by left|eapply Ho; by left|done].
  - apply IH; [intros; eapply Ho|intros; eapply Hg]; by right.
Qed.

Lemma compile_enums j : gives_exact j ∧ (∀ p, j = JObj p → Forall (λ kv, gives_exact kv.2) p).
Proof.
  induction j as [|b|l|s|l IH|o IH] using json_ind'; try (split; [by intros s'|done]).
  assert (Forall (λ kv, gives_exact kv.2) o) as Hg by (eapply Forall_impl; [exact IH|]; intros ? [? _]; done).
  split; [|by intros p [= <-]]. intros s He Hc.
  apply compile_node_obj in Hc as (_ & _ & ps & it & d & Hps & Hit & Hd & ->).
  apply compile_doc_checked in Hd as [_ Hen]. rewrite Forall_forall in IH. cbn [enums_exact]. split; [|split].
  - destruct Hen as [->|Hen]; [constructor|]. apply exact_parts in He as [Hn Ho].
    apply jlookup_Some in Hen; [|done]. apply Ho in Hen. by inversion Hen.
  - eapply find_properties_exact; [done| |done]. intros p Hin. by apply (IH ("properties", JObj p)).
  - destruct it as [c|]; [|done]. apply exact_parts in He as [_ Ho].
    apply (find_items_exact o c); [done| |done]. intros k v Hin. by apply (IH (k, v)).
Qed.

(** What the check of a value decides. *)
Lemma CheckValue_accepts rm raw s v :
  text_short raw → CompileSchema regexp_compiles raw = Some s →
  ∀ N, (Z.of_nat N < 2 ^ 61)%Z → fine N v → exact v →
  CheckValue rm s v = true ↔ accepted rm s v.
Proof.
  intros Hs Hc N HN Hf Hx. unfold CompileSchema in Hc. apply bind_Some in Hc as (c & Hc & Hn).
  apply strict_document_exact in Hc as (He & _ & _); [|done].
  apply (check_accepts rm s N); [done| |done|done]. by apply (proj1 (compile_enums c)).
Qed.
End closed.

(** An empty [properties] lets [required] name anything. *)
Example required_without_properties :
  (∃ s, compile_node (λ _, true) (JObj [("properties", JObj []); ("required", JArr [JStr "a"])]) = Some s)
  ∧ compile_node (λ _, true) (JObj [("properties", JObj [("b", JObj [])]); ("required", JArr [JStr "a"])]) = None.
Proof. split; [eexists|]; by vm_compute. Qed.

(** Nor are exclusive bounds compared with each other, or types with values. *)
Example unsatisfiable_schemas :
  (∃ s, compile_node (λ _, true) (JObj [("exclusiveMaximum", JNum "3");
          ("exclusiveMinimum", JNum "5")]) = Some s)
  ∧ ∃ s, compile_node (λ _, true) (JObj [("enum", JArr [JNum "1"]); ("type", JStr "string")]) = Some s.
Proof. split; eexists; by vm_compute. Qed.
