(* ===== verification/Flow.v ===== *)
(** * Workflow definitions and their validation

    [internal/workflow/contract.go] and [validate.go]: the pinned flow, the
    contracts it binds, and the checks [Validate] makes before a flow may run.
    The compiler of JSON schemas ([internal/skillregistry/schema.go]) is not
    modelled: what [Validate] asks of it are the arguments of [Validate] here,
    and the theorems hold for every choice of them. *)

From Stdlib Require Import Ascii.
From S2P Require Import Prelude GoStrings.

Open Scope list_scope.

(** ** The closed vocabularies *)

Definition CapReview : string := "review".
Definition CapVerification : string := "verification".
Definition CapShipping : string := "shipping".
Definition capabilitySet : list string :=
  ["authoring"; CapReview; CapVerification; CapShipping; "deterministic_operation"].

Definition AuthorityReadOnly : string := "read_only".
Definition AuthorityWrite : string := "write".
Definition IsolationShared : string := "shared".
Definition IsolationRequired : string := "independent".

(** ** Regular expressions of [validate.go] *)

Definition lower (c : ascii) : bool := in_range 97 122 c.
Definition upper (c : ascii) : bool := in_range 65 90 c.
Definition digit (c : ascii) : bool := in_range 48 57 c.

Fixpoint all_chars (f : ascii → bool) (s : string) : bool :=
  match s with "" => true | String c s => f c && all_chars f s end.

Definition one_of (chars : string) (c : ascii) : bool :=
  containsAny (String c "") chars.

(** [^[A-Za-z0-9][A-Za-z0-9._:-]*$] *)
Definition validIdentifier (s : string) : bool :=
  match s with
  | "" => false
  | String c r =>
      (lower c || upper c || digit c)
      && all_chars (λ c, lower c || upper c || digit c || one_of "._:-" c) r
  end.

(** [^[a-z][a-z0-9_-]*$] *)
Definition tokenRE (s : string) : bool :=
  match s with
  | "" => false
  | String c r => lower c && all_chars (λ c, lower c || digit c || one_of "_-" c) r
  end.

(** [^sha256:[0-9a-f]{64}$] *)
Definition sha256RE (s : string) : bool :=
  match strip_prefix "sha256:" s with
  | None => false
  | Some h =>
      Nat.eqb (String.length h) 64 && all_chars (λ c, digit c || in_range 97 102 c) h
  end.

(** ** Flows ([contract.go]) *)

(** Raw JSON text ([json.RawMessage]); [""] is an absent one. *)
Definition RawJson : Type := string.

Record ModelCandidate : Type := mkCandidate {
  mc_harness : string; mc_model : string; mc_effort : string }.

Record InputRef : Type := mkInput {
  in_name : string; in_step : string; in_output : string }.

Record Step : Type := mkFlowStep {
  st_id : string;
  st_skill : string;
  st_skill_version : Z;
  st_rhs : option bool;
  st_models : list ModelCandidate;
  st_params : RawJson;
  st_inputs : list InputRef;
}.

Record Flow : Type := mkFlow { fl_version : Z; fl_steps : list Step }.

(** [skillregistry.SkillContract]; [ct_interactive] is [Runtime.Interactive]. *)
Record SkillContract : Type := mkContract {
  ct_capabilities : list string;
  ct_input_schema : RawJson;
  ct_params_schema : RawJson;
  ct_output_schema : RawJson;
  ct_interactive : bool;
}.

Record StepGrant : Type := mkGrant { gr_authority : string; gr_isolation : string }.
Record SkillBinding : Type := mkBinding {
  bd_skill : string; bd_version : Z; bd_contract : SkillContract }.
Record ValidatedStep : Type := mkVStep { vs_step : Step; vs_contract : SkillContract }.
Record ValidatedFlow : Type := mkVFlow {
  vf_flow : Flow; vf_steps : list ValidatedStep; vf_grants : gmap string StepGrant }.

#[export] Instance ModelCandidate_eq_dec : EqDecision ModelCandidate.
Proof. solve_decision. Defined.

Definition hasCapability (c : SkillContract) (wanted : string) : bool :=
  existsb (String.eqb wanted) (ct_capabilities c).

(** [grants[id]]: Go's map read, the zero grant where there is none. *)
Definition grant_of (grants : gmap string StepGrant) (id : string) : StepGrant :=
  default (mkGrant "" "") (grants !! id).

(** [WI RHS and step RHS], [ValidatedFlow.Unattended]. *)
Definition step_rhs (s : Step) : bool := default false (st_rhs s).

Definition Unattended (f : option ValidatedFlow) (requiresHumanSession : bool) : bool :=
  match f with
  | None => false
  | Some f =>
      match vf_steps f with
      | [] => false
      | ss => forallb (λ s, negb (ct_interactive (vs_contract s)
                || requiresHumanSession && step_rhs (vs_step s))) ss
      end
  end.

(** ** Errors of [validate.go], one per message *)
Inductive FlowErr : Type :=
  | FVersion | FNoSteps
  | FBindingName (i : nat) | FBindingDuplicate (i : nat) | FBindingContract (i : nat)
  | FStepId (i : nat) | FStepSkill (i : nat) | FNoModels (i : nat)
  | FModelHarness (i j : nat) | FModelName (i j : nat) | FModelEffort (i j : nat)
  | FModelDuplicate (i j : nat)
  | FStepDuplicate (i : nat) | FUnbound (id : string) | FNoGrant (id : string)
  | FGrantAuthority (i : nat) | FGrantIsolation (i : nat)
  | FInteractive (id : string) | FParams (id : string)
  | FInputName (id : string) (j : nat) | FInputDuplicate (id : string) (j : nat)
  | FInputNotEarlier (id : string) (j : nat) | FInputSchema (id : string) (j : nat)
  | FExtraGrants
  | FShipNoWrite (id : string) | FShipNoPrecedingWrite (id : string)
  | FShipGates (id : string) | FWriteGates (id : string).

Fixpoint check_models (i j : nat) (seen : gset string) (l : list ModelCandidate)
  : result FlowErr unit :=
  match l with
  | [] => Ok tt
  | c :: l =>
      if negb (tokenRE (mc_harness c)) then Err (FModelHarness i j)
      else if String.eqb (mc_model c) "" || negb (String.eqb (mc_model c) (trimSpace (mc_model c)))
              || containsAny (mc_model c) (bytes [13; 10; 9]) then Err (FModelName i j)
      else if negb (tokenRE (mc_effort c)) then Err (FModelEffort i j)
      else
        let key := mc_harness c +:+ bytes [0] +:+ mc_model c +:+ bytes [0] +:+ mc_effort c in
        if bool_decide (key ∈ seen) then Err (FModelDuplicate i j)
        else check_models i (S j) ({[key]} ∪ seen) l
  end.

Definition validateStepShape (i : nat) (s : Step) : result FlowErr unit :=
  if negb (validIdentifier (st_id s)) then Err (FStepId i)
  else if negb (validIdentifier (st_skill s)) || (st_skill_version s <=? 0)%Z
  then Err (FStepSkill i)
  else match st_models s with
       | [] => Err (FNoModels i)
       | ms => check_models i 0 ∅ ms
       end.

Definition validateGrant (i : nat) (g : StepGrant) : result FlowErr unit :=
  if negb (String.eqb (gr_authority g) AuthorityReadOnly
           || String.eqb (gr_authority g) AuthorityWrite) then Err (FGrantAuthority i)
  else if negb (String.eqb (gr_isolation g) IsolationShared
                || String.eqb (gr_isolation g) IsolationRequired)
  then Err (FGrantIsolation i) else Ok tt.

(** ** The safety gates *)

(** [for j := i; j < i+n; j++]: the first index that satisfies [f];
    [for j := n-1; j >= 0; j--]: the last one below [n].  Go's [-1] is [None]. *)
Fixpoint find_up (f : nat → bool) (i n : nat) : option nat :=
  match n with
  | O => None
  | S n => if f i then Some i else find_up f (S i) n
  end.

Fixpoint find_down (f : nat → bool) (n : nat) : option nat :=
  match n with
  | O => None
  | S n => if f n then Some n else find_down f n
  end.

(** A condition on the step at an index. *)
Definition at_step (p : ValidatedStep → bool) (steps : list ValidatedStep) (j : nat) : bool :=
  match steps !! j with Some s => p s | None => false end.

Definition vs_id (s : ValidatedStep) : string := st_id (vs_step s).

Definition is_shipping (s : ValidatedStep) : bool := hasCapability (vs_contract s) CapShipping.

Definition writes (grants : gmap string StepGrant) (s : ValidatedStep) : bool :=
  String.eqb (gr_authority (grant_of grants (vs_id s))) AuthorityWrite.

(** An implementation write: write authority on a step that does not ship. *)
Definition impl_write (grants : gmap string StepGrant) (s : ValidatedStep) : bool :=
  writes grants s && negb (is_shipping s).

(** Read-only authority and a producer of its own. *)
Definition isolated (grants : gmap string StepGrant) (s : ValidatedStep) : bool :=
  String.eqb (gr_authority (grant_of grants (vs_id s))) AuthorityReadOnly
  && String.eqb (gr_isolation (grant_of grants (vs_id s))) IsolationRequired.

Definition gateIndexes (steps : list ValidatedStep) (grants : gmap string StepGrant)
    (start stop : nat) : option nat * option nat :=
  fold_left (λ acc i,
    match steps !! i with
    | Some s =>
        if negb (isolated grants s) then acc
        else (if hasCapability (vs_contract s) CapReview then Some i else acc.1,
              if hasCapability (vs_contract s) CapVerification then Some i else acc.2)
    | None => acc
    end) (seq start (stop - start)) (None, None).

(** [review < 0 || verification < 0 || review == verification], negated. *)
Definition gates_distinct (g : option nat * option nat) : bool :=
  match g with
  | (Some r, Some v) => negb (Nat.eqb r v)
  | _ => false
  end.

(** The body of the loop of [validateSafetyGates] for step [i], in two parts:
    the write rule and the shipping rule. *)
Definition write_rule (steps : list ValidatedStep) (grants : gmap string StepGrant)
    (i : nat) (s : ValidatedStep) : result FlowErr unit :=
  if negb (impl_write grants s) then Ok tt
  else
    let n := length steps in
    match find_up (at_step (impl_write grants) steps) (S i) (n - S i) with
    | Some _ => Ok tt
    | None =>
        let boundary := find_up (at_step is_shipping steps) (S i) (n - S i) in
        if gates_distinct (gateIndexes steps grants (S i) (default n boundary)) then Ok tt
        else match boundary with
             | Some b => Err (FShipGates (default "" (vs_id <$> steps !! b)))
             | None => Err (FWriteGates (vs_id s))
             end
    end.

Definition ship_rule (steps : list ValidatedStep) (grants : gmap string StepGrant)
    (i : nat) (s : ValidatedStep) : result FlowErr unit :=
  if negb (is_shipping s) then Ok tt
  else match find_down (at_step (impl_write grants) steps) i with
       | None => Err (FShipNoPrecedingWrite (vs_id s))
       | Some w =>
           if gates_distinct (gateIndexes steps grants (S w) i) then Ok tt
           else Err (FShipGates (vs_id s))
       end.

(** In the Go loop the write rule ends with [continue] when another write
    follows; a step under the write rule does not ship, so the shipping rule
    below it would not have applied. *)
Definition safety_step (steps : list ValidatedStep) (grants : gmap string StepGrant)
    (i : nat) (s : ValidatedStep) : result FlowErr unit :=
  if is_shipping s && negb (writes grants s) then Err (FShipNoWrite (vs_id s))
  else rbind (write_rule steps grants i s) (λ _, ship_rule steps grants i s).

Definition validateSafetyGates (steps : list ValidatedStep)
    (grants : gmap string StepGrant) : result FlowErr unit :=
  check_from (safety_step steps grants) 0 steps.

(** ** [Validate]

    Three questions go to the JSON schema code: does a schema compile, do the
    parameters conform to it, and is one step's output schema the schema
    another's input asks for. *)
Section Validate.

Context (schema_compiles : RawJson → bool).
Context (params_conform : RawJson → RawJson → bool).
Context (schemas_match : RawJson → string → RawJson → string → bool).

(** [skillregistry.ValidateContract]. *)
Fixpoint capabilities_ok (seen : gset string) (l : list string) : bool :=
  match l with
  | [] => true
  | c :: l => bool_decide (c ∈ capabilitySet) && bool_decide (c ∉ seen)
              && capabilities_ok ({[c]} ∪ seen) l
  end.

Definition ValidateContract (c : SkillContract) : bool :=
  match ct_capabilities c with
  | [] => false
  | caps =>
      capabilities_ok ∅ caps
      && forallb (λ raw, String.eqb raw "" || schema_compiles raw)
           [ct_input_schema c; ct_params_schema c; ct_output_schema c]
  end.

Fixpoint bind_all (i : nat) (bound : gmap (string * Z) SkillContract)
    (l : list SkillBinding) : result FlowErr (gmap (string * Z) SkillContract) :=
  match l with
  | [] => Ok bound
  | b :: l =>
      if negb (validIdentifier (bd_skill b)) || (bd_version b <=? 0)%Z
      then Err (FBindingName i)
      else if bool_decide (is_Some (bound !! (bd_skill b, bd_version b)))
      then Err (FBindingDuplicate i)
      else if negb (ValidateContract (bd_contract b)) then Err (FBindingContract i)
      else bind_all (S i) (<[(bd_skill b, bd_version b) := bd_contract b]> bound) l
  end.

Definition validateParams (s : Step) (c : SkillContract) : result FlowErr unit :=
  if params_conform (st_params s) (ct_params_schema c) then Ok tt
  else Err (FParams (st_id s)).

Fixpoint check_inputs (i j : nat) (s : Step) (stepIndex : gmap string nat)
    (priorSteps : list ValidatedStep) (consumer : SkillContract)
    (seen : gset string) (l : list InputRef) : result FlowErr unit :=
  match l with
  | [] => Ok tt
  | x :: l =>
      if negb (validIdentifier (in_name x) && validIdentifier (in_step x)
               && validIdentifier (in_output x)) then Err (FInputName (st_id s) j)
      else if bool_decide (in_name x ∈ seen) then Err (FInputDuplicate (st_id s) j)
      else
        let earlier := p ← stepIndex !! in_step x;
                       if (i <=? p)%nat then None else priorSteps !! p in
        match earlier with
        | None => Err (FInputNotEarlier (st_id s) j)
        | Some producer =>
            if schemas_match (ct_output_schema (vs_contract producer)) (in_output x)
                 (ct_input_schema consumer) (in_name x)
            then check_inputs i (S j) s stepIndex priorSteps consumer
                   ({[in_name x]} ∪ seen) l
            else Err (FInputSchema (st_id s) j)
        end
  end.

Definition validateInputs (i : nat) (s : Step) (stepIndex : gmap string nat)
    (priorSteps : list ValidatedStep) (consumer : SkillContract)
  : result FlowErr unit :=
  check_inputs i 0 s stepIndex priorSteps consumer ∅ (st_inputs s).

(** The loop over [flow.Steps]; [done] and [grants] are [validated.steps] and
    [validated.grants]. *)
Fixpoint validate_steps (bound : gmap (string * Z) SkillContract)
    (granted : gmap string StepGrant) (i : nat) (stepIndex : gmap string nat)
    (done : list ValidatedStep) (grants : gmap string StepGrant) (l : list Step)
  : result FlowErr (list ValidatedStep * gmap string StepGrant) :=
  match l with
  | [] => Ok (done, grants)
  | s :: l =>
      rbind (validateStepShape i s) (λ _,
      if bool_decide (is_Some (stepIndex !! st_id s)) then Err (FStepDuplicate i)
      else
        let stepIndex := <[st_id s := i]> stepIndex in
        match bound !! (st_skill s, st_skill_version s) with
        | None => Err (FUnbound (st_id s))
        | Some c =>
            match granted !! st_id s with
            | None => Err (FNoGrant (st_id s))
            | Some g =>
                rbind (validateGrant i g) (λ _,
                if ct_interactive c && negb (step_rhs s) then Err (FInteractive (st_id s))
                else rbind (validateParams s c) (λ _,
                rbind (validateInputs i s stepIndex done c) (λ _,
                validate_steps bound granted (S i) stepIndex (done ++ [mkVStep s c])
                  (<[st_id s := g]> grants) l)))
            end
        end)
  end.

Definition Validate (flow : Flow) (bindings : list SkillBinding)
    (granted : gmap string StepGrant) : result FlowErr ValidatedFlow :=
  if (fl_version flow <=? 0)%Z then Err FVersion
  else if bool_decide (fl_steps flow = []) then Err FNoSteps
  else rbind (bind_all 0 ∅ bindings) (λ bound,
  rbind (validate_steps bound granted 0 ∅ [] ∅ (fl_steps flow)) (λ p,
  if negb (Nat.eqb (size granted) (length (fl_steps flow))) then Err FExtraGrants
  else rbind (validateSafetyGates p.1 p.2) (λ _,
  Ok (mkVFlow flow p.1 p.2)))).

End Validate.
