(* ===== verification/Bundle.v ===== *)
(** * Skill bundles and contracts

    [internal/skillregistry]: [path.go], [bundle.go], [contract.go] and the part
    of [strict.go] they use.  A bundle is a closed set of files with normalized
    relative paths; a contract declares capabilities and schemas; the digest of
    a version hashes the canonical texts of both.  Refusals carry prose only:
    [None] or [false]. *)

From stdpp Require Import pretty.
From Stdlib Require Import Ascii.
From S2P Require Import Prelude GoStrings Json Crypto JsonText Canonical Schema Flow.

Open Scope nat_scope.
Open Scope list_scope.

(** ** Paths *)

Definition MaxPathBytes : nat := 255.
Definition MaxPathComponentBytes : nat := 128.

(** [strings.Split(s, sep)] for a separator of one byte *)
Fixpoint split_on (sep : ascii) (s : string) : list string :=
  match s with
  | "" => [""]
  | String c r =>
      if Ascii.eqb c sep then "" :: split_on sep r
      else match split_on sep r with
           | [] => [String c ""]
           | h :: t => String c h :: t
           end
  end.

Fixpoint has_byte (p : ascii → bool) (s : string) : bool :=
  match s with "" => false | String c r => p c || has_byte p r end.

Definition slash : ascii := "/"%char.
Definition is_control (c : ascii) : bool := Nat.ltb (byte_of c) 32 || Nat.eqb (byte_of c) 127.
Definition isASCIILetter (c : ascii) : bool := lower c || upper c.

(** [strings.Trim(seg, ".") == ""] *)
Definition only_dots (seg : string) : bool := all_chars (Ascii.eqb ".") seg.

Definition drive_prefix (p : string) : bool :=
  match p with
  | String a (String b _) => Ascii.eqb b ":" && isASCIILetter a
  | _ => false
  end.

Definition segment_ok (seg : string) : bool :=
  negb (String.eqb seg "") && Nat.leb (String.length seg) MaxPathComponentBytes
  && negb (only_dots seg).

Definition ValidateBundlePath (p : string) : bool :=
  negb (String.eqb p "")
  && Nat.leb (String.length p) MaxPathBytes
  && ValidString p
  && negb (hasPrefix p "/") && negb (hasPrefix p "~")
  && negb (has_byte (λ c, Nat.eqb (byte_of c) 92) p)
  && negb (hasSuffix p "/")
  && negb (has_byte is_control p)
  && negb (drive_prefix p)
  && forallb segment_ok (split_on slash p).

(** ** Bundles *)

Definition MaxBundleFiles : nat := 256.
Definition MaxFileBytes : Z := 512 * 1024.
Definition MaxBundleBytes : Z := 2 * 1024 * 1024.

Record SkillFile : Type := mkFile { sf_path : string; sf_content : string; sf_encoding : string }.
Record BundleProvenance : Type := mkProvenance {
  bp_source : string; bp_upstream_url : string; bp_upstream_commit : string;
  bp_upstream_license : string; bp_imported_at : string; bp_notes : string;
}.
Record BundleLicense : Type := mkLicense { bl_name : string; bl_notice : string; bl_url : string }.
Record SkillBundle : Type := mkBundle {
  sb_entry : string; sb_files : list SkillFile;
  sb_provenance : BundleProvenance; sb_license : BundleLicense;
}.

(** *** Strict decoding *)

(** The keys an object at this place may have; [None] where none are checked. *)
Definition bundle_keys (place : string) : option (list string) :=
  if String.eqb place "bundle" then Some ["entry"; "files"; "provenance"; "license"]
  else if String.eqb place "bundle.files[]" then Some ["path"; "content"; "encoding"]
  else if String.eqb place "bundle.provenance" then
    Some ["source"; "upstream_url"; "upstream_commit"; "upstream_license"; "imported_at"; "notes"]
  else if String.eqb place "bundle.license" then Some ["name"; "notice"; "url"]
  else None.

Fixpoint validateBundleKeys (v : json) (place : string) : bool :=
  match v with
  | JArr l =>
      (fix children (i : nat) (l : list json) : bool :=
         match l with
         | [] => true
         | x :: l =>
             validateBundleKeys x
               (if hasSuffix place "[]" then place else place +:+ "[" +:+ pretty i +:+ "]")
             && children (S i) l
         end) 0 l
  | JObj o =>
      match bundle_keys place with
      | None => true
      | Some allowed =>
          forallb (λ kv, let '(k, child) := kv in
            bool_decide (k ∈ allowed)
            && match child with JNull => false | _ => true end
            && validateBundleKeys child
                 (if String.eqb k "files" then "bundle.files[]" else place +:+ "." +:+ k)) o
      end
  | _ => true
  end.

(** A JSON object, or [null], which leaves the zero value. *)
Definition as_struct {A} (zero : A) (f : jobj → option A) (j : json) : option A :=
  match j with JObj o => f o | JNull => Some zero | _ => None end.

Definition zero_file : SkillFile := mkFile "" "" "".
Definition zero_provenance : BundleProvenance := mkProvenance "" "" "" "" "" "".
Definition zero_license : BundleLicense := mkLicense "" "" "".

Definition decode_file : json → option SkillFile := as_struct zero_file (λ o,
  path ← field o "path" "" as_string;
  content ← field o "content" "" as_string;
  encoding ← field o "encoding" "" as_string;
  Some (mkFile path content encoding)).

Definition decode_provenance : json → option BundleProvenance := as_struct zero_provenance (λ o,
  source ← field o "source" "" as_string;
  url ← field o "upstream_url" "" as_string;
  commit ← field o "upstream_commit" "" as_string;
  license ← field o "upstream_license" "" as_string;
  imported ← field o "imported_at" "" as_string;
  notes ← field o "notes" "" as_string;
  Some (mkProvenance source url commit license imported notes)).

Definition decode_license : json → option BundleLicense := as_struct zero_license (λ o,
  name ← field o "name" "" as_string;
  notice ← field o "notice" "" as_string;
  url ← field o "url" "" as_string;
  Some (mkLicense name notice url)).

Definition decode_bundle_json : json → option SkillBundle :=
  as_struct (mkBundle "" [] zero_provenance zero_license) (λ o,
    entry ← field o "entry" "" as_string;
    files ← field o "files" [] (as_list decode_file);
    provenance ← field o "provenance" zero_provenance decode_provenance;
    license ← field o "license" zero_license decode_license;
    Some (mkBundle entry files provenance license)).

(** *** The text of a bundle *)

(** [omitempty] *)
Definition member (key s : string) : list (string * json) := [(key, JStr s)].
Definition opt_member (key s : string) : list (string * json) :=
  if String.eqb s "" then [] else member key s.

Definition file_json (f : SkillFile) : json :=
  JObj (member "path" (sf_path f) ++ member "content" (sf_content f)
        ++ opt_member "encoding" (sf_encoding f)).

Definition provenance_json (p : BundleProvenance) : json :=
  JObj (opt_member "source" (bp_source p) ++ opt_member "upstream_url" (bp_upstream_url p)
        ++ opt_member "upstream_commit" (bp_upstream_commit p)
        ++ opt_member "upstream_license" (bp_upstream_license p)
        ++ opt_member "imported_at" (bp_imported_at p) ++ opt_member "notes" (bp_notes p)).

Definition license_json (l : BundleLicense) : json :=
  JObj (member "name" (bl_name l) ++ opt_member "notice" (bl_notice l) ++ opt_member "url" (bl_url l)).

Definition bundle_json (b : SkillBundle) : json :=
  JObj [("entry", JStr (sb_entry b)); ("files", JArr (map file_json (sb_files b)));
        ("provenance", provenance_json (sb_provenance b)); ("license", license_json (sb_license b))].

(** [json.Marshal(b)] *)
Definition bundle_text (b : SkillBundle) : string := plain_text (bundle_json b).

(** *** Validation *)

(** [s[:strings.LastIndexByte(s, '/')]] *)
Fixpoint cut_last (s : string) : option string :=
  match s with
  | "" => None
  | String c r =>
      match cut_last r with
      | Some p => Some (String c p)
      | None => if Ascii.eqb c slash then Some "" else None
      end
  end.

(** The directories a path needs. *)
Fixpoint ancestors_fuel (fuel : nat) (p : string) : list string :=
  match fuel with
  | O => []
  | S fuel =>
      match cut_last p with
      | Some d => if String.eqb d "" then [] else d :: ancestors_fuel fuel d
      | None => []
      end
  end.
Definition ancestors (p : string) : list string := ancestors_fuel (String.length p) p.

(** [base64.StdEncoding.DecodeString]: the number of bytes; line breaks are
    skipped, and the last group may be padded. *)
Definition base64_char (c : ascii) : bool :=
  lower c || upper c || digit c || one_of "+/" c.
Definition is_pad (c : ascii) : bool := Ascii.eqb c "=".

Fixpoint drop_newlines (s : string) : string :=
  match s with
  | "" => ""
  | String c r =>
      if bool_decide (byte_of c ∈ [10; 13]) then drop_newlines r else String c (drop_newlines r)
  end.

Fixpoint base64_groups (s : string) : option Z :=
  match s with
  | "" => Some 0%Z
  | String a (String b (String c (String d r))) =>
      if base64_char a && base64_char b && base64_char c && base64_char d
      then Z.add 3 <$> base64_groups r
      else if base64_char a && base64_char b && is_pad d && String.eqb r "" then
        if base64_char c then Some 2%Z else if is_pad c then Some 1%Z else None
      else None
  | _ => None
  end.
Definition base64_length (s : string) : option Z := base64_groups (drop_newlines s).

Definition EncodingFileUTF8 : string := "utf-8".
Definition EncodingFileBase64 : string := "base64".

Definition content_ok (f : SkillFile) : bool :=
  if bool_decide (sf_encoding f ∈ [""; EncodingFileUTF8])
  then Z.leb (Z.of_nat (String.length (sf_content f))) MaxFileBytes
  else if String.eqb (sf_encoding f) EncodingFileBase64 then
    match base64_length (sf_content f) with Some n => Z.leb n MaxFileBytes | None => false end
  else false.

Definition ValidateBundle (b : SkillBundle) : bool :=
  let paths := map sf_path (sb_files b) in
  negb (String.eqb (sb_entry b) "")
  && ValidateBundlePath (sb_entry b)
  && negb (Nat.eqb (length (sb_files b)) 0)
  && Nat.leb (length (sb_files b)) MaxBundleFiles
  && forallb (λ f, ValidateBundlePath (sf_path f) && content_ok f) (sb_files b)
  && bool_decide (NoDup paths)
  && forallb (λ p, negb (bool_decide (p ∈ concat (map ancestors paths)))) paths
  && bool_decide (sb_entry b ∈ paths)
  && negb (String.eqb (bl_name (sb_license b)) "")
  && Z.leb (Z.of_nat (String.length (bundle_text b))) MaxBundleBytes.

Definition DecodeBundle (raw : string) : option SkillBundle :=
  c ← strict_document raw;
  if validateBundleKeys c "bundle" then
    b ← decode_bundle_json c;
    if ValidateBundle b then Some b else None
  else None.

Definition CanonicalBundleJSON (b : SkillBundle) : option string :=
  if ValidateBundle b then Some (bundle_text b) else None.

(** ** Contracts *)

Definition contract_keys : list string :=
  ["capabilities"; "input_schema"; "params_schema"; "output_schema"; "runtime"].

Section contracts.
Variable regexp_compiles : string → bool.

Definition schema_compiles (raw : string) : bool :=
  match CompileSchema regexp_compiles raw with Some _ => true | None => false end.

(** [skillregistry.ValidateContract] *)
Definition contract_valid (c : SkillContract) : bool := ValidateContract schema_compiles c.

(** A [json.RawMessage] field: the text of the member, [""] if it is absent; an
    explicit [null] is refused. *)
Definition raw_value (j : json) : option RawJson :=
  match j with JNull => None | _ => Some (plain_text j) end.
Definition raw_field (o : jobj) (key : string) : option RawJson := field o key "" raw_value.

Definition decode_runtime (j : json) : option bool :=
  match j with
  | JObj r => if keys_within ["interactive"] r then field r "interactive" false as_bool else None
  | _ => None
  end.

Definition DecodeContract (raw : string) : option SkillContract :=
  c ← strict_document raw;
  match c with
  | JObj o =>
      if negb (keys_within contract_keys o) then None
      else
        caps ← field o "capabilities" [] (λ j, match j with JNull => Some [] | _ => as_list as_string j end);
        input ← raw_field o "input_schema";
        params ← raw_field o "params_schema";
        output ← raw_field o "output_schema";
        interactive ← field o "runtime" false decode_runtime;
        let ct := mkContract caps input params output interactive in
        if contract_valid ct then Some ct else None
  | _ => None
  end.

(** The value [json.Marshal] writes for a contract; [omitempty] leaves out an
    absent schema. *)
Definition raw_member (key : string) (raw : RawJson) : option (list (string * json)) :=
  if String.eqb raw "" then Some [] else (λ j, [(key, j)]) <$> parse_json raw.

Definition contract_json (c : SkillContract) : option json :=
  input ← raw_member "input_schema" (ct_input_schema c);
  params ← raw_member "params_schema" (ct_params_schema c);
  output ← raw_member "output_schema" (ct_output_schema c);
  Some (JObj ([("capabilities", JArr (map JStr (ct_capabilities c)))] ++ input ++ params ++ output
              ++ [("runtime", JObj [("interactive", JBool (ct_interactive c))])])).

Definition CanonicalContractJSON (c : SkillContract) : option string :=
  if contract_valid c then j ← contract_json c; plain_text <$> writeCanonicalValue j else None.
End contracts.

(** ** The digest of a version *)

Definition VersionDigest (bundleJSON contractJSON : string) : string :=
  "sha256:" +:+ EncodeToString (Sum256 (bytes_of bundleJSON ++ [0%Z] ++ bytes_of contractJSON)).

(** What publishing stores of a bundle and a contract: their canonical texts and
    the digest ([PublishSkillVersion], before it touches the database). *)
Definition version_content (regexp_compiles : string → bool) (bundle contract : string)
  : option (string * string * string) :=
  b ← DecodeBundle bundle;
  c ← DecodeContract regexp_compiles contract;
  bundleJSON ← CanonicalBundleJSON b;
  contractJSON ← CanonicalContractJSON regexp_compiles c;
  Some (bundleJSON, contractJSON, VersionDigest bundleJSON contractJSON).
