(* ===== verification/BundleTheory.v ===== *)
(** * Bundles and contracts: theory

    Where a bundle's files land when they are written below a directory, and
    what survives the round trip through the text of a bundle or contract. *)

From stdpp Require Import sorting.
From Stdlib Require Import Ascii.
From S2P Require Import Prelude GoStrings Json Crypto GoJson JsonText Canonical.
From S2P Require Import CanonicalTheory Schema SchemaTheory Flow Bundle.

Open Scope nat_scope.
Open Scope list_scope.

(** ** Paths as lists of segments *)

Fixpoint join (l : list string) : string :=
  match l with
  | [] => ""
  | [x] => x
  | x :: l => x +:+ "/" +:+ join l
  end.

Definition no_slash (s : string) : Prop := has_byte (λ c, Ascii.eqb c slash) s = false.

Lemma join_split s : join (split_on slash s) = s.
Proof.
  induction s as [|c s IH]; [done|]. cbn [split_on]. destruct (Ascii.eqb_spec c slash) as [->|Hc].
  - destruct (split_on slash s) as [|h t] eqn:E; [by destruct s; cbn in E; repeat case_match|].
    change (join ("" :: h :: t)) with ("" +:+ "/" +:+ join (h :: t)). by rewrite IH.
  - destruct (split_on slash s) as [|h t]; [by rewrite <- IH|].
    rewrite <- IH. by destruct t.
Qed.

Lemma split_on_nonnil sep s : split_on sep s ≠ [].
Proof. destruct s as [|c s]; [done|]. cbn. destruct (Ascii.eqb c sep); [done|]. by destruct (split_on sep s). Qed.

Lemma split_no_slash s : Forall no_slash (split_on slash s).
Proof.
  induction s as [|c s IH]; [by repeat constructor|]. cbn [split_on].
  destruct (Ascii.eqb c slash) eqn:Ec; [by constructor|].
  destruct (split_on slash s) as [|h t]; (inversion IH; subst; constructor; [|done]) ||
    (constructor; [|constructor]); unfold no_slash in *; cbn [has_byte]; by rewrite Ec.
Qed.

Lemma cut_last_app p x : no_slash x → cut_last (p +:+ "/" +:+ x) = Some p.
Proof.
  intros Hx. assert (cut_last x = None) as Hn.
  { unfold no_slash in Hx. induction x as [|c x IH]; [done|]. cbn [has_byte] in Hx.
    apply orb_false_split in Hx as [Hc Hx]. cbn [cut_last]. by rewrite (IH Hx), Hc. }
  induction p as [|c p IH].
  - rewrite string_app_nil, string_app_cons, string_app_nil. cbn [cut_last]. by rewrite Hn.
  - rewrite string_app_cons. cbn [cut_last]. by rewrite IH.
Qed.

Lemma join_snoc l x : l ≠ [] → join (l ++ [x]) = join l +:+ "/" +:+ x.
Proof.
  induction l as [|a l IH]; [done|]. intros _. destruct l as [|b l]; [done|].
  change (join ((a :: b :: l) ++ [x])) with (a +:+ "/" +:+ join ((b :: l) ++ [x])).
  rewrite IH by done. change (join (a :: b :: l)) with (a +:+ "/" +:+ join (b :: l)).
  by rewrite <- !sapp_assoc.
Qed.

Lemma join_nonempty l : l ≠ [] → Forall (λ s, s ≠ "") l → join l ≠ "".
Proof.
  intros Hl Hne. destruct Hne as [|x l Hx _]; [done|]. destruct l; [done|].
  cbn [join]. destruct x; [done|]. by rewrite string_app_cons.
Qed.

(** The directories a path needs are its proper prefixes. *)
Lemma ancestor_in a b n :
  a ≠ [] → b ≠ [] → Forall no_slash (a ++ b) → Forall (λ s, s ≠ "") (a ++ b) →
  String.length (join (a ++ b)) <= n → join a ∈ ancestors_fuel n (join (a ++ b)).
Proof.
  revert n. induction b as [|x b IH] using rev_ind; intros n Ha Hb Hs He Hn; [done|].
  rewrite app_assoc in *. apply Forall_app in Hs as [Hs Hx], He as [He Hxe].
  apply Forall_cons in Hx as [Hx _].
  assert (a ++ b ≠ []) as Hab by (by destruct a).
  rewrite (join_snoc (a ++ b) x Hab) in *. rewrite !length_sapp in Hn. simpl String.length in Hn.
  destruct n as [|n]; [lia|]. cbn [ancestors_fuel]. rewrite cut_last_app by done.
  pose proof (join_nonempty _ Hab He) as Hne. rewrite (proj2 (String.eqb_neq _ _)) by done.
  destruct (decide (b = [])) as [->|Hbn]; [rewrite app_nil_r; by left|].
  right. apply IH; [done|done|done|done|lia].
Qed.

(** ** Where a path leads *)

(** POSIX resolution, one segment after the other. *)
Fixpoint walk (at_ : list string) (segs : list string) : list string :=
  match segs with
  | [] => at_
  | s :: segs =>
      if String.eqb s "" || String.eqb s "." then walk at_ segs
      else if String.eqb s ".." then walk (removelast at_) segs
      else walk (at_ ++ [s]) segs
  end.

Definition locate (root : list string) (p : string) : list string :=
  walk (if hasPrefix p "/" then [] else root) (split_on slash p).

Lemma segment_plain s : segment_ok s = true → s ≠ "" ∧ s ≠ "." ∧ s ≠ "..".
Proof.
  unfold segment_ok. intros [[H _]%andb_true_iff Hd]%andb_true_iff.
  apply negb_true_iff in H, Hd. apply String.eqb_neq in H. repeat split; [done|by intros ->..].
Qed.

Lemma walk_plain root segs : forallb segment_ok segs = true → walk root segs = root ++ segs.
Proof.
  revert root. induction segs as [|s segs IH]; intros root; cbn [forallb walk]; [by rewrite app_nil_r|].
  intros [(Hn & Hd & Hdd)%segment_plain H]%andb_true_iff.
  rewrite !(proj2 (String.eqb_neq _ _)) by done. cbn [orb]. rewrite IH by done. by rewrite <- app_assoc.
Qed.

Lemma path_parts p :
  ValidateBundlePath p = true → hasPrefix p "/" = false ∧ forallb segment_ok (split_on slash p) = true.
Proof. unfold ValidateBundlePath. intros H. by reflect_bools. Qed.

Lemma locate_below root p :
  ValidateBundlePath p = true → locate root p = root ++ split_on slash p.
Proof. intros [Hp Hs]%path_parts. unfold locate. rewrite Hp. by apply walk_plain. Qed.

(** A bundle's files have places of their own. *)
Lemma bundle_parts b :
  ValidateBundle b = true →
  (∀ f, f ∈ sb_files b → ValidateBundlePath (sf_path f) = true ∧ content_ok f = true)
  ∧ NoDup (map sf_path (sb_files b))
  ∧ (∀ p, p ∈ map sf_path (sb_files b) → p ∉ concat (map ancestors (map sf_path (sb_files b))))
  ∧ sb_entry b ∈ map sf_path (sb_files b)
  ∧ (Z.of_nat (String.length (bundle_text b)) <= MaxBundleBytes)%Z
  ∧ 0 < length (sb_files b) <= MaxBundleFiles ∧ bl_name (sb_license b) ≠ "".
Proof.
  unfold ValidateBundle. intros H. reflect_bools.
  repeat match goal with H : forallb _ _ = true |- _ => rewrite forallb_forall in H end.
  split; [|split; [done|split; [|split; [done|split; [lia|split; [|done]]]]]].
  - intros f Hf%list_elem_of_In. by apply andb_true_iff, H5.
  - intros p Hp%list_elem_of_In. match goal with H : ∀ x, In x (map sf_path _) → _ |- _ => apply H in Hp end.
    by reflect_bools.
  - match goal with H : (_ <=? MaxBundleFiles) = true |- _ => apply Nat.leb_le in H end.
    match goal with H : (length _ =? 0) = false |- _ => apply Nat.eqb_neq in H end. lia.
Qed.

Lemma files_apart root b i k f g :
  ValidateBundle b = true → sb_files b !! i = Some f → sb_files b !! k = Some g → i ≠ k →
  ¬ locate root (sf_path f) `prefix_of` locate root (sf_path g).
Proof.
  intros (Hf & Hn & Ha & _)%bundle_parts Hi Hk Hne.
  assert (f ∈ sb_files b ∧ g ∈ sb_files b) as [Fin Gin] by (by split; eapply list_elem_of_lookup_2).
  destruct (Hf f Fin) as [Vf _], (Hf g Gin) as [Vg _].
  rewrite !locate_below by done. intros [r Hr]. rewrite <- app_assoc in Hr. apply app_inv_head in Hr.
  apply path_parts in Vf as [_ Sf], Vg as [_ Sg].
  assert (sf_path f ∈ map sf_path (sb_files b)) as Pf by (by apply list_elem_of_fmap_2).
  assert (sf_path g ∈ map sf_path (sb_files b)) as Pg by (by apply list_elem_of_fmap_2).
  destruct (decide (r = [])) as [->|Hrn].
  - rewrite app_nil_r in Hr. apply Hne.
    assert (sf_path f = sf_path g) as E.
    { rewrite <- (join_split (sf_path f)), <- (join_split (sf_path g)). by rewrite Hr. }
    eapply (NoDup_lookup _ _ _ (sf_path f) Hn); rewrite list_lookup_fmap; [by rewrite Hi|by rewrite Hk, E].
  - apply (Ha _ Pf). apply list_elem_of_In, in_concat. exists (ancestors (sf_path g)). split.
    + by apply in_map, list_elem_of_In.
    + apply list_elem_of_In. rewrite <- (join_split (sf_path f)). unfold ancestors.
      rewrite <- (join_split (sf_path g)) at 2. rewrite Hr. apply ancestor_in.
      * apply split_on_nonnil.
      * done.
      * rewrite <- Hr. apply split_no_slash.
      * rewrite <- Hr, Forall_forall. intros s Hs%list_elem_of_In.
        rewrite forallb_forall in Sg. by apply Sg, segment_plain in Hs as [? _].
      * rewrite <- Hr, join_split. done.
Qed.

(** ** Objects up to the order of their members *)

Lemma field_perm {A} o o' key (zero : A) f :
  NoDup (map fst o) → o ≡ₚ o' → field o key zero f = field o' key zero f.
Proof.
  intros Hn Hp. assert (NoDup (map fst o')) as Hn'.
  { eapply NoDup_Permutation_proper; [|exact Hn]. by rewrite Hp. }
  unfold field. replace (jlookup o' key) with (jlookup o key); [done|].
  apply option_eq. intros v. rewrite !jlookup_Some by done. by rewrite Hp.
Qed.

Definition sorted (o : list (string * json)) : list (string * json) := merge_sort key_le o.

Lemma field_sorted {A} o key (zero : A) f :
  NoDup (map fst o) → field (sorted o) key zero f = field o key zero f.
Proof. intros Hn. symmetry. apply field_perm; [done|]. unfold sorted. by rewrite merge_sort_Permutation. Qed.

Definition strings_only (o : list (string * json)) : Prop := Forall (λ kv, ∃ s, kv.2 = JStr s) o.

Lemma canon_strings o :
  NoDup (map fst o) → strings_only o → writeCanonicalValue (JObj o) = Some (JObj (sorted o)).
Proof.
  intros Hn Hs. apply canon_obj. split; [done|]. exists o. split; [|done].
  clear Hn. induction Hs as [|[k v] o [s Hv] _ IH]; constructor; [|done].
  simpl in Hv. subst v. done.
Qed.

(** The records of a bundle are read back whatever the order of their members. *)
Lemma opt_member_strings k s : strings_only (opt_member k s).
Proof. unfold opt_member. destruct (String.eqb s ""); repeat constructor. by eexists. Qed.
Lemma member_strings k s : strings_only (member k s).
Proof. repeat constructor. by eexists. Qed.

Definition file_members (f : SkillFile) : list (string * json) :=
  member "path" (sf_path f) ++ member "content" (sf_content f) ++ opt_member "encoding" (sf_encoding f).
Definition license_members (l : BundleLicense) : list (string * json) :=
  member "name" (bl_name l) ++ opt_member "notice" (bl_notice l) ++ opt_member "url" (bl_url l).
Definition provenance_members (p : BundleProvenance) : list (string * json) :=
  opt_member "source" (bp_source p) ++ opt_member "upstream_url" (bp_upstream_url p)
  ++ opt_member "upstream_commit" (bp_upstream_commit p)
  ++ opt_member "upstream_license" (bp_upstream_license p)
  ++ opt_member "imported_at" (bp_imported_at p) ++ opt_member "notes" (bp_notes p).

Ltac nodup_keys := match goal with |- NoDup ?l => apply (proj1 (bool_decide_eq_true (NoDup l))); by vm_compute end.

Ltac each_member :=
  unfold opt_member, member;
  repeat match goal with |- context [String.eqb ?s ""] => 
    let E := fresh in destruct (String.eqb s "") eqn:E;
    [apply String.eqb_eq in E; try subst s|clear E] end.

Lemma file_members_ok f :
  NoDup (map fst (file_members f)) ∧ strings_only (file_members f)
  ∧ Forall (λ kv, kv.1 ∈ ["path"; "content"; "encoding"]) (file_members f).
Proof.
  unfold file_members. split; [|split].
  - each_member; nodup_keys.
  - repeat apply Forall_app_2; first [apply member_strings|apply opt_member_strings].
  - each_member; repeat constructor; set_solver.
Qed.
Lemma license_members_ok l :
  NoDup (map fst (license_members l)) ∧ strings_only (license_members l)
  ∧ Forall (λ kv, kv.1 ∈ ["name"; "notice"; "url"]) (license_members l).
Proof.
  unfold license_members. split; [|split].
  - each_member; nodup_keys.
  - repeat apply Forall_app_2; first [apply member_strings|apply opt_member_strings].
  - each_member; repeat constructor; set_solver.
Qed.
Lemma provenance_members_ok p :
  NoDup (map fst (provenance_members p)) ∧ strings_only (provenance_members p)
  ∧ Forall (λ kv, kv.1 ∈ ["source"; "upstream_url"; "upstream_commit"; "upstream_license";
                           "imported_at"; "notes"]) (provenance_members p).
Proof.
  unfold provenance_members. split; [|split].
  - each_member; nodup_keys.
  - repeat apply Forall_app_2; apply opt_member_strings.
  - each_member; repeat constructor; set_solver.
Qed.

Lemma decode_file_back f : decode_file (JObj (sorted (file_members f))) = Some f.
Proof.
  destruct (file_members_ok f) as [Hn _]. unfold decode_file, as_struct.
  rewrite !field_sorted by done. unfold file_members. destruct f as [p c e]. cbn [sf_path sf_content sf_encoding].
  each_member; done.
Qed.
Lemma decode_license_back l : decode_license (JObj (sorted (license_members l))) = Some l.
Proof.
  destruct (license_members_ok l) as [Hn _]. unfold decode_license, as_struct.
  rewrite !field_sorted by done. unfold license_members. destruct l as [n1 n2 n3]. cbn [bl_name bl_notice bl_url].
  each_member; done.
Qed.
Lemma decode_provenance_back p : decode_provenance (JObj (sorted (provenance_members p))) = Some p.
Proof.
  destruct (provenance_members_ok p) as [Hn _]. unfold decode_provenance, as_struct.
  rewrite !field_sorted by done. unfold provenance_members. destruct p as [p1 p2 p3 p4 p5 p6].
  cbn [bp_source bp_upstream_url bp_upstream_commit bp_upstream_license bp_imported_at bp_notes].
  each_member; done.
Qed.

(** ** The canonical document of a bundle *)

Definition canonical_members (b : SkillBundle) : list (string * json) :=
  [("entry", JStr (sb_entry b));
   ("files", JArr (map (λ f, JObj (sorted (file_members f))) (sb_files b)));
   ("provenance", JObj (sorted (provenance_members (sb_provenance b))));
   ("license", JObj (sorted (license_members (sb_license b))))].

Lemma canon_bundle b :
  writeCanonicalValue (bundle_json b) = Some (JObj (sorted (canonical_members b))).
Proof.
  apply canon_obj. split; [nodup_keys|].
  exists (canonical_members b). split; [|done].
  repeat constructor; cbn [snd].
  - apply canon_arr. eexists. split; [|done]. induction (sb_files b) as [|f fs IH]; cbn [map]; constructor; [|done].
    destruct (file_members_ok f) as (? & ? & _). by apply canon_strings.
  - destruct (provenance_members_ok (sb_provenance b)) as (? & ? & _). by apply canon_strings.
  - destruct (license_members_ok (sb_license b)) as (? & ? & _). by apply canon_strings.
Qed.

Lemma sequence_map_id {A B} (f : A → option B) (g : B → A) l :
  (∀ x, f (g x) = Some x) → sequence (map f (map g l)) = Some l.
Proof. intros H. induction l as [|x l IH]; [done|]. cbn [map sequence]. by rewrite H, IH. Qed.

Lemma decode_bundle_back b : decode_bundle_json (JObj (sorted (canonical_members b))) = Some b.
Proof.
  assert (NoDup (map fst (canonical_members b))) as Hn by (nodup_keys).
  unfold decode_bundle_json, as_struct. rewrite !field_sorted by done.
  unfold field, canonical_members. cbn [jlookup String.eqb Ascii.eqb Bool.eqb as_string mbind option_bind as_list].
  rewrite (sequence_map_id decode_file (λ f, JObj (sorted (file_members f)))) by apply decode_file_back.
  cbn [mbind option_bind]. rewrite decode_provenance_back. cbn [mbind option_bind].
  rewrite decode_license_back. cbn [mbind option_bind]. by destruct b.
Qed.

Lemma keys_ok_strings o place allowed :
  bundle_keys place = Some allowed → strings_only o → Forall (λ kv, kv.1 ∈ allowed) o →
  validateBundleKeys (JObj (sorted o)) place = true.
Proof.
  intros Hp Hs Ha. cbn [validateBundleKeys]. rewrite Hp. apply forallb_forall. intros [k v] Hin.
  apply list_elem_of_In in Hin. unfold sorted in Hin. rewrite merge_sort_Permutation in Hin.
  rewrite Forall_forall in Ha. unfold strings_only in Hs. rewrite Forall_forall in Hs.
  destruct (Hs _ Hin) as [s Hv]. cbn [snd] in Hv. subst v. rewrite bool_decide_true by (by apply (Ha (k, JStr s))).
  done.
Qed.

Lemma files_keys_ok fs i :
  (fix children (i : nat) (l : list json) : bool :=
     match l with
     | [] => true
     | x :: l => validateBundleKeys x "bundle.files[]" && children (S i) l
     end) i (map (λ f, JObj (sorted (file_members f))) fs) = true.
Proof.
  revert i. induction fs as [|f fs IH]; intros i; [done|]. cbn [map]. rewrite IH, andb_true_r.
  destruct (file_members_ok f) as (_ & ? & ?). by eapply keys_ok_strings.
Qed.

Lemma bundle_keys_ok b : validateBundleKeys (JObj (sorted (canonical_members b))) "bundle" = true.
Proof.
  cbn [validateBundleKeys]. replace (bundle_keys "bundle") with (Some ["entry"; "files"; "provenance"; "license"])
    by done. apply forallb_forall. intros [k v] Hin. apply list_elem_of_In in Hin. unfold sorted in Hin.
  rewrite merge_sort_Permutation in Hin. unfold canonical_members in Hin.
  rewrite !elem_of_cons, elem_of_nil in Hin.
  destruct Hin as [[= -> ->]|[[= -> ->]|[[= -> ->]|[[= -> ->]|[]]]]].
  - done.
  - apply (files_keys_ok (sb_files b) 0).
  - destruct (provenance_members_ok (sb_provenance b)) as (_ & ? & ?).
    change (validateBundleKeys (JObj (sorted (provenance_members (sb_provenance b)))) "bundle.provenance" = true).
    by eapply keys_ok_strings.
  - destruct (license_members_ok (sb_license b)) as (_ & ? & ?).
    change (validateBundleKeys (JObj (sorted (license_members (sb_license b)))) "bundle.license" = true).
    by eapply keys_ok_strings.
Qed.

(** *** Depth *)

Lemma depth_members o n :
  (0 <= n)%Z → Forall (λ kv, (json_depth kv.2 <= n)%Z) o → (json_depth (JObj (sorted o)) <= 1 + n)%Z.
Proof.
  intros Hn Ho. assert (Forall (λ kv, (json_depth kv.2 <= n)%Z) (sorted o)) as Hs.
  { unfold sorted. by rewrite merge_sort_Permutation. }
  cbn [json_depth]. apply Z.add_le_mono_l. induction Hs as [|[k v] l Hv _ IH]; [done|].
  cbn [map foldr]. cbn [snd] in Hv. lia.
Qed.

Lemma depth_strings o : strings_only o → (json_depth (JObj (sorted o)) <= 1)%Z.
Proof.
  intros Hs. apply (depth_members o 0); [lia|]. eapply Forall_impl; [exact Hs|].
  intros [k v] [s ->]. simpl. lia.
Qed.

Lemma bundle_depth b : (json_depth (JObj (sorted (canonical_members b))) <= 3)%Z.
Proof.
  apply (depth_members _ 2); [lia|]. unfold canonical_members.
  repeat (apply Forall_cons; split); [..|constructor]; cbn [snd].
  - simpl. lia.
  - cbn [json_depth]. rewrite map_map. replace 2%Z with (1 + 1)%Z by done. apply Z.add_le_mono_l.
    induction (sb_files b) as [|f fs IH]; [done|]. cbn [map foldr].
    pose proof (depth_strings (file_members f)) as Hd. destruct (file_members_ok f) as (_ & ? & _).
    specialize (Hd ltac:(done)). lia.
  - destruct (provenance_members_ok (sb_provenance b)) as (_ & Hs & _). apply depth_strings in Hs. lia.
  - destruct (license_members_ok (sb_license b)) as (_ & Hs & _). apply depth_strings in Hs. lia.
Qed.

(** Texts with the same canonical text are the same document. *)
Lemma strict_document_canonical raw c :
  text_short raw → wf_json c → canonicalizeJSON raw = Some (plain_text c) →
  (json_depth c <= maxNestingDepth)%Z → strict_document raw = Some c.
Proof.
  intros Hs Hw Ht Hd. destruct (canonicalize_cases raw _ Hs Ht) as (j & c' & Hj & _ & Hc & Hw' & _ & E).
  apply plain_text_inj in E; [|done|done]. subst c'. unfold strict_document. rewrite Hj. cbn [mbind option_bind].
  rewrite Hc. cbn [mbind option_bind]. by rewrite (proj2 (Z.leb_le _ _)).
Qed.

(** ** The round trip of a bundle *)

Lemma bundle_canonical b :
  ValidateBundle b = true → wf_json (bundle_json b) →
  wf_json (JObj (sorted (canonical_members b)))
  ∧ canonicalizeJSON (bundle_text b) = Some (plain_text (JObj (sorted (canonical_members b)))).
Proof.
  intros (_ & _ & _ & _ & Hl & _)%bundle_parts Hw.
  pose proof (parse_plain _ Hw) as Hp. pose proof (parse_json_fine _ _ Hp) as Hf.
  assert (Z.of_nat (String.length (plain_text (bundle_json b))) < 2 ^ 61)%Z as HN
    by (unfold bundle_text, MaxBundleBytes in Hl; lia).
  split; [by apply (canon_fixed _ HN _ _ Hf (canon_bundle b))|].
  unfold canonicalizeJSON, bundle_text. rewrite Hp. cbn [mbind option_bind]. by rewrite canon_bundle.
Qed.

(** Any spelling of the text of a bundle decodes to the bundle. *)
Lemma bundle_roundtrip b raw :
  ValidateBundle b = true → wf_json (bundle_json b) → text_short raw →
  canonicalizeJSON raw = canonicalizeJSON (bundle_text b) → DecodeBundle raw = Some b.
Proof.
  intros Hv Hw Hs E. destruct (bundle_canonical b Hv Hw) as [Hwc Hc]. rewrite Hc in E.
  unfold DecodeBundle. pose proof (bundle_depth b) as Hd.
  rewrite (strict_document_canonical raw _ Hs Hwc E) by (unfold maxNestingDepth; lia).
  cbn [mbind option_bind]. rewrite bundle_keys_ok, decode_bundle_back. cbn [mbind option_bind]. by rewrite Hv.
Qed.

(** What was decoded is in UTF-8. *)
Lemma jlookup_in o k v : jlookup o k = Some v → ∃ k', (k', v) ∈ o ∧ k' = k.
Proof.
  induction o as [|[k' w] o IH]; [done|]. cbn [jlookup]. destruct (jlookup o k) as [x|].
  - intros E. destruct (IH E) as (k1 & Hin & ->). exists k. split; [by right|done].
  - destruct (String.eqb_spec k' k) as [->|]; [|done]. intros [= ->]. exists k. split; [by left|done].
Qed.

Lemma wf_lookup o k v : wf_json (JObj o) → jlookup o k = Some v → wf_json v.
Proof.
  intros Hw (k' & Hin & _)%jlookup_in. inversion Hw as [| | | | |? Ho]; subst.
  rewrite Forall_forall in Ho. by apply (Ho (k', v)).
Qed.

Lemma wf_string_field o k s : wf_json (JObj o) → field o k "" as_string = Some s → ValidString s = true.
Proof.
  intros Hw [[_ ->]|(v & Hv & Hs)]%field_Some; [done|]. apply wf_lookup in Hv; [|done].
  destruct v; simplify_eq/=; [done|]. by inversion Hv.
Qed.

Lemma utf8_members l :
  Forall (λ kv, ValidString kv.1 = true) l → strings_only l →
  Forall (λ kv, match kv.2 with JStr s => ValidString s = true | _ => True end) l → wf_json (JObj l).
Proof.
  intros Hk Hs Hv. constructor. unfold strings_only in Hs. rewrite Forall_forall in *. intros [k v] Hin.
  split; [by apply (Hk (k, v))|]. destruct (Hs _ Hin) as [s E]. cbn [snd] in *. subst v.
  constructor. by apply (Hv (k, JStr s)).
Qed.

Ltac utf8_record ok :=
  destruct ok as (_ & ? & _); apply utf8_members; [|done|];
  each_member; repeat constructor; done.

Lemma file_utf8 f :
  ValidString (sf_path f) = true → ValidString (sf_content f) = true → ValidString (sf_encoding f) = true →
  wf_json (file_json f).
Proof.
  intros H1 H2 H3. change (file_json f) with (JObj (file_members f)).
  pose proof (file_members_ok f) as Hok. unfold file_members in *. utf8_record Hok.
Qed.
Lemma license_utf8 l :
  ValidString (bl_name l) = true → ValidString (bl_notice l) = true → ValidString (bl_url l) = true →
  wf_json (license_json l).
Proof.
  intros H1 H2 H3. change (license_json l) with (JObj (license_members l)).
  pose proof (license_members_ok l) as Hok. unfold license_members in *. utf8_record Hok.
Qed.
Lemma provenance_utf8 p :
  ValidString (bp_source p) = true → ValidString (bp_upstream_url p) = true →
  ValidString (bp_upstream_commit p) = true → ValidString (bp_upstream_license p) = true →
  ValidString (bp_imported_at p) = true → ValidString (bp_notes p) = true →
  wf_json (provenance_json p).
Proof.
  intros H1 H2 H3 H4 H5 H6. change (provenance_json p) with (JObj (provenance_members p)).
  pose proof (provenance_members_ok p) as Hok. unfold provenance_members in *. utf8_record Hok.
Qed.

Lemma as_struct_Some {A} (zero : A) f j a :
  as_struct zero f j = Some a → j = JNull ∧ a = zero ∨ ∃ o, j = JObj o ∧ f o = Some a.
Proof. destruct j; try done; [intros [= <-]; by left|]. intros H. right. by eexists. Qed.

Ltac decoded_utf8 :=
  repeat match goal with H : mbind _ _ = Some _ |- _ => apply bind_Some in H as (? & ? & ?) end;
  simplify_eq/=; eauto using wf_string_field.

Lemma decode_file_utf8 j f : wf_json j → decode_file j = Some f → wf_json (file_json f).
Proof.
  intros Hw [[_ ->]|(o & -> & H)]%as_struct_Some; [by apply file_utf8|].
  decoded_utf8. apply file_utf8; decoded_utf8.
Qed.
Lemma decode_license_utf8 j l : wf_json j → decode_license j = Some l → wf_json (license_json l).
Proof.
  intros Hw [[_ ->]|(o & -> & H)]%as_struct_Some; [by apply license_utf8|].
  decoded_utf8. apply license_utf8; decoded_utf8.
Qed.
Lemma decode_provenance_utf8 j p : wf_json j → decode_provenance j = Some p → wf_json (provenance_json p).
Proof.
  intros Hw [[_ ->]|(o & -> & H)]%as_struct_Some; [by apply provenance_utf8|].
  decoded_utf8. apply provenance_utf8; decoded_utf8.
Qed.

Lemma decode_bundle_utf8 j b : wf_json j → decode_bundle_json j = Some b → wf_json (bundle_json b).
Proof.
  intros Hw H.
  assert (ValidString (sb_entry b) = true ∧ Forall wf_json (map file_json (sb_files b))
          ∧ wf_json (provenance_json (sb_provenance b)) ∧ wf_json (license_json (sb_license b)))
    as (H1 & H2 & H3 & H4).
  { apply as_struct_Some in H as [[_ ->]|(o & -> & H)].
    { split; [done|]. split; [constructor|]. split; [by apply provenance_utf8|by apply license_utf8]. }
    apply bind_Some in H as (e & He & (fs & Hfs & (p & Hp & (l & Hl & [= <-])%bind_Some)%bind_Some)%bind_Some).
    cbn [sb_entry sb_files sb_provenance sb_license]. split; [by eapply wf_string_field|]. split; [|split].
    - apply field_Some in Hfs as [[_ ->]|(v & Hv & Hd)]; [constructor|].
      apply wf_lookup in Hv; [|done]. destruct v as [| | | |vs|]; try done.
      inversion Hv as [| | | |? Hvs|]; subst. apply sequence_Forall2 in Hd.
      clear Hv. induction Hd as [|x f vs fs Hx _ IH]; [constructor|]. apply Forall_cons in Hvs as [Hwx Hvs].
      cbn [map]. constructor; [by eapply decode_file_utf8|by apply IH].
    - apply field_Some in Hp as [[_ ->]|(v & Hv & Hd)]; [by apply provenance_utf8|].
      apply wf_lookup in Hv; [|done]. by eapply decode_provenance_utf8.
    - apply field_Some in Hl as [[_ ->]|(v & Hv & Hd)]; [by apply license_utf8|].
      apply wf_lookup in Hv; [|done]. by eapply decode_license_utf8. }
  unfold bundle_json. constructor.
  repeat (apply Forall_cons; split; [split; [done|]; cbn [snd]|]); [..|constructor].
  - by constructor.
  - by constructor.
  - done.
  - done.
Qed.

Lemma DecodeBundle_Some raw b :
  text_short raw → DecodeBundle raw = Some b → ValidateBundle b = true ∧ wf_json (bundle_json b).
Proof.
  intros Hs. unfold DecodeBundle. intros (c & Hc & H)%bind_Some.
  apply strict_document_exact in Hc as (_ & Hw & _); [|done].
  destruct (validateBundleKeys c "bundle"); [|done]. apply bind_Some in H as (b' & Hb & H).
  destruct (ValidateBundle b') eqn:Hv; [|done]. injection H as <-. split; [done|].
  by eapply decode_bundle_utf8.
Qed.

(** ** The round trip of a contract *)

Lemma canon_member_fixed o k v :
  writeCanonicalValue (JObj o) = Some (JObj o) → (k, v) ∈ o → writeCanonicalValue v = Some v.
Proof.
  intros (Hn & m & Hm & [= E])%canon_obj Hin. pose proof Hin as Hin'.
  rewrite E, merge_sort_Permutation in Hin'. apply list_elem_of_lookup in Hin as [i Hi].
  destruct (Forall2_lookup_l _ _ _ _ _ Hm Hi) as ([k' w] & Hw & [Hk Hc]). cbn [fst snd] in *. subst k'.
  rewrite (Forall2_canon_keys _ _ Hm) in Hn. apply list_elem_of_lookup_2 in Hw.
  apply (jlookup_Some m k v Hn) in Hin'. apply (jlookup_Some m k w Hn) in Hw. congruence.
Qed.

Lemma depth_member o k v : (k, v) ∈ o → (1 + json_depth v <= json_depth (JObj o))%Z.
Proof.
  intros Hin. cbn [json_depth]. apply Z.add_le_mono_l.
  induction o as [|[k' w] o IH]; [by apply not_elem_of_nil in Hin|]. cbn [map foldr].
  apply elem_of_cons in Hin as [[= <- <-]|Hin]; [lia|]. specialize (IH Hin). lia.
Qed.

Lemma depth_nonneg j : (0 <= json_depth j)%Z.
Proof.
  destruct j; cbn [json_depth]; try lia.
  - assert (0 <= foldr Z.max 0 (map json_depth l))%Z; [|lia]. induction l; cbn [map foldr]; lia.
  - match goal with |- (0 <= 1 + foldr Z.max 0 ?m)%Z => assert (0 <= foldr Z.max 0 m)%Z; [|lia] end.
    induction l as [|[]]; cbn [map foldr]; lia.
Qed.

(** A schema of a decoded contract, and its member in the text written. *)
Definition schema_part (o : jobj) (key : string) (raw : RawJson) (l : list (string * json)) : Prop :=
  raw = "" ∧ l = [] ∨ ∃ v, (key, v) ∈ o ∧ v ≠ JNull ∧ raw = plain_text v ∧ l = [(key, v)].

Lemma raw_field_part o key raw :
  wf_json (JObj o) → NoDup (map fst o) → raw_field o key = Some raw →
  ∃ l, raw_member key raw = Some l ∧ schema_part o key raw l.
Proof.
  intros Hw Hn [[_ ->]|(v & Hv & H)]%field_Some.
  - exists []. split; [done|by left].
  - pose proof (wf_lookup o key v Hw Hv) as Hwv. apply jlookup_Some in Hv; [|done].
    assert (v ≠ JNull ∧ raw = plain_text v) as [Hnull ->]
      by (destruct v; cbn [raw_value] in H; simplify_eq; done).
    exists [(key, v)]. unfold raw_member. destruct (plain_head v Hwv) as (c & r & E & _).
    rewrite (proj2 (String.eqb_neq _ _)) by (by rewrite E). rewrite parse_plain by done.
    split; [done|]. right. by exists v.
Qed.

Definition runtime_member (b : bool) : string * json := ("runtime", JObj [("interactive", JBool b)]).

Section contract.
Variable regexp_compiles : string → bool.

Lemma capabilities_known seen caps : capabilities_ok seen caps = true → Forall (λ c, c ∈ capabilitySet) caps.
Proof.
  revert seen. induction caps as [|c caps IH]; intros seen; [constructor|]. cbn [capabilities_ok].
  intros [[Hc _]%andb_true_iff H]%andb_true_iff. constructor; [by apply bool_decide_eq_true in Hc|by eapply IH].
Qed.

Lemma capabilities_utf8 caps : Forall (λ c, c ∈ capabilitySet) caps → wf_json (JArr (map JStr caps)).
Proof.
  intros H. constructor. induction H as [|c caps Hc _ IH]; cbn [map]; constructor; [|done]. constructor.
  unfold capabilitySet in Hc. rewrite !elem_of_cons, elem_of_nil in Hc.
  by destruct Hc as [->|[->|[->|[->|[->|[]]]]]].
Qed.

Lemma contract_valid_caps c :
  contract_valid regexp_compiles c = true → Forall (λ c, c ∈ capabilitySet) (ct_capabilities c).
Proof.
  unfold contract_valid, ValidateContract. destruct (ct_capabilities c) as [|x l]; [done|].
  intros [H _]%andb_true_iff. by eapply capabilities_known.
Qed.

Lemma as_list_strings l : as_list as_string (JArr (map JStr l)) = Some l.
Proof. cbn [as_list]. by apply sequence_map_id. Qed.

Lemma DecodeContract_Some raw ct :
  DecodeContract regexp_compiles raw = Some ct →
  ∃ o, strict_document raw = Some (JObj o) ∧ keys_within contract_keys o = true
    ∧ raw_field o "input_schema" = Some (ct_input_schema ct)
    ∧ raw_field o "params_schema" = Some (ct_params_schema ct)
    ∧ raw_field o "output_schema" = Some (ct_output_schema ct)
    ∧ contract_valid regexp_compiles ct = true.
Proof.
  unfold DecodeContract. intros (c & Hc & H)%bind_Some. destruct c as [| | | | |o]; try done.
  destruct (keys_within contract_keys o) eqn:Hk; [|done]. cbn [negb] in H.
  apply bind_Some in H as (caps & _ & (i & Hi & (p & Hp & (out & Ho & (b & _ & H)%bind_Some)%bind_Some)%bind_Some)%bind_Some).
  destruct (contract_valid _ _) eqn:Hv; [|done]. injection H as <-. by exists o.
Qed.

Definition text_members (ct : SkillContract) (i p u : list (string * json)) : list (string * json) :=
  ("capabilities", JArr (map JStr (ct_capabilities ct))) :: i ++ p ++ u ++ [runtime_member (ct_interactive ct)].

(** What the parts of a decoded contract make of its members. *)
Lemma text_members_ok ct o i p u :
  wf_json (JObj o) → writeCanonicalValue (JObj o) = Some (JObj o) →
  (json_depth (JObj o) <= maxNestingDepth)%Z → contract_valid regexp_compiles ct = true →
  schema_part o "input_schema" (ct_input_schema ct) i →
  schema_part o "params_schema" (ct_params_schema ct) p →
  schema_part o "output_schema" (ct_output_schema ct) u →
  let m := text_members ct i p u in
  NoDup (map fst m) ∧ Forall (λ kv, ValidString kv.1 = true ∧ wf_json kv.2) m
  ∧ Forall2 canon_member m m ∧ Forall (λ kv, (json_depth kv.2 <= maxNestingDepth - 1)%Z) m
  ∧ Forall (λ kv, kv.1 ∈ contract_keys) m.
Proof.
  intros Hw Hc Hd Hv Hi Hp Hu m.
  pose proof (capabilities_utf8 _ (contract_valid_caps ct Hv)) as Hcaps.
  assert (∀ key raw l, schema_part o key raw l → key ∈ contract_keys → ValidString key = true →
    Forall (λ kv, (ValidString kv.1 = true ∧ wf_json kv.2) ∧ writeCanonicalValue kv.2 = Some kv.2
                  ∧ (json_depth kv.2 <= maxNestingDepth - 1)%Z ∧ kv.1 ∈ contract_keys) l) as Hpart.
  { intros key raw l [[_ ->]|(v & Hin & _ & _ & ->)] Hk Hkv; [constructor|]. constructor; [|constructor].
    cbn [fst snd]. split; [split; [done|]|split; [by eapply canon_member_fixed|split; [|done]]].
    - inversion Hw as [| | | | |? Ho]; subst. rewrite Forall_forall in Ho. by apply (Ho (key, v)).
    - pose proof (depth_member o key v Hin). lia. }
  assert (Forall (λ kv, (ValidString kv.1 = true ∧ wf_json kv.2) ∧ writeCanonicalValue kv.2 = Some kv.2
                  ∧ (json_depth kv.2 <= maxNestingDepth - 1)%Z ∧ kv.1 ∈ contract_keys) m) as Hall.
  { subst m. unfold text_members. constructor; [|repeat apply Forall_app_2].
    - cbn [fst snd]. split; [by split|]. split; [|split; [|unfold contract_keys; set_solver]].
      + apply canon_arr. eexists. split; [|done]. clear. induction (ct_capabilities ct); by constructor.
      + cbn [json_depth]. unfold maxNestingDepth.
        assert (foldr Z.max 0 (map json_depth (map JStr (ct_capabilities ct))) = 0)%Z; [|lia].
        clear. induction (ct_capabilities ct) as [|c l IH]; [done|]. cbn [map foldr json_depth]. by rewrite IH.
    - eapply Hpart; [done|unfold contract_keys; set_solver|done].
    - eapply Hpart; [done|unfold contract_keys; set_solver|done].
    - eapply Hpart; [done|unfold contract_keys; set_solver|done].
    - constructor; [|constructor]. cbn [fst snd runtime_member]. split; [split; [done|]|split; [done|split; [done|]]].
      + repeat constructor.
      + unfold contract_keys. set_solver. }
  split; [|split; [|split; [|split]]].
  - subst m. unfold text_members.
    destruct Hi as [[_ ->]|(? & _ & _ & _ & ->)], Hp as [[_ ->]|(? & _ & _ & _ & ->)],
      Hu as [[_ ->]|(? & _ & _ & _ & ->)]; nodup_keys.
  - eapply Forall_impl; [exact Hall|]. by intros ? (? & ? & ? & ?).
  - clear -Hall. induction Hall as [|x l [_ [? _]] _ IH]; constructor; [by split|done].
  - eapply Forall_impl; [exact Hall|]. by intros ? (? & ? & ? & ?).
  - eapply Forall_impl; [exact Hall|]. by intros ? (? & ? & ? & ?).
Qed.

(** Reading back what was written. *)
Lemma text_members_back ct o i p u :
  NoDup (map fst (text_members ct i p u)) →
  Forall (λ kv, kv.1 ∈ contract_keys) (text_members ct i p u) →
  contract_valid regexp_compiles ct = true →
  schema_part o "input_schema" (ct_input_schema ct) i →
  schema_part o "params_schema" (ct_params_schema ct) p →
  schema_part o "output_schema" (ct_output_schema ct) u →
  ∀ raw, strict_document raw = Some (JObj (sorted (text_members ct i p u))) →
  DecodeContract regexp_compiles raw = Some ct.
Proof.
  intros Hn Hk Hv Hi Hp Hu raw Hs. unfold DecodeContract. rewrite Hs. cbn [mbind option_bind].
  assert (keys_within contract_keys (sorted (text_members ct i p u)) = true) as ->.
  { apply forallb_forall. intros kv Hin%list_elem_of_In. unfold sorted in Hin.
    rewrite merge_sort_Permutation in Hin. rewrite Forall_forall in Hk. apply bool_decide_eq_true. by apply Hk. }
  cbn [negb]. unfold raw_field. rewrite !field_sorted by done. unfold text_members, runtime_member in *.
  assert (∀ v, v ≠ JNull → raw_value v = Some (plain_text v)) as Hraw by (by intros []).
  destruct ct as [caps ci cp cu b]. cbn [ct_capabilities ct_input_schema ct_params_schema ct_output_schema ct_interactive] in *.
  destruct Hi as [[-> ->]|(v1 & _ & N1 & -> & ->)], Hp as [[-> ->]|(v2 & _ & N2 & -> & ->)],
    Hu as [[-> ->]|(v3 & _ & N3 & -> & ->)];
    unfold field; cbn [app jlookup String.eqb Ascii.eqb Bool.eqb];
    rewrite as_list_strings; cbn [mbind option_bind];
    rewrite ?(Hraw v1 N1); cbn [mbind option_bind];
    rewrite ?(Hraw v2 N2); cbn [mbind option_bind];
    rewrite ?(Hraw v3 N3); cbn [mbind option_bind];
    change (decode_runtime (JObj [("interactive", JBool b)])) with (Some b);
    cbn [mbind option_bind]; rewrite Hv; done.
Qed.
End contract.

Section contract_roundtrip.
Variable regexp_compiles : string → bool.

(** The canonical text of a decoded contract decodes, in any spelling, to the
    contract. *)
Lemma contract_roundtrip raw ct :
  text_short raw → DecodeContract regexp_compiles raw = Some ct →
  ∃ t, CanonicalContractJSON regexp_compiles ct = Some t
    ∧ ∀ raw', text_short raw' → canonicalizeJSON raw' = Some t →
        DecodeContract regexp_compiles raw' = Some ct.
Proof.
  intros Hs (o & Hc & _ & Hi & Hp & Hu & Hv)%DecodeContract_Some.
  assert (json_depth (JObj o) <= maxNestingDepth)%Z as Hd.
  { revert Hc. unfold strict_document. intros (j & _ & (c' & _ & H)%bind_Some)%bind_Some.
    destruct (Z.leb_spec (json_depth c') maxNestingDepth) as [Hle|]; [|done]. injection H as ->. exact Hle. }
  apply strict_document_exact in Hc as (He & Hw & Hcan); [|done].
  apply exact_parts in He as [Hn _].
  destruct (raw_field_part o _ _ Hw Hn Hi) as (i & Ri & Pi).
  destruct (raw_field_part o _ _ Hw Hn Hp) as (p & Rp & Pp).
  destruct (raw_field_part o _ _ Hw Hn Hu) as (u & Ru & Pu).
  destruct (text_members_ok regexp_compiles ct o i p u Hw Hcan Hd Hv Pi Pp Pu) as (Nm & Wm & Cm & Dm & Km).
  set (m := text_members ct i p u) in *.
  exists (plain_text (JObj (sorted m))). split.
  - unfold CanonicalContractJSON. rewrite Hv. unfold contract_json. rewrite Ri. cbn [mbind option_bind].
    rewrite Rp. cbn [mbind option_bind]. rewrite Ru. cbn [mbind option_bind].
    assert (writeCanonicalValue (JObj m) = Some (JObj (sorted m))) as Hm.
    { apply canon_obj. split; [done|]. by exists m. }
    subst m. unfold text_members, runtime_member in Hm |- *. cbn [app] in *. by rewrite Hm.
  - intros raw' Hs' Ht. eapply text_members_back; try done.
    apply strict_document_canonical; [done| |done|].
    + constructor. unfold sorted. by rewrite merge_sort_Permutation.
    + etransitivity; [apply (depth_members m (maxNestingDepth - 1) ltac:(done) Dm)|lia].
Qed.
End contract_roundtrip.
