(* ===== verification/Policy.v ===== *)
(** * The progression policy of workflows

    [Decide] ([internal/workflow/policy.go]): from the history of results, the
    invocations the controller expected, the approvals and the authorized
    repairs, whether a flow advances, waits or pauses, or why its history is
    invalid.  One definition per helper and per loop of the Go function. *)

From Stdlib Require Import Ascii.
From S2P Require Import Prelude GoStrings Flow.

Open Scope list_scope.

(** ** Data ([contract.go]) *)

Definition StatusCompleted : string := "completed".
Definition StatusIncomplete : string := "incomplete".
Definition StatusBlocked : string := "blocked".
Definition StatusProviderError : string := "provider_error".
Definition StatusInvalidResult : string := "invalid_result".
Definition ReviewPass : string := "pass".
Definition ReviewWarn : string := "warn".
Definition ReviewFail : string := "fail".
Definition ApprovalGranted : string := "approved".

Record ArtifactRef : Type := mkArtifact { af_id : string; af_version : Z; af_hash : string }.
Record Evidence : Type := mkEvidence { evd_kind : string; evd_ref : string; evd_hash : string }.

(** The recorded result; [Output] is cleared before a result is recorded. *)
Record StepResult : Type := mkResult {
  sr_status : string;
  sr_verdict : string;
  sr_wi : string;
  sr_flow_version : Z;
  sr_step : string;
  sr_attempt : string;
  sr_epoch : Z;
  sr_producer : string;
  sr_artifact : ArtifactRef;
  sr_evidence : list Evidence;
}.

Record ExpectedInvocation : Type := mkExpected {
  ex_wi : string; ex_flow_version : Z; ex_step : string; ex_attempt : string;
  ex_epoch : Z; ex_producer : string }.

Record HumanApproval : Type := mkApproval {
  ap_wi : string; ap_flow_version : Z; ap_step : string; ap_artifact : ArtifactRef;
  ap_actor : string; ap_decision : string }.

Record RepairAuthorization : Type := mkRepair {
  rp_failed : string; rp_retry : ExpectedInvocation; rp_authorized : bool;
  rp_reason : string }.

Record RepairEpisode : Type := mkEpisode {
  ep_failed_review : string;
  ep_producer : ExpectedInvocation;
  ep_verification : ExpectedInvocation;
  ep_review : ExpectedInvocation;
  ep_authorized : bool;
  ep_reason : string }.

Record PolicyInput : Type := mkPolicy {
  pi_human : bool;
  pi_expected : list ExpectedInvocation;
  pi_approvals : list HumanApproval;
  pi_repair : option RepairAuthorization;
  pi_episodes : list RepairEpisode }.

#[export] Instance ArtifactRef_eq_dec : EqDecision ArtifactRef.
Proof. solve_decision. Defined.
#[export] Instance ExpectedInvocation_eq_dec : EqDecision ExpectedInvocation.
Proof. solve_decision. Defined.

Inductive Decision : Type := Advance | Wait | Pause.

(** Errors, one per message. *)
Inductive PolicyErr : Type :=
  | PNoFlow | PInteractive (step : string) | PExpectedCount
  | PExpected (i : nat) | PWorkItems | PMismatch (i : nat) | PDuplicateAttempt
  | POutside (i : nat)
  | PStatus (i : nat) | PArtifact (i : nat) | PEvidence (i k : nat)
  | PVerdictMissing (i : nat) | PVerdictUnexpected (i : nat) | PNoEvidence (i : nat)
  | PEpisodeLimit | PEpisodeUnauthorized | PEpisodeFailedReview | PEpisodeBinding
  | PEpisodeIncomplete | PEpisodeRole | PEpisodeUnaffected | PEpisodeOrder
  | POutOfOrder | PRetryUnbound | PRepairSequence | PMultipleFailures
  | PRepairAuthorization | PRepairWithoutRetry
  | PSharedProducer (gate producer : string)
  | PShipNoWrite (step : string) | PShipNoGates (step : string)
  | PMissingStep (step : string) | PReviewVerdict (step : string)
  | PMissingApproval (step : string).

(** ** Helpers *)

Definition findValidatedStep (flow : ValidatedFlow) (id : string) : option ValidatedStep :=
  snd <$> list_find (λ s, vs_id s = id) (vf_steps flow).

Definition stepPosition (flow : ValidatedFlow) (id : string) : nat :=
  match list_find (λ s, vs_id s = id) (vf_steps flow) with
  | Some (i, _) => i
  | None => length (vf_steps flow)
  end.

Definition expectedFor (r : StepResult) : ExpectedInvocation :=
  mkExpected (sr_wi r) (sr_flow_version r) (sr_step r) (sr_attempt r) (sr_epoch r)
    (sr_producer r).

Definition hasApproval (approvals : list HumanApproval) (r : StepResult) : bool :=
  existsb (λ a,
    String.eqb (ap_wi a) (sr_wi r) && (ap_flow_version a =? sr_flow_version r)%Z
    && String.eqb (ap_step a) (sr_step r) && bool_decide (ap_artifact a = sr_artifact r)
    && validIdentifier (ap_actor a) && String.eqb (ap_decision a) ApprovalGranted)
    approvals.

Definition episodeContainsResult (episodes : list RepairEpisode) (r : StepResult) : bool :=
  existsb (λ e,
    String.eqb (ex_attempt (ep_producer e)) (sr_attempt r)
    || String.eqb (ex_attempt (ep_verification e)) (sr_attempt r)
    || String.eqb (ex_attempt (ep_review e)) (sr_attempt r)) episodes.

Definition completed (r : StepResult) : bool := String.eqb (sr_status r) StatusCompleted.
Definition failed_review (r : StepResult) : bool := String.eqb (sr_verdict r) ReviewFail.

(** ** [validateResult] *)

Definition known_status (s : string) : bool :=
  bool_decide (s ∈ [StatusCompleted; StatusIncomplete; StatusBlocked;
                    StatusProviderError; StatusInvalidResult]).

Definition evidence_ok (e : Evidence) : bool :=
  validIdentifier (evd_kind e) && negb (blank (evd_ref e)) && sha256RE (evd_hash e).

Definition verdict_check (i : nat) (r : StepResult) (review : bool)
  : result PolicyErr unit :=
  if review then
    if bool_decide (sr_verdict r ∈ [ReviewPass; ReviewWarn; ReviewFail]) then Ok tt
    else if String.eqb (sr_verdict r) "" then
      if String.eqb (sr_status r) StatusProviderError then Ok tt
      else Err (PVerdictMissing i)
    else Err (PVerdictMissing i)
  else if String.eqb (sr_verdict r) "" then Ok tt else Err (PVerdictUnexpected i).

Definition validateResult (i : nat) (r : StepResult) (s : ValidatedStep)
  : result PolicyErr unit :=
  if negb (known_status (sr_status r)) then Err (PStatus i)
  else if negb (validIdentifier (af_id (sr_artifact r)))
          || (af_version (sr_artifact r) <=? 0)%Z
          || negb (sha256RE (af_hash (sr_artifact r))) then Err (PArtifact i)
  else rbind (check_from (λ k e, if evidence_ok e then Ok tt else Err (PEvidence i k))
                0 (sr_evidence r)) (λ _,
  let review := hasCapability (vs_contract s) CapReview in
  rbind (verdict_check i r review) (λ _,
  if (review || hasCapability (vs_contract s) CapVerification) && completed r
     && bool_decide (sr_evidence r = []) then Err (PNoEvidence i)
  else Ok tt)).

(** ** The first loop of [Decide]: every result against its invocation *)

Definition expected_ok (flow : ValidatedFlow) (e : ExpectedInvocation) : bool :=
  validIdentifier (ex_wi e) && (ex_flow_version e =? fl_version (vf_flow flow))%Z
  && validIdentifier (ex_step e) && validIdentifier (ex_attempt e)
  && (0 <? ex_epoch e)%Z && validIdentifier (ex_producer e).

(** [wi] and [expectedIDs] are the variables of the loop; [byStep] is computed
    from the whole history at its end ([by_step]). *)
Fixpoint check_results (flow : ValidatedFlow) (i : nat) (wi : string)
    (expectedIDs : gset string) (l : list (StepResult * ExpectedInvocation))
  : result PolicyErr unit :=
  match l with
  | [] => Ok tt
  | (r, e) :: l =>
      if negb (expected_ok flow e) then Err (PExpected i)
      else if negb (String.eqb wi "") && negb (String.eqb wi (ex_wi e))
      then Err PWorkItems
      else if negb (bool_decide (expectedFor r = e)) then Err (PMismatch i)
      else if bool_decide (ex_attempt e ∈ expectedIDs) then Err PDuplicateAttempt
      else match findValidatedStep flow (ex_step e) with
           | None => Err (POutside i)
           | Some s =>
               rbind (validateResult i r s) (λ _,
               check_results flow (S i) (ex_wi e) ({[ex_attempt e]} ∪ expectedIDs) l)
           end
  end.

(** [byStep[id]]: the results of a step, in order. *)
Definition by_step (results : list StepResult) (id : string) : list StepResult :=
  filter (λ r, sr_step r = id) results.

(** ** [validateRepairEpisodes] *)

(** [values[attempt]] and [positions[attempt]]; a later duplicate would win. *)
Definition values (results : list StepResult) : gmap string StepResult :=
  foldl (λ m r, <[sr_attempt r := r]> m) ∅ results.
Definition positions (results : list StepResult) : gmap string nat :=
  foldl (λ m p, <[sr_attempt p.2 := p.1]> m) ∅ (imap pair results).
Definition position_of (results : list StepResult) (att : string) : nat :=
  default 0 (positions results !! att).

Definition episode_roles (flow : ValidatedFlow)
    (failed repair verify review : StepResult)
    (fs rs vs ws : ValidatedStep) : bool :=
  let g := vf_grants flow in
  hasCapability (vs_contract fs) CapReview
  && String.eqb (gr_authority (grant_of g (sr_step failed))) AuthorityReadOnly
  && String.eqb (gr_isolation (grant_of g (sr_step failed))) IsolationRequired
  && negb (String.eqb (vs_id rs) "")
  && negb (String.eqb (vs_id rs) (vs_id ws))
  && negb (String.eqb (vs_id rs) (vs_id vs))
  && negb (String.eqb (vs_id rs) (vs_id fs))
  && String.eqb (gr_authority (grant_of g (sr_step repair))) AuthorityWrite
  && negb (is_shipping rs)
  && (stepPosition flow (sr_step repair) <? stepPosition flow (sr_step failed))%nat
  && String.eqb (gr_authority (grant_of g (sr_step verify))) AuthorityReadOnly
  && String.eqb (gr_isolation (grant_of g (sr_step verify))) IsolationRequired
  && hasCapability (vs_contract vs) CapVerification
  && String.eqb (gr_authority (grant_of g (sr_step review))) AuthorityReadOnly
  && String.eqb (gr_isolation (grant_of g (sr_step review))) IsolationRequired
  && hasCapability (vs_contract ws) CapReview.

Definition episode_order (results : list StepResult) (e : RepairEpisode) : bool :=
  let p := position_of results in
  (p (ep_failed_review e) <? p (ex_attempt (ep_producer e)))%nat
  && (p (ex_attempt (ep_producer e)) <? p (ex_attempt (ep_verification e)))%nat
  && (p (ex_attempt (ep_verification e)) <? p (ex_attempt (ep_review e)))%nat.

Definition validate_episode (flow : ValidatedFlow) (results : list StepResult)
    (e : RepairEpisode) : result PolicyErr unit :=
  let vals := values results in
  if negb (ep_authorized e) || blank (ep_reason e) then Err PEpisodeUnauthorized
  else match vals !! ep_failed_review e with
  | None => Err PEpisodeFailedReview
  | Some failed =>
    if negb (failed_review failed) then Err PEpisodeFailedReview
    else match vals !! ex_attempt (ep_producer e), vals !! ex_attempt (ep_verification e),
               vals !! ex_attempt (ep_review e) with
    | Some repair, Some verify, Some review =>
      if negb (bool_decide (expectedFor repair = ep_producer e)
               && bool_decide (expectedFor verify = ep_verification e)
               && bool_decide (expectedFor review = ep_review e))
      then Err PEpisodeBinding
      else if negb (completed repair && completed verify && completed review)
      then Err PEpisodeIncomplete
      else match findValidatedStep flow (sr_step failed),
                 findValidatedStep flow (sr_step repair),
                 findValidatedStep flow (sr_step verify),
                 findValidatedStep flow (sr_step review) with
      | Some fs, Some rs, Some vs, Some ws =>
          if negb (episode_roles flow failed repair verify review fs rs vs ws)
          then Err PEpisodeRole
          else if negb (existsb (λ x, String.eqb (in_step x) (sr_step repair))
                          (st_inputs (vs_step fs)))
          then Err PEpisodeUnaffected
          else if negb (episode_order results e) then Err PEpisodeOrder
          else Ok tt
      | _, _, _, _ => Err PEpisodeRole
      end
    | _, _, _ => Err PEpisodeBinding
    end
  end.

Definition validateRepairEpisodes (flow : ValidatedFlow) (episodes : list RepairEpisode)
    (results : list StepResult) : result PolicyErr unit :=
  check_from (λ _ e, validate_episode flow results e) 0 episodes.

(** ** The order of ordinary results *)

Definition authorized_retry (input : PolicyInput) (r : StepResult) : bool :=
  match pi_repair input with
  | None => false
  | Some a => rp_authorized a && bool_decide (rp_retry a = expectedFor r)
  end.

(** A result the order rule exempts. *)
Definition is_repair (input : PolicyInput) (r : StepResult) : bool :=
  episodeContainsResult (pi_episodes input) r || authorized_retry input r.

(** [last] is [lastOrdinary + 1]. *)
Fixpoint check_order (flow : ValidatedFlow) (input : PolicyInput) (last : nat)
    (l : list StepResult) : result PolicyErr unit :=
  match l with
  | [] => Ok tt
  | r :: l =>
      if is_repair input r then check_order flow input last l
      else
        let position := stepPosition flow (sr_step r) in
        if (S position <? last)%nat then Err POutOfOrder
        else check_order flow input (S position) l
  end.

(** ** Retries *)

(** [(failure, retry)], once a retry is found. *)
Definition Retry : Type := option (StepResult * StepResult).

Fixpoint check_candidates (input : PolicyInput) (first : StepResult) (fr : Retry)
    (l : list StepResult) : result PolicyErr Retry :=
  match l with
  | [] => Ok fr
  | c :: l =>
      if episodeContainsResult (pi_episodes input) c then check_candidates input first fr l
      else if negb (bool_decide (pi_episodes input = [])) || bool_decide (is_Some fr)
      then Err PRetryUnbound
      else if completed first && negb (failed_review first)
              || (sr_epoch c <? sr_epoch first)%Z
              || String.eqb (sr_attempt c) (sr_attempt first) then Err PRepairSequence
      else if bool_decide (is_Some fr) then Err PMultipleFailures
      else check_candidates input first (Some (first, c)) l
  end.

Fixpoint check_retries (input : PolicyInput) (results : list StepResult) (fr : Retry)
    (steps : list ValidatedStep) : result PolicyErr Retry :=
  match steps with
  | [] => Ok fr
  | s :: steps =>
      match by_step results (vs_id s) with
      | first :: rest =>
          rbind (check_candidates input first fr rest) (λ fr,
          check_retries input results fr steps)
      | [] => check_retries input results fr steps
      end
  end.

(** [latest[id]], defined for the steps of the flow. *)
Definition latest (results : list StepResult) (id : string) : option StepResult :=
  last (by_step results id).

Definition fresh_after (results : list StepResult) (retryID attempt : string) : bool :=
  let start := match list_find (λ r, sr_attempt r = retryID) results with
               | Some (i, _) => S i
               | None => 0
               end in
  existsb (λ r, String.eqb (sr_attempt r) attempt) (drop start results).

Definition fresh_gate (flow : ValidatedFlow) (epoch : Z) (results : list StepResult)
    (retryID : string) (s : ValidatedStep) : option StepResult :=
  match latest results (vs_id s) with
  | None => None
  | Some r =>
      if (sr_epoch r <? epoch)%Z || negb (completed r)
         || negb (String.eqb (gr_isolation (grant_of (vf_grants flow) (vs_id s)))
                    IsolationRequired)
         || negb (fresh_after results retryID (sr_attempt r)) then None
      else Some r
  end.

Definition hasDistinctFreshGates (flow : ValidatedFlow) (epoch : Z)
    (results : list StepResult) (retryID : string) : bool :=
  let g s := fresh_gate flow epoch results retryID s in
  existsb (λ s, match g s with
                | Some r => hasCapability (vs_contract s) CapReview && negb (failed_review r)
                | None => false end) (vf_steps flow)
  && existsb (λ s, match g s with
                   | Some r => hasCapability (vs_contract s) CapVerification
                   | None => false end) (vf_steps flow).

(** [Ok (Some d)] is an early return of decision [d]. *)
Definition check_repair (flow : ValidatedFlow) (input : PolicyInput)
    (results : list StepResult) (fr : Retry) : result PolicyErr (option Decision) :=
  let episodeMode := negb (bool_decide (pi_episodes input = [])) in
  match fr with
  | Some (failure, retry) =>
      if episodeMode then Ok None
      else match pi_repair input with
      | None => Err PRepairAuthorization
      | Some a =>
          if negb (rp_authorized a) || blank (rp_reason a)
             || negb (String.eqb (rp_failed a) (sr_attempt failure))
             || negb (bool_decide (rp_retry a = expectedFor retry))
          then Err PRepairAuthorization
          else if negb (completed retry) || failed_review retry then Ok (Some Pause)
          else if negb (hasDistinctFreshGates flow (sr_epoch retry) results (sr_attempt retry))
          then Ok (Some Wait)
          else Ok None
      end
  | None =>
      if bool_decide (is_Some (pi_repair input)) && negb episodeMode
      then Err PRepairWithoutRetry else Ok None
  end.

(** ** Gates before shipping, and independence of producers *)

Definition gate (s : ValidatedStep) : bool :=
  hasCapability (vs_contract s) CapReview || hasCapability (vs_contract s) CapVerification.

(** The first pair (gate result, producer result) that shares its producer. *)
Definition shared_producer (flow : ValidatedFlow) (results : list StepResult)
    (i : nat) (s : ValidatedStep) : result PolicyErr unit :=
  let g := vf_grants flow in
  if negb (String.eqb (gr_isolation (grant_of g (vs_id s))) IsolationRequired)
     || negb (gate s) then Ok tt
  else
    check_from (λ _ r,
      check_from (λ _ p,
        if negb (impl_write g p) then Ok tt
        else if existsb (λ x, String.eqb (sr_producer x) (sr_producer r))
                  (by_step results (vs_id p))
        then Err (PSharedProducer (vs_id s) (vs_id p)) else Ok tt)
        0 (take i (vf_steps flow)))
      0 (by_step results (vs_id s)).

Definition validateProducerIndependence (flow : ValidatedFlow)
    (results : list StepResult) : result PolicyErr unit :=
  check_from (shared_producer flow results) 0 (vf_steps flow).

(** A condition on the step of the result at an index. *)
Definition at_result (flow : ValidatedFlow) (p : StepResult → ValidatedStep → bool)
    (results : list StepResult) (i : nat) : bool :=
  match results !! i with
  | Some r => match findValidatedStep flow (sr_step r) with
              | Some s => p r s
              | None => false
              end
  | None => false
  end.

Definition gate_result (flow : ValidatedFlow) (r : StepResult) (s : ValidatedStep) : bool :=
  completed r && isolated (vf_grants flow) s.

(** The attempt ids of the last review and verification between two events. *)
Definition gate_attempts (flow : ValidatedFlow) (results : list StepResult)
    (start stop : nat) : string * string :=
  fold_left (λ acc i,
    let id := default "" (sr_attempt <$> results !! i) in
    (if at_result flow (λ r s, gate_result flow r s
          && hasCapability (vs_contract s) CapReview && negb (failed_review r)) results i
     then id else acc.1,
     if at_result flow (λ r s, gate_result flow r s
          && hasCapability (vs_contract s) CapVerification) results i
     then id else acc.2))
    (seq start (stop - start)) ("", "").

Definition ship_order (flow : ValidatedFlow) (results : list StepResult)
    (shipIndex : nat) (ship : StepResult) : result PolicyErr unit :=
  if negb (at_result flow (λ _ s, is_shipping s) results shipIndex) then Ok tt
  else match find_down (at_result flow (λ _ s, impl_write (vf_grants flow) s) results)
               shipIndex with
  | None => Err (PShipNoWrite (sr_step ship))
  | Some lastWrite =>
      let (review, verify) := gate_attempts flow results (S lastWrite) shipIndex in
      if String.eqb review "" || String.eqb verify "" || String.eqb review verify
      then Err (PShipNoGates (sr_step ship)) else Ok tt
  end.

Definition validateShippingEventOrder (flow : ValidatedFlow) (results : list StepResult)
  : result PolicyErr unit :=
  check_from (ship_order flow results) 0 results.

(** ** The last loop of [Decide] *)

Definition any_latest (results : list StepResult) (steps : list ValidatedStep) : bool :=
  existsb (λ s, bool_decide (is_Some (latest results (vs_id s)))) steps.

Fixpoint progress (input : PolicyInput) (results : list StepResult)
    (steps : list ValidatedStep) : result PolicyErr Decision :=
  match steps with
  | [] => Ok Advance
  | s :: later =>
      match latest results (vs_id s) with
      | None =>
          if any_latest results later then Err (PMissingStep (vs_id s)) else Ok Wait
      | Some r =>
          if negb (completed r) || failed_review r then Ok Pause
          else if hasCapability (vs_contract s) CapReview && String.eqb (sr_verdict r) ""
          then Err (PReviewVerdict (sr_step r))
          else if pi_human input && step_rhs (vs_step s)
                  && negb (hasApproval (pi_approvals input) r)
          then if any_latest results later then Err (PMissingApproval (sr_step r)) else Ok Wait
          else progress input results later
      end
  end.

(** ** [Decide] *)

Definition check_interactive (flow : ValidatedFlow) (input : PolicyInput)
  : result PolicyErr unit :=
  if pi_human input then Ok tt
  else check_from (λ _ s, if ct_interactive (vs_contract s)
                          then Err (PInteractive (vs_id s)) else Ok tt) 0 (vf_steps flow).

Definition Decide (flow : ValidatedFlow) (results : list StepResult) (input : PolicyInput)
  : result PolicyErr Decision :=
  if bool_decide (vf_steps flow = []) then Err PNoFlow
  else rbind (check_interactive flow input) (λ _,
  if negb (Nat.eqb (length (pi_expected input)) (length results)) then Err PExpectedCount
  else rbind (check_results flow 0 "" ∅ (zip results (pi_expected input))) (λ _,
  if (8 <? length (pi_episodes input))%nat then Err PEpisodeLimit
  else rbind (validateRepairEpisodes flow (pi_episodes input) results) (λ _,
  rbind (check_order flow input 0 results) (λ _,
  rbind (check_retries input results None (vf_steps flow)) (λ fr,
  rbind (check_repair flow input results fr) (λ early,
  match early with
  | Some d => Ok d
  | None =>
      rbind (validateProducerIndependence flow results) (λ _,
      rbind (validateShippingEventOrder flow results) (λ _,
      progress input results (vf_steps flow)))
  end)))))).
