(* ===== verification/WorkflowTables.v ===== *)
(** * The tables of workflow runs

    Migration [0044_wi_workflows.sql]: generations of a work item's flow, the
    invocations of its steps, their results, human approvals, and repair
    authorizations.  The JSONB columns hold values the server wrote itself; they
    are kept decoded, in the types of [Flow] and [Policy].  Time stamps no handler reads
    (superseded_at, recorded_at, closed_at) are left out. *)

From S2P Require Import Prelude GoStrings Json Flow Policy.

(** [wiStepMeta] *)
Record wiStepMeta : Type := mkMeta {
  Capabilities : list string;
  Interactive : bool;
}.

Record Generation : Type := mkGen {
  gn_steps : Flow;
  gn_grants : gmap string StepGrant;
  gn_meta : gmap string wiStepMeta;
  gn_digest : string;              (* validation_digest *)
  gn_rhs : bool;                   (* requires_human_session *)
  gn_by : string;                  (* created_by *)
  gn_created : Z;
}.

Inductive InvStatus : Type := InvOpen | InvRecorded | InvSuperseded.

#[export] Instance InvStatus_eq_dec : EqDecision InvStatus.
Proof. solve_decision. Defined.

Record Invocation : Type := mkInv {
  iv_wi : string;
  iv_version : Z;                  (* steps_version *)
  iv_step : string;
  iv_attempt : string;             (* step_attempt_id *)
  iv_run : string;                 (* run_attempt_id *)
  iv_epoch : Z;
  iv_producer : string;
  iv_grant : StepGrant;
  iv_status : InvStatus;
  iv_episode : option string;      (* repair_episode_id *)
  iv_created : Z;
}.

Definition iv_with_status (st : InvStatus) (i : Invocation) : Invocation :=
  mkInv (iv_wi i) (iv_version i) (iv_step i) (iv_attempt i) (iv_run i) (iv_epoch i)
    (iv_producer i) (iv_grant i) st (iv_episode i) (iv_created i).

(** The column [raw] (the bytes the client sent) is left out. *)
Record WfResult : Type := mkWRes {
  wr_wi : string;
  wr_inv : string;                 (* invocation_id *)
  wr_version : Z;
  wr_step : string;
  wr_attempt : string;             (* step_attempt_id *)
  wr_run : string;                 (* run_attempt_id *)
  wr_epoch : Z;
  wr_producer : string;
  wr_status : string;
  wr_verdict : string;             (* COALESCE(review_verdict, '') *)
  wr_artifact : ArtifactRef;
  wr_evidence : list Evidence;
  wr_created : Z;
}.

Record Approval : Type := mkAppr {
  wa_wi : string;
  wa_version : Z;
  wa_step : string;
  wa_artifact : ArtifactRef;
  wa_decision : string;
  wa_user : string;
  wa_display : string;
  wa_created : Z;
}.

Record Repair : Type := mkRep {
  rpr_wi : string;
  rpr_kind : string;
  rpr_version : Z;                  (* failed_steps_version *)
  rpr_step : string;                (* failed_step_id *)
  rpr_attempt : string;             (* failed_step_attempt_id *)
  rpr_reason : string;
  rpr_run : string;
  rpr_epoch : Z;
  rpr_by : string;                  (* authorized_by *)
  rpr_open : bool;                  (* status = 'open' *)
  rpr_created : Z;
  rpr_parent : option string;       (* parent_episode_id *)
}.

Definition rpr_closed (r : Repair) : Repair :=
  mkRep (rpr_wi r) (rpr_kind r) (rpr_version r) (rpr_step r) (rpr_attempt r) (rpr_reason r)
    (rpr_run r) (rpr_epoch r) (rpr_by r) false (rpr_created r) (rpr_parent r).

(** The columns [steps] and [steps_version] of a work item: absent is NULL, 0. *)
Record WorkflowTables : Type := mkWf {
  wf_pointers : gmap string (Flow * Z);
  wf_generations : gmap (string * Z) Generation;
  wf_invocations : gmap string Invocation;
  wf_results : gmap string WfResult;
  wf_approvals : gmap string Approval;
  wf_repairs : gmap string Repair;
}.

Definition no_workflows : WorkflowTables := mkWf ∅ ∅ ∅ ∅ ∅ ∅.

Definition set_generation (wi : string) (v : Z) (g : Generation) (w : WorkflowTables)
  : WorkflowTables :=
  mkWf (<[wi := (gn_steps g, v)]> (wf_pointers w)) (<[(wi, v) := g]> (wf_generations w))
    (wf_invocations w) (wf_results w) (wf_approvals w) (wf_repairs w).
Definition set_invocations (f : gmap string Invocation → gmap string Invocation)
  (w : WorkflowTables) : WorkflowTables :=
  mkWf (wf_pointers w) (wf_generations w) (f (wf_invocations w)) (wf_results w)
    (wf_approvals w) (wf_repairs w).
Definition set_results (f : gmap string WfResult → gmap string WfResult)
  (w : WorkflowTables) : WorkflowTables :=
  mkWf (wf_pointers w) (wf_generations w) (wf_invocations w) (f (wf_results w))
    (wf_approvals w) (wf_repairs w).
Definition set_approvals (f : gmap string Approval → gmap string Approval)
  (w : WorkflowTables) : WorkflowTables :=
  mkWf (wf_pointers w) (wf_generations w) (wf_invocations w) (wf_results w)
    (f (wf_approvals w)) (wf_repairs w).
Definition set_repairs (f : gmap string Repair → gmap string Repair)
  (w : WorkflowTables) : WorkflowTables :=
  mkWf (wf_pointers w) (wf_generations w) (wf_invocations w) (wf_results w)
    (wf_approvals w) (f (wf_repairs w)).

(** * The tables of users, projects and skills

    Migrations [0001_initial.sql] (users), [0012_projects.sql] with
    [0019_projects_scenario_url.sql] and [0032_projects_members_version.sql],
    and [0043_skill_registry.sql].  Time stamps are kept where an answer shows
    them. *)

(** One element of [users.api_keys]; a key without [revoked_at] is live. *)
Record ApiKey : Type := mkKey {
  ak_id : string;
  ak_hash : string;
  ak_scope : option string;        (* project_scope *)
  ak_revoked : option string;      (* revoked_at *)
}.

Record UserRow : Type := mkUserRow {
  ur_email : string;
  ur_display : string;
  ur_type : string;
  ur_role : string;
  ur_keys : list ApiKey;
}.

Record ProjectRow : Type := mkProject {
  pr_description : option string;
  pr_visible : bool;
  pr_identifier : option (string * string);   (* identifier_hash, identifier_prefix *)
  pr_repos : json;
  pr_members : json;
  pr_members_version : Z;
  pr_seq : Z;                      (* wi_seq *)
  pr_scenario : option string;
  pr_owner : string;               (* owner_user_id *)
}.

Definition pr_with_seq (n : Z) (p : ProjectRow) : ProjectRow :=
  mkProject (pr_description p) (pr_visible p) (pr_identifier p) (pr_repos p) (pr_members p)
    (pr_members_version p) n (pr_scenario p) (pr_owner p).

Record SkillRow : Type := mkSkill {
  sk_owner : string;               (* owner_user_id *)
  sk_name : string;
  sk_latest : Z;                   (* latest_version *)
  sk_created : Z;
  sk_updated : Z;
}.

Record VersionRow : Type := mkVersion {
  sv_bundle : json;
  sv_contract : json;
  sv_digest : string;
  sv_visibility : string;
  sv_author : string;              (* author_user_id *)
  sv_created : Z;
}.

Record RegistryTables : Type := mkReg {
  rg_users : gmap string UserRow;
  rg_skills : gmap string SkillRow;
  rg_versions : gmap (string * Z) VersionRow;
  rg_grants : gmap (string * Z * string) string;   (* granted_by *)
}.

Definition no_registry : RegistryTables := mkReg ∅ ∅ ∅ ∅.
