(* ===== verification/WorkflowPin.v ===== *)
(** * Pinning a workflow generation

    [internal/domain/workflow.go]: from the steps a client names to a validated
    flow with the grants and the metadata of its skills.  The skill registry
    and the users of the installation are not modelled; what they answer comes
    as a value of [Outside], and everything holds for every choice of it. *)

From S2P Require Import Prelude GoStrings Errors Json Crypto Flow Policy WorkflowTables.

Open Scope list_scope.

Definition CapAuthoring : string := "authoring".
Definition CapDeterministicOperation : string := "deterministic_operation".
Definition ApprovalDenied : string := "rejected".

Record UserRecord : Type := mkUser {
  us_id : string;
  us_role : string;
  us_scope : option string;        (* ProjectScope *)
}.

(** The registry's and the directory's answers to one request. *)
Record Outside : Type := mkOutside {
  (** [resolveWorkflowSkillRef]: the version and the contract *)
  ou_skill : UserRecord → string → Z → result AihubError (Z * SkillContract);
  (** [resolvePinnedSkillRefTrusted] *)
  ou_pinned : string → Z → result AihubError SkillContract;
  (** the [users] row, and the key scope, of the attempt's actor *)
  ou_user : string → result DbErr UserRecord;
  (** the JSON schema compiler *)
  ou_compiles : RawJson → bool;
  ou_params_conform : RawJson → RawJson → bool;
  ou_schemas_match : RawJson → string → RawJson → string → bool;
  ou_output_conforms : RawJson → json → bool;
  (** [workflowGenerationDigest] *)
  ou_digest : Z → bool → Flow → gmap string StepGrant → gmap string wiStepMeta → string;
}.

(** ** Creation modes *)

Definition WorkflowModeValues : list string := ["legacy"; "db"; "pending"].

Definition composeFailed (reason : string) : AihubError :=
  NewErrDetails ErrComposeFailed (DField "reason" reason).

Definition resolveCreateWorkflowMode (requested : string) (hasSteps : bool)
  : result AihubError string :=
  if negb (String.eqb requested "") && negb (bool_decide (requested ∈ WorkflowModeValues))
  then Err (composeFailed "invalid_workflow_mode")
  else if hasSteps then
    if bool_decide (requested ∈ [""; "db"]) then Ok "db"
    else if String.eqb requested "legacy" then Err (composeFailed "steps_with_legacy_mode")
    else Err (composeFailed "steps_with_pending_mode")
  else if bool_decide (requested ∈ [""; "legacy"]) then Ok "legacy"
  else if String.eqb requested "pending" then Ok "pending"
  else Err (composeFailed "db_mode_requires_steps").

(** ** Grants *)

(** [None] is the error: a contract that both gates and produces. *)
Definition workflowGrantForContract (c : SkillContract) : option StepGrant :=
  let has := hasCapability c in
  let gate := has CapReview || has CapVerification in
  let producer := has CapShipping || has CapAuthoring || has CapDeterministicOperation in
  if gate && producer then None
  else if gate then Some (mkGrant AuthorityReadOnly IsolationRequired)
  else if has CapShipping || has CapAuthoring
  then Some (mkGrant AuthorityWrite IsolationShared)
  else Some (mkGrant AuthorityReadOnly IsolationShared).

(** ** Pinning *)

(** A step as a client names it; version 0 or less asks for the latest. *)
Record WorkflowStepSpec : Type := mkSpec {
  sp_id : string;
  sp_skill : string;
  sp_skill_version : Z;
  sp_rhs : option bool;
  sp_models : list ModelCandidate;
  sp_params : RawJson;
  sp_inputs : list InputRef;
}.

Record workflowPinOutcome : Type := mkPin {
  pn_flow : Flow;                  (* Validated.Definition() *)
  pn_grants : gmap string StepGrant;
  pn_meta : gmap string wiStepMeta;
  pn_digest : string;
}.

(** Each pair of skill and version is resolved once. *)
Fixpoint resolve_refs (o : Outside) (caller : UserRecord)
  (resolved : gmap (string * Z) (Z * SkillContract)) (specs : list WorkflowStepSpec)
  : result AihubError (gmap (string * Z) (Z * SkillContract)) :=
  match specs with
  | [] => Ok resolved
  | s :: specs =>
      if String.eqb (sp_skill s) "" then Err (NewErr ErrBadRequest)
      else match resolved !! (sp_skill s, sp_skill_version s) with
           | Some _ => resolve_refs o caller resolved specs
           | None =>
               rbind (ou_skill o caller (sp_skill s) (sp_skill_version s)) (λ ref,
                 resolve_refs o caller
                   (<[(sp_skill s, sp_skill_version s) := ref]> resolved) specs)
           end
  end.

Definition pinned_step (s : WorkflowStepSpec) (version : Z) : Step :=
  mkFlowStep (sp_id s) (sp_skill s) version (sp_rhs s) (sp_models s) (sp_params s)
    (sp_inputs s).

(** What the second loop builds. *)
Record Pinning : Type := mkPinning {
  pg_steps : list Step;
  pg_bindings : list SkillBinding;
  pg_grants : gmap string StepGrant;
  pg_meta : gmap string wiStepMeta;
}.

(** A reference every spec of the list has, by [resolve_refs]. *)
Definition ref_of (resolved : gmap (string * Z) (Z * SkillContract))
  (s : WorkflowStepSpec) : Z * SkillContract :=
  default (0%Z, mkContract [] "" "" "" false) (resolved !! (sp_skill s, sp_skill_version s)).

Fixpoint pin_steps (resolved : gmap (string * Z) (Z * SkillContract)) (p : Pinning)
  (specs : list WorkflowStepSpec) : result AihubError Pinning :=
  match specs with
  | [] => Ok p
  | s :: specs =>
      let ref := ref_of resolved s in
      match workflowGrantForContract ref.2 with
      | None => Err (NewErr ErrBadRequest)
      | Some g =>
          pin_steps resolved
            (mkPinning (pg_steps p ++ [pinned_step s ref.1])
               (pg_bindings p ++ [mkBinding (sp_skill s) ref.1 ref.2])
               (<[sp_id s := g]> (pg_grants p))
               (<[sp_id s := mkMeta (ct_capabilities ref.2) (ct_interactive ref.2)]>
                  (pg_meta p))) specs
      end
  end.

Definition step_interactive (meta : gmap string wiStepMeta) (s : WorkflowStepSpec) : bool :=
  match meta !! sp_id s with Some m => Interactive m | None => false end.

Definition pinWorkflowGeneration (o : Outside) (stepsVersion : Z) (caller : UserRecord)
  (rhs : bool) (specs : list WorkflowStepSpec) : result AihubError workflowPinOutcome :=
  if String.eqb (us_id caller) "" then Err (NewErr ErrInternalError)
  else if Z.ltb stepsVersion 1 then Err (NewErr ErrInternalError)
  else if bool_decide (specs = []) then Err (NewErr ErrBadRequest)
  else rbind (resolve_refs o caller ∅ specs) (λ resolved,
  rbind (pin_steps resolved (mkPinning [] [] ∅ ∅) specs) (λ p,
  let flow := mkFlow stepsVersion (pg_steps p) in
  match Validate (ou_compiles o) (ou_params_conform o) (ou_schemas_match o) flow
          (pg_bindings p) (pg_grants p) with
  | inl _ => Err (NewErr ErrBadRequest)
  | inr v =>
      if negb rhs && existsb (step_interactive (pg_meta p)) specs
      then Err (NewErr ErrBadRequest)
      else Ok (mkPin (vf_flow v) (pg_grants p) (pg_meta p)
                 (ou_digest o stepsVersion rhs flow (pg_grants p) (pg_meta p)))
  end)).
