(* ===== verification/Declared.v ===== *)
(** * Declared resources and requested locks: the two vocabularies

    [internal/domain/declared_resources.go]: the closed sets of declared
    types and lock types, the uri scheme rule, the validator for
    caller-supplied declarations, and the report for stored ones. *)

From S2P Require Import Prelude GoStrings Errors Json.

Definition declaredResourceTypes (typ : string) : bool :=
  bool_decide (typ ∈ ["repo"; "path"; "document"; "section"; "service";
                      "external_ref"]).

Definition resourceLockTypes (typ : string) : bool :=
  bool_decide (typ ∈ ["git_branch"; "worktree"; "file_scope"; "tcp_port";
                      "deploy_env"]).

(** The required uri scheme of each type; [""] means "an absolute URL". *)
Definition declaredResourceURISchemes (typ : string) : option string :=
  if String.eqb typ "repo" then Some "repo:"
  else if bool_decide (typ ∈ ["path"; "document"; "section"]) then Some "file:"
  else if String.eqb typ "service" then Some "service:"
  else if String.eqb typ "external_ref" then Some ""
  else None.

(** The non-empty schemes of the table. *)
Definition declaredResourceSchemePrefixes : list string :=
  ["repo:"; "file:"; "service:"].

Section url.
(** [net/url.Parse], reduced to the fields the code reads: scheme, host and
    opaque part, or [None] for a parse error. *)
Variable url_parse : string → option (string * string * string).

(** [true] when [uri] is fine for [typ]. *)
Definition uriSchemeProblem (typ uri : string) : bool :=
  match declaredResourceURISchemes typ with
  | None => false
  | Some scheme =>
      if negb (String.eqb scheme "") then negb (hasPrefix uri scheme)
      else if existsb (hasPrefix uri) declaredResourceSchemePrefixes then true
      else match url_parse uri with
           | None => true
           | Some (sch, host, opaque) =>
               String.eqb sch ""
               || (String.eqb host "" && String.eqb opaque "")
           end
  end.

(** One iteration of the loop of [ValidateDeclaredResources]. *)
Definition validate_item (i : nat) (item : jobj) : result AihubError unit :=
  let typ := jstr item "type" in
  let uri := jstr item "uri" in
  if negb (declaredResourceTypes typ) then
    Err (NewErrDetails ErrBadRequest (DIndex i))
  else if blank uri then Err (NewErrDetails ErrBadRequest (DIndex i))
  else if uriSchemeProblem typ uri then
    Err (NewErrDetails ErrBadRequest (DIndex i))
  else Ok tt.

Definition ValidateDeclaredResources (raw : RawMessage)
  : result AihubError unit :=
  if raw_absent raw then Ok tt
  else match unmarshal_objects raw with
       | None => Err (NewErr ErrBadRequest)
       | Some items => check_from validate_item 0 items
       end.
End url.

(** ** The report on stored declarations *)

Inductive Unrecognized : Type :=
  | UNotAnArray
  | UUnknownType (i : nat) (typ : string) (uri : option string)
  | UAdvisoryNoURI (i : nat) (typ : string)
  | UNoURI (i : nat) (typ : string).

(** The uri with its type's scheme stripped, both ends trimmed. *)
Definition effective_uri (typ uri : string) : string :=
  let eff := trimSpace uri in
  match declaredResourceURISchemes typ with
  | Some scheme =>
      if negb (String.eqb scheme "") && hasPrefix eff scheme
      then trimSpace (trimPrefix eff scheme) else eff
  | None => eff
  end.

Definition unrecognized_item (i : nat) (item : jobj) : option Unrecognized :=
  let typ := jstr item "type" in
  let uri := jstr item "uri" in
  let hasURI := negb (String.eqb (effective_uri typ uri) "") in
  if negb (declaredResourceTypes typ) then
    Some (UUnknownType i typ (if hasURI then Some uri else None))
  else if negb (String.eqb typ "external_ref") && negb hasURI then
    if String.eqb typ "repo" || String.eqb typ "service"
    then Some (UAdvisoryNoURI i typ) else Some (UNoURI i typ)
  else None.

Fixpoint unrecognized_from (i : nat) (items : list jobj) : list Unrecognized :=
  match items with
  | [] => []
  | item :: items =>
      match unrecognized_item i item with
      | Some u => u :: unrecognized_from (S i) items
      | None => unrecognized_from (S i) items
      end
  end.

Definition UnrecognizedDeclaredResources (raw : RawMessage)
  : list Unrecognized :=
  if raw_absent raw then []
  else match unmarshal_objects raw with
       | None => [UNotAnArray]
       | Some items => unrecognized_from 0 items
       end.

(** ** Requested locks *)

Record ResourceLockReq : Type := mkLockReq {
  req_resource_type : string;
  req_resource_key : string;
}.

Definition validate_requested (i : nat) (l : ResourceLockReq)
  : result AihubError unit :=
  if negb (resourceLockTypes (req_resource_type l)) then
    Err (NewErrDetails ErrBadRequest (DIndex i))
  else if blank (req_resource_key l) then
    Err (NewErrDetails ErrBadRequest (DIndex i))
  else Ok tt.

Definition ValidateRequestedLocks (locks : list ResourceLockReq)
  : result AihubError unit :=
  check_from validate_requested 0 locks.

(** ** Lemmas *)

Lemma unrecognized_from_spec items i u :
  u ∈ unrecognized_from i items ↔
  ∃ k item, items !! k = Some item ∧ unrecognized_item (i + k) item = Some u.
Proof.
  revert i. induction items as [|x items IH]; intros i; simpl.
  - split; [by intros ?%elem_of_nil|]. intros (k & ? & Hk & _).
    by rewrite lookup_nil in Hk.
  - transitivity (unrecognized_item i x = Some u ∨
                  u ∈ unrecognized_from (S i) items).
    { destruct (unrecognized_item i x) as [u'|]; [rewrite elem_of_cons|];
        intuition congruence. }
    rewrite IH. split.
    + intros [H|(k & y & Hk & Hu)].
      * exists 0, x. by rewrite Nat.add_0_r.
      * exists (S k), y. by rewrite Nat.add_succ_r.
    + intros ([|k] & y & Hk & Hu); simpl in Hk; simplify_eq.
      * left. by rewrite Nat.add_0_r in Hu.
      * right. exists k, y. by rewrite Nat.add_succ_r in Hu.
Qed.

Lemma validate_requested_ok i l :
  validate_requested i l = inr tt ↔
  resourceLockTypes (req_resource_type l) = true
  ∧ blank (req_resource_key l) = false.
Proof.
  unfold validate_requested.
  destruct (resourceLockTypes _), (blank _); simpl; unfold Err, Ok; naive_solver.
Qed.

#[export] Hint Rewrite validate_requested_ok : polyforge.
