(* ===== verification/Locks.v ===== *)
(** * Lock derivation and conflict probes

    [internal/domain/conflicts.go], from the declared resources of a work item
    to the lock rows it takes and the existing rows that block it; and
    [declared_resources] payload decoding.  The SQL [LIKE] of
    [lockConflictWhereClause] is defined here next to its Go mirror. *)

From S2P Require Import Prelude GoStrings Errors Json Declared.
From Stdlib Require Import Ascii String.

Open Scope string_scope.

Record DeclaredResourceItem : Type := mkItem {
  Type_ : string;
  URI : string;
  Repo : string;
  Intent : string;
  BaseBranch : string;
  TaskBranch : string;
}.

Definition set_repo (r : string) (it : DeclaredResourceItem)
  : DeclaredResourceItem :=
  mkItem (Type_ it) (URI it) r (Intent it) (BaseBranch it) (TaskBranch it).

Definition normalizeRepo (repo : string) : string := trimSpace repo.

Definition fileURIToLockKey (uri : string) : string := trimPrefix uri "file:".

Definition fileScopeLockKey (project repo uri : string) : string :=
  let repo := normalizeRepo repo in
  if String.eqb repo "" then project +:+ ":" +:+ fileURIToLockKey uri
  else project +:+ ":" +:+ repo +:+ ":" +:+ fileURIToLockKey uri.

(** ** Probes *)

Record lockConflictProbe : Type := mkProbe {
  Keys : list string;
  LikePattern : string;
  anyRepoPrefix : string;
  anyRepoSuffix : string;
}.

Definition emptyProbe : lockConflictProbe := mkProbe [] "" "" "".
Definition exactProbe (key : string) : lockConflictProbe :=
  mkProbe [key] "" "" "".
Definition exactProbeMulti (keys : list string) : lockConflictProbe :=
  mkProbe keys "" "" "".

Definition backslash : ascii := ascii_of_nat 92.

Fixpoint likeEscape (s : string) : string :=
  match s with
  | EmptyString => EmptyString
  | String c s =>
      if Ascii.eqb c backslash || Ascii.eqb c "%" || Ascii.eqb c "_"
      then String backslash (String c (likeEscape s))
      else String c (likeEscape s)
  end.

Definition fileScopeConflictProbe (project repo uri : string)
  : lockConflictProbe :=
  let path := fileURIToLockKey uri in
  if String.eqb (normalizeRepo repo) "" then
    mkProbe [fileScopeLockKey project "" uri]
            (likeEscape project +:+ ":%:" +:+ likeEscape path)
            (project +:+ ":") (":" +:+ path)
  else exactProbeMulti [fileScopeLockKey project repo uri;
                        fileScopeLockKey project "" uri].

(** The Go mirror of the SQL predicate. *)
Definition Matches (p : lockConflictProbe) (existing : string) : bool :=
  existsb (String.eqb existing) (Keys p)
  || (negb (String.eqb (LikePattern p) "")
      && ((String.length (anyRepoPrefix p) + String.length (anyRepoSuffix p)
           <=? String.length existing)%nat
          && hasPrefix existing (anyRepoPrefix p)
          && hasSuffix existing (anyRepoSuffix p))).

Definition globOverlap (a b : string) : bool :=
  if String.eqb a b then true
  else if hasPrefix a b || hasPrefix b a then true
  else let aBase := trimSuffix a "/**" in
       let bBase := trimSuffix b "/**" in
       hasPrefix aBase bBase || hasPrefix bBase aBase.

Definition Overlaps (p : lockConflictProbe) (existing : string) : bool :=
  if Matches p existing then true
  else existsb (λ k, globOverlap k existing) (Keys p).

(** ** SQL [LIKE], on byte strings, with the default escape character.

    [_] stands for one character; the patterns the code builds escape every
    [_], so its byte reading below is never used by them. *)

Inductive like_tok : Type := Lit (c : ascii) | AnySeq | AnyOne.

Fixpoint like_parse (p : string) : list like_tok :=
  match p with
  | EmptyString => []
  | String c p =>
      if Ascii.eqb c backslash then
        match p with
        | EmptyString => [Lit c]
        | String d p => Lit d :: like_parse p
        end
      else if Ascii.eqb c "%" then AnySeq :: like_parse p
      else if Ascii.eqb c "_" then AnyOne :: like_parse p
      else Lit c :: like_parse p
  end.

Fixpoint like_match (p : list like_tok) (s : string) {struct p} : bool :=
  match p with
  | [] => String.eqb s ""
  | Lit c :: p =>
      match s with String d s => Ascii.eqb c d && like_match p s | _ => false end
  | AnyOne :: p => match s with String _ s => like_match p s | _ => false end
  | AnySeq :: p =>
      (fix any (s : string) : bool :=
         like_match p s || match s with String _ s => any s | _ => false end) s
  end.

Definition like (s pattern : string) : bool := like_match (like_parse pattern) s.

(** [lockConflictWhereClause] on the key column. *)
Definition sql_key_conflicts (p : lockConflictProbe) (existing : string) : bool :=
  existsb (String.eqb existing) (Keys p)
  || (negb (String.eqb (LikePattern p) "") && like existing (LikePattern p)).

(** ** From a declared resource to its lock *)

(** [None] is the code's [("", "")]. *)
Definition resourceToLock (res : DeclaredResourceItem) (project : string)
  : option (string * string) :=
  if bool_decide (Type_ res ∈ ["path"; "document"; "section"]) then
    if blank (fileURIToLockKey (URI res)) then None
    else Some ("file_scope", fileScopeLockKey project (Repo res) (URI res))
  else None.

Definition derivedLock (res : DeclaredResourceItem) (project : string)
  : option (string * string) :=
  match resourceToLock res project with
  | Some (lockType, lockKey) =>
      if String.eqb lockType "file_scope" && String.eqb (Intent res) "read"
      then None else Some (lockType, lockKey)
  | None => None
  end.

Definition derivedLockProbe (res : DeclaredResourceItem) (project : string)
  : option (string * string * lockConflictProbe) :=
  match derivedLock res project with
  | None => None
  | Some (lockType, lockKey) =>
      if String.eqb lockType "file_scope"
      then Some (lockType, lockKey,
                 fileScopeConflictProbe project (Repo res) (URI res))
      else Some (lockType, lockKey, exactProbe lockKey)
  end.

(** ** Decoding a payload *)

(** The loop of [declaredRepoDefault]: the repo named so far. *)
Fixpoint repo_default_loop (repo : string) (items : list DeclaredResourceItem)
  : string :=
  match items with
  | [] => repo
  | it :: items =>
      if negb (String.eqb (Type_ it) "repo") then repo_default_loop repo items
      else let name := normalizeRepo (trimPrefix (URI it) "repo:") in
           if String.eqb name "" then repo_default_loop repo items
           else if negb (String.eqb repo "") && negb (String.eqb repo name)
           then "" else repo_default_loop name items
  end.

Definition declaredRepoDefault (items : list DeclaredResourceItem) : string :=
  repo_default_loop "" items.

Definition resolveDeclaredRepos (items : list DeclaredResourceItem)
  : list DeclaredResourceItem :=
  let def := declaredRepoDefault items in
  if String.eqb def "" then items
  else (λ it, if String.eqb (Repo it) "" then set_repo def it else it) <$> items.

Definition item_of_object (o : jobj) : DeclaredResourceItem :=
  mkItem (jstr o "type") (jstr o "uri") (jstr o "repo") (jstr o "intent")
         (jstr o "base_branch") (jstr o "task_branch").

(** [None] is [ok = false]. *)
Definition decodeDeclaredResources (raw : RawMessage)
  : option (list DeclaredResourceItem) :=
  if raw_absent raw then Some []
  else match unmarshal_objects raw with
       | None => None
       | Some items => Some (resolveDeclaredRepos (item_of_object <$> items))
       end.

Definition unmarshalDeclaredResources (raw : RawMessage)
  : list DeclaredResourceItem :=
  match decodeDeclaredResources raw with Some items => items | None => [] end.

(** The map from each derived [file_scope] key to the path it protects. *)
Definition derivedFileScopeLocks (raw : RawMessage) (project : string)
  : option (gmap string string) :=
  match decodeDeclaredResources raw with
  | None => None
  | Some items =>
      Some (fold_left
        (λ byKey res,
           match derivedLock res project with
           | Some (lockType, lockKey) =>
               if String.eqb lockType "file_scope"
                  && negb (String.eqb lockKey "")
               then <[lockKey := fileURIToLockKey (URI res)]> byKey else byKey
           | None => byKey
           end) items ∅)
  end.

(** ** [LIKE] lemmas *)

Definition lits (s : string) : list like_tok := Lit <$> list_ascii_of_string s.

Lemma like_parse_escape s p :
  like_parse (likeEscape s +:+ p) = (lits s ++ like_parse p)%list.
Proof.
  induction s as [|c s IH]; [done|]. cbn [likeEscape].
  destruct (Ascii.eqb c backslash || Ascii.eqb c "%" || Ascii.eqb c "_") eqn:E.
  - rewrite !string_app_cons. cbn [like_parse]. rewrite Ascii.eqb_refl, IH. done.
  - reflect_bools. rewrite string_app_cons. cbn [like_parse].
    repeat match goal with H : Ascii.eqb _ _ = false |- _ => rewrite H; clear H end.
    by rewrite IH.
Qed.

Lemma like_match_lits s toks x :
  like_match (lits s ++ toks)%list x = true ↔
  ∃ r, x = s +:+ r ∧ like_match toks r = true.
Proof.
  revert x. induction s as [|c s IH]; intros x; cbn.
  - split; [intros; by exists x|]. by intros (r & -> & ?).
  - destruct x as [|d x].
    + split; [done|]. by intros (r & ? & _).
    + rewrite andb_true_iff, IH, Ascii.eqb_eq. split.
      * intros (-> & r & -> & ?). by exists r.
      * intros (r & [= -> ->] & ?). eauto.
Qed.

Lemma like_match_any toks x :
  like_match (AnySeq :: toks) x = true ↔
  ∃ a b, x = a +:+ b ∧ like_match toks b = true.
Proof.
  cbn. induction x as [|c x IH].
  - rewrite orb_false_r. split; [intros; by exists "", ""|].
    by intros ([|] & b & [= ->] & ?).
  - rewrite orb_true_iff, IH. split.
    + intros [H|(a & b & -> & ?)]; [by exists "", (String c x)|].
      by exists (String c a), b.
    + intros ([|d a] & b & Hx & ?).
      * left. rewrite string_app_nil in Hx. by subst.
      * right. rewrite string_app_cons in Hx. simplify_eq. eauto.
Qed.

Lemma like_match_lits_end s x : like_match (lits s) x = true ↔ x = s.
Proof.
  rewrite <- (app_nil_r (lits s)), like_match_lits. cbn. split.
  - intros (r & -> & ->%String.eqb_eq). apply sapp_nil_r.
  - intros ->. exists "". by rewrite sapp_nil_r.
Qed.

(** What the [LIKE] half of an unqualified probe accepts. *)
Lemma like_any_repo project path x :
  like x (likeEscape project +:+ ":%:" +:+ likeEscape path) = true ↔
  ∃ mid, x = project +:+ ":" +:+ mid +:+ ":" +:+ path.
Proof.
  unfold like. rewrite <- (sapp_nil_r (likeEscape path)) at 1.
  rewrite like_parse_escape, like_match_lits.
  change (like_parse (":%:" +:+ likeEscape path +:+ ""))
    with (Lit ":" :: AnySeq :: Lit ":" :: like_parse (likeEscape path +:+ ""))%list.
  rewrite like_parse_escape, app_nil_r.
  assert (∀ toks y, like_match (Lit ":" :: toks) y = true ↔
            ∃ r, y = ":" +:+ r ∧ like_match toks r = true) as Hlit.
  { intros toks y. apply (like_match_lits ":" toks y). }
  setoid_rewrite Hlit. setoid_rewrite like_match_any. setoid_rewrite Hlit.
  setoid_rewrite like_match_lits_end. naive_solver.
Qed.

Lemma existsb_eqb_elem x l : existsb (String.eqb x) l = true ↔ x ∈ l.
Proof.
  rewrite existsb_exists. setoid_rewrite String.eqb_eq.
  setoid_rewrite <- list_elem_of_In. naive_solver.
Qed.

(** What the Go half accepts: long enough, right prefix, right suffix. *)
Lemma prefix_suffix_split a b x :
  (String.length a + String.length b <=? String.length x)%nat
  && hasPrefix x a && hasSuffix x b = true ↔ ∃ mid, x = a +:+ mid +:+ b.
Proof.
  rewrite !andb_true_iff, Nat.leb_le, hasPrefix_spec, hasSuffix_spec. split.
  - intros [[Hl [r Hr]] [q Hq]]. subst x. rewrite length_sapp in Hl.
    set (n := String.length r - String.length b).
    exists (stake n r). rewrite <- (stake_sdrop n r) in Hq at 1.
    rewrite sapp_assoc in Hq. apply sapp_inj_length in Hq as [_ Hb].
    + by rewrite <- Hb, stake_sdrop.
    + rewrite length_sdrop. lia.
  - intros [mid ->]. rewrite !length_sapp. split; [split; [lia|eauto]|].
    exists (a +:+ mid). apply sapp_assoc.
Qed.

(** ** The probe theorems *)

Lemma file_probe_sql_go project repo uri x :
  sql_key_conflicts (fileScopeConflictProbe project repo uri) x
  = Matches (fileScopeConflictProbe project repo uri) x.
Proof.
  unfold fileScopeConflictProbe.
  destruct (String.eqb (normalizeRepo repo) ""); [|done].
  unfold sql_key_conflicts, Matches.
  cbn [Keys LikePattern anyRepoPrefix anyRepoSuffix]. f_equal.
  destruct (String.eqb_spec (likeEscape project +:+ ":%:"
              +:+ likeEscape (fileURIToLockKey uri)) "") as [|_]; [done|].
  cbn [negb andb]. apply eq_true_iff_eq.
  rewrite like_any_repo, prefix_suffix_split. by setoid_rewrite <- sapp_assoc.
Qed.

(** The SQL predicate and its Go mirror accept the same existing keys, for
    every declaration, including projects and paths that contain the LIKE
    metacharacters [%], [_] and backslash. *)
Theorem probe_sql_go_agree project repo uri x :
  sql_key_conflicts (fileScopeConflictProbe project repo uri) x
  = Matches (fileScopeConflictProbe project repo uri) x.
Proof. apply file_probe_sql_go. Qed.

(** Two repo names that may name the same tree: an absent one names any. *)
Definition repos_may_agree (r r' : string) : Prop :=
  normalizeRepo r = "" ∨ normalizeRepo r' = ""
  ∨ normalizeRepo r = normalizeRepo r'.

Lemma qualified_split mid path r' path' :
  no_colon r' = true → no_colon path' = true →
  r' +:+ ":" +:+ path' = mid +:+ ":" +:+ path → path' = path.
Proof.
  intros Hr Hp H. destruct (no_colon mid) eqn:Hm.
  - by apply colon_split in H as [_ ?].
  - apply no_colon_split in Hm as (a & b & -> & Ha).
    rewrite <- !sapp_assoc in H. apply colon_split in H as [_ H]; [|done..].
    by apply colon_not_free in H.
Qed.

Lemma fileScopeLockKey_unqualified project repo uri :
  normalizeRepo repo = "" →
  fileScopeLockKey project repo uri = project +:+ ":" +:+ fileURIToLockKey uri.
Proof. unfold fileScopeLockKey. by intros ->. Qed.

Lemma fileScopeLockKey_qualified project repo uri :
  normalizeRepo repo ≠ "" →
  fileScopeLockKey project repo uri
  = project +:+ ":" +:+ normalizeRepo repo +:+ ":" +:+ fileURIToLockKey uri.
Proof. unfold fileScopeLockKey. intros H%String.eqb_neq. by rewrite H. Qed.

Lemma Matches_file_scope project repo uri x :
  Matches (fileScopeConflictProbe project repo uri) x = true ↔
  x = project +:+ ":" +:+ fileURIToLockKey uri
  ∨ (if decide (normalizeRepo repo = "")
     then ∃ mid, x = project +:+ ":" +:+ mid +:+ ":" +:+ fileURIToLockKey uri
     else x = fileScopeLockKey project repo uri).
Proof.
  unfold fileScopeConflictProbe, Matches.
  destruct (String.eqb_spec (normalizeRepo repo) "") as [Hr|Hr];
    cbn [exactProbeMulti Keys LikePattern anyRepoPrefix anyRepoSuffix existsb];
    rewrite (fileScopeLockKey_unqualified project "") by done.
  - rewrite decide_True by done.
    destruct (String.eqb_spec (likeEscape project +:+ ":%:"
                +:+ likeEscape (fileURIToLockKey uri)) "") as [E|_].
    { by destruct (likeEscape project). }
    cbn [negb andb]. rewrite !orb_true_iff, prefix_suffix_split, String.eqb_eq.
    setoid_rewrite <- sapp_assoc. naive_solver.
  - rewrite decide_False by done. cbn [String.eqb negb andb].
    rewrite !orb_true_iff, !String.eqb_eq. naive_solver.
Qed.

(** The specification of the conflict probes.  For declarations whose
    components contain no colon (the separator of the key format), the probe
    of one declaration blocks on the key another one writes exactly when they
    are in the same project, name the same path, and their repos may agree: a
    declaration without a repo conflicts with every repo's copy of its path,
    and two different named repos never conflict. *)
Theorem probe_blocks_iff project repo uri project' repo' uri' :
  no_colon project = true → no_colon project' = true →
  no_colon (normalizeRepo repo) = true → no_colon (normalizeRepo repo') = true →
  no_colon (fileURIToLockKey uri) = true →
  no_colon (fileURIToLockKey uri') = true →
  Matches (fileScopeConflictProbe project repo uri)
          (fileScopeLockKey project' repo' uri') = true ↔
  project = project' ∧ fileURIToLockKey uri = fileURIToLockKey uri'
  ∧ repos_may_agree repo repo'.
Proof.
  intros Hp Hp' Hr Hr' Hu Hu'. rewrite Matches_file_scope.
  unfold repos_may_agree.
  destruct (decide (normalizeRepo repo' = "")) as [E'|E'];
    [rewrite (fileScopeLockKey_unqualified project' repo') by done
    |rewrite (fileScopeLockKey_qualified project' repo') by done];
    (destruct (decide (normalizeRepo repo = "")) as [E|E];
     [|rewrite (fileScopeLockKey_qualified project repo) by done]).
  - split; [|intros (-> & -> & _); by left].
    intros [[-> ->]%colon_split|[mid [_ H]%colon_split]]; auto.
    by apply colon_not_free in H.
  - split; [|intros (-> & -> & _); by left].
    intros [[-> ->]%colon_split|[_ H]%colon_split]; auto.
    by apply colon_not_free in H.
  - split.
    + intros [[_ H]%colon_split|[mid [-> H]%colon_split]]; auto.
      * symmetry in H. by apply colon_not_free in H.
      * apply qualified_split in H; auto.
    + intros (-> & -> & _). right. by exists (normalizeRepo repo').
  - split.
    + intros [[_ H]%colon_split|[-> [-> ->]%colon_split]%colon_split]; auto.
      symmetry in H. by apply colon_not_free in H.
    + intros (-> & -> & [?|[?|Heq]]); [done..|right; by rewrite Heq].
Qed.

(** ** No declaration is silently lockless *)

Definition unrecognized_index (u : Unrecognized) : option nat :=
  match u with
  | UNotAnArray => None
  | UUnknownType i _ _ | UAdvisoryNoURI i _ | UNoURI i _ => Some i
  end.

Lemma resolveDeclaredRepos_lookup items k it :
  resolveDeclaredRepos items !! k = Some it →
  ∃ it0, items !! k = Some it0 ∧ Type_ it = Type_ it0 ∧ URI it = URI it0
         ∧ Intent it = Intent it0.
Proof.
  unfold resolveDeclaredRepos. destruct (String.eqb _ ""); [by eauto|].
  rewrite list_lookup_fmap. destruct (items !! k) as [it0|]; [|done].
  intros [= <-]. exists it0. by destruct (String.eqb (Repo it0) "").
Qed.

Lemma trimSpace_file_ws r : all_ws r → trimSpace ("file:" +:+ r) = "file:".
Proof.
  intros Hr. unfold trimSpace.
  assert (trimLeft ("file:" +:+ r) = "file:" +:+ r) as -> by reflexivity.
  by rewrite trimRight_app_ws.
Qed.

(** A uri that names no file once ["file:"] is stripped is the uri the report
    treats as missing. *)
Lemma effective_uri_blank typ uri :
  typ ∈ ["path"; "document"; "section"] →
  blank (fileURIToLockKey uri) = true → effective_uri typ uri = "".
Proof.
  intros Ht Hb. unfold effective_uri.
  assert (declaredResourceURISchemes typ = Some "file:") as ->.
  { by repeat (apply elem_of_cons in Ht as [->|Ht]); [..|apply elem_of_nil in Ht]. }
  unfold fileURIToLockKey, trimPrefix in Hb.
  destruct (strip_prefix "file:" uri) as [r|] eqn:E.
  - apply strip_prefix_spec in E as ->.
    rewrite (trimSpace_file_ws r) by by apply blank_all_ws. reflexivity.
  - unfold blank in Hb. apply String.eqb_eq in Hb. by rewrite Hb.
Qed.

Lemma derivedLock_None_inv it project :
  derivedLock it project = None →
  Type_ it ∉ ["path"; "document"; "section"]
  ∨ blank (fileURIToLockKey (URI it)) = true ∨ Intent it = "read".
Proof.
  unfold derivedLock, resourceToLock. case_bool_decide; [|by left].
  destruct (blank _); [by right; left|].
  destruct (String.eqb_spec (Intent it) "read"); [by right; right|done].
Qed.

(** Every entry of a readable declaration is accounted for: it derives a
    lock, or it was declared read-only, or it is of an advisory type, or the
    report names its index.  This is the promise behind
    [unrecognized_resources]: no declared file is left without a lock in
    silence. *)
Theorem declared_entry_accounted raw items k it project :
  decodeDeclaredResources raw = Some items → items !! k = Some it →
  is_Some (derivedLock it project) ∨ Intent it = "read"
  ∨ Type_ it ∈ ["repo"; "service"; "external_ref"]
  ∨ ∃ u, u ∈ UnrecognizedDeclaredResources raw ∧ unrecognized_index u = Some k.
Proof.
  unfold decodeDeclaredResources, UnrecognizedDeclaredResources.
  destruct (raw_absent raw); [by intros [= <-]|].
  destruct (unmarshal_objects raw) as [objs|]; [|done]. intros [= <-] Hk.
  apply resolveDeclaredRepos_lookup in Hk as (it0 & Hk & HT & HU & HI).
  rewrite list_lookup_fmap in Hk.
  destruct (objs !! k) as [o|] eqn:Ho; simplify_eq/=.
  destruct (derivedLock it project) as [l|] eqn:Hl; [left; eauto|right].
  destruct (decide (Intent it = "read")) as [|Hread]; [by left|right].
  destruct (decide (Type_ it ∈ ["repo"; "service"; "external_ref"]))
    as [|Hadv]; [by left|right].
  destruct (unrecognized_item k o) as [u|] eqn:Hu.
  - exists u. split; [apply unrecognized_from_spec; by exists k, o|].
    unfold unrecognized_item in Hu.
    destruct (negb (declaredResourceTypes _)); [by injection Hu as <-|].
    destruct (negb _ && negb _); [|done].
    destruct (_ || _); by injection Hu as <-.
  - exfalso. apply derivedLock_None_inv in Hl. unfold unrecognized_item in Hu.
    rewrite <- HT, <- HU in Hu.
    destruct (declaredResourceTypes (Type_ it)) eqn:Ht; [|done].
    unfold declaredResourceTypes in Ht. apply bool_decide_eq_true in Ht.
    assert (Type_ it ∈ ["path"; "document"; "section"]) as Hp.
    { rewrite !elem_of_cons, elem_of_nil in *. tauto. }
    destruct Hl as [Hl|[Hl|Hl]]; [done| |done].
    rewrite (effective_uri_blank _ _ Hp Hl) in Hu.
    destruct (String.eqb_spec (Type_ it) "external_ref") as [He|_].
    { apply Hadv. rewrite He. right. right. left. }
    cbn in Hu. by destruct (String.eqb _ _ || String.eqb _ _).
Qed.

(** A sample with a bare ["file:"] path among other entries. *)
Definition sample_declaration : RawMessage :=
  RawJSON (JArr [ JObj [("type", JStr "repo"); ("uri", JStr "repo:core")];
                  JObj [("type", JStr "path"); ("uri", JStr "file:")];
                  JObj [("type", JStr "path"); ("uri", JStr "file:go.mod")] ]).

Lemma declared_entry_accounted_witness :
  ∃ u, u ∈ UnrecognizedDeclaredResources sample_declaration
       ∧ unrecognized_index u = Some 1.
Proof.
  destruct (declared_entry_accounted sample_declaration
    (unmarshalDeclaredResources sample_declaration) 1
    (mkItem "path" "file:" "core" "" "" "") "proj" eq_refl eq_refl)
    as [[l H]|[H|[H|H]]]; [by vm_compute in H|done| |exact H].
  by apply (bool_decide_eq_true_2 _) in H; vm_compute in H.
Defined.

Lemma probe_blocks_iff_witness :
  Matches (fileScopeConflictProbe "aihub" "" "file:go.mod")
          (fileScopeLockKey "aihub" "core" "file:go.mod") = true
  ∧ Matches (fileScopeConflictProbe "aihub" "web" "file:go.mod")
            (fileScopeLockKey "aihub" "core" "file:go.mod") = false.
Proof.
  split.
  - apply (probe_blocks_iff "aihub" "" "file:go.mod" "aihub" "core" "file:go.mod");
      try reflexivity. split; [done|]. split; [done|]. by left.
  - apply not_true_is_false. intros H.
    apply (probe_blocks_iff "aihub" "web" "file:go.mod" "aihub" "core"
             "file:go.mod") in H as (_ & _ & [H|[H|H]]);
      try reflexivity; by vm_compute in H.
Defined.

(** The converse fails on stored data: a uri with a space in front of
    ["file:"] is reported as deriving no lock, and derives one (the report
    trims the uri before stripping the scheme, the derivation does not). *)
Example reported_lockless_but_locked :
  let raw := RawJSON (JArr [JObj [("type", JStr "path"); ("uri", JStr " file:")]]) in
  UnrecognizedDeclaredResources raw = [UNoURI 0 "path"]
  ∧ (λ it, derivedLock it "p") <$> unmarshalDeclaredResources raw
    = [Some ("file_scope", "p: file:")].
Proof. by vm_compute. Qed.
