(* ===== verification/Store.v ===== *)
(** * The PostgreSQL tables the lifecycle works on, and transactions

    Part 1: the rows of the tables ([internal/db/migrations]), with the
    constraints the handlers rely on (primary keys, UNIQUE, CHECK, triggers).
    Part 2: the transaction monad.  A handler of [internal/domain] is a
    computation in [Tx]: each SQL statement may fail by itself (constraint),
    because of the environment (a fault: lost connection, serialization
    failure, deadlock victim), or because an earlier statement already aborted
    the transaction; COMMIT may fail, or succeed with its acknowledgement
    lost.  Part 3: the theory that relates a faulty execution to the
    fault-free one. *)

From S2P Require Import Prelude GoStrings Errors Json WorkflowTables.

(** ** Rows *)

Inductive WiStatus : Type :=
  | WQueued | WRunning | WPaused | WBlocked | WWrapped | WFailed | WCancelled.

Inductive RaStatus : Type :=
  | RRunning | RPaused | RWrapped | RFailed | RSuperseded | RCancelled.

Inductive StepStatus : Type := StepIdle | StepInProgress.

#[export] Instance WiStatus_eq_dec : EqDecision WiStatus.
Proof. solve_decision. Defined.
#[export] Instance RaStatus_eq_dec : EqDecision RaStatus.
Proof. solve_decision. Defined.
#[export] Instance StepStatus_eq_dec : EqDecision StepStatus.
Proof. solve_decision. Defined.

Definition wi_terminal (st : WiStatus) : bool :=
  match st with WWrapped | WFailed | WCancelled => true | _ => false end.

(** [ra.status IN ('running', 'paused')]: the attempts that hold locks. *)
Definition ra_live (st : RaStatus) : bool :=
  match st with RRunning | RPaused => true | _ => false end.

(** The columns of a work item no handler decides on. *)
Record WorkItemDoc : Type := mkDoc {
  doc_priority : string;
  doc_milestone : option string;
  doc_labels : list string;
  doc_content : option string;
  doc_attrs : json;                (* a jsonb value *)
  doc_seq : Z;                     (* seq *)
  doc_scenario : string;
  doc_source : string;
  doc_display : string;            (* reporter_display *)
  doc_parent : option string;      (* parent_work_item_id *)
}.

Record WorkItem : Type := mkWI {
  wi_id : string;
  wi_slug : string;
  wi_project : string;
  wi_goal : string;
  wi_type : option string;
  wi_rhs : option bool;            (* requires_human_session *)
  wi_status : WiStatus;
  wi_declared : RawMessage;        (* declared_resources *)
  wi_resources_version : Z;
  wi_reporter : string;            (* reporter_user_id *)
  wi_current : option string;      (* current_attempt_id *)
  wi_epoch : Z;                    (* current_attempt_epoch *)
  wi_mode : string;                (* workflow_mode *)
  wi_closed_at : option Z;
  wi_doc : WorkItemDoc;
}.

Record RunAttempt : Type := mkRA {
  ra_wi : string;                  (* work_item_id *)
  ra_status : RaStatus;
  ra_epoch : Z;                    (* claim_epoch *)
  ra_idem : string;                (* idempotency_key *)
  ra_actor : string;               (* actor_user_id *)
  ra_display : string;             (* actor_display *)
  ra_machine : string;
  ra_secret_hash : string;
  ra_parent : option string;
  ra_last_active : Z;
  ra_ended : option Z;
  ra_pause_reason : option string;
  ra_derived : option (list string);
  ra_no_steps : option string;
  ra_repo_pins : option (gmap string string);
}.

(** A [resource_locks] row; its primary key is (type, key). *)
Record LockRow : Type := mkLock { lk_owner : string; lk_epoch : Z }.

Record StepState : Type := mkStep {
  ss_type : option string;
  ss_step : option string;
  ss_status : StepStatus;
  ss_attempt : option string;
  ss_started : option Z;
  ss_version : Z;
  ss_scenario_ref : option string;
}.

Record StepCompletion : Type := mkComp {
  sc_id : string; sc_wi : string; sc_step : string; sc_run_attempt : string;
  sc_status : string; sc_artifact : option string; sc_error : option string;
  sc_escalated : bool;
}.

(** An [agent_events] row; the random id, the api key and the timestamp are
    left out. *)
Record Event : Type := mkEvent {
  ev_type : string;
  ev_wi : string;                  (* work_item_id *)
  ev_attempt : option string;      (* run_attempt_id *)
  ev_user : option string;         (* actor_user_id *)
  ev_display : string;             (* actor_display *)
  ev_payload : jobj;
  ev_project : option string;
}.

(** The columns of [memories] the modelled handlers read; a NULL work_item_id
    is [""]. *)
Record MemoryRow : Type := mkMem {
  mem_wi : string; mem_type : string; mem_status : string; mem_expires : option Z;
  mem_visibility : string; mem_author : string; mem_attrs : RawMessage;
}.

(** The tables.  [agent_events] holds the rows written in the transaction
    itself; the lock events, written under a savepoint and allowed to be
    lost, are kept apart in [Db]. *)
Record Core : Type := mkCore {
  work_items : gmap string WorkItem;
  run_attempts : gmap string RunAttempt;
  resource_locks : gmap (string * string) LockRow;
  wi_dependencies : gmap (string * string * string) (option string);
  wi_step_state : gmap string StepState;
  wi_step_completions : gmap string StepCompletion;
  agent_events : list Event;
  memories : gmap string MemoryRow;
  workflow : WorkflowTables;
  projects : gmap string ProjectRow;
  registry : RegistryTables;
}.

Record Db : Type := mkDb { core : Core; savepoint_events : list Event }.

(** ** NUL

    PostgreSQL holds no NUL character: a text parameter with one is refused as
    badly encoded, a [jsonb] one as untranslatable. *)

Definition pgInvalidEncoding : string := "22021".
Definition pgUntranslatableCharacter : string := "22P05".

Definition text_nul (s : string) : bool := containsAny s (bytes [0]%nat).

Fixpoint has_nul (j : json) : bool :=
  match j with
  | JStr s => text_nul s
  | JArr l => existsb has_nul l
  | JObj o => existsb (λ kv, let '(k, v) := kv in text_nul k || has_nul v) o
  | _ => false
  end.

(** The text parameters of a statement. *)
Definition texts_in (l : list string) : result DbErr unit :=
  if existsb text_nul l then inl (PgError pgInvalidEncoding) else inr tt.

(** ** Field updates *)

Definition set_work_items (f : gmap string WorkItem → gmap string WorkItem)
  (c : Core) : Core :=
  mkCore (f (work_items c)) (run_attempts c) (resource_locks c)
    (wi_dependencies c) (wi_step_state c) (wi_step_completions c)
    (agent_events c) (memories c) (workflow c)
    (projects c) (registry c).
Definition set_run_attempts (f : gmap string RunAttempt → gmap string RunAttempt)
  (c : Core) : Core :=
  mkCore (work_items c) (f (run_attempts c)) (resource_locks c)
    (wi_dependencies c) (wi_step_state c) (wi_step_completions c)
    (agent_events c) (memories c) (workflow c)
    (projects c) (registry c).
Definition set_locks (l : gmap (string * string) LockRow) (c : Core) : Core :=
  mkCore (work_items c) (run_attempts c) l
    (wi_dependencies c) (wi_step_state c) (wi_step_completions c)
    (agent_events c) (memories c) (workflow c)
    (projects c) (registry c).
Definition set_deps (d : gmap (string * string * string) (option string))
  (c : Core) : Core :=
  mkCore (work_items c) (run_attempts c) (resource_locks c)
    d (wi_step_state c) (wi_step_completions c) (agent_events c) (memories c) (workflow c)
    (projects c) (registry c).
Definition set_steps (f : gmap string StepState → gmap string StepState)
  (c : Core) : Core :=
  mkCore (work_items c) (run_attempts c) (resource_locks c)
    (wi_dependencies c) (f (wi_step_state c)) (wi_step_completions c)
    (agent_events c) (memories c) (workflow c)
    (projects c) (registry c).
Definition set_completions (m : gmap string StepCompletion) (c : Core) : Core :=
  mkCore (work_items c) (run_attempts c) (resource_locks c)
    (wi_dependencies c) (wi_step_state c) m (agent_events c) (memories c) (workflow c)
    (projects c) (registry c).
Definition add_event (e : Event) (c : Core) : Core :=
  mkCore (work_items c) (run_attempts c) (resource_locks c)
    (wi_dependencies c) (wi_step_state c) (wi_step_completions c)
    (agent_events c ++ [e]) (memories c) (workflow c)
    (projects c) (registry c).
Definition set_memories (f : gmap string MemoryRow → gmap string MemoryRow)
  (c : Core) : Core :=
  mkCore (work_items c) (run_attempts c) (resource_locks c)
    (wi_dependencies c) (wi_step_state c) (wi_step_completions c)
    (agent_events c) (f (memories c)) (workflow c) (projects c) (registry c).
Definition set_workflow (f : WorkflowTables → WorkflowTables) (c : Core) : Core :=
  mkCore (work_items c) (run_attempts c) (resource_locks c)
    (wi_dependencies c) (wi_step_state c) (wi_step_completions c)
    (agent_events c) (memories c) (f (workflow c)) (projects c) (registry c).
Definition set_projects (f : gmap string ProjectRow → gmap string ProjectRow)
  (c : Core) : Core :=
  mkCore (work_items c) (run_attempts c) (resource_locks c)
    (wi_dependencies c) (wi_step_state c) (wi_step_completions c)
    (agent_events c) (memories c) (workflow c) (f (projects c)) (registry c).
Definition set_registry (f : RegistryTables → RegistryTables) (c : Core) : Core :=
  mkCore (work_items c) (run_attempts c) (resource_locks c)
    (wi_dependencies c) (wi_step_state c) (wi_step_completions c)
    (agent_events c) (memories c) (workflow c) (projects c) (f (registry c)).

Definition wi_with_status (now : Z) (st : WiStatus) (w : WorkItem) : WorkItem :=
  mkWI (wi_id w) (wi_slug w) (wi_project w) (wi_goal w) (wi_type w) (wi_rhs w)
    st (wi_declared w) (wi_resources_version w) (wi_reporter w)
    (wi_current w) (wi_epoch w) (wi_mode w)
    (* trg_wi_closed_at: set when the row enters a terminal status *)
    (if wi_terminal st && negb (wi_terminal (wi_status w))
     then Some now else wi_closed_at w) (wi_doc w).

Definition wi_with_attempt (att : string) (epoch : Z) (w : WorkItem) : WorkItem :=
  mkWI (wi_id w) (wi_slug w) (wi_project w) (wi_goal w) (wi_type w) (wi_rhs w)
    (wi_status w) (wi_declared w) (wi_resources_version w) (wi_reporter w)
    (Some att) epoch (wi_mode w) (wi_closed_at w)
    (wi_doc w).

Definition wi_with_rhs (b : bool) (w : WorkItem) : WorkItem :=
  mkWI (wi_id w) (wi_slug w) (wi_project w) (wi_goal w) (wi_type w) (Some b)
    (wi_status w) (wi_declared w) (wi_resources_version w) (wi_reporter w)
    (wi_current w) (wi_epoch w) (wi_mode w) (wi_closed_at w)
    (wi_doc w).

(** [SET status=$1, ended_at=clock_timestamp()] *)
Definition ra_with_status (now : Z) (st : RaStatus) (a : RunAttempt) : RunAttempt :=
  mkRA (ra_wi a) st (ra_epoch a) (ra_idem a) (ra_actor a) (ra_display a)
    (ra_machine a) (ra_secret_hash a) (ra_parent a) (ra_last_active a)
    (Some now) (ra_pause_reason a) (ra_derived a) (ra_no_steps a)
    (ra_repo_pins a).

Definition ra_with_completion (pause : option string)
  (derived : option (list string)) (no_steps : option string)
  (a : RunAttempt) : RunAttempt :=
  mkRA (ra_wi a) (ra_status a) (ra_epoch a) (ra_idem a) (ra_actor a)
    (ra_display a) (ra_machine a) (ra_secret_hash a) (ra_parent a)
    (ra_last_active a) (ra_ended a) pause derived no_steps (ra_repo_pins a).

Definition ra_with_heartbeat (now : Z) (a : RunAttempt) : RunAttempt :=
  mkRA (ra_wi a) (ra_status a) (ra_epoch a) (ra_idem a) (ra_actor a)
    (ra_display a) (ra_machine a) (ra_secret_hash a) (ra_parent a)
    now (ra_ended a) (ra_pause_reason a) (ra_derived a) (ra_no_steps a)
    (ra_repo_pins a).

Definition ra_with_pins (p : gmap string string) (a : RunAttempt) : RunAttempt :=
  mkRA (ra_wi a) (ra_status a) (ra_epoch a) (ra_idem a) (ra_actor a)
    (ra_display a) (ra_machine a) (ra_secret_hash a) (ra_parent a)
    (ra_last_active a) (ra_ended a) (ra_pause_reason a) (ra_derived a)
    (ra_no_steps a) (Some p).

(** ** Transactions *)

Inductive Phase : Type :=
  | Active
  | Aborted
  | Committed (d : Db)
  | Lost (d : Db).       (* committed, the acknowledgement never arrived *)

(** A fault of the environment at one statement. *)
Inductive Fault : Type := FPg (sqlstate : string) | FOther.

Definition fault_err (f : Fault) : DbErr :=
  match f with FPg s => PgError s | FOther => OtherErr end.

Inductive CommitOutcome : Type :=
  | CommitOk
  | CommitRolledBack (f : Fault)
  | CommitLost.

(** The environment of one transaction: whether BEGIN succeeds, the fault (if
    any) of each statement in order, and the fate of COMMIT. *)
Record Env : Type := mkEnv {
  env_begin : bool;
  env_faults : list (option Fault);
  env_commit : CommitOutcome;
}.

Definition ideal_env : Env := mkEnv true [] CommitOk.

Record TxSt : Type := mkTx {
  tx_db : Db;
  tx_phase : Phase;
  tx_faults : list (option Fault);
  tx_commit : CommitOutcome;
}.

Definition Tx (A : Type) : Type := TxSt → result AihubError A * TxSt.

Definition tret {A} (a : A) : Tx A := λ s, (inr a, s).
Definition tthrow {A} (e : AihubError) : Tx A := λ s, (inl e, s).
Definition tbind {A B} (m : Tx A) (k : A → Tx B) : Tx B := λ s,
  match m s with
  | (inl e, s') => (inl e, s')
  | (inr a, s') => k a s'
  end.

Declare Scope tx_scope.
Delimit Scope tx_scope with tx.
Notation "x <- c1 ;; c2" := (tbind c1 (λ x, c2))
  (at level 100, c1 at next level, right associativity) : tx_scope.
Notation "c1 ;;; c2" := (tbind c1 (λ _, c2))
  (at level 100, right associativity) : tx_scope.

Definition next_fault (l : list (option Fault)) : option Fault * list (option Fault) :=
  match l with [] => (None, []) | f :: l => (f, l) end.

(** What a statement answers when the transaction is no longer active. *)
Definition closed_err (p : Phase) : DbErr :=
  match p with Aborted => PgError pgInFailedTransaction | _ => OtherErr end.

(** One SQL statement.  [f] is its effect on the tables: rows and new tables,
    [NoRows], or a constraint error.  An empty result does not abort the
    transaction; every error does. *)
Definition stmt {A} (f : Core → result DbErr (A * Core)) : Tx (result DbErr A) :=
  λ s,
    match tx_phase s with
    | Active =>
        match next_fault (tx_faults s) with
        | (Some e, fs) =>
            (inr (inl (fault_err e)), mkTx (tx_db s) Aborted fs (tx_commit s))
        | (None, fs) =>
            match f (core (tx_db s)) with
            | inl NoRows =>
                (inr (inl NoRows), mkTx (tx_db s) Active fs (tx_commit s))
            | inl e => (inr (inl e), mkTx (tx_db s) Aborted fs (tx_commit s))
            | inr (a, c) =>
                (inr (inr a),
                 mkTx (mkDb c (savepoint_events (tx_db s))) Active fs (tx_commit s))
            end
        end
    | p => (inr (inl (closed_err p)), s)
    end.

(** A SELECT, and a statement that reports nothing. *)
Definition query {A} (f : Core → result DbErr A) : Tx (result DbErr A) :=
  stmt (λ c, rbind (f c) (λ a, inr (a, c))).
Definition exec (f : Core → result DbErr Core) : Tx (result DbErr unit) :=
  stmt (λ c, rbind (f c) (λ c', inr (tt, c'))).

(** [if err != nil { return f(err) }] *)
Definition or_throw {A} (f : DbErr → AihubError) (r : result DbErr A) : Tx A :=
  match r with inl e => tthrow (f e) | inr a => tret a end.
(** [if aerr != nil { return aerr }] *)
Definition throw_opt (o : option AihubError) : Tx unit :=
  match o with Some e => tthrow e | None => tret tt end.
(** [bestEffortExec]: only a lost race is surfaced. *)
Definition bestEffortExec (f : Core → result DbErr Core) : Tx unit :=
  tbind (exec f) (λ r, match r with
                       | inl e => throw_opt (retryConflictErr e)
                       | inr _ => tret tt
                       end).

(** An insert under a savepoint ([tx.Begin] inside a transaction): a failed
    insert is rolled back to the savepoint and dropped; only a failure of the
    SAVEPOINT, RELEASE or ROLLBACK TO command itself aborts the transaction. *)
Definition emit (evs : list Event) : Tx unit := λ s,
  match tx_phase s with
  | Active =>
      let '(f1, fs1) := next_fault (tx_faults s) in
      let '(f2, fs2) := next_fault fs1 in
      let '(f3, fs3) := next_fault fs2 in
      match f1, f2, f3 with
      | Some _, _, _ => (inr tt, mkTx (tx_db s) Aborted fs1 (tx_commit s))
      | None, Some _, None => (inr tt, mkTx (tx_db s) Active fs3 (tx_commit s))
      | None, None, None =>
          (inr tt, mkTx (mkDb (core (tx_db s)) (savepoint_events (tx_db s) ++ evs))
                        Active fs3 (tx_commit s))
      | None, _, Some _ => (inr tt, mkTx (tx_db s) Aborted fs3 (tx_commit s))
      end
  | _ => (inr tt, s)
  end.

Definition commit : Tx (result DbErr unit) := λ s,
  match tx_phase s with
  | Active =>
      match tx_commit s with
      | CommitOk =>
          (inr (inr tt), mkTx (tx_db s) (Committed (tx_db s)) (tx_faults s) CommitOk)
      | CommitRolledBack f =>
          (inr (inl (fault_err f)), mkTx (tx_db s) Aborted (tx_faults s) (tx_commit s))
      | CommitLost =>
          (inr (inl OtherErr), mkTx (tx_db s) (Lost (tx_db s)) (tx_faults s) CommitLost)
      end
  | _ => (inr (inl OtherErr), s)
  end.

(** [pool.BeginTx], the handler body, and the deferred [tx.Rollback]. *)
Definition runTx {A} (env : Env) (m : Tx A) (d : Db) : result AihubError A * Db :=
  if env_begin env then
    let '(r, s) := m (mkTx d Active (env_faults env) (env_commit env)) in
    (r, match tx_phase s with Committed d' | Lost d' => d' | _ => d end)
  else (inl (NewErr ErrInternalError), d).

Fixpoint tforeach {A} (l : list A) (f : A → Tx unit) : Tx unit :=
  match l with
  | [] => tret tt
  | x :: l => tbind (f x) (λ _, tforeach l f)
  end.

Fixpoint tmap {A B} (f : A → Tx B) (l : list A) : Tx (list B) :=
  match l with
  | [] => tret []
  | x :: l => tbind (f x) (λ b, tbind (tmap f l) (λ bs, tret (b :: bs)))
  end.

(** ** Faulty executions refine the fault-free one

    [sim s i]: a faulty state [s] and a fault-free state [i] that agree on the
    tables.  A computation is [Robust] when running it from related states
    ends in related states with the same answer, unless the faulty run has
    aborted, or has committed without knowing it. *)

Definition sim (s i : TxSt) : Prop :=
  tx_faults i = [] ∧ tx_commit i = CommitOk ∧
  match tx_phase s, tx_phase i with
  | Active, Active => core (tx_db s) = core (tx_db i)
  | Committed d, Committed d' => core d = core d'
  | _, _ => False
  end.

Definition lost_sim (s i : TxSt) : Prop :=
  ∃ d d', tx_phase s = Lost d ∧ tx_phase i = Committed d' ∧ core d = core d'.

Definition outcome {A} (p q : result AihubError A * TxSt) : Prop :=
  tx_phase p.2 = Aborted ∨ lost_sim p.2 q.2 ∨ (p.1 = q.1 ∧ sim p.2 q.2).

Class Robust {A} (m : Tx A) : Prop := {
  robust_sticky s : tx_phase s ≠ Active → tx_phase (m s).2 = tx_phase s;
  robust_sim s i : sim s i → outcome (m s) (m i);
}.

(** A handler that answers success only after its COMMIT succeeded. *)
Class CommitsOnOk {A} (m : Tx A) : Prop :=
  commits_on_ok s a : (m s).1 = inr a → ∃ d, tx_phase (m s).2 = Committed d.

#[export] Instance tret_robust {A} (a : A) : Robust (tret a).
Proof. split; [done|]. intros s i H. right; right. done. Qed.

#[export] Instance tthrow_robust {A} e : Robust (tthrow (A:=A) e).
Proof. split; [done|]. intros s i H. right; right. done. Qed.

#[export] Instance tbind_robust {A B} (m : Tx A) (k : A → Tx B) :
  Robust m → (∀ a, Robust (k a)) → Robust (tbind m k).
Proof.
  intros Hm Hk.
  assert (∀ a s, tx_phase s ≠ Active → tx_phase (k a s).2 = tx_phase s) as Hst
    by (intros a; apply Hk).
  split.
  - intros s Hs. unfold tbind. pose proof (robust_sticky (m:=m) s Hs) as Hm'.
    destruct (m s) as [[e|a] s']; [done|]; simpl in *.
    by rewrite Hst by congruence.
  - intros s i Hsi. unfold tbind. pose proof (robust_sim (m:=m) s i Hsi) as Ho.
    destruct (m s) as [r s'], (m i) as [ri i']; unfold outcome in *; simpl in *.
    destruct Ho as [Ha|[(d & d' & Hs' & Hi' & Hd)|[-> Hsim]]].
    + left. destruct r; [done|]. simpl. by rewrite Hst by congruence.
    + right; left. exists d, d'. split; [|split; [|done]].
      * destruct r; [done|]. simpl. by rewrite Hst by congruence.
      * destruct ri; [done|]. simpl. by rewrite Hst by congruence.
    + destruct ri as [e|a]; [right; right; done|]. by apply Hk.
Qed.

#[export] Instance stmt_robust {A} (f : Core → result DbErr (A * Core)) :
  Robust (stmt f).
Proof.
  split.
  - intros s Hs. unfold stmt. by destruct (tx_phase s) eqn:E.
  - intros s i (Hf & Hc & Hp). unfold stmt, outcome, sim, lost_sim.
    destruct (tx_phase s) eqn:Es, (tx_phase i) eqn:Ei; try done; simpl.
    + rewrite Hf; simpl. destruct (next_fault (tx_faults s)) as [[e|] fs]; simpl.
      * by left.
      * rewrite Hp. destruct (f (core (tx_db i))) as [[]|[a c]]; simpl; auto 10.
    + right; right. rewrite Es, Ei. auto.
Qed.

#[export] Instance query_robust {A} (f : Core → result DbErr A) : Robust (query f).
Proof. apply stmt_robust. Qed.
#[export] Instance exec_robust f : Robust (exec f).
Proof. apply stmt_robust. Qed.
#[export] Instance or_throw_robust {A} f (r : result DbErr A) : Robust (or_throw f r).
Proof. destruct r; apply _. Qed.
#[export] Instance throw_opt_robust o : Robust (throw_opt o).
Proof. destruct o; apply _. Qed.
#[export] Instance bestEffortExec_robust f : Robust (bestEffortExec f).
Proof. apply tbind_robust; [apply _|]. intros []; apply _. Qed.

#[export] Instance emit_robust evs : Robust (emit evs).
Proof.
  split.
  - intros s Hs. unfold emit. by destruct (tx_phase s) eqn:E.
  - intros s i (Hf & Hc & Hp). unfold emit, outcome, sim, lost_sim.
    destruct (tx_phase s) eqn:Es, (tx_phase i) eqn:Ei; try done.
    + rewrite Hf. cbn [next_fault].
      destruct (next_fault (tx_faults s)) as [f1 fs1],
        (next_fault fs1) as [f2 fs2], (next_fault fs2) as [f3 fs3].
      destruct f1, f2, f3; simpl; auto 10.
    + right; right. simpl. rewrite Es, Ei. auto.
Qed.

#[export] Instance commit_robust : Robust commit.
Proof.
  split.
  - intros s Hs. unfold commit. by destruct (tx_phase s) eqn:E.
  - intros s i (Hf & Hc & Hp). unfold commit, outcome, sim, lost_sim.
    destruct (tx_phase s) eqn:Es, (tx_phase i) eqn:Ei; try done.
    + rewrite Hc. destruct (tx_commit s); simpl; eauto 10.
    + right; right. simpl. rewrite Es, Ei. auto.
Qed.

#[export] Instance tforeach_robust {A} (l : list A) f :
  (∀ x, Robust (f x)) → Robust (tforeach l f).
Proof. intros Hf. induction l; simpl; apply _. Qed.

#[export] Instance tmap_robust {A B} (l : list A) (f : A → Tx B) :
  (∀ x, Robust (f x)) → Robust (tmap f l).
Proof. intros Hf. induction l; simpl; apply _. Qed.

Lemma tthrow_commits {A} e : CommitsOnOk (tthrow (A:=A) e).
Proof. by intros s a [=]. Qed.

Lemma tbind_commits {A B} (m : Tx A) (k : A → Tx B) :
  (∀ a, CommitsOnOk (k a)) → CommitsOnOk (tbind m k).
Proof.
  intros Hk s b. unfold tbind. destruct (m s) as [[e|a] s']; [done|]. apply Hk.
Qed.

(** The tail of every handler: COMMIT, an error answer when it fails. *)
Lemma commit_tail_commits {A} (f : DbErr → AihubError) (a : A) :
  CommitsOnOk (tbind commit (λ r, match r with inl e => tthrow (f e)
                                  | inr _ => tret a end)).
Proof.
  intros s b. unfold tbind, commit.
  destruct (tx_phase s); try done. destruct (tx_commit s); try done. simpl. eauto.
Qed.

(** Case analysis on the Go code's branches, then instance search; a handler's
    own definitions are unfolded when no instance covers them. *)
Ltac unfold_head m :=
  match m with ?f _ => unfold_head f | ?h => unfold h end.

Ltac solve_robust :=
  repeat (intros; first
    [ apply _
    | apply tbind_robust
    | apply tforeach_robust
    | apply tmap_robust
    | match goal with |- Robust (match ?x with _ => _ end) => destruct x end
    | progress cbv beta zeta
    | match goal with |- Robust ?m => unfold_head m end ]).

Ltac solve_commits :=
  repeat (intros; first
    [ apply tthrow_commits
    | apply commit_tail_commits
    | assumption
    | apply tbind_commits
    | match goal with |- CommitsOnOk (match ?x with _ => _ end) => destruct x end
    | progress cbv beta zeta
    | match goal with |- CommitsOnOk ?m => unfold_head m end ]).

(** The refinement: whatever the faults, a transaction leaves the tables as
    they were, or exactly as the fault-free run leaves them; ... *)
Lemma runTx_core {A} (m : Tx A) `{!Robust m} env d :
  core (runTx env m d).2 = core d
  ∨ core (runTx env m d).2 = core (runTx ideal_env m d).2.
Proof.
  unfold runTx. destruct (env_begin env); [|by left].
  cbn [env_begin ideal_env env_faults env_commit].
  set (s := mkTx d Active (env_faults env) (env_commit env)).
  set (i := mkTx d Active [] CommitOk).
  assert (sim s i) as Hsim by (repeat split).
  pose proof (robust_sim (m:=m) s i Hsim) as Ho.
  destruct (m s) as [r s'], (m i) as [ri i']; unfold outcome, lost_sim, sim in Ho;
    simpl in *.
  destruct Ho as [Ha|[(e & e' & Hs' & Hi' & Hd)|[_ (_ & _ & Hp)]]].
  - rewrite Ha. by left.
  - rewrite Hs', Hi'. by right.
  - destruct (tx_phase s') eqn:Es, (tx_phase i') eqn:Ei; try done;
      [by left|by right].
Qed.

(** ... and when it answers success, the answer and the tables are those of
    the fault-free run. *)
Lemma runTx_refines {A} (m : Tx A) `{!Robust m, !CommitsOnOk m} env d a :
  (runTx env m d).1 = inr a →
  (runTx ideal_env m d).1 = inr a
  ∧ core (runTx env m d).2 = core (runTx ideal_env m d).2.
Proof.
  unfold runTx. destruct (env_begin env); [|done].
  cbn [env_begin ideal_env env_faults env_commit].
  set (s := mkTx d Active (env_faults env) (env_commit env)).
  set (i := mkTx d Active [] CommitOk).
  assert (sim s i) as Hsim by (repeat split).
  pose proof (robust_sim (m:=m) s i Hsim) as Ho.
  pose proof (commits_on_ok (m:=m) s a) as Hok.
  destruct (m s) as [r s'], (m i) as [ri i']; unfold outcome, lost_sim, sim in Ho;
    simpl in *.
  intros Hr. destruct (Hok Hr) as [e He]. subst r.
  destruct Ho as [Ha|[(d' & e' & Hs' & Hi' & Hd)|[<- (_ & _ & Hp)]]];
    [congruence..|].
  rewrite He in *. destruct (tx_phase i'); done.
Qed.

(** A property of the tables that the fault-free run preserves is preserved
    by every run. *)
Lemma runTx_preserves {A} (m : Tx A) `{!Robust m, !CommitsOnOk m}
  (P : Core → Prop) env d :
  (P (core d) → P (core (runTx ideal_env m d).2)) →
  P (core d) → P (core (runTx env m d).2).
Proof.
  intros Hi Hd. destruct (runTx_core m env d) as [-> | ->]; auto.
Qed.

#[export] Hint Resolve tthrow_commits commit_tail_commits : polyforge.
