(* ===== verification/TxLogic.v ===== *)
(** * A program logic for fault-free transactions

    [wp m Post v]: running [m] without faults from any transaction state whose
    tables are described by [v] ends in an answer and a description that
    satisfy [Post].  Handlers are proved statement by statement with the rules
    below; [runTx_ideal] turns the result into a fact about [runTx], and
    [Store.runTx_refines] extends it to every execution with faults. *)

From S2P Require Import Prelude GoStrings Errors Json Store.

Open Scope list_scope.

(** What a fault-free transaction state says about the tables. *)
Inductive View : Type := VActive (c : Core) | VAborted | VCommitted (c : Core).

Definition view_is (v : View) (s : TxSt) : Prop :=
  match v with
  | VActive c => tx_phase s = Active ∧ tx_faults s = [] ∧ tx_commit s = CommitOk
                 ∧ core (tx_db s) = c
  | VAborted => tx_phase s = Aborted
  | VCommitted c => ∃ d, tx_phase s = Committed d ∧ core d = c
  end.

Definition post (A : Type) : Type := result AihubError A → View → Prop.

Definition wp {A} (m : Tx A) (Post : post A) (v : View) : Prop :=
  ∀ s, view_is v s → ∃ v', view_is v' (m s).2 ∧ Post (m s).1 v'.

Section rules.
Context {A B : Type}.

Lemma wp_ret (a : A) (Post : post A) v : Post (inr a) v → wp (tret a) Post v.
Proof. intros H s Hs. by exists v. Qed.

Lemma wp_throw e (Post : post A) v : Post (inl e) v → wp (tthrow e) Post v.
Proof. intros H s Hs. by exists v. Qed.

Lemma wp_bind (m : Tx A) (k : A → Tx B) (Post : post B) v :
  wp m (λ r v', match r with
                | inl e => Post (inl e) v'
                | inr a => wp (k a) Post v'
                end) v →
  wp (tbind m k) Post v.
Proof.
  intros H s Hs. unfold tbind. destruct (H s Hs) as (v' & Hv' & HP).
  destruct (m s) as [[e|a] s']; simpl in *; [eauto|]. by apply HP.
Qed.

Lemma wp_mono (m : Tx A) (P Q : post A) v :
  wp m P v → (∀ r v', P r v' → Q r v') → wp m Q v.
Proof. intros H HPQ s Hs. destruct (H s Hs) as (v' & ? & ?); eauto. Qed.

(** The statement rule: rows, no rows, or an error that aborts. *)
Lemma wp_stmt (f : Core → result DbErr (A * Core)) (Post : post (result DbErr A)) c :
  match f c with
  | inl NoRows => Post (inr (inl NoRows)) (VActive c)
  | inl e => Post (inr (inl e)) VAborted
  | inr (a, c') => Post (inr (inr a)) (VActive c')
  end →
  wp (stmt f) Post (VActive c).
Proof.
  intros H s (Hp & Hf & Hc & <-). unfold stmt. rewrite Hp, Hf. simpl.
  destruct (f (core (tx_db s))) as [e|[a c']] eqn:E; [destruct e|]; simpl;
    eexists; (split; [|exact H]); simpl; auto.
Qed.

Lemma wp_query (f : Core → result DbErr A) (Post : post (result DbErr A)) c :
  match f c with
  | inl NoRows => Post (inr (inl NoRows)) (VActive c)
  | inl e => Post (inr (inl e)) VAborted
  | inr a => Post (inr (inr a)) (VActive c)
  end →
  wp (query f) Post (VActive c).
Proof.
  intros H. apply wp_stmt. destruct (f c) as [e|a]; simpl; [destruct e|]; done.
Qed.

Lemma wp_or_throw f (r : result DbErr A) (Post : post A) v :
  match r with inl e => Post (inl (f e)) v | inr a => Post (inr a) v end →
  wp (or_throw f r) Post v.
Proof. destruct r; [apply wp_throw|apply wp_ret]. Qed.
End rules.

Lemma wp_exec (f : Core → result DbErr Core) (Post : post (result DbErr unit)) c :
  match f c with
  | inl NoRows => Post (inr (inl NoRows)) (VActive c)
  | inl e => Post (inr (inl e)) VAborted
  | inr c' => Post (inr (inr tt)) (VActive c')
  end →
  wp (exec f) Post (VActive c).
Proof.
  intros H. apply wp_stmt. destruct (f c) as [e|a]; simpl; [destruct e|]; done.
Qed.

Lemma wp_throw_opt o (Post : post unit) v :
  match o with Some e => Post (inl e) v | None => Post (inr tt) v end →
  wp (throw_opt o) Post v.
Proof. destruct o; [apply wp_throw|apply wp_ret]. Qed.

Lemma wp_emit evs (Post : post unit) v : Post (inr tt) v → wp (emit evs) Post v.
Proof.
  intros H s Hs. exists v. unfold emit. destruct v as [c| |c]; simpl in Hs.
  - destruct Hs as (Hp & Hf & Hc & Hd). rewrite Hp, Hf. by simpl.
  - by rewrite Hs.
  - destruct Hs as (d & Hp & Hd). rewrite Hp. simpl. eauto.
Qed.

Lemma wp_commit (Post : post (result DbErr unit)) c :
  Post (inr (inr tt)) (VCommitted c) → wp commit Post (VActive c).
Proof.
  intros H s (Hp & Hf & Hc & <-). unfold commit. rewrite Hp, Hc.
  eexists. split; [|exact H]. simpl. eauto.
Qed.

Lemma wp_commit_aborted (Post : post (result DbErr unit)) :
  Post (inr (inl OtherErr)) VAborted → wp commit Post VAborted.
Proof. intros H s Hp. unfold commit. rewrite Hp. by exists VAborted. Qed.

(** Once aborted, a computation can only stay aborted. *)
Lemma wp_aborted {A} (m : Tx A) `{!Robust m} (Post : post A) :
  (∀ r, Post r VAborted) → wp m Post VAborted.
Proof.
  intros H s Hp. simpl in Hp. exists VAborted. split; [|apply H]. simpl.
  rewrite robust_sticky; congruence.
Qed.

(** From the logic to a whole transaction. *)
Definition view_core (d : Core) (v : View) : Core :=
  match v with VCommitted c => c | _ => d end.

Lemma runTx_ideal {A} (m : Tx A) (Post : post A) d :
  wp m Post (VActive (core d)) →
  ∃ v, core (runTx ideal_env m d).2 = view_core (core d) v
       ∧ Post (runTx ideal_env m d).1 v.
Proof.
  intros H. destruct (H (mkTx d Active [] CommitOk)) as (v & Hv & HP); [done|].
  exists v. unfold runTx. cbn [env_begin ideal_env env_faults env_commit].
  destruct (m _) as [r s]; simpl in *. split; [|done].
  destruct v as [c| |c]; simpl in *.
  - by destruct Hv as [-> _].
  - by rewrite Hv.
  - by destruct Hv as (d' & -> & ?).
Qed.

(** ** Triples for the parts of a handler that do not commit

    [triple m Q c]: from tables [c], [m] answers an error without committing,
    or aborts, or answers [a] with tables [c'] such that [Q a c']. *)

Definition triple {A} (m : Tx A) (Q : A → Core → Prop) (c : Core) : Prop :=
  wp m (λ r v, match r, v with
               | inr a, VActive c' => Q a c'
               | _, VCommitted _ => False
               | _, _ => True
               end) (VActive c).

(** A handler: whatever commits answers success, with an answer and tables
    that satisfy [Q]. *)
Definition commits_to {A} (Q : A → Core → Prop) : post A :=
  λ r v, match r, v with
         | inr a, VCommitted c => Q a c
         | inl _, VCommitted _ => False
         | _, _ => True
         end.

Lemma commits_to_aborted {A} (Q : A → Core → Prop) r : commits_to Q r VAborted.
Proof. by destruct r. Qed.

Lemma triple_mono {A} (m : Tx A) (P Q : A → Core → Prop) c :
  triple m P c → (∀ a c', P a c' → Q a c') → triple m Q c.
Proof.
  intros H HPQ. eapply wp_mono; [exact H|]. intros [e|a] []; simpl; auto.
Qed.

Lemma triple_ret {A} (a : A) (Q : A → Core → Prop) c : Q a c → triple (tret a) Q c.
Proof. intros. by apply wp_ret. Qed.

Lemma triple_throw {A} e (Q : A → Core → Prop) c : triple (tthrow e) Q c.
Proof. by apply wp_throw. Qed.

Lemma triple_bind {A B} (m : Tx A) (k : A → Tx B)
  (P : A → Core → Prop) (Q : B → Core → Prop) c :
  (∀ a, Robust (k a)) →
  triple m P c → (∀ a c', P a c' → triple (k a) Q c') → triple (tbind m k) Q c.
Proof.
  intros ? Hm Hk. apply wp_bind. eapply wp_mono; [exact Hm|].
  intros [e|a] [c'| |c']; simpl; try done.
  - apply Hk.
  - intros _. apply (wp_aborted (k a)). by intros [].
Qed.

(** A value already computed. *)
Lemma triple_ret_bind {A B} (a : A) (k : A → Tx B) (Q : B → Core → Prop) c :
  triple (k a) Q c → triple (tbind (tret a) k) Q c.
Proof. done. Qed.

(** [tstep P]: prove the first computation with postcondition [P], go on with
    the rest. *)
Ltac robust := solve [solve_robust].
Tactic Notation "tstep" uconstr(P) :=
  eapply (triple_bind _ _ P); [robust| |].

(** A non-committing prefix inside a handler. *)
Lemma wp_bind_triple {A B} (m : Tx A) (k : A → Tx B)
  (P : A → Core → Prop) (Q : B → Core → Prop) c :
  (∀ a, Robust (k a)) →
  triple m P c → (∀ a c', P a c' → wp (k a) (commits_to Q) (VActive c')) →
  wp (tbind m k) (commits_to Q) (VActive c).
Proof.
  intros ? Hm Hk. apply wp_bind. eapply wp_mono; [exact Hm|].
  intros [e|a] [c'| |c']; simpl; try done.
  - apply Hk.
  - intros _. apply (wp_aborted (k a)), commits_to_aborted.
Qed.

(** [hstep P]: as [tstep], inside a handler. *)
Tactic Notation "hstep" uconstr(P) :=
  eapply (wp_bind_triple _ _ P); [robust| |].

Lemma commits_throw {A} e (Q : A → Core → Prop) c :
  wp (tthrow e) (commits_to Q) (VActive c).
Proof. by apply wp_throw. Qed.

Lemma triple_stmt {A} (f : Core → result DbErr (A * Core))
  (Q : result DbErr A → Core → Prop) c :
  (f c = inl NoRows → Q (inl NoRows) c) →
  (∀ a c', f c = inr (a, c') → Q (inr a) c') → triple (stmt f) Q c.
Proof.
  intros Hn Hs. apply wp_stmt. destruct (f c) as [[]|[a c']]; try done; auto.
Qed.

Lemma triple_query {A} (f : Core → result DbErr A) (Q : result DbErr A → Core → Prop) c :
  (f c = inl NoRows → Q (inl NoRows) c) →
  (∀ a, f c = inr a → Q (inr a) c) → triple (query f) Q c.
Proof.
  intros Hn Hs. apply wp_query. destruct (f c) as [[]|a]; try done; auto.
Qed.

Lemma triple_exec (f : Core → result DbErr Core) (Q : result DbErr unit → Core → Prop) c :
  (f c = inl NoRows → Q (inl NoRows) c) →
  (∀ c', f c = inr c' → Q (inr tt) c') → triple (exec f) Q c.
Proof.
  intros Hn Hs. apply wp_exec. destruct (f c) as [[]|a]; try done; auto.
Qed.

Lemma triple_or_throw {A} f (r : result DbErr A) (Q : A → Core → Prop) c :
  (∀ a, r = inr a → Q a c) → triple (or_throw f r) Q c.
Proof. intros H. apply wp_or_throw. destruct r; [done|]. by apply H. Qed.

(** [r <- exec f ;; or_throw g r]: a write whose errors are thrown. *)
Lemma triple_exec_throw f g (Q : unit → Core → Prop) c :
  (∀ c', f c = inr c' → Q tt c') →
  triple (tbind (exec f) (or_throw g)) Q c.
Proof.
  intros Hk. tstep (λ r c', match r with inl _ => True | inr _ => f c = inr c' end).
  - apply triple_exec; auto.
  - intros [e|[]] c' H; [apply triple_throw|]. by apply triple_ret, Hk.
Qed.

(** [r <- exec f ;; or_throw g r ;;; k], the usual shape of a write. *)
Lemma triple_exec_or_throw {B} f g (k : unit → Tx B) (Q : B → Core → Prop) c :
  (∀ a, Robust (k a)) →
  (∀ c', f c = inr c' → triple (k tt) Q c') →
  triple (tbind (exec f) (λ r, tbind (or_throw g r) k)) Q c.
Proof.
  intros HR Hk. tstep (λ r c', match r with inl _ => True | inr _ => f c = inr c' end).
  - apply triple_exec; auto.
  - intros [e|[]] c' H; [|by apply Hk]. apply triple_throw.
Qed.

Lemma triple_throw_opt o (Q : unit → Core → Prop) c :
  (o = None → Q tt c) → triple (throw_opt o) Q c.
Proof. intros H. apply wp_throw_opt. destruct o; [done|]. by apply H. Qed.

Lemma triple_emit evs (Q : unit → Core → Prop) c : Q tt c → triple (emit evs) Q c.
Proof. intros H. by apply wp_emit. Qed.

Lemma triple_bestEffort f (Q : unit → Core → Prop) c :
  (f c = inl NoRows → Q tt c) → (∀ c', f c = inr c' → Q tt c') →
  triple (bestEffortExec f) Q c.
Proof.
  intros Hn Hs. eapply triple_bind; [intros []; apply _| |].
  - apply (triple_exec f (λ r c', match r with
             | inl e => e = NoRows ∧ Q tt c' | inr _ => Q tt c' end)); auto.
  - intros [e|[]] c'; [intros [-> ?]; by apply triple_ret|].
    intros ?. by apply triple_ret.
Qed.

(** A loop keeps what each pass keeps. *)
Lemma triple_tforeach {A} (l : list A) (f : A → Tx unit) `{!∀ x, Robust (f x)}
  (I : Core → Prop) c :
  (∀ x c, x ∈ l → I c → triple (f x) (λ _, I) c) → I c →
  triple (tforeach l f) (λ _, I) c.
Proof.
  revert c. induction l as [|x l IH]; intros c Hf Hc; simpl.
  - by apply triple_ret.
  - eapply triple_bind; [robust|apply Hf; [left|done]|].
    intros [] c' Hc'. apply IH; [|done]. intros y ? ?. apply Hf. by right.
Qed.

Lemma triple_tforeach_done {A} (l : list A) (f : A → Tx unit)
  (I : list A → Core → Prop) c :
  (∀ x, Robust (f x)) →
  (∀ don x todo c, l = don ++ x :: todo → I don c →
     triple (f x) (λ _, I (don ++ [x])) c) →
  I [] c → triple (tforeach l f) (λ _, I l) c.
Proof.
  intros HR Hf.
  assert (∀ todo don c, l = don ++ todo → I don c →
    triple (tforeach todo f) (λ _, I l) c) as H.
  { induction todo as [|x todo IH]; intros don c0 Hl HI; simpl.
    - apply triple_ret. rewrite app_nil_r in Hl. by subst.
    - tstep (λ _, I (don ++ [x])); [by eapply Hf|].
      intros [] c1 HI1. apply (IH (don ++ [x])); [by rewrite <- app_assoc|done]. }
  intros HI. by apply (H l []).
Qed.

Lemma triple_tmap {A B} (f : A → Tx B) (l : list A)
  (I : list A → list B → Core → Prop) c :
  (∀ x, Robust (f x)) →
  (∀ don x todo bs c, l = don ++ x :: todo → I don bs c →
     triple (f x) (λ b, I (don ++ [x]) (bs ++ [b])) c) →
  I [] [] c → triple (tmap f l) (I l) c.
Proof.
  intros HR Hf.
  assert (∀ todo don bs c, l = don ++ todo → I don bs c →
    triple (tmap f todo) (λ bs', I l (bs ++ bs')) c) as H.
  { induction todo as [|x todo IH]; intros don bs c0 Hl HI; simpl.
    - apply triple_ret. rewrite app_nil_r in Hl. subst. by rewrite app_nil_r.
    - tstep (λ b, I (don ++ [x]) (bs ++ [b])); [by eapply Hf|].
      intros b c1 HI1. tstep (λ bs', I l ((bs ++ [b]) ++ bs')).
      + apply (IH (don ++ [x])); [by rewrite <- app_assoc|done].
      + intros bs' c2 HI2. apply triple_ret. by rewrite <- app_assoc in HI2. }
  intros HI. by apply (H l [] []).
Qed.

(** A loop of reads computes its function of the tables for each element. *)
Lemma wp_tmap_pure {A B} (f : A → Tx B) (g : A → B) l (Post : post (list B)) c :
  (∀ x (Q : post B), Q (inr (g x)) (VActive c) → wp (f x) Q (VActive c)) →
  Post (inr (g <$> l)) (VActive c) → wp (tmap f l) Post (VActive c).
Proof.
  intros Hf. revert Post. induction l as [|x l IH]; intros Post HP; [by apply wp_ret|].
  simpl. apply wp_bind, Hf, wp_bind, IH. by apply wp_ret.
Qed.

(** ** Computations that keep a property whatever they answer *)

Definition keeps {A} (I : Core → Prop) (m : Tx A) : Prop :=
  ∀ c, I c → wp m (λ _ v, match v with
                          | VActive c' => I c' | VAborted => True | _ => False
                          end) (VActive c).

Lemma keeps_ret {A} (a : A) I : keeps I (tret a).
Proof. intros c Hc. by apply wp_ret. Qed.
Lemma keeps_throw {A} e I : keeps I (tthrow (A:=A) e).
Proof. intros c Hc. by apply wp_throw. Qed.
Lemma keeps_throw_opt o I : keeps I (throw_opt o).
Proof. destruct o; [apply keeps_throw|apply keeps_ret]. Qed.
Lemma keeps_or_throw {A} f (r : result DbErr A) I : keeps I (or_throw f r).
Proof. destruct r; [apply keeps_throw|apply keeps_ret]. Qed.
Lemma keeps_query {A} (f : Core → result DbErr A) I : keeps I (query f).
Proof. intros c Hc. apply wp_query. by destruct (f c) as [[]|]. Qed.
Lemma keeps_exec f I : (∀ c c', I c → f c = inr c' → I c') → keeps I (exec f).
Proof.
  intros H c Hc. apply wp_exec. destruct (f c) as [[]|] eqn:E; [done..|by eapply H].
Qed.

Lemma keeps_bind {A B} (m : Tx A) (k : A → Tx B) I :
  (∀ a, Robust (k a)) → keeps I m → (∀ a, keeps I (k a)) → keeps I (tbind m k).
Proof.
  intros ? Hm Hk c Hc. apply wp_bind. eapply wp_mono; [by apply Hm|].
  intros [e|a] [c'| |c']; simpl; try done.
  - apply Hk.
  - intros _. by apply (wp_aborted (k a)).
Qed.

Lemma keeps_bestEffort f I :
  (∀ c c', I c → f c = inr c' → I c') → keeps I (bestEffortExec f).
Proof.
  intros H. apply keeps_bind; [robust|by apply keeps_exec|].
  intros []; [apply keeps_throw_opt|apply keeps_ret].
Qed.

Lemma keeps_triple {A} (m : Tx A) I c : keeps I m → I c → triple m (λ _, I) c.
Proof.
  intros H Hc. eapply wp_mono; [by apply H|]. by intros [e|a] [c'| |c'].
Qed.

(** The usual end of a handler. *)
Lemma wp_commit_tail {A} (f : DbErr → AihubError) (a : A) (Q : A → Core → Prop) c :
  Q a c →
  wp (tbind commit (λ r, match r with inl e => tthrow (f e) | inr _ => tret a end))
    (commits_to Q) (VActive c).
Proof. intros H. apply wp_bind, wp_commit. by apply wp_ret. Qed.

(** The rule that turns such a proof into a fact about every execution. *)
Lemma runTx_invariant {A} (m : Tx A) `{!Robust m, !CommitsOnOk m}
  (Q : A → Core → Prop) (R : Core → Prop) env d :
  wp m (commits_to Q) (VActive (core d)) →
  R (core d) → (∀ a c, Q a c → R c) → R (core (runTx env m d).2).
Proof.
  intros Hm HR HQ. apply (runTx_preserves m R); [|done]. intros _.
  destruct (runTx_ideal m _ d Hm) as (v & -> & HP).
  destruct v; simpl in *; try done. destruct (runTx ideal_env m d).1; [done|eauto].
Qed.

(** Without [CommitsOnOk]: the tables of any execution are the old ones or
    those of the fault-free execution. *)
Lemma runTx_preserves_any {A} (m : Tx A) `{!Robust m} (R : Core → Prop) env d :
  (R (core d) → R (core (runTx ideal_env m d).2)) →
  R (core d) → R (core (runTx env m d).2).
Proof.
  intros Hi HR. destruct (runTx_core m env d) as [-> | ->]; auto.
Qed.

(** ... and, for runs that answer success, the tables are those the logic
    describes. *)
Lemma runTx_success {A} (m : Tx A) `{!Robust m, !CommitsOnOk m}
  (Q : A → Core → Prop) env d a :
  wp m (commits_to Q) (VActive (core d)) →
  (runTx env m d).1 = inr a → Q a (core (runTx env m d).2).
Proof.
  intros Hm Ha. destruct (runTx_refines m env d a Ha) as [Hq ->]. clear Ha.
  pose proof (commits_on_ok (m:=m) (mkTx d Active [] CommitOk) a) as Hc.
  destruct (Hm (mkTx d Active [] CommitOk)) as (v & Hv & HP); [done|].
  unfold runTx in *. cbn [env_begin ideal_env env_faults env_commit] in *.
  destruct (m (mkTx d Active [] CommitOk)) as [r s]; simpl in *. subst r.
  destruct (Hc eq_refl) as [d' Hd']. rewrite Hd'.
  destruct v as [c| |c]; simpl in Hv.
  - destruct Hv as [Hv _]; congruence.
  - congruence.
  - destruct Hv as (d'' & Hv & <-). rewrite Hd' in Hv. by injection Hv as ->.
Qed.

(** A transaction that can commit nothing leaves the database as it was. *)
Lemma runTx_refused {A} (m : Tx A) `{!Robust m, !CommitsOnOk m}
  (Q : A → Core → Prop) env d :
  wp m (commits_to Q) (VActive (core d)) → (∀ a c, ¬ Q a c) →
  (∃ e, (runTx env m d).1 = inl e) ∧ (runTx env m d).2 = d.
Proof.
  intros Hm HQ. split.
  - destruct (runTx env m d).1 as [e|a] eqn:E; [eauto|]. exfalso.
    by eapply HQ, (runTx_success m Q env d a).
  - destruct (Hm (mkTx d Active [] CommitOk)) as (v & Hv & HP); [done|].
    assert (∀ c, v ≠ VCommitted c) as Hno.
    { intros c ->. simpl in HP. destruct (m _).1; [done|]. by eapply HQ. }
    unfold runTx. destruct (env_begin env); [|done].
    set (s := mkTx d Active (env_faults env) (env_commit env)).
    assert (sim s (mkTx d Active [] CommitOk)) as Hsim by (repeat split).
    pose proof (robust_sim (m:=m) s _ Hsim) as Ho.
    destruct (m s) as [r s'], (m (mkTx d Active [] CommitOk)) as [ri i'];
      unfold outcome, lost_sim, sim in Ho; simpl in *.
    assert (∀ d', tx_phase i' ≠ Committed d') as Hni.
    { intros d' Hd'. destruct v as [c| |c]; simpl in Hv; [|congruence|by eapply Hno].
      destruct Hv; congruence. }
    destruct Ho as [->|[(x & y & _ & Hi' & _)|[_ (_ & _ & Hp)]]]; [done| |].
    + by apply Hni in Hi'.
    + destruct (tx_phase s') eqn:Es, (tx_phase i') eqn:Ei; try done. by destruct (Hni _ eq_refl).
Qed.

(** Without faults, an error answer means nothing was written. *)
Lemma runTx_ideal_error {A} (m : Tx A) (Q : A → Core → Prop) d e :
  wp m (commits_to Q) (VActive (core d)) →
  (runTx ideal_env m d).1 = inl e → (runTx ideal_env m d).2 = d.
Proof.
  intros Hm. destruct (Hm (mkTx d Active [] CommitOk)) as (v & Hv & HP); [done|].
  unfold runTx. cbn [env_begin ideal_env env_faults env_commit].
  destruct (m _) as [r s]; simpl in *. intros ->.
  destruct v as [c| |c]; simpl in *; [by destruct Hv as [-> _]|by rewrite Hv|done].
Qed.
