(* ===== verification/Moves.v ===== *)
(** * Relations every statement respects

    [Moves R m]: whatever the faults, the computation [m] takes the tables
    along the preorder [R].  A fact about the statements of a handler becomes
    a fact about the handler, and [runTx_moves] one about its transaction. *)

From S2P Require Import Prelude GoStrings Errors Json Store TxLogic.

Open Scope list_scope.

(** Any execution of [m], with any faults, moves the tables along [R]. *)
Class Moves (R : relation Core) {A} (m : Tx A) : Prop := moves s :
  match tx_phase s with
  | Active =>
      match tx_phase (m s).2 with
      | Active => R (core (tx_db s)) (core (tx_db (m s).2))
      | Committed d | Lost d => R (core (tx_db s)) (core d)
      | Aborted => True
      end
  | p => tx_phase (m s).2 = p
  end.

Section moves.
Context (R : relation Core) `{!PreOrder R}.

Lemma moves_ret {A} (a : A) : Moves R (tret a).
Proof. intros s. simpl. by destruct (tx_phase s) eqn:E. Qed.
Lemma moves_throw {A} e : Moves R (tthrow (A:=A) e).
Proof. intros s. simpl. by destruct (tx_phase s) eqn:E. Qed.

Lemma moves_bind {A B} (m : Tx A) (k : A → Tx B) :
  Moves R m → (∀ a, Moves R (k a)) → Moves R (tbind m k).
Proof.
  intros Hm Hk s. pose proof (Hm s) as H. unfold tbind.
  destruct (m s) as [[e|a] s']; [exact H|]. simpl in *. pose proof (Hk a s') as H'.
  destruct (tx_phase s), (tx_phase s') as [| |d1|d1]; simplify_eq;
    try (destruct (tx_phase (k a s').2); simplify_eq); try done; by etransitivity.
Qed.

Lemma moves_stmt {A} (f : Core → result DbErr (A * Core)) :
  (∀ c a c', f c = inr (a, c') → R c c') → Moves R (stmt f).
Proof.
  intros Hf s. unfold stmt. destruct (tx_phase s) eqn:E; try exact E.
  destruct (next_fault (tx_faults s)) as [[] fs]; [done|].
  destruct (f _) as [[]|[a c']] eqn:Ef; simpl; try done. by eapply Hf.
Qed.

Lemma moves_query {A} (f : Core → result DbErr A) : Moves R (query f).
Proof.
  apply moves_stmt. intros c a c'. rewrite rbind_ok. by intros (? & _ & [= _ <-]).
Qed.

Lemma moves_exec f : (∀ c c', f c = inr c' → R c c') → Moves R (exec f).
Proof.
  intros Hf. apply moves_stmt. intros c a c'. rewrite rbind_ok.
  intros (? & ? & [= _ <-]). auto.
Qed.

Lemma moves_or_throw {A} f (r : result DbErr A) : Moves R (or_throw f r).
Proof. destruct r; [apply moves_throw|apply moves_ret]. Qed.
Lemma moves_throw_opt o : Moves R (throw_opt o).
Proof. destruct o; [apply moves_throw|apply moves_ret]. Qed.

Lemma moves_emit evs : Moves R (emit evs).
Proof.
  intros s. unfold emit. destruct (tx_phase s) eqn:E; try exact E.
  repeat case_match; simplify_eq/=; try done;
    match goal with H : tx_phase _ = _ |- _ => by rewrite H end.
Qed.

Lemma moves_commit : Moves R commit.
Proof.
  intros s. unfold commit. destruct (tx_phase s) eqn:E; try exact E.
  destruct (tx_commit s); simpl; done || reflexivity.
Qed.

Lemma moves_foreach {A} (l : list A) f : (∀ x, Moves R (f x)) → Moves R (tforeach l f).
Proof. intros. induction l; [apply moves_ret|by apply moves_bind]. Qed.
Lemma moves_tmap {A B} (l : list A) (f : A → Tx B) :
  (∀ x, Moves R (f x)) → Moves R (tmap f l).
Proof.
  intros. induction l; [apply moves_ret|]. apply moves_bind; [done|intros].
  apply moves_bind; [done|intros; apply moves_ret].
Qed.

(** A computation that answers as another one and leaves its state. *)
Lemma moves_same {A B} (m : Tx A) (n : Tx B) :
  (∀ s, (n s).2 = (m s).2) → Moves R m → Moves R n.
Proof. intros H Hm s. rewrite H. apply Hm. Qed.

Lemma runTx_moves {A} (m : Tx A) env d :
  Moves R m → R (core d) (core (runTx env m d).2).
Proof.
  intros Hm. unfold runTx. destruct (env_begin env); [|done].
  pose proof (Hm (mkTx d Active (env_faults env) (env_commit env))) as H. simpl in H.
  destruct (m _) as [r s]. simpl in *. by destruct (tx_phase s).
Qed.
End moves.

Create HintDb moves.

(** Case analysis on the code; the goals left are one per kind of write. *)
Ltac solve_moves :=
  repeat (intros; first
    [ assumption
    | apply moves_ret; apply _
    | apply moves_throw; apply _
    | apply moves_query; apply _
    | apply moves_or_throw; apply _
    | apply moves_throw_opt; apply _
    | apply moves_emit; apply _
    | apply moves_commit; apply _
    | apply moves_bind; [apply _| |]
    | apply moves_foreach; [apply _|]
    | apply moves_tmap; [apply _|]
    | solve [eauto with moves]
    | match goal with |- Moves _ (stmt _) => apply moves_stmt; [apply _|] end
    | match goal with |- Moves _ (exec _) => apply moves_exec; [apply _|] end
    | match goal with |- Moves _ (match ?x with _ => _ end) => destruct x end
    | progress cbv beta zeta
    | match goal with |- Moves _ ?m => unfold_head m end ]).

