(* ===== verification/LifecycleSpec.v ===== *)
(** * The attempt lifecycle: abstract specification

    What the handlers of [internal/domain/run_attempts.go] promise, without
    SQL, errors or faults: a transition system on work items, attempts and
    locks, its invariant, and what follows from the invariant.
    [Lifecycle.v] proves that every handler refines it. *)

From S2P Require Import Prelude GoStrings Store.
From stdpp Require Import relations.

(** ** States *)

Record AWi : Type := mkAWi {
  aw_status : WiStatus; aw_current : option string; aw_epoch : Z;
}.
Record AAtt : Type := mkAAtt { aa_wi : string; aa_status : RaStatus; aa_epoch : Z }.

Record AState : Type := mkA {
  a_wis : gmap string AWi;
  a_atts : gmap string AAtt;
  a_locks : gmap (string * string) LockRow;
}.

Definition aa_live (x : AAtt) : bool := ra_live (aa_status x).

Definition with_astatus (st : RaStatus) (x : AAtt) : AAtt :=
  mkAAtt (aa_wi x) st (aa_epoch x).
Definition with_wstatus (st : WiStatus) (w : AWi) : AWi :=
  mkAWi st (aw_current w) (aw_epoch w).

(** The lock [l] is held by a live attempt of a work item other than [id]. *)
Definition held_elsewhere (A : gmap string AAtt) (id : string) (l : LockRow) : Prop :=
  ∃ x, A !! lk_owner l = Some x ∧ aa_live x = true ∧ aa_wi x ≠ id.

(** From [L] to [L'], attempt [att] of [id] acquired locks and those of
    [dropped] were released; whatever another work item holds is untouched. *)
Record locks_change (A : gmap string AAtt) (id att : string) (epoch : Z)
  (dropped : option string) (L L' : gmap (string * string) LockRow) : Prop := {
  lc_from k l : L' !! k = Some l →
    l = mkLock att epoch ∨ (L !! k = Some l ∧ Some (lk_owner l) ≠ dropped);
  lc_foreign k l : L !! k = Some l → held_elsewhere A id l → L' !! k = Some l;
}.

(** No attempt of [id] has epoch [e]: the UNIQUE constraint. *)
Definition epoch_free (A : gmap string AAtt) (id : string) (e : Z) : Prop :=
  ∀ a x, A !! a = Some x → aa_wi x = id → aa_epoch x ≠ e.

Definition supersede (prior : option string) (A : gmap string AAtt) : gmap string AAtt :=
  match prior with Some p => alter (with_astatus RSuperseded) p A | None => A end.

(** ** Transitions *)

(** Two transitions break promises the others keep, so executions say whether
    they may occur: a takeover decided on an earlier state, and the escalation
    of a failed step, which blocks an item whatever its status. *)
Record Mode : Type := mkMode { stale_takeovers : bool; escalations : bool }.

Definition calm : Mode := mkMode false false.
Definition takeovers : Mode := mkMode true false.
Definition anything : Mode := mkMode true true.

(** [m'] admits what [m] admits. *)
Definition mode_le (m m' : Mode) : Prop :=
  (stale_takeovers m = true → stale_takeovers m' = true)
  ∧ (escalations m = true → escalations m' = true).

Inductive astep (m : Mode) : AState → AState → Prop :=
  (** a claim; a running work item is taken over from its current attempt *)
  | a_claim W A L L' id w att prior :
      W !! id = Some w →
      (aw_status w = WQueued ∨ aw_status w = WPaused) ∧ prior = None
      ∨ aw_status w = WRunning ∧ prior = aw_current w →
      A !! att = None → att ≠ "" →
      epoch_free A id (aw_epoch w + 1) →
      locks_change A id att (aw_epoch w + 1) prior L L' →
      astep m (mkA W A L)
        (mkA (<[id := mkAWi WRunning (Some att) (aw_epoch w + 1)]> W)
             (<[att := mkAAtt id RRunning (aw_epoch w + 1)]> (supersede prior A)) L')
  (** a takeover decided on an earlier state, in which [prior] had epoch [e] *)
  | a_takeover W A L L' id w att prior x :
      stale_takeovers m = true → W !! id = Some w → A !! prior = Some x → aa_wi x = id →
      A !! att = None → att ≠ "" →
      epoch_free A id (aa_epoch x + 1) →
      locks_change A id att (aa_epoch x + 1) (Some prior) L L' →
      astep m (mkA W A L)
        (mkA (<[id := mkAWi WRunning (Some att) (aa_epoch x + 1)]> W)
             (<[att := mkAAtt id RRunning (aa_epoch x + 1)]> (supersede (Some prior) A))
             L')
  (** the current, running attempt ends or pauses, together with its work item *)
  | a_end W A L L' id w att x wst rst :
      W !! id = Some w → aw_current w = Some att →
      A !! att = Some x → aa_status x = RRunning →
      (wst, rst) ∈ [(WWrapped, RWrapped); (WFailed, RFailed); (WPaused, RPaused)] →
      (∀ k l, L' !! k = Some l ↔
         L !! k = Some l ∧
         (lk_owner l = att → rst = RPaused ∧ k.1 ≠ "file_scope")) →
      astep m (mkA W A L)
        (mkA (<[id := with_wstatus wst w]> W) (<[att := with_astatus rst x]> A) L')
  (** a running attempt extends its locks *)
  | a_acquire W A L L' id w att x :
      W !! id = Some w → aw_current w = Some att →
      A !! att = Some x → aa_status x = RRunning →
      locks_change A id att (aa_epoch x) None L L' →
      astep m (mkA W A L) (mkA W A L')
  (** a cancel ends every live attempt and drops every lock of the item *)
  | a_cancel W A L L' id w :
      W !! id = Some w →
      aw_status w ∈ [WQueued; WPaused; WBlocked] →
      (∀ k l, L' !! k = Some l ↔
         L !! k = Some l ∧ ∀ x, A !! lk_owner l = Some x → aa_wi x ≠ id) →
      astep m (mkA W A L)
        (mkA (<[id := with_wstatus WCancelled w]> W)
             ((λ x, if String.eqb (aa_wi x) id && aa_live x
                    then with_astatus RCancelled x else x) <$> A) L')
  (** dependencies *)
  | a_block W A L id w :
      W !! id = Some w → aw_status w = WQueued →
      astep m (mkA W A L) (mkA (<[id := with_wstatus WBlocked w]> W) A L)
  | a_requeue W A L id w :
      W !! id = Some w → aw_status w = WBlocked →
      astep m (mkA W A L) (mkA (<[id := with_wstatus WQueued w]> W) A L)
  (** an escalated step failure blocks the item whatever its status, and leaves
      its attempt as it is *)
  | a_escalate W A L id w :
      escalations m = true → W !! id = Some w →
      astep m (mkA W A L) (mkA (<[id := with_wstatus WBlocked w]> W) A L)
  (** the sweep drops locks whose owner is not live *)
  | a_sweep W A L L' :
      (∀ k l, L' !! k = Some l ↔
         L !! k = Some l ∧ ∃ x, A !! lk_owner l = Some x ∧ aa_live x = true) →
      astep m (mkA W A L) (mkA W A L')
  (** an edit of the declarations drops locks of the item's attempts *)
  | a_narrow W A L L' id w :
      W !! id = Some w →
      (∀ k l, L' !! k = Some l → L !! k = Some l) →
      (∀ k l, L !! k = Some l → L' !! k = None →
         k.1 = "file_scope" ∧ ∃ x, A !! lk_owner l = Some x ∧ aa_wi x = id) →
      astep m (mkA W A L) (mkA W A L')
  (** a new work item *)
  | a_create W A L id st :
      W !! id = None → (∀ a x, A !! a = Some x → aa_wi x ≠ id) →
      st = WQueued ∨ st = WBlocked →
      astep m (mkA W A L) (mkA (<[id := mkAWi st None 0]> W) A L).

(** ** The invariant *)

Record Inv (s : AState) : Prop := {
  inv_noname : a_atts s !! "" = None;
  inv_epoch_nonneg id w : a_wis s !! id = Some w → (0 <= aw_epoch w)%Z;
  (** every attempt belongs to a work item and is no newer than its epoch *)
  inv_owner a x : a_atts s !! a = Some x →
    ∃ w, a_wis s !! aa_wi x = Some w ∧ (1 <= aa_epoch x <= aw_epoch w)%Z;
  (** fencing tokens are unique, and none is skipped *)
  inv_unique a x b y : a_atts s !! a = Some x → a_atts s !! b = Some y →
    aa_wi x = aa_wi y → aa_epoch x = aa_epoch y → a = b;
  inv_cover id w e : a_wis s !! id = Some w → (1 <= e <= aw_epoch w)%Z →
    ∃ a x, a_atts s !! a = Some x ∧ aa_wi x = id ∧ aa_epoch x = e;
  (** the current attempt is the newest *)
  inv_current id w a : a_wis s !! id = Some w → aw_current w = Some a →
    ∃ x, a_atts s !! a = Some x ∧ aa_wi x = id ∧ aa_epoch x = aw_epoch w;
  (** a running work item has a running current attempt *)
  inv_running_wi id w : a_wis s !! id = Some w → aw_status w = WRunning →
    ∃ a x, aw_current w = Some a ∧ a_atts s !! a = Some x ∧ aa_status x = RRunning;
  (** a lock is held by a live attempt and carries its fencing token *)
  inv_locks k l : a_locks s !! k = Some l →
    ∃ x, a_atts s !! lk_owner l = Some x ∧ aa_live x = true
         ∧ lk_epoch l = aa_epoch x;
}.

(** And conversely, as long as no step failure is escalated: a running attempt
    is the current one of its running work item. *)
Definition Exclusive (s : AState) : Prop :=
  ∀ a x, a_atts s !! a = Some x → aa_status x = RRunning →
    ∃ w, a_wis s !! aa_wi x = Some w ∧ aw_status w = WRunning
         ∧ aw_current w = Some a.

(** ** Preservation *)

Lemma supersede_lookup prior A a y :
  supersede prior A !! a = Some y →
  ∃ x, A !! a = Some x ∧ aa_wi y = aa_wi x ∧ aa_epoch y = aa_epoch x ∧
       (if decide (prior = Some a) then aa_status y = RSuperseded else y = x).
Proof.
  destruct prior as [p|]; simpl.
  - destruct (decide (p = a)) as [->|Hne].
    + rewrite lookup_alter_eq, fmap_Some. intros (x & Hx & ->). exists x.
      by rewrite decide_True.
    + rewrite lookup_alter_ne by done. intros. exists y.
      rewrite decide_False by congruence. done.
  - intros. exists y. done.
Qed.

Lemma supersede_lookup_inv prior A a x :
  A !! a = Some x →
  ∃ y, supersede prior A !! a = Some y ∧ aa_wi y = aa_wi x
       ∧ aa_epoch y = aa_epoch x ∧ (prior ≠ Some a → y = x).
Proof.
  intros Hx. destruct prior as [p|]; simpl; [|by exists x].
  destruct (decide (p = a)) as [->|Hne].
  - rewrite lookup_alter_eq, Hx. simpl. eexists; split; [done|]. done.
  - rewrite lookup_alter_ne by done. by exists x.
Qed.

Lemma supersede_None prior A a : A !! a = None → supersede prior A !! a = None.
Proof.
  intros H. destruct prior as [p|]; simpl; [|done].
  destruct (decide (p = a)) as [->|]; [by rewrite lookup_alter_eq, H|].
  by rewrite lookup_alter_ne.
Qed.

(** The common shape of a claim and a takeover: a new attempt with the next
    epoch; [prior], superseded, belongs to the item. *)
Lemma new_attempt_inv W A L L' id w att prior :
  Inv (mkA W A L) → W !! id = Some w → A !! att = None → att ≠ "" →
  locks_change A id att (aw_epoch w + 1) prior L L' →
  (∀ p x, prior = Some p → A !! p = Some x → aa_wi x = id) →
  Inv (mkA (<[id := mkAWi WRunning (Some att) (aw_epoch w + 1)]> W)
           (<[att := mkAAtt id RRunning (aw_epoch w + 1)]> (supersede prior A)) L').
Proof.
  intros [H0 H1 H2 H3 H4 H5 H6 H8] Hw Hatt Hne [Hfrom _] Hpw.
  cbn [a_wis a_atts a_locks] in *.
  pose proof (H1 _ _ Hw) as Hpos.
  assert (∀ a y, supersede prior A !! a = Some y → a ≠ att) as Hfresh.
  { intros a y Hy ->. by rewrite supersede_None in Hy. }
  split; cbn [a_wis a_atts a_locks].
  - rewrite lookup_insert_ne by done. by apply supersede_None.
  - intros i v. rewrite lookup_insert_Some. intros [[<- <-]|[_ ?]]; simpl; [lia|eauto].
  - intros a x. rewrite lookup_insert_Some. intros [[<- <-]|[_ Hx]]; simpl.
    { eexists. rewrite lookup_insert_eq. split; [done|]. simpl. lia. }
    apply supersede_lookup in Hx as (y & Hy & -> & -> & _).
    destruct (H2 _ _ Hy) as (v & Hv & ?).
    destruct (decide (aa_wi y = id)) as [Hi|Hi].
    + rewrite Hi in *. eexists. rewrite lookup_insert_eq. split; [done|]. simplify_eq. simpl. lia.
    + exists v. by rewrite lookup_insert_ne.
  - intros a x b y. rewrite !lookup_insert_Some.
    intros [[<- <-]|[_ Hx]] [[<- <-]|[_ Hy]]; simpl; try done.
    + apply supersede_lookup in Hy as (z & Hz & -> & -> & _). intros Hi He.
      destruct (H2 _ _ Hz) as (v & Hv & ?). rewrite <- Hi in Hv. simplify_eq. lia.
    + apply supersede_lookup in Hx as (z & Hz & -> & -> & _). intros Hi He.
      destruct (H2 _ _ Hz) as (v & Hv & ?). rewrite Hi in Hv. simplify_eq. lia.
    + apply supersede_lookup in Hx as (x' & Hx & -> & -> & _).
      apply supersede_lookup in Hy as (y' & Hy & -> & -> & _). eauto.
  - intros i v e. rewrite lookup_insert_Some. intros Hv He.
    destruct (decide (i = id ∧ e = aw_epoch w + 1)%Z) as [[-> ->]|Hnew].
    { exists att. eexists. by rewrite lookup_insert_eq. }
    assert (∃ v', W !! i = Some v' ∧ (1 <= e <= aw_epoch v')%Z) as (v' & Hv' & He').
    { destruct Hv as [[<- <-]|[_ Hv]]; [|by exists v].
      exists w. split; [done|]. simpl in He.
      assert (e ≠ (aw_epoch w + 1)%Z) by (intros ->; by apply Hnew). lia. }
    destruct (H4 i v' e Hv' He') as (a & x & Hx & <- & <-).
    destruct (supersede_lookup_inv prior A a x Hx) as (y & Hy & Hw' & He'' & _).
    exists a, y. rewrite lookup_insert_ne; [done|]. intros ->.
    by apply Hfresh in Hy.
  - intros i v a. rewrite lookup_insert_Some. intros [[<- <-]|[Hi Hv]]; simpl.
    { intros [= <-]. eexists. by rewrite lookup_insert_eq. }
    intros Hc. destruct (H5 _ _ _ Hv Hc) as (x & Hx & <- & <-).
    destruct (supersede_lookup_inv prior A a x Hx) as (y & Hy & ? & ? & _).
    exists y. rewrite lookup_insert_ne; [done|]. intros ->. by apply Hfresh in Hy.
  - intros i v. rewrite lookup_insert_Some. intros [[<- <-]|[Hi Hv]]; simpl.
    { intros _. exists att. eexists. by rewrite lookup_insert_eq. }
    intros Hr. destruct (H6 _ _ Hv Hr) as (a & x & Hc & Hx & Hs).
    destruct (H5 _ _ _ Hv Hc) as (x' & Hx' & Hxi & _). simplify_eq.
    destruct (supersede_lookup_inv prior A a x Hx) as (y & Hy & ? & ? & Hsame).
    rewrite Hsame in Hy.
    + exists a, x. rewrite lookup_insert_ne; [done|]. intros ->. by apply Hfresh in Hy.
    + intros ->. apply Hi. symmetry. by apply (Hpw a x).
  - intros k l [-> |[Hl Ho]]%Hfrom; simpl.
    { eexists. by rewrite lookup_insert_eq. }
    destruct (H8 _ _ Hl) as (x & Hx & Hlive & He).
    destruct (supersede_lookup_inv prior A _ x Hx) as (y & Hy & _ & _ & Hsame).
    rewrite Hsame in Hy by congruence.
    exists x. rewrite lookup_insert_ne; [done|]. intros ->. by apply Hfresh in Hy.
Qed.

(** After a claim or a takeover, [prior] was the only attempt that could be
    running. *)
Lemma new_attempt_exclusive W A L L' id w att prior e :
  Exclusive (mkA W A L) → W !! id = Some w → A !! att = None →
  (∀ a, aw_status w = WRunning → aw_current w = Some a → prior = Some a) →
  Exclusive (mkA (<[id := mkAWi WRunning (Some att) e]> W)
                 (<[att := mkAAtt id RRunning e]> (supersede prior A)) L').
Proof.
  intros HX Hw Hatt Hp a x. cbn [a_wis a_atts]. rewrite lookup_insert_Some.
  intros [[<- <-]|[_ Hx]]; simpl.
  { intros _. eexists. by rewrite lookup_insert_eq. }
  apply supersede_lookup in Hx as (y & Hy & -> & _ & Hs). intros Hr.
  destruct (decide (prior = Some a)) as [->|Hpa]; [congruence|]. subst x.
  destruct (HX _ _ Hy Hr) as (v & Hv & Hst & Hc). exists v. simpl in Hv.
  rewrite lookup_insert_ne; [done|]. intros Hi. rewrite <- Hi in Hv. simplify_eq.
  by apply Hpa, Hp.
Qed.

Lemma claim_inv W A L L' id w att prior :
  Inv (mkA W A L) → W !! id = Some w →
  (aw_status w = WQueued ∨ aw_status w = WPaused) ∧ prior = None
  ∨ aw_status w = WRunning ∧ prior = aw_current w →
  A !! att = None → att ≠ "" →
  locks_change A id att (aw_epoch w + 1) prior L L' →
  Inv (mkA (<[id := mkAWi WRunning (Some att) (aw_epoch w + 1)]> W)
           (<[att := mkAAtt id RRunning (aw_epoch w + 1)]> (supersede prior A)) L').
Proof.
  intros HI Hw Hst Hatt Hne Hlc. eapply new_attempt_inv; eauto.
  intros p x Hp Hx. destruct Hst as [[_ ->]|[_ ->]]; [done|].
  destruct (inv_current _ HI _ _ _ Hw Hp) as (y & Hy & ? & _). simpl in Hy.
  by simplify_eq.
Qed.

Lemma takeover_epoch W A L id w p x :
  Inv (mkA W A L) → W !! id = Some w → A !! p = Some x → aa_wi x = id →
  epoch_free A id (aa_epoch x + 1) → aa_epoch x = aw_epoch w.
Proof.
  intros HI Hw Hx Hi Hfree.
  destruct (inv_owner _ HI _ _ Hx) as (v & Hv & Hle). simpl in Hv. rewrite Hi in Hv.
  simplify_eq. destruct (decide (aa_epoch x = aw_epoch w)) as [|Hlt]; [done|].
  destruct (inv_cover _ HI _ _ (aa_epoch x + 1) Hw) as (b & y & Hy & Hyi & Hye);
    [lia|]. by destruct (Hfree b y Hy).
Qed.

Lemma takeover_inv W A L L' id w att prior x :
  Inv (mkA W A L) → W !! id = Some w → A !! prior = Some x → aa_wi x = id →
  A !! att = None → att ≠ "" → epoch_free A id (aa_epoch x + 1) →
  locks_change A id att (aa_epoch x + 1) (Some prior) L L' →
  Inv (mkA (<[id := mkAWi WRunning (Some att) (aa_epoch x + 1)]> W)
           (<[att := mkAAtt id RRunning (aa_epoch x + 1)]> (supersede (Some prior) A))
           L').
Proof.
  intros HI Hw Hx Hi Hatt Hne Hfree Hlc.
  pose proof (takeover_epoch W A L id w prior x HI Hw Hx Hi Hfree) as He.
  rewrite He in *. eapply new_attempt_inv; eauto.
  intros p y [= ->] Hy. by simplify_eq/=.
Qed.

Lemma end_inv W A L L' id w att x wst rst :
  Inv (mkA W A L) → W !! id = Some w → aw_current w = Some att →
  A !! att = Some x → aa_status x = RRunning →
  (wst, rst) ∈ [(WWrapped, RWrapped); (WFailed, RFailed); (WPaused, RPaused)] →
  (∀ k l, L' !! k = Some l ↔
     L !! k = Some l ∧ (lk_owner l = att → rst = RPaused ∧ k.1 ≠ "file_scope")) →
  Inv (mkA (<[id := with_wstatus wst w]> W) (<[att := with_astatus rst x]> A) L').
Proof.
  intros HI Hw Hc Hx Hr Hst HL.
  assert (aa_wi x = id) as Hxi.
  { destruct (inv_current _ HI _ _ _ Hw Hc) as (y & Hy & ? & _). simpl in Hy.
    by simplify_eq. }
  assert (wst ≠ WRunning ∧ rst ≠ RRunning) as [Hwst Hrst].
  { rewrite !elem_of_cons, elem_of_nil in Hst. naive_solver. }
  destruct HI as [H0 H1 H2 H3 H4 H5 H6 H8]. cbn [a_wis a_atts a_locks] in *.
  assert (∀ a y, <[att := with_astatus rst x]> A !! a = Some y →
    ∃ z, A !! a = Some z ∧ aa_wi y = aa_wi z ∧ aa_epoch y = aa_epoch z
         ∧ (a = att ∧ aa_status y = rst ∨ a ≠ att ∧ y = z)) as HA.
  { intros a y [[<- <-]|[Hne Hy]]%lookup_insert_Some; [exists x; naive_solver|].
    exists y. naive_solver. }
  assert (∀ a z, A !! a = Some z → ∃ y, <[att := with_astatus rst x]> A !! a = Some y
    ∧ aa_wi y = aa_wi z ∧ aa_epoch y = aa_epoch z ∧ (a ≠ att → y = z)) as HA'.
  { intros a z Hz. destruct (decide (a = att)) as [->|Hne].
    - simplify_eq. eexists. by rewrite lookup_insert_eq.
    - exists z. by rewrite lookup_insert_ne. }
  assert (∀ i v, <[id := with_wstatus wst w]> W !! i = Some v →
    ∃ u, W !! i = Some u ∧ aw_current v = aw_current u ∧ aw_epoch v = aw_epoch u
         ∧ (i = id ∧ aw_status v = wst ∨ i ≠ id ∧ v = u)) as HW.
  { intros i v [[<- <-]|[Hne Hy]]%lookup_insert_Some; [exists w; naive_solver|].
    exists v. naive_solver. }
  assert (∀ i u, W !! i = Some u → ∃ v, <[id := with_wstatus wst w]> W !! i = Some v
    ∧ aw_epoch v = aw_epoch u ∧ (i ≠ id → v = u)) as HW'.
  { intros i u Hu. destruct (decide (i = id)) as [->|Hne].
    - simplify_eq. eexists. by rewrite lookup_insert_eq.
    - exists u. by rewrite lookup_insert_ne. }
  split; cbn [a_wis a_atts a_locks].
  - rewrite lookup_insert_ne; [done|]. intros ->. congruence.
  - intros i v (u & ? & _ & -> & _)%HW. eauto.
  - intros a y (z & Hz & -> & -> & _)%HA. destruct (H2 _ _ Hz) as (u & Hu & ?).
    destruct (HW' _ _ Hu) as (v & Hv & He & _). exists v. rewrite He. done.
  - intros a y b y' (z & Hz & -> & -> & _)%HA (z' & Hz' & -> & -> & _)%HA. eauto.
  - intros i v e (u & Hu & _ & -> & _)%HW He.
    destruct (H4 _ _ _ Hu He) as (a & z & Hz & <- & <-).
    destruct (HA' _ _ Hz) as (y & ? & ? & ? & _). by exists a, y.
  - intros i v a (u & Hu & -> & -> & _)%HW Ha.
    destruct (H5 _ _ _ Hu Ha) as (z & Hz & <- & <-).
    destruct (HA' _ _ Hz) as (y & ? & ? & ? & _). by exists y.
  - intros i v (u & Hu & -> & _ & Hv)%HW Hrun.
    destruct Hv as [[-> ?]|[Hne ->]]; [congruence|].
    destruct (H6 _ _ Hu Hrun) as (a & z & Hca & Hz & ?).
    destruct (H5 _ _ _ Hu Hca) as (z' & Hz' & Hzi & _). simplify_eq.
    destruct (HA' _ _ Hz) as (y & Hy & _ & _ & Hsame).
    exists a, y. rewrite Hsame in * by (intros ->; simplify_eq). done.
  - intros k l [Hl Ho]%HL. destruct (H8 _ _ Hl) as (z & Hz & Hlive & He).
    destruct (HA' _ _ Hz) as (y & Hy & _ & Hye & Hsame).
    exists y. split; [done|]. split; [|congruence].
    destruct (decide (lk_owner l = att)) as [E|Hne]; [|by rewrite Hsame].
    destruct (Ho E) as [-> _]. rewrite E, lookup_insert_eq in Hy. by simplify_eq.
Qed.

(** Ending the attempt together with its item keeps the others exclusive. *)
Lemma end_exclusive W A L L' id w att x wst rst :
  Exclusive (mkA W A L) → W !! id = Some w → aw_current w = Some att → rst ≠ RRunning →
  Exclusive (mkA (<[id := with_wstatus wst w]> W) (<[att := with_astatus rst x]> A) L').
Proof.
  intros HX Hw Hc Hrst a y. cbn [a_wis a_atts].
  intros [[<- <-]|[Hne Hy]]%lookup_insert_Some Hr; [done|].
  destruct (HX _ _ Hy Hr) as (v & Hv & ? & Hcv). simpl in Hv. exists v.
  rewrite lookup_insert_ne; [done|]. intros Hi. rewrite <- Hi in Hv. congruence.
Qed.

(** Status changes that do not start a run. *)
Lemma wi_status_inv W A L id w st :
  Inv (mkA W A L) → W !! id = Some w → st ≠ WRunning →
  Inv (mkA (<[id := with_wstatus st w]> W) A L).
Proof.
  intros [H0 H1 H2 H3 H4 H5 H6 H8] Hw Hst'. cbn [a_wis a_atts a_locks] in *.
  split; cbn [a_wis a_atts a_locks]; try done.
  - intros i v [[<- <-]|[_ ?]]%lookup_insert_Some; simpl; eauto.
  - intros a x Hx. destruct (H2 _ _ Hx) as (v & Hv & ?).
    destruct (decide (aa_wi x = id)) as [E|Hi].
    + rewrite E in *. exists (with_wstatus st w). rewrite lookup_insert_eq. by simplify_eq.
    + exists v. by rewrite lookup_insert_ne.
  - intros i v e [[<- <-]|[_ ?]]%lookup_insert_Some; simpl; eauto.
  - intros i v a [[<- <-]|[_ ?]]%lookup_insert_Some; simpl; eauto.
  - intros i v [[<- <-]|[_ ?]]%lookup_insert_Some; simpl; [done|eauto].
Qed.

Lemma wi_status_exclusive W A L id w st :
  Exclusive (mkA W A L) → W !! id = Some w → aw_status w ≠ WRunning →
  Exclusive (mkA (<[id := with_wstatus st w]> W) A L).
Proof.
  intros HX Hw Hst a x Hx Hr. destruct (HX _ _ Hx Hr) as (v & Hv & Hrun & ?).
  simpl in Hv. exists v. simpl. rewrite lookup_insert_ne; [done|]. intros Hi.
  rewrite <- Hi in Hv. congruence.
Qed.

Definition cancel_att (id : string) (x : AAtt) : AAtt :=
  if String.eqb (aa_wi x) id && aa_live x then with_astatus RCancelled x else x.

Lemma cancel_att_proj id x :
  aa_wi (cancel_att id x) = aa_wi x ∧ aa_epoch (cancel_att id x) = aa_epoch x
  ∧ (aa_wi x ≠ id → cancel_att id x = x)
  ∧ (aa_status (cancel_att id x) = RRunning →
     aa_wi x ≠ id ∧ aa_status x = RRunning).
Proof.
  unfold cancel_att, aa_live. destruct (String.eqb_spec (aa_wi x) id), x as [? []];
    simpl in *; naive_solver.
Qed.

Lemma cancel_inv W A L L' id w :
  Inv (mkA W A L) → W !! id = Some w →
  aw_status w ∈ [WQueued; WPaused; WBlocked] →
  (∀ k l, L' !! k = Some l ↔
     L !! k = Some l ∧ ∀ x, A !! lk_owner l = Some x → aa_wi x ≠ id) →
  Inv (mkA (<[id := with_wstatus WCancelled w]> W) (cancel_att id <$> A) L').
Proof.
  intros HI Hw Hst HL.
  assert (Inv (mkA (<[id := with_wstatus WCancelled w]> W) A L)) as HI'.
  { by apply wi_status_inv. }
  clear HI. destruct HI' as [H0 H1 H2 H3 H4 H5 H6 H8].
  cbn [a_wis a_atts a_locks] in *.
  set (W' := <[id := _]> W) in *.
  split; cbn [a_wis a_atts a_locks]; try done.
  - by rewrite lookup_fmap, H0.
  - intros a y (x & <- & Hx)%lookup_fmap_Some.
    destruct (cancel_att_proj id x) as (-> & -> & _). eauto.
  - intros a y b z (x & <- & Hx)%lookup_fmap_Some (x' & <- & Hx')%lookup_fmap_Some.
    destruct (cancel_att_proj id x) as (-> & -> & _).
    destruct (cancel_att_proj id x') as (-> & -> & _). eauto.
  - intros i v e Hv He. destruct (H4 _ _ _ Hv He) as (a & x & Hx & <- & <-).
    exists a, (cancel_att id x). rewrite lookup_fmap, Hx.
    destruct (cancel_att_proj id x) as (? & ? & _). done.
  - intros i v a Hv Ha. destruct (H5 _ _ _ Hv Ha) as (x & Hx & <- & <-).
    exists (cancel_att id x). rewrite lookup_fmap, Hx.
    destruct (cancel_att_proj id x) as (? & ? & _). done.
  - intros i v Hv Hr. destruct (H6 _ _ Hv Hr) as (a & x & Ha & Hx & Hs).
    destruct (H5 _ _ _ Hv Ha) as (x' & Hx' & Hi & _). simplify_eq.
    exists a, x. destruct (cancel_att_proj id x) as (_ & _ & Hsame & _).
    rewrite lookup_fmap, Hx. simpl. rewrite Hsame; [done|]. intros E. unfold W' in Hv.
    rewrite E, lookup_insert_eq in Hv. by simplify_eq.
  - intros k l [Hl Ho]%HL. destruct (H8 _ _ Hl) as (x & Hx & ? & ?).
    exists x. destruct (cancel_att_proj id x) as (_ & _ & Hsame & _).
    rewrite lookup_fmap, Hx. simpl. rewrite Hsame; eauto.
Qed.

Lemma cancel_exclusive W A L L' id w :
  Exclusive (mkA W A L) → W !! id = Some w →
  Exclusive (mkA (<[id := with_wstatus WCancelled w]> W) (cancel_att id <$> A) L').
Proof.
  intros HX Hw a y (x & <- & Hx)%lookup_fmap_Some Hr.
  destruct (cancel_att_proj id x) as (-> & _ & _ & Hs). apply Hs in Hr as [Hi Hr].
  destruct (HX _ _ Hx Hr) as (v & Hv & ?). exists v. simpl.
  by rewrite lookup_insert_ne.
Qed.

Lemma locks_inv W A L L' :
  Inv (mkA W A L) →
  (∀ k l, L' !! k = Some l → ∃ x, A !! lk_owner l = Some x ∧ aa_live x = true
                                  ∧ lk_epoch l = aa_epoch x) →
  Inv (mkA W A L').
Proof. intros [] HL. split; done. Qed.

Lemma create_inv W A L id st :
  Inv (mkA W A L) → W !! id = None → st = WQueued ∨ st = WBlocked →
  Inv (mkA (<[id := mkAWi st None 0]> W) A L).
Proof.
  intros [H0 H1 H2 H3 H4 H5 H6 H8] Hw Hst. cbn [a_wis a_atts a_locks] in *.
  split; cbn [a_wis a_atts a_locks]; try done.
  - intros i v [[<- <-]|[_ ?]]%lookup_insert_Some; simpl; eauto. lia.
  - intros a x Hx. destruct (H2 _ _ Hx) as (v & Hv & ?). exists v.
    rewrite lookup_insert_ne; [done|congruence].
  - intros i v e [[<- <-]|[_ ?]]%lookup_insert_Some; simpl; eauto. lia.
  - intros i v a [[<- <-]|[_ ?]]%lookup_insert_Some; simpl; [done|eauto].
  - intros i v [[<- <-]|[_ ?]]%lookup_insert_Some; simpl; [naive_solver|eauto].
Qed.

Lemma astep_inv m s s' : astep m s s' → Inv s → Inv s'.
Proof.
  destruct 1; intros HI.
  - eapply claim_inv; eauto.
  - eapply takeover_inv; eauto.
  - eapply end_inv; eauto.
  - eapply locks_inv; [done|]. intros k l Hl.
    destruct (lc_from _ _ _ _ _ _ _ H3 k l Hl) as [->|[Hl' _]]; simpl.
    + exists x. unfold aa_live. rewrite H2. done.
    + by apply (inv_locks _ HI k).
  - eapply cancel_inv; eauto.
  - by apply wi_status_inv.
  - by apply wi_status_inv.
  - by apply wi_status_inv.
  - eapply locks_inv; [done|]. intros k l [Hl _]%H. by apply (inv_locks _ HI k).
  - eapply locks_inv; [done|]. intros k l Hl. by apply (inv_locks _ HI k), H0.
  - by apply create_inv.
Qed.

(** Without escalations a running attempt stays the current one of its running
    item. *)
Lemma astep_exclusive m s s' :
  escalations m = false → Inv s → astep m s s' → Exclusive s → Exclusive s'.
Proof.
  intros Hm HI. destruct 1 as [W A L L' i w att prior Hw Hst Hatt|
    W A L L' i w att prior x _ Hw Hx Hi Hatt _ Hf|
    W A L L' i w att x wst rst Hw Hc Hx Hr Hst| |W A L L' i w Hw Hst|
    W A L i w Hw Hst|W A L i w Hw Hst|W A L i w He| | |W A L i st Hw _ Hst]; intros HX;
    try exact HX.
  - eapply new_attempt_exclusive; [done|done|done|]. intros a Hr Hc.
    destruct Hst as [[[]]|[_ ->]]; congruence.
  - eapply new_attempt_exclusive; [done|done|done|]. intros a Hr Hc.
    pose proof (takeover_epoch W A L i w prior x HI Hw Hx Hi Hf) as He.
    destruct (inv_current _ HI _ _ _ Hw Hc) as (z & Hz & ? & ?). simpl in Hz.
    f_equal. eapply (inv_unique _ HI prior x a z); simpl; congruence.
  - eapply end_exclusive; [done..|]. rewrite !elem_of_cons, elem_of_nil in Hst.
    naive_solver.
  - by apply (cancel_exclusive W A L).
  - by apply (wi_status_exclusive W A L); [..|congruence].
  - by apply (wi_status_exclusive W A L); [..|congruence].
  - congruence.
  - intros a x Hx Hr. destruct (HX _ _ Hx Hr) as (v & Hv & ?). simpl in Hv. exists v.
    simpl. rewrite lookup_insert_ne; [done|congruence].
Qed.

(** The empty installation satisfies the invariant. *)
Lemma Inv_empty : Inv (mkA ∅ ∅ ∅).
Proof. by split; cbn [a_wis a_atts a_locks]; setoid_rewrite lookup_empty. Qed.

(** ** Along an execution *)

Definition asteps (m : Mode) : relation AState := rtc (astep m).

Lemma asteps_mono m m' s s' : mode_le m m' → asteps m s s' → asteps m' s s'.
Proof.
  intros [Ht He]. apply rtc_subrel. intros x y H.
  destruct H; try (econstructor; eassumption);
    [eapply a_takeover|eapply a_escalate]; eauto.
Qed.

Lemma asteps_inv m s s' : asteps m s s' → Inv s → Inv s'.
Proof. induction 1; eauto using astep_inv. Qed.

Lemma asteps_exclusive m s s' :
  escalations m = false → Inv s → asteps m s s' → Exclusive s → Exclusive s'.
Proof.
  intros Hm HI H. induction H as [|s1 s2 s3 H1 H2 IH]; [done|]. intros HX.
  apply IH; [by eapply astep_inv|by eapply astep_exclusive].
Qed.

(** Attempts are never deleted and never change owner or fencing token; a
    work item's epoch never decreases. *)
Record grows (s s' : AState) : Prop := {
  gr_att a x : a_atts s !! a = Some x →
    ∃ x', a_atts s' !! a = Some x' ∧ aa_wi x' = aa_wi x ∧ aa_epoch x' = aa_epoch x;
  gr_wi id w : a_wis s !! id = Some w →
    ∃ w', a_wis s' !! id = Some w' ∧ (aw_epoch w <= aw_epoch w')%Z;
}.

#[export] Instance grows_preorder : PreOrder grows.
Proof.
  split.
  - intros s. split; [eauto|]. intros id w ?. exists w. split; [done|lia].
  - intros s1 s2 s3 [Ha Hw] [Ha' Hw']. split.
    + intros a x (y & Hy & <- & <-)%Ha. by apply Ha'.
    + intros id w (v & Hv & ?)%Hw. destruct (Hw' _ _ Hv) as (u & ? & ?).
      exists u. split; [done|lia].
Qed.

Lemma grows_new_attempt W A L L' id w att e prior :
  W !! id = Some w → (aw_epoch w <= e)%Z → A !! att = None →
  grows (mkA W A L)
    (mkA (<[id := mkAWi WRunning (Some att) e]> W)
         (<[att := mkAAtt id RRunning e]> (supersede prior A)) L').
Proof.
  intros Hw He Hatt. split; cbn [a_wis a_atts].
  - intros a x Hx. destruct (supersede_lookup_inv prior A a x Hx) as (y & ? & ? & ? & _).
    exists y. rewrite lookup_insert_ne; [done|congruence].
  - intros i v Hv. destruct (decide (i = id)) as [->|Hi].
    + eexists. rewrite lookup_insert_eq. split; [done|]. by simplify_eq/=.
    + exists v. rewrite lookup_insert_ne by done. split; [done|lia].
Qed.

Lemma grows_status W A A' L L' id w st :
  W !! id = Some w →
  (∀ a x, A !! a = Some x → ∃ x', A' !! a = Some x' ∧ aa_wi x' = aa_wi x
                                  ∧ aa_epoch x' = aa_epoch x) →
  grows (mkA W A L) (mkA (<[id := with_wstatus st w]> W) A' L').
Proof.
  intros Hw HA. split; cbn [a_wis a_atts]; [done|].
  intros i v Hv. destruct (decide (i = id)) as [->|Hi].
  - eexists. rewrite lookup_insert_eq. split; [done|]. simplify_eq/=. lia.
  - exists v. rewrite lookup_insert_ne by done. split; [done|lia].
Qed.

Lemma astep_grows m s s' : Inv s → astep m s s' → grows s s'.
Proof.
  intros HI. destruct 1.
  - eapply grows_new_attempt; eauto. lia.
  - eapply grows_new_attempt; eauto.
    rewrite (takeover_epoch W A L id w prior x) by done. lia.
  - apply grows_status; [done|]. intros a y Hy.
    destruct (decide (a = att)) as [->|Hne].
    + eexists. rewrite lookup_insert_eq. by simplify_eq.
    + exists y. by rewrite lookup_insert_ne.
  - split; [eauto|]. intros i v ?. exists v. split; [done|lia].
  - apply grows_status; [done|]. intros a y Hy. exists (cancel_att id y).
    rewrite lookup_fmap, Hy. destruct (cancel_att_proj id y) as (? & ? & _). done.
  - apply grows_status; eauto.
  - apply grows_status; eauto.
  - apply grows_status; eauto.
  - split; [eauto|]. intros i v ?. exists v. split; [done|lia].
  - split; [eauto|]. intros i v ?. exists v. split; [done|lia].
  - split; cbn [a_wis a_atts]; [eauto|]. intros i v Hv. exists v.
    rewrite lookup_insert_ne by congruence. split; [done|lia].
Qed.

Lemma asteps_grows m s s' : Inv s → asteps m s s' → grows s s'.
Proof.
  intros HI H. induction H as [|s1 s2 s3 H1 H2 IH]; [reflexivity|].
  transitivity s2; [by eapply astep_grows|]. apply IH. by eapply astep_inv.
Qed.

(** ** Consequences *)

(** Mutual exclusion: at any time at most one attempt of a work item is
    running, and it is the one the work item names, with the newest fencing
    token. *)
Lemma newest_running s a x b y :
  Inv s → Exclusive s → a_atts s !! a = Some x → a_atts s !! b = Some y →
  aa_status x = RRunning → aa_status y = RRunning → aa_wi x = aa_wi y →
  a = b ∧ ∀ c z, a_atts s !! c = Some z → aa_wi z = aa_wi x →
                 (aa_epoch z <= aa_epoch x)%Z.
Proof.
  intros HI HX Hx Hy Hrx Hry Hxy.
  destruct (HX _ _ Hx Hrx) as (w & Hw & _ & Hc).
  destruct (HX _ _ Hy Hry) as (v & Hv & _ & Hc').
  rewrite <- Hxy in Hv. simplify_eq. split; [done|].
  destruct (inv_current _ HI _ _ _ Hw Hc) as (x' & Hx' & _ & He). simplify_eq.
  intros c z Hz Hi. destruct (inv_owner _ HI _ _ Hz) as (u & Hu & ?).
  rewrite Hi in Hu. simplify_eq. lia.
Qed.

(** Once an attempt of a work item is not the newest, it never is again. *)
Lemma stale_forever s s' a x w :
  Inv s → Inv s' → grows s s' → a_atts s !! a = Some x → a_wis s !! aa_wi x = Some w →
  (aa_epoch x < aw_epoch w)%Z →
  ∃ x' w', a_atts s' !! a = Some x' ∧ aa_wi x' = aa_wi x
    ∧ a_wis s' !! aa_wi x = Some w' ∧ (aa_epoch x' < aw_epoch w')%Z
    ∧ aw_current w' ≠ Some a.
Proof.
  intros HI HI' [Ha Hg] Hx Hw Hlt.
  destruct (Ha _ _ Hx) as (x' & Hx' & Hi & He), (Hg _ _ Hw) as (w' & Hw' & Hle).
  exists x', w'. repeat split; try done; [lia|].
  intros Hc. destruct (inv_current _ HI' _ _ _ Hw' Hc) as (y & Hy & _ & ?).
  simplify_eq. lia.
Qed.

(** Without stale takeovers and escalations, a terminal work item stays as it
    is. *)
Lemma astep_terminal s s' id w :
  Inv s → Exclusive s → astep calm s s' → a_wis s !! id = Some w → wi_terminal (aw_status w) = true →
  a_wis s' !! id = Some w.
Proof.
  intros HI HX. destruct 1 as [W A L L' i v att prior Hv Hst| |
    W A L L' i v att x wst rst Hv Hc Hx Hr| |W A L L' i v Hv Hst|
    W A L i v Hv Hst|W A L i v Hv Hst| | | |W A L i st Hv];
    cbn [a_wis]; intros Hw Ht; try done;
    (rewrite lookup_insert_ne; [done|intros ->; simplify_eq]).
  - destruct Hst as [[[E|E] _]|[E _]]; by rewrite E in Ht.
  - destruct (inv_current _ HI _ _ _ Hv Hc) as (y & Hy & Hi & _).
    cbn [a_atts] in Hy. simplify_eq.
    destruct (HX _ _ Hx Hr) as (u & Hu & E & _).
    cbn [a_wis] in Hu. simplify_eq. by rewrite E in Ht.
  - rewrite !elem_of_cons, elem_of_nil in Hst.
    destruct Hst as [E|[E|[E|[]]]]; by rewrite E in Ht.
  - by rewrite Hst in Ht.
  - by rewrite Hst in Ht.
Qed.

Lemma asteps_terminal s s' id w :
  Inv s → Exclusive s → asteps calm s s' → a_wis s !! id = Some w → wi_terminal (aw_status w) = true →
  a_wis s' !! id = Some w.
Proof.
  intros HI HX H. induction H as [|s1 s2 s3 H1 H2 IH]; [done|]. intros Hw Ht.
  apply IH; [by eapply astep_inv|by eapply (astep_exclusive calm)|by eapply astep_terminal|done].
Qed.
