(* ===== verification/ResourceEvents.v ===== *)
(** * The lock table and its event record

    [internal/domain/resource_events.go]: every statement that writes
    [resource_locks], each with the [lock_acquired] / [lock_released] events it
    emits under a savepoint. *)

From S2P Require Import Prelude GoStrings Errors Json Declared Locks Store TxLogic.
From stdpp Require Import pretty.


Definition jint (z : Z) : json := JNum (pretty z).
Definition nilIfEmpty (s : string) : option string :=
  if String.eqb s "" then None else Some s.

(** ** Operations and rows *)

Record lockEventActor : Type := mkActor { act_user : string; act_display : string }.

Record lockOpCtx : Type := mkOp {
  op_cause : string;
  op_actor : lockEventActor;
  op_id : string;
  op_extra : jobj;
}.

(** [newLockOp]; [id] is the operation id [NewID] draws. *)
Definition newLockOp (id cause : string) (actor : lockEventActor) : lockOpCtx :=
  mkOp cause actor id [].

(** Later members win, as in the merged Go map. *)
Definition withExtra (kv : jobj) (op : lockOpCtx) : lockOpCtx :=
  mkOp (op_cause op) (op_actor op) (op_id op) (op_extra op ++ kv).

Definition withCause (cause : string) (op : lockOpCtx) : lockOpCtx :=
  mkOp cause (op_actor op) (op_id op) (op_extra op).

Record lockRow : Type := mkRow {
  ResourceType : string;
  ResourceKey : string;
  AttemptID : string;
  ClaimEpoch : Z;
  WorkItemID : string;
  Project : string;
}.

(** ** Events *)

Record resourceEvent : Type := mkREvent {
  re_type : string;
  re_wi : string;
  re_attempt : string;
  re_project : string;
  re_actor : lockEventActor;
  re_payload : jobj;
}.

Definition lockEventPayload (row : lockRow) (op : lockOpCtx) : jobj :=
  [ ("resource_type", JStr (ResourceType row));
    ("resource_key", JStr (ResourceKey row));
    ("attempt_id", JStr (AttemptID row));
    ("claim_epoch", jint (ClaimEpoch row));
    ("cause", JStr (op_cause op));
    ("op_id", JStr (op_id op)) ]
  ++ (if String.eqb (act_display (op_actor op)) "" then []
      else [("actor_display", JStr (act_display (op_actor op)))])
  ++ (if String.eqb (act_user (op_actor op)) "" then []
      else [("actor_user_id", JStr (act_user (op_actor op)))])
  ++ op_extra op.

Definition lockEventFor (eventType : string) (row : lockRow) (op : lockOpCtx)
  : resourceEvent :=
  mkREvent eventType (WorkItemID row) (AttemptID row) (Project row)
    (op_actor op) (lockEventPayload row op).

(** The rows of one batch; an event without a work item is dropped. *)
Definition resource_event_rows (evs : list resourceEvent) : list Event :=
  omap (λ ev,
    if String.eqb (re_wi ev) "" then None
    else Some (mkEvent (re_type ev) (re_wi ev) (nilIfEmpty (re_attempt ev))
                 (nilIfEmpty (act_user (re_actor ev))) (act_display (re_actor ev))
                 (re_payload ev) (nilIfEmpty (re_project ev)))) evs.

Definition emitResourceEventBatch (evs : list resourceEvent) : Tx unit :=
  match resource_event_rows evs with
  | [] => tret tt
  | rows => emit rows
  end.

Definition resourceEventBatchMax : nat := Z.to_nat 2000.

(** The loop that cuts the slice into batches; each pass shortens it. *)
Fixpoint emit_batches (fuel : nat) (evs : list resourceEvent) : Tx unit :=
  match fuel, evs with
  | S fuel, _ :: _ =>
      tbind (emitResourceEventBatch (take resourceEventBatchMax evs))
        (λ _, emit_batches fuel (drop resourceEventBatchMax evs))
  | _, _ => tret tt
  end.

Definition emitResourceEvents (evs : list resourceEvent) : Tx unit :=
  emit_batches (length evs) evs.

Definition emitLockEvent (eventType : string) (row : lockRow) (op : lockOpCtx)
  : Tx unit :=
  emitResourceEvents [lockEventFor eventType row op].

Definition emitLockEvents (eventType : string) (rows : list lockRow)
  (op : lockOpCtx) : Tx unit :=
  emitResourceEvents ((λ r, lockEventFor eventType r op) <$> rows).

(** ** Releasing *)

(** [SELECT ... FROM run_attempts ra LEFT JOIN work_items wi], coalesced. *)
Definition attempt_wi (c : Core) (att : string) : string :=
  match run_attempts c !! att with Some ra => ra_wi ra | None => "" end.
Definition attempt_project (c : Core) (att : string) : string :=
  match work_items c !! attempt_wi c att with
  | Some w => wi_project w
  | None => ""
  end.

Definition lock_row (c : Core) (k : string * string) (l : LockRow) : lockRow :=
  mkRow k.1 k.2 (lk_owner l) (lk_epoch l)
    (attempt_wi c (lk_owner l)) (attempt_project c (lk_owner l)).

(** The WHERE clause of a DELETE, over a lock row. *)
Definition LockSel : Type := Core → string * string → LockRow → bool.

Definition deleted_locks (sel : LockSel) (c : Core)
  : gmap (string * string) LockRow :=
  filter (λ kv, sel c kv.1 kv.2 = true) (resource_locks c).
Definition kept_locks (sel : LockSel) (c : Core)
  : gmap (string * string) LockRow :=
  filter (λ kv, sel c kv.1 kv.2 = false) (resource_locks c).

Definition lockDeleteReporting (sel : LockSel) (c : Core)
  : result DbErr (list lockRow * Core) :=
  inr ((λ kv, lock_row c kv.1 kv.2) <$> map_to_list (deleted_locks sel c),
       set_locks (kept_locks sel c) c).

Definition lockDeleteByAttempt (att : string) : LockSel :=
  λ _ _ l, String.eqb (lk_owner l) att.
Definition lockDeleteByKey (typ key : string) : LockSel :=
  λ _ k _, String.eqb k.1 typ && String.eqb k.2 key.
Definition acquireLocksReleasePaused (att : string) : LockSel :=
  λ _ k l, String.eqb (lk_owner l) att && String.eqb k.1 "file_scope".
Definition releaseCancelledWILocks (wi : string) : LockSel :=
  λ c _ l, match run_attempts c !! lk_owner l with
           | Some ra => String.eqb (ra_wi ra) wi
           | None => false
           end.
(** [keys] are compared exactly, [patterns] with LIKE. *)
Definition releaseUndeclaredLocks (wi : string) (keys patterns : list string)
  : LockSel :=
  λ c k l, match run_attempts c !! lk_owner l with
           | Some ra =>
               String.eqb (ra_wi ra) wi && String.eqb k.1 "file_scope"
               && (existsb (String.eqb k.2) keys || existsb (like k.2) patterns)
           | None => false
           end.

(** The owner attempt of a lock still holds it. *)
Definition lock_live (c : Core) (l : LockRow) : bool :=
  match run_attempts c !! lk_owner l with
  | Some ra => ra_live (ra_status ra)
  | None => false
  end.
Definition orphanLockSweep : LockSel := λ c _ l, negb (lock_live c l).

Definition releaseLocks (sel : LockSel) (op : lockOpCtx)
  : Tx (result DbErr (list lockRow)) :=
  tbind (stmt (lockDeleteReporting sel)) (λ r,
    match r with
    | inl e => tret (inl e)
    | inr released =>
        tbind (emitLockEvents "lock_released" released op)
          (λ _, tret (inr released))
    end).

(** ** Acquiring *)

(** The owner is live and works on another work item. *)
Definition foreign_live (c : Core) (wi : string) (l : LockRow) : bool :=
  match run_attempts c !! lk_owner l with
  | Some ra => ra_live (ra_status ra) && negb (String.eqb (ra_wi ra) wi)
  | None => false
  end.

(** Constraints of an inserted row: the type CHECK and the owner FK. *)
Definition lock_row_check (c : Core) (typ att : string) : result DbErr unit :=
  if negb (resourceLockTypes typ) then inl (PgError pgCheckViolation)
  else match run_attempts c !! att with
       | None => inl (PgError pgForeignKeyViolation)
       | Some _ => inr tt
       end.

(** The prior owner and its epoch ([("", 0)] when the key was free). *)
Definition lockUpsert (typ key att : string) (epoch : Z) (wi : string) (c : Core)
  : result DbErr ((string * Z) * Core) :=
  let put := set_locks (<[(typ, key) := mkLock att epoch]> (resource_locks c)) c in
  rbind (lock_row_check c typ att) (λ _,
    match resource_locks c !! (typ, key) with
    | None => inr (("", 0%Z), put)
    | Some l =>
        if foreign_live c wi l then inl NoRows
        else inr ((lk_owner l, lk_epoch l), put)
    end).

(** The same statement under READ COMMITTED, with a commit by others inside it:
    the row it meets is the one committed last, in [c], while the condition on
    the owner and the prior row are read in the snapshot [snap] the statement
    began with.  [lockUpsert] is the case without such a commit. *)
Definition lockUpsert_window (typ key att : string) (epoch : Z) (wi : string)
  (snap c : Core) : result DbErr ((string * Z) * Core) :=
  let put := set_locks (<[(typ, key) := mkLock att epoch]> (resource_locks c)) c in
  rbind (lock_row_check c typ att) (λ _,
    match resource_locks c !! (typ, key) with
    | None => inr (("", 0%Z), put)
    | Some l =>
        if foreign_live snap wi l then inl NoRows
        else inr (match resource_locks snap !! (typ, key) with
                  | Some p => (lk_owner p, lk_epoch p)
                  | None => ("", 0%Z)
                  end, put)
    end).

(** Why a lock was not taken: refused, with the holder, or a database error. *)
Inductive LockErr : Type :=
  | lockHeldByOtherWIError (owner actor_display work_item_slug : string)
  | LockDbErr (e : DbErr).

(** [JOIN run_attempts], the slug coalesced. *)
Definition lockHolderLookup (typ key wi : string) (c : Core)
  : result DbErr (string * string * string) :=
  match resource_locks c !! (typ, key) with
  | Some l =>
      match run_attempts c !! lk_owner l with
      | Some ra =>
          if foreign_live c wi l then
            inr (lk_owner l, ra_display ra,
                 match work_items c !! ra_wi ra with
                 | Some w => wi_slug w | None => "" end)
          else inl NoRows
      | None => inl NoRows
      end
  | None => inl NoRows
  end.

Definition lockRefusalFor (typ key wi : string) : Tx LockErr :=
  tbind (query (lockHolderLookup typ key wi)) (λ r,
    match r with
    | inr (owner, display, slug) =>
        tret (lockHeldByOtherWIError owner display slug)
    | inl _ => tret (lockHeldByOtherWIError "" "" "")
    end).

(** The lookup that resolves the displaced owner's work item and project. *)
Definition priorOwnerLookup (att : string) (c : Core)
  : result DbErr (string * string) :=
  match run_attempts c !! att with
  | None => inl NoRows
  | Some _ => inr (attempt_wi c att, attempt_project c att)
  end.

Definition acquireLockUpsert (typ key att : string) (epoch : Z)
  (project wi : string) (op : lockOpCtx) : Tx (result LockErr lockRow) :=
  tbind (stmt (lockUpsert typ key att epoch wi)) (λ r,
    match r with
    | inl NoRows => tbind (lockRefusalFor typ key wi) (λ e, tret (inl e))
    | inl e => tret (inl (LockDbErr e))
    | inr (priorAttempt, priorEpoch) =>
        let got := mkRow typ key att epoch wi project in
        if negb (String.eqb priorAttempt "") && negb (String.eqb priorAttempt att)
        then
          tbind (query (priorOwnerLookup priorAttempt)) (λ p,
            let '(pwi, pproj) :=
              match p with inr x => x | inl _ => ("", "") end in
            let prior := mkRow typ key priorAttempt priorEpoch pwi pproj in
            let displaced :=
              withCause "owner_replaced"
                (withExtra [("replaced_by_attempt_id", JStr att);
                            ("replaced_cause", JStr (op_cause op))] op) in
            tbind (emitLockEvent "lock_released" prior displaced) (λ _,
              tbind (emitLockEvent "lock_acquired" got
                       (withExtra [("replaced_prior_owner", JStr priorAttempt)] op))
                (λ _, tret (inr got))))
        else tbind (emitLockEvent "lock_acquired" got op) (λ _, tret (inr got))
    end).

(** [ON CONFLICT DO NOTHING]: no row comes back when the key is taken. *)
Definition acquireLocksInsert (typ key att : string) (epoch : Z) (c : Core)
  : result DbErr (unit * Core) :=
  rbind (lock_row_check c typ att) (λ _,
    match resource_locks c !! (typ, key) with
    | Some _ => inl NoRows
    | None =>
        inr (tt, set_locks (<[(typ, key) := mkLock att epoch]> (resource_locks c)) c)
    end).

Definition acquireLockIfFree (typ key att : string) (epoch : Z)
  (project wi : string) (op : lockOpCtx) : Tx (result DbErr bool) :=
  tbind (stmt (acquireLocksInsert typ key att epoch)) (λ r,
    match r with
    | inl NoRows => tret (inr false)
    | inl e => tret (inl e)
    | inr _ =>
        tbind (emitLockEvent "lock_acquired" (mkRow typ key att epoch wi project) op)
          (λ _, tret (inr true))
    end).

(** [lockTakenErrFor] *)
Definition lockTakenErrFor (e : LockErr) : option AihubError :=
  match e with
  | lockHeldByOtherWIError owner display slug =>
      Some (NewErrDetails ErrConflictLockTaken (DConflictWith owner display slug))
  | LockDbErr _ => None
  end.

(** ** Instances and specifications *)

#[export] Instance emit_batches_robust n evs : Robust (emit_batches n evs).
Proof.
  revert evs. induction n as [|n IH]; intros [|ev evs]; try apply _. simpl.
  apply tbind_robust; [|intros; apply IH].
  unfold emitResourceEventBatch. destruct (resource_event_rows _); apply _.
Qed.
#[export] Instance emitLockEvent_robust t row op : Robust (emitLockEvent t row op).
Proof. apply emit_batches_robust. Qed.
#[export] Instance emitLockEvents_robust t rows op : Robust (emitLockEvents t rows op).
Proof. apply emit_batches_robust. Qed.
#[export] Instance releaseLocks_robust sel op : Robust (releaseLocks sel op).
Proof. unfold releaseLocks. solve_robust. Qed.
#[export] Instance lockRefusalFor_robust t k wi : Robust (lockRefusalFor t k wi).
Proof. unfold lockRefusalFor. solve_robust. Qed.
#[export] Instance acquireLockUpsert_robust t k att e p wi op :
  Robust (acquireLockUpsert t k att e p wi op).
Proof. unfold acquireLockUpsert. solve_robust. Qed.
#[export] Instance acquireLockIfFree_robust t k att e p wi op :
  Robust (acquireLockIfFree t k att e p wi op).
Proof. unfold acquireLockIfFree. solve_robust. Qed.

(** Emission never touches the tables. *)
Lemma wp_emit_batches n evs (Post : post unit) c :
  Post (inr tt) (VActive c) → wp (emit_batches n evs) Post (VActive c).
Proof.
  revert evs. induction n as [|n IH]; intros [|ev evs] H; try by apply wp_ret. simpl.
  apply wp_bind. unfold emitResourceEventBatch.
  destruct (resource_event_rows _); [apply wp_ret|apply wp_emit]; by apply IH.
Qed.

Lemma triple_emit_batches n evs (Q : unit → Core → Prop) c :
  Q tt c → triple (emit_batches n evs) Q c.
Proof. intros H. by apply wp_emit_batches. Qed.

Lemma triple_emit_then {A} n evs (k : unit → Tx A)
  (Q : A → Core → Prop) c :
  (∀ a, Robust (k a)) → triple (k tt) Q c → triple (tbind (emit_batches n evs) k) Q c.
Proof.
  intros ? Hk. tstep (λ _ c', c' = c);
    [by apply triple_emit_batches|]. by intros [] c' ->.
Qed.

(** The rows a release deletes and reports are those its statement selects. *)
Lemma releaseLocks_spec sel op (Q : result DbErr (list lockRow) → Core → Prop) c :
  Q (inr ((λ kv, lock_row c kv.1 kv.2) <$> map_to_list (deleted_locks sel c)))
    (set_locks (kept_locks sel c) c) →
  triple (releaseLocks sel op) Q c.
Proof.
  intros HQ. tstep (λ r c',
    r = inr ((λ kv, lock_row c kv.1 kv.2) <$> map_to_list (deleted_locks sel c))
    ∧ c' = set_locks (kept_locks sel c) c).
  - apply triple_stmt; unfold lockDeleteReporting; [done|naive_solver].
  - intros r c' [-> ->]. apply triple_emit_then; [robust|]. by apply triple_ret.
Qed.

(** What the upsert does to the tables. *)
Definition upsert_post (typ key att : string) (epoch : Z) (wi project : string)
  (c : Core) (r : result LockErr lockRow) (c' : Core) : Prop :=
  match r with
  | inr row =>
      row = mkRow typ key att epoch wi project
      ∧ c' = set_locks (<[(typ, key) := mkLock att epoch]> (resource_locks c)) c
      ∧ resourceLockTypes typ = true ∧ is_Some (run_attempts c !! att)
      ∧ ∀ l, resource_locks c !! (typ, key) = Some l → foreign_live c wi l = false
  | inl (lockHeldByOtherWIError _ _ _) =>
      c' = c ∧ ∃ l, resource_locks c !! (typ, key) = Some l
                    ∧ foreign_live c wi l = true
  | inl (LockDbErr _) => False
  end.

Lemma lock_row_check_ok c typ att u :
  lock_row_check c typ att = inr u →
  resourceLockTypes typ = true ∧ is_Some (run_attempts c !! att).
Proof.
  unfold lock_row_check. destruct (resourceLockTypes typ); [|done].
  destruct (run_attempts c !! att); naive_solver.
Qed.

Lemma acquireLockUpsert_spec typ key att epoch project wi op c :
  triple (acquireLockUpsert typ key att epoch project wi op)
    (upsert_post typ key att epoch wi project c) c.
Proof.
  tstep (λ r c', match r with
    | inl NoRows => c' = c ∧ ∃ l, resource_locks c !! (typ, key) = Some l
                                  ∧ foreign_live c wi l = true
    | inl _ => False
    | inr _ => upsert_post typ key att epoch wi project c
                 (inr (mkRow typ key att epoch wi project)) c' end).
  - apply triple_stmt; unfold lockUpsert, upsert_post;
      (destruct (lock_row_check c typ att) as [e|u] eqn:E; simpl;
       [unfold lock_row_check in E; break_all E
       |apply lock_row_check_ok in E as [??];
        destruct (resource_locks c !! (typ, key)) as [l|] eqn:El;
        [destruct (foreign_live c wi l) eqn:Ef|]]); naive_solver.
  - intros [e|[pa pe]] c' H.
    + destruct e; try done. destruct H as [-> H].
      tstep (λ r c', c' = c ∧ match r with
         lockHeldByOtherWIError _ _ _ => True | _ => False end).
      * unfold lockRefusalFor.
        tstep (λ _ c', c' = c); [by apply triple_query|].
        intros r c' ->. destruct r as [|[[??]?]]; by apply triple_ret.
      * intros r c' [-> Hr]. apply triple_ret. by destruct r.
    + destruct (negb (String.eqb pa "") && negb (String.eqb pa att)).
      * tstep (λ _ c'', c'' = c'); [by apply triple_query|].
        intros p c'' ->.
        destruct (match p with inr x => x | inl _ => ("", "") end) as [pwi pproj].
        do 2 (apply triple_emit_then; [robust|]). by apply triple_ret.
      * apply triple_emit_then; [robust|]. by apply triple_ret.
Qed.

Lemma acquireLockIfFree_spec typ key att epoch project wi op c :
  triple (acquireLockIfFree typ key att epoch project wi op)
    (λ r c', match r with
       | inr true =>
           c' = set_locks (<[(typ, key) := mkLock att epoch]> (resource_locks c)) c
           ∧ resource_locks c !! (typ, key) = None
           ∧ is_Some (run_attempts c !! att)
       | inr false => c' = c ∧ is_Some (resource_locks c !! (typ, key))
       | inl _ => False
       end) c.
Proof.
  tstep (λ r c', match r with
    | inl NoRows => c' = c ∧ is_Some (resource_locks c !! (typ, key))
    | inl _ => False
    | inr _ =>
        c' = set_locks (<[(typ, key) := mkLock att epoch]> (resource_locks c)) c
        ∧ resource_locks c !! (typ, key) = None
        ∧ is_Some (run_attempts c !! att) end).
  - apply triple_stmt; unfold acquireLocksInsert;
      (destruct (lock_row_check c typ att) as [e|u] eqn:E; simpl;
       [unfold lock_row_check in E; break_all E
       |apply lock_row_check_ok in E as [??];
        destruct (resource_locks c !! (typ, key)) eqn:El]); naive_solver.
  - intros [e|u] c' H.
    + destruct e; try done. by apply triple_ret.
    + apply triple_emit_then; [robust|]. by apply triple_ret.
Qed.

(** A free key is taken by an attempt that exists. *)
Lemma acquireLockIfFree_total typ key att epoch project wi op
  (Post : post (result DbErr bool)) c :
  resourceLockTypes typ = true → is_Some (run_attempts c !! att) →
  resource_locks c !! (typ, key) = None →
  Post (inr (inr true))
    (VActive (set_locks (<[(typ, key) := mkLock att epoch]> (resource_locks c)) c)) →
  wp (acquireLockIfFree typ key att epoch project wi op) Post (VActive c).
Proof.
  intros Ht [a Ha] Hk HP. apply wp_bind, wp_stmt.
  unfold acquireLocksInsert, lock_row_check. rewrite Ht, Ha, Hk. simpl.
  apply wp_bind, wp_emit_batches. by apply wp_ret.
Qed.
