(* ===== verification/Attempts.v ===== *)
(** * Attempts: the parts the lifecycle handlers share

    Row lookups, the credential check, the foreign-holder probe, requeueing of
    dependents and forced step termination
    ([internal/domain/run_attempts.go], [dependencies.go], [work_items.go]). *)

From S2P Require Import Prelude GoStrings Errors Json Crypto Declared Locks Store.
From S2P Require Import TxLogic ResourceEvents.
From stdpp Require Import sorting.

(** What a handler takes from its environment: the clock (nanoseconds; one
    reading per request) and the ids [NewID] draws. *)
Record Ctx : Type := mkCtx {
  cx_now : Z;
  cx_attempt : string;   (* NewID("ra") *)
  cx_sc : string;        (* NewID("sc") *)
  cx_op1 : string;       (* NewID("lop"), first lock operation *)
  cx_op2 : string;       (* NewID("lop"), second lock operation *)
  cx_scan : option nat;  (* the row, if any, whose Scan fails in a best-effort drain *)
}.

(** ** Reading rows *)

Definition wi_matches (key : string) (kv : string * WorkItem) : bool :=
  String.eqb kv.1 key || String.eqb (wi_slug kv.2) key.

(** [WHERE (id = $1 OR slug = $1)], first row; slugs are unique. *)
Definition select_wi (key : string) (c : Core) : result DbErr WorkItem :=
  match List.find (wi_matches key) (map_to_list (work_items c)) with
  | Some (_, w) => inr w
  | None => inl NoRows
  end.

Definition select_wi_by_id (id : string) (c : Core) : result DbErr WorkItem :=
  match work_items c !! id with Some w => inr w | None => inl NoRows end.

Definition select_attempt (id : string) (c : Core) : result DbErr RunAttempt :=
  match run_attempts c !! id with Some a => inr a | None => inl NoRows end.

Definition select_step (wi : string) (c : Core) : result DbErr StepState :=
  match wi_step_state c !! wi with Some s => inr s | None => inl NoRows end.

(** [UPDATE ... WHERE id = $n]: no row, no effect, no error. *)
Definition update_wi (id : string) (f : WorkItem → WorkItem) (c : Core)
  : result DbErr Core := inr (set_work_items (alter f id) c).
Definition update_attempt (id : string) (f : RunAttempt → RunAttempt) (c : Core)
  : result DbErr Core := inr (set_run_attempts (alter f id) c).

(** The payload is a [jsonb] parameter. *)
Definition insert_event (e : Event) (c : Core) : result DbErr Core :=
  if has_nul (JObj (ev_payload e)) then inl (PgError pgUntranslatableCharacter)
  else inr (add_event e c).

Lemma insert_event_inr e c c' : insert_event e c = inr c' → c' = add_event e c.
Proof. unfold insert_event. destruct (has_nul _); by intros [= <-]. Qed.

Lemma insert_event_some e c : insert_event e c ≠ inl NoRows.
Proof. unfold insert_event. by destruct (has_nul _). Qed.

(** ** The credential check *)

(** Only a [Scan] of a row whose status is 'superseded' fills the details. *)
Definition supersededByDetails (callerAttempt : string) (current : option string)
  : Tx Details :=
  tbind (query (select_attempt callerAttempt)) (λ r,
    match r with
    | inr a =>
        if decide (ra_status a = RSuperseded) then
          match current with
          | Some cur =>
              tbind (query (select_attempt cur)) (λ r',
                tret (DSupersededBy (match r' with
                                     | inr a' => Some (ra_display a')
                                     | inl _ => None end)))
          | None => tret (DSupersededBy None)
          end
        else tret NoDetails
    | inl _ => tret NoDetails
    end).

(** The decision on a loaded attempt row: epoch, secret, status. *)
Definition credential_verdict (a : RunAttempt) (claimEpoch : Z) (secret : string)
  : result AihubError unit :=
  if negb (Z.eqb (ra_epoch a) claimEpoch) then
    Err (NewErr ErrConflictEpochMismatch)
  else match DecodeString (ra_secret_hash a) with
  | None => Err (NewErr ErrStaleCredential)
  | Some stored =>
      match DecodeString (HashSecret secret) with
      | None => Err (NewErr ErrInternalError)
      | Some computed =>
          if negb (ConstantTimeCompare stored computed) then
            Err (NewErr ErrAttemptMismatch)
          else match ra_status a with
               | RRunning => Ok tt
               | RPaused => Err (NewErr ErrAttemptPaused)
               | _ => Err (NewErr ErrAttemptMismatch)
               end
      end
  end.

Definition verifyAttemptCredential (cx : Ctx) (w : WorkItem) (attempt : string)
  (claimEpoch : Z) (secret : string) : Tx unit :=
  if negb (bool_decide (wi_current w = Some attempt)) then
    tbind (supersededByDetails attempt (wi_current w)) (λ d,
      tthrow (NewErrDetails ErrConflictEpochMismatch d))
  else
    tbind (query (select_attempt attempt)) (λ r,
      match r with
      | inl NoRows => tthrow (NewErr ErrNotFound)
      | inl e => tthrow (dbErr e)
      | inr a =>
          match credential_verdict a claimEpoch secret with
          | inl e => tthrow e
          | inr _ =>
              bestEffortExec (update_attempt attempt (ra_with_heartbeat (cx_now cx)))
          end
      end).

(** ** Locks held by somebody else *)

(** [acquireLocksCollisionSQL], with [AND ra.work_item_id != $4] when [wi] is
    given.  The statement has no ORDER BY; the model takes the first row of
    the table's list. *)
Definition collides (c : Core) (typ : string) (p : lockConflictProbe)
  (wi : option string) (kv : (string * string) * LockRow) : bool :=
  String.eqb kv.1.1 typ && sql_key_conflicts p kv.1.2
  && match run_attempts c !! lk_owner kv.2 with
     | Some a =>
         ra_live (ra_status a)
         && bool_decide (is_Some (work_items c !! ra_wi a))
         && match wi with
            | Some wi => negb (String.eqb (ra_wi a) wi)
            | None => true
            end
     | None => false
     end.

Definition select_collision (typ : string) (p : lockConflictProbe)
  (wi : option string) (c : Core) : result DbErr (string * string * string) :=
  match List.find (collides c typ p wi) (map_to_list (resource_locks c)) with
  | Some (_, l) =>
      inr (lk_owner l,
           match run_attempts c !! lk_owner l with
           | Some a => ra_display a | None => "" end,
           match work_items c !! attempt_wi c (lk_owner l) with
           | Some w => wi_slug w | None => "" end)
  | None => inl NoRows
  end.

Fixpoint probeForeignLockHolders (wi : string) (locks : list ResourceLockReq)
  (probes : list lockConflictProbe) : Tx unit :=
  match locks, probes with
  | [], _ => tret tt
  | _ :: _, [] => tthrow (NewErr ErrInternalError)
  | l :: locks, p :: probes =>
      tbind (query (select_collision (req_resource_type l) p (Some wi))) (λ r,
        match r with
        | inr (owner, display, slug) =>
            tthrow (NewErrDetails ErrConflictLockTaken
                      (DConflictWith owner display slug))
        | inl NoRows => probeForeignLockHolders wi locks probes
        | inl e => tthrow (dbErrCause e)
        end)
  end.

(** ** Dependents *)

Definition dep_rows (c : Core) : list (string * string * string) :=
  (map_to_list (wi_dependencies c)).*1.

(** The NOT EXISTS subquery: a blocker of [blocked], other than [exclude],
    that is not terminal. *)
Definition open_blocker (c : Core) (blocked exclude : string) : bool :=
  existsb (λ d,
    String.eqb d.1.1 blocked && String.eqb d.2 "blocks"
    && (String.eqb exclude "" || negb (String.eqb d.1.2 exclude))
    && match work_items c !! d.1.2 with
       | Some w => negb (wi_terminal (wi_status w))
       | None => false
       end) (dep_rows c).

(** [tag.RowsAffected() == 1] *)
Definition requeueIfUnblocked (now : Z) (blocked exclude : string) (c : Core)
  : result DbErr (bool * Core) :=
  match work_items c !! blocked with
  | Some w =>
      if bool_decide (wi_status w = WBlocked) && negb (open_blocker c blocked exclude)
      then inr (true, set_work_items (alter (wi_with_status now WQueued) blocked) c)
      else inr (false, c)
  | None => inr (false, c)
  end.

Definition emitWIUnblockedEvent (wi project : string) (payload : jobj) : Tx unit :=
  emit [mkEvent "wi_unblocked" wi None None "" payload (Some project)].

Definition string_le (a b : string) : Prop := Is_true (String.leb a b).
#[export] Instance string_le_dec : RelDecision string_le.
Proof. intros a b. unfold string_le. apply _. Defined.

(** The dependents that are 'blocked' on [wi], locked in id order. *)
Definition blocked_dependents (wi : string) (c : Core) : list string :=
  merge_sort string_le
    (filter (λ id, Is_true
       (existsb (λ d, String.eqb d.1.1 id && String.eqb d.1.2 wi
                      && String.eqb d.2 "blocks") (dep_rows c)))
      (map_to_list (filter (λ kw : string * WorkItem, wi_status kw.2 = WBlocked)
                      (work_items c))).*1).

Definition unblock_one (now : Z) (wi project blocked : string) : Tx unit :=
  tbind (stmt (requeueIfUnblocked now blocked wi)) (λ r,
    match r with
    | inl e => throw_opt (retryConflictErr e)
    | inr true =>
        emitWIUnblockedEvent blocked project [("unblocked_by_wi", JStr wi)]
    | inr false => tret tt
    end).

(** Draining a result set whose Scan errors are skipped: a failed Scan poisons
    the rows, so the loop stops there and [rows.Err()] is not nil, while the
    transaction stays usable.  The rows collected, and whether all were. *)
Definition drain {A} (scan : option nat) (rows : list A) : list A * bool :=
  match scan with
  | Some n => if Nat.ltb n (List.length rows) then (take n rows, false) else (rows, true)
  | None => (rows, true)
  end.

(** Rows that do not scan leave every dependent as it is. *)
Definition unblockDependentWI (cx : Ctx) (wi project : string) : Tx unit :=
  tbind (query (λ c, inr (blocked_dependents wi c))) (λ r,
    match r with
    | inl e => throw_opt (retryConflictErr e)
    | inr rows =>
        let '(ids, complete) := drain (cx_scan cx) rows in
        if complete then tforeach ids (unblock_one (cx_now cx) wi project) else tret tt
    end).

(** ** Forced step termination *)

Definition unknownStepAttemptID (completionID : string) : string :=
  "unknown-" +:+ completionID.

(** [ON CONFLICT (step_attempt_id) DO NOTHING] *)
Definition insert_completion (sa : string) (sc : StepCompletion) (c : Core)
  : result DbErr Core :=
  inr (match wi_step_completions c !! sa with
       | Some _ => c
       | None => set_completions (<[sa := sc]> (wi_step_completions c)) c
       end).

Definition step_reset (s : StepState) : StepState :=
  mkStep (ss_type s) (ss_step s) StepIdle None None (ss_version s + 1)
    (ss_scenario_ref s).

Definition wi_project_of (c : Core) (wi : string) : option string :=
  wi_project <$> work_items c !! wi.

Definition fnForceTerminateStep (cx : Ctx) (wi attempt : string)
  (stepAttempt : option string) : Tx unit :=
  tbind (query (select_step wi)) (λ r,
    match r with
    | inl e => throw_opt (retryConflictErr e)
    | inr s =>
        match ss_step s with
        | None => tret tt
        | Some step =>
            let saID := match stepAttempt with
                        | Some sa => if String.eqb sa ""
                                     then unknownStepAttemptID (cx_sc cx) else sa
                        | None => unknownStepAttemptID (cx_sc cx)
                        end in
            tbind (exec (insert_completion saID
                     
                     (mkComp (cx_sc cx) wi step attempt "failed" None
                        (Some "force_terminate") false))) (λ r1,
            tbind (or_throw dbErrCause r1) (λ _,
            tbind (bestEffortExec (λ c, insert_event
                     (mkEvent "step_failed" wi (Some attempt) None ""
                        [("step_id", JStr step); ("step_attempt_id", JStr saID);
                         ("error_type", JStr "force_terminate_step");
                         ("escalated", JBool false)]
                        (wi_project_of c wi)) c)) (λ _,
            tbind (exec (λ c, inr (set_steps (alter step_reset wi) c))) (λ r2,
            or_throw dbErr r2))))
        end
    end).

(** ** References *)

(** [resolveVisibleRefOnTx]: a work item the caller may see. *)
Definition ref_visible (ref ownProject : string) (roles : gmap string string)
  (callerRole : string) (kv : string * WorkItem) : bool :=
  wi_matches ref kv
  && (String.eqb (wi_project kv.2) ownProject || String.eqb callerRole "admin"
      || match roles !! wi_project kv.2 with
         | Some role => negb (String.eqb role "")
         | None => false
         end).

Definition resolveVisibleRefOnTx (ref ownProject : string)
  (roles : gmap string string) (callerRole : string) : Tx string :=
  tbind (query (λ c,
    match List.find (ref_visible ref ownProject roles callerRole)
            (map_to_list (work_items c)) with
    | Some (id, _) => inr id
    | None => inl NoRows
    end)) (λ r,
    match r with
    | inl NoRows => tthrow (NewErr ErrNotFound)
    | inl e => tthrow (dbErrCause e)
    | inr id => tret id
    end).

(** ** Instances and specifications *)

#[export] Instance probeForeignLockHolders_robust wi locks probes :
  Robust (probeForeignLockHolders wi locks probes).
Proof.
  revert probes. induction locks as [|l locks IH]; intros [|p probes]; try apply _.
  simpl. apply tbind_robust; [apply _|]. intros [[]|[[]]]; apply _.
Qed.
#[export] Instance verifyAttemptCredential_robust cx w att e s :
  Robust (verifyAttemptCredential cx w att e s).
Proof. solve_robust. Qed.
#[export] Instance unblockDependentWI_robust cx wi p :
  Robust (unblockDependentWI cx wi p).
Proof. solve_robust. Qed.
#[export] Instance fnForceTerminateStep_robust cx wi att sa :
  Robust (fnForceTerminateStep cx wi att sa).
Proof. solve_robust. Qed.
#[export] Instance resolveVisibleRefOnTx_robust ref p roles role :
  Robust (resolveVisibleRefOnTx ref p roles role).
Proof. solve_robust. Qed.
