(* ===== verification/Claim.v ===== *)
(** * Claiming a work item

    [FnClaimWorkItem] ([internal/domain/run_attempts.go]): one serializable
    transaction, cut here into the stretches of code between its comments. *)

From S2P Require Import Prelude GoStrings Errors Json Crypto Declared Locks Store.
From S2P Require Import TxLogic ResourceEvents Attempts.

Open Scope tx_scope.

Record ClaimRequest : Type := mkClaim {
  cr_idem : string;                      (* idempotency_key *)
  cr_machine : string;                   (* session_info.machine_id *)
  cr_secret : string;                    (* session_info.session_secret *)
  cr_locks : list ResourceLockReq;       (* requested_locks *)
  cr_force : bool;                       (* force_takeover *)
  cr_scenario_ref : option string;
}.

Record Caller : Type := mkCaller { ca_user : string; ca_display : string }.

Record ResourceLock : Type := mkRLock {
  rl_type : string; rl_key : string; rl_owner : string; rl_epoch : Z;
}.

Record ClaimResponse : Type := mkClaimResp {
  cl_attempt : string;
  cl_epoch : Z;
  cl_locks : list ResourceLock;
  cl_current_epoch : Z;
  cl_hint : string;                      (* step_recovery_hint *)
  cl_unrecognized : list Unrecognized;
  cl_rhs : option bool;
  cl_wi_type : option string;
  cl_slug : string;
  cl_project : string;
  cl_id : string;
  cl_goal : string;
}.

(** ** Arguments *)

Definition claim_args (req : ClaimRequest) : result AihubError unit :=
  if String.eqb (cr_idem req) "" then Err (NewErr ErrBadRequest)
  else if String.eqb (cr_machine req) "" then Err (NewErr ErrBadRequest)
  else if String.eqb (cr_secret req) "" then Err (NewErr ErrBadRequest)
  else Ok tt.

(** [retryConflictErr] first, [ErrInternalError] otherwise. *)
Definition lock_wi_error (e : DbErr) : AihubError := pgxErr e.

Definition claim_lock_wi (wiID : string) : Tx WorkItem :=
  r <- query (select_wi wiID) ;;
  or_throw lock_wi_error r.

(** ** The idempotent path *)

Definition select_idempotent (wi idem : string) (c : Core)
  : result DbErr (string * RunAttempt) :=
  match List.find (λ ka : string * RunAttempt,
                     String.eqb (ra_wi ka.2) wi && String.eqb (ra_idem ka.2) idem)
          (map_to_list (run_attempts c)) with
  | Some ka => inr ka
  | None => inl NoRows
  end.

Definition select_owned_locks (att : string) (c : Core)
  : result DbErr (list ResourceLock) :=
  inr ((λ kl, mkRLock kl.1.1 kl.1.2 (lk_owner kl.2) (lk_epoch kl.2)) <$>
       map_to_list (filter (λ kl : (string * string) * LockRow,
                              lk_owner kl.2 = att) (resource_locks c))).

Definition hint_window : Z := 15 * 1000000000.

Definition fresh_step (now : Z) (started : option Z) : bool :=
  match started with Some t => Z.ltb (now - t) hint_window | None => false end.

Definition idem_hint (now : Z) (r : result DbErr StepState) : string :=
  match r with
  | inr s =>
      if decide (ss_status s = StepInProgress) then
        if fresh_step now (ss_started s) then "active_in_progress_conflict"
        else "crashed_in_progress"
      else "clean"
  | inl _ => "clean"
  end.

Definition retry_of {A} (r : result DbErr A) : option AihubError :=
  match r with inl e => retryConflictErr e | inr _ => None end.

Definition commit_error (e : DbErr) : AihubError := dbErr e.

Definition commit_tail {A} (a : A) : Tx A :=
  r <- commit ;;
  match r with inl e => tthrow (commit_error e) | inr _ => tret a end.

Definition claim_replay (cx : Ctx) (w : WorkItem) (att : string) (a : RunAttempt)
  : Tx ClaimResponse :=
  rl <- query (select_owned_locks att) ;;
  locks <- or_throw dbErrCause rl ;;
  rs <- query (select_step (wi_id w)) ;;
  throw_opt (retry_of rs) ;;;
  commit_tail
    (mkClaimResp att (ra_epoch a) locks (ra_epoch a) (idem_hint (cx_now cx) rs)
       (UnrecognizedDeclaredResources (wi_declared w)) (wi_rhs w) (wi_type w)
       (wi_slug w) (wi_project w) (wi_id w) (wi_goal w)).

(** ** May this caller claim? *)

(** [Some prior] is a takeover of [prior]; [None] is not a takeover. *)
Definition claim_gate (w : WorkItem) (caller : Caller) (force : bool)
  : Tx (option string) :=
  match wi_status w, wi_current w with
  | WRunning, Some cur =>
      r <- query (select_attempt cur) ;;
      match r with
      | inl NoRows => tret None
      | inl e => tthrow (dbErrCause e)
      | inr a =>
          if String.eqb (ra_actor a) (ca_user caller) then tret (Some cur)
          else if force then tret (Some cur)
          else tthrow (NewErrDetails ErrConflictWIAlreadyClaimed
                         (DCurrentAttempt cur (ra_display a) (ra_epoch a)))
      end
  | WBlocked, _ | WWrapped, _ | WFailed, _ | WCancelled, _ =>
      tthrow (NewErr ErrConflictTerminalState)
  | _, _ => tret None
  end.

(** ** Locks *)

(** Requested locks win; otherwise the locks derived from the declarations. *)
Definition deriveClaimLocks (requested : list ResourceLockReq)
  (declared : RawMessage) (project : string)
  : list ResourceLockReq * list lockConflictProbe :=
  let probes := (λ l, exactProbe (req_resource_key l)) <$> requested in
  match requested, declared with
  | _ :: _, _ | [], RawEmpty => (requested, probes)
  | [], _ =>
      let derived :=
        omap (λ d, match derivedLockProbe d project with
                   | Some (typ, key, probe) =>
                       if String.eqb typ "" || String.eqb key "" then None
                       else Some (mkLockReq typ key, probe)
                   | None => None
                   end) (unmarshalDeclaredResources declared) in
      (derived.*1, derived.*2)
  end.

Definition lock_actor (caller : Caller) : lockEventActor :=
  mkActor (ca_user caller) (ca_display caller).

(** Supersede the prior attempt and drop its locks. *)
Definition claim_supersede (cx : Ctx) (caller : Caller) (prior : string) : Tx unit :=
  r <- exec (update_attempt prior (ra_with_status (cx_now cx) RSuperseded)) ;;
  or_throw dbErr r ;;;
  rl <- releaseLocks (lockDeleteByAttempt prior)
          (withExtra [("superseded_attempt_id", JStr prior)]
             (newLockOp (cx_op1 cx) "claim_takeover" (lock_actor caller))) ;;
  or_throw dbErr rl ;;;
  tret tt.

(** [isTakeover && priorAttemptID != ""] *)
Definition prior_of (takeover : option string) : option string :=
  match takeover with
  | Some p => if String.eqb p "" then None else Some p
  | None => None
  end.

Definition claim_supersede_prior (cx : Ctx) (caller : Caller)
  (takeover : option string) : Tx unit :=
  match prior_of takeover with
  | Some prior => claim_supersede cx caller prior
  | None => tret tt
  end.

(** ** The new attempt *)

(** UNIQUE (work_item_id, idempotency_key), UNIQUE (work_item_id,
    claim_epoch), the primary key, and the two foreign keys. *)
Definition attempt_clash (id : string) (a : RunAttempt) (kb : string * RunAttempt)
  : bool :=
  String.eqb kb.1 id
  || (String.eqb (ra_wi kb.2) (ra_wi a)
      && (String.eqb (ra_idem kb.2) (ra_idem a)
          || Z.eqb (ra_epoch kb.2) (ra_epoch a))).

Definition insert_attempt (id : string) (a : RunAttempt) (c : Core)
  : result DbErr Core :=
  if existsb (attempt_clash id a) (map_to_list (run_attempts c)) then
    inl (PgError pgUniqueViolation)
  else match work_items c !! ra_wi a with
  | None => inl (PgError pgForeignKeyViolation)
  | Some _ =>
      if match ra_parent a with
         | Some p => bool_decide (is_Some (run_attempts c !! p))
         | None => true
         end
      then inr (set_run_attempts (<[id := a]>) c)
      else inl (PgError pgForeignKeyViolation)
  end.

Definition new_attempt (cx : Ctx) (wi : string) (epoch : Z) (idem : string)
  (caller : Caller) (machine secret : string) (parent : option string) : RunAttempt :=
  mkRA wi RRunning epoch idem (ca_user caller) (ca_display caller) machine
    (HashSecret secret) parent (cx_now cx) None None None None None.

Definition claim_insert (cx : Ctx) (req : ClaimRequest) (caller : Caller)
  (w : WorkItem) (epoch : Z) (prior : option string) : Tx unit :=
  r <- exec (insert_attempt (cx_attempt cx)
               (new_attempt cx (wi_id w) epoch (cr_idem req) caller
                  (cr_machine req) (cr_secret req) prior)) ;;
  or_throw dbErrCause r.

Definition claim_superseded_event (cx : Ctx) (caller : Caller) (w : WorkItem)
  (takeover : option string) : Tx unit :=
  match prior_of takeover with
  | Some _ =>
      bestEffortExec (insert_event
        (mkEvent "attempt_superseded" (wi_id w) None (Some (ca_user caller))
           (ca_display caller)
           [("superseded_by_attempt_id", JStr (cx_attempt cx));
            ("reason", JStr "claim by same user or explicit takeover");
            ("actor_user_id", JStr (ca_user caller))] (Some (wi_project w))))
  | None => tret tt
  end.

Definition is_takeover (takeover : option string) : bool :=
  bool_decide (is_Some takeover).

(** One pass of the acquisition loop. *)
Definition claim_acquire_one (cx : Ctx) (caller : Caller) (w : WorkItem) (epoch : Z)
  (takeover : option string) (l : ResourceLockReq) : Tx ResourceLock :=
  r <- acquireLockUpsert (req_resource_type l) (req_resource_key l)
         (cx_attempt cx) epoch (wi_project w) (wi_id w)
         (withExtra [("is_takeover", JBool (is_takeover takeover))]
            (newLockOp (cx_op2 cx) "claim" (lock_actor caller))) ;;
  match r with
  | inr got =>
      tret (mkRLock (ResourceType got) (ResourceKey got) (cx_attempt cx) epoch)
  | inl (LockDbErr e) => tthrow (dbErrCause e)
  | inl e => match lockTakenErrFor e with
             | Some aerr => tthrow aerr
             | None => tthrow (dbErrCause OtherErr)
             end
  end.

Definition claim_acquire (cx : Ctx) (caller : Caller) (w : WorkItem) (epoch : Z)
  (takeover : option string) (locks : list ResourceLockReq)
  : Tx (list ResourceLock) :=
  tmap (claim_acquire_one cx caller w epoch takeover) locks.

(** ** The work item and its step state *)

Definition wi_claimed (now : Z) (att : string) (epoch : Z) (w : WorkItem) : WorkItem :=
  wi_with_attempt att epoch (wi_with_status now WRunning w).

Definition claim_set_running (cx : Ctx) (w : WorkItem) (epoch : Z) : Tx unit :=
  r <- exec (update_wi (wi_id w) (wi_claimed (cx_now cx) (cx_attempt cx) epoch)) ;;
  or_throw dbErr r.

(** [INSERT ... ON CONFLICT DO UPDATE]: the current step and the version are
    kept, [COALESCE($3, scenario_ref)]. *)
Definition step_upsert (wi : string) (typ scenario_ref : option string) (c : Core)
  : result DbErr Core :=
  inr (set_steps (<[wi :=
    match wi_step_state c !! wi with
    | None => mkStep typ None StepIdle None None 0 scenario_ref
    | Some s =>
        mkStep typ (ss_step s) StepIdle None None (ss_version s)
          (match scenario_ref with Some r => Some r | None => ss_scenario_ref s end)
    end]>) c).

(** Returns the step state read before the reset. *)
Definition claim_steps (w : WorkItem) (scenario_ref : option string)
  : Tx (result DbErr StepState) :=
  prior <- query (select_step (wi_id w)) ;;
  throw_opt (retry_of prior) ;;;
  r <- exec (step_upsert (wi_id w) (wi_type w) scenario_ref) ;;
  throw_opt (retry_of r) ;;;
  tret prior.

Definition defaultRequiresHumanSession : bool := true.
Definition classificationSourceServerDefault : string := "server_default".

Definition classificationResolvedEventPayload (rhs : bool) : jobj :=
  [("requires_human_session", JBool rhs);
   ("source", JStr classificationSourceServerDefault)].

(** An unset [requires_human_session] is resolved and recorded. *)
Definition claim_classify (caller : Caller) (w : WorkItem) : Tx (option bool) :=
  match wi_rhs w with
  | Some b => tret (Some b)
  | None =>
      r <- exec (update_wi (wi_id w) (wi_with_rhs defaultRequiresHumanSession)) ;;
      or_throw dbErr r ;;;
      bestEffortExec (insert_event
        (mkEvent "wi_classification_resolved" (wi_id w) None (Some (ca_user caller))
           (ca_display caller)
           (classificationResolvedEventPayload defaultRequiresHumanSession)
           (Some (wi_project w)))) ;;;
      tret (Some defaultRequiresHumanSession)
  end.

Definition claim_started_event (cx : Ctx) (req : ClaimRequest) (caller : Caller)
  (w : WorkItem) (epoch : Z) (takeover : option string) : Tx unit :=
  bestEffortExec (insert_event
    (mkEvent "attempt_started" (wi_id w) (Some (cx_attempt cx))
       (Some (ca_user caller)) (ca_display caller)
       [("machine_id", JStr (cr_machine req));
        ("actor_display", JStr (ca_display caller));
        ("is_takeover", JBool (is_takeover takeover));
        ("claim_epoch", jint epoch)] (Some (wi_project w)))).

Definition claim_hint (now : Z) (prior : result DbErr StepState)
  (takeover : option string) : string :=
  match prior with
  | inr s =>
      if decide (ss_status s = StepInProgress) then
        if is_takeover takeover && fresh_step now (ss_started s)
        then "active_in_progress_conflict" else "crashed_in_progress"
      else "clean"
  | inl _ => "clean"
  end.

(** ** The handler *)

(** Everything after the takeover decision. *)
Definition claim_take (cx : Ctx) (req : ClaimRequest) (caller : Caller)
  (w : WorkItem) (takeover : option string) : Tx ClaimResponse :=
  match ValidateRequestedLocks (cr_locks req) with
  | inl e => tthrow e
  | inr _ =>
      let '(locks, probes) :=
        deriveClaimLocks (cr_locks req) (wi_declared w) (wi_project w) in
      probeForeignLockHolders (wi_id w) locks probes ;;;
      claim_supersede_prior cx caller takeover ;;;
      let epoch := wrap64 (wi_epoch w + 1) in
      claim_insert cx req caller w epoch (prior_of takeover) ;;;
      claim_superseded_event cx caller w takeover ;;;
      acquired <- claim_acquire cx caller w epoch takeover locks ;;
      claim_set_running cx w epoch ;;;
      prior <- claim_steps w (cr_scenario_ref req) ;;
      rhs <- claim_classify caller w ;;
      claim_started_event cx req caller w epoch takeover ;;;
      commit_tail
        (mkClaimResp (cx_attempt cx) epoch acquired epoch
           (claim_hint (cx_now cx) prior takeover)
           (UnrecognizedDeclaredResources (wi_declared w)) rhs (wi_type w)
           (wi_slug w) (wi_project w) (wi_id w) (wi_goal w))
  end.

Definition claim_body (cx : Ctx) (wiID : string) (req : ClaimRequest)
  (caller : Caller) : Tx ClaimResponse :=
  w <- claim_lock_wi wiID ;;
  if String.eqb (wi_mode w) "pending" then
    tthrow (NewErrDetails ErrConflictComposePending (DWorkflowMode (wi_mode w)))
  else
    idem <- query (select_idempotent (wi_id w) (cr_idem req)) ;;
    match idem with
    | inr (att, a) => claim_replay cx w att a
    | inl NoRows =>
        if match wi_type w with Some t => String.eqb t "" | None => true end then
          tthrow (NewErr ErrWITypeMismatch)
        else
          takeover <- claim_gate w caller (cr_force req) ;;
          claim_take cx req caller w takeover
    | inl e => tthrow (dbErrCause e)
    end.

Definition FnClaimWorkItem (env : Env) (cx : Ctx) (wiID : string)
  (req : ClaimRequest) (caller : Caller) (d : Db)
  : result AihubError ClaimResponse * Db :=
  match claim_args req with
  | inl e => (inl e, d)
  | inr _ => runTx env (claim_body cx wiID req caller) d
  end.

#[export] Instance claim_body_robust cx wiID req caller :
  Robust (claim_body cx wiID req caller).
Proof. solve_robust. Qed.
#[export] Instance claim_body_commits cx wiID req caller :
  CommitsOnOk (claim_body cx wiID req caller).
Proof. solve_commits. Qed.
