(* ===== verification/Complete.v ===== *)
(** * Completing and pausing an attempt

    [FnCompleteAttempt] ([internal/domain/run_attempts.go]). *)

From S2P Require Import Prelude GoStrings Errors Json Crypto Declared Locks Store.
From S2P Require Import TxLogic ResourceEvents Attempts Claim.

Open Scope tx_scope.

Record CompleteAttemptRequest : Type := mkComplete {
  co_attempt : string;
  co_epoch : Z;
  co_secret : string;
  co_status : string;                   (* "wrapped" | "failed" | "paused" *)
  co_force : bool;                      (* force_terminate_step *)
  co_pause_reason : option string;
  co_derived : option (list string);    (* None is the nil slice *)
  co_no_steps_reason : option string;
}.

(** ** Dispositions *)

Definition derivedFolded : string := "folded".
Definition derivedFiledPrefix : string := "filed:".
Definition derivedDroppedPrefix : string := "dropped:".

Definition validate_derived_entry (i : nat) (entry : string)
  : result AihubError unit :=
  if String.eqb entry derivedFolded || hasPrefix entry (derivedFolded +:+ ":")
  then Ok tt
  else if hasPrefix entry derivedFiledPrefix then
    if blank (sdrop (String.length derivedFiledPrefix) entry)
    then Err (NewErr ErrBadRequest) else Ok tt
  else if hasPrefix entry derivedDroppedPrefix then
    if blank (sdrop (String.length derivedDroppedPrefix) entry)
    then Err (NewErr ErrBadRequest) else Ok tt
  else Err (NewErr ErrBadRequest).

Definition ValidateDerived (derived : list string) : result AihubError unit :=
  check_from validate_derived_entry 0 derived.

Definition derivedFiledRefs (derived : list string) : list string :=
  omap (λ entry,
    if hasPrefix entry derivedFiledPrefix
    then Some (trimSpace (sdrop (String.length derivedFiledPrefix) entry))
    else None) derived.

(** ** Arguments *)

Definition nonempty (o : option string) : bool :=
  match o with Some s => negb (String.eqb s "") | None => false end.
Definition nonblank (o : option string) : bool :=
  match o with Some s => negb (blank s) | None => false end.

Inductive Outcome : Type := OWrapped | OFailed | OPaused.

#[export] Instance Outcome_eq_dec : EqDecision Outcome.
Proof. solve_decision. Defined.

Definition parse_outcome (s : string) : option Outcome :=
  if String.eqb s "wrapped" then Some OWrapped
  else if String.eqb s "failed" then Some OFailed
  else if String.eqb s "paused" then Some OPaused
  else None.

Definition outcome_wi (o : Outcome) : WiStatus :=
  match o with OWrapped => WWrapped | OFailed => WFailed | OPaused => WPaused end.
Definition outcome_ra (o : Outcome) : RaStatus :=
  match o with OWrapped => RWrapped | OFailed => RFailed | OPaused => RPaused end.

Definition complete_args (req : CompleteAttemptRequest) : result AihubError Outcome :=
  match parse_outcome (co_status req) with
  | None => Err (NewErr ErrBadRequest)
  | Some o =>
      if negb (bool_decide (o = OPaused)) && nonempty (co_pause_reason req) then
        Err (NewErr ErrBadRequest)
      else if negb (bool_decide (o = OWrapped)) && nonempty (co_no_steps_reason req)
      then Err (NewErr ErrBadRequest)
      else match o, co_derived req with
           | OWrapped, None => Err (NewErr ErrBadRequest)
           | OWrapped, Some derived =>
               match ValidateDerived derived with
               | inl e => Err e
               | inr _ => Ok o
               end
           | _, Some (_ :: _) => Err (NewErr ErrBadRequest)
           | _, _ => Ok o
           end
  end.

(** ** Inside the transaction *)

Definition complete_lock_wi (wiID : string) : Tx WorkItem :=
  r <- query (select_wi_by_id wiID) ;;
  or_throw lock_wi_error r.

Definition derived_list (req : CompleteAttemptRequest) : list string :=
  match co_derived req with Some l => l | None => [] end.

(** Every [filed:] reference names a work item the caller can see. *)
Definition complete_filed_refs (req : CompleteAttemptRequest) (o : Outcome)
  (project : string) (roles : gmap string string) (role : string) : Tx unit :=
  if decide (o = OWrapped) then
    tforeach (derivedFiledRefs (derived_list req)) (λ ref,
      resolveVisibleRefOnTx ref project roles role ;;; tret tt)
  else tret tt.

(** The open step; answers the version read ([0] when there is no row). *)
Definition complete_step (cx : Ctx) (wiID : string) (req : CompleteAttemptRequest)
  (o : Outcome) : Tx Z :=
  r <- query (select_step wiID) ;;
  throw_opt (retry_of r) ;;;
  match r with
  | inr s =>
      if decide (ss_status s = StepInProgress) then
        if bool_decide (o = OPaused) || co_force req then
          fnForceTerminateStep cx wiID (co_attempt req) (ss_attempt s) ;;;
          tret (ss_version s)
        else tthrow (NewErr ErrConflictStepInProgress)
      else tret (ss_version s)
  | inl _ => tret 0%Z
  end.

Definition codeProducedEventTypes : list string := ["commit"; "push"; "pr_opened"].

Definition has_code_event (wi : string) (c : Core) : bool :=
  existsb (λ e, String.eqb (ev_wi e) wi
                && existsb (String.eqb (ev_type e)) codeProducedEventTypes)
    (agent_events c).

(** Code was produced, no step was ever opened, and nobody said why. *)
Definition complete_no_steps_gate (wi : string) (req : CompleteAttemptRequest)
  (o : Outcome) (stepVersion : Z) : Tx unit :=
  if bool_decide (o = OWrapped) && Z.eqb stepVersion 0 then
    r <- query (λ c, inr (has_code_event wi c)) ;;
    has <- or_throw dbErr r ;;
    if has && negb (nonblank (co_no_steps_reason req))
    then tthrow (NewErr ErrConflictNoStepsRecorded) else tret tt
  else tret tt.

Definition stored_pause_reason (req : CompleteAttemptRequest) (o : Outcome)
  : option string := if decide (o = OPaused) then co_pause_reason req else None.
Definition stored_derived (req : CompleteAttemptRequest) (o : Outcome)
  : option (list string) := if decide (o = OWrapped) then co_derived req else None.
Definition stored_no_steps (req : CompleteAttemptRequest) (o : Outcome)
  : option string :=
  if bool_decide (o = OWrapped) && nonblank (co_no_steps_reason req)
  then co_no_steps_reason req else None.

Definition attempt_completed (now : Z) (req : CompleteAttemptRequest) (o : Outcome)
  (a : RunAttempt) : RunAttempt :=
  ra_with_completion (stored_pause_reason req o) (stored_derived req o)
    (stored_no_steps req o) (ra_with_status now (outcome_ra o) a).

Definition complete_update_attempt (cx : Ctx) (req : CompleteAttemptRequest)
  (o : Outcome) : Tx unit :=
  r <- exec (update_attempt (co_attempt req)
               (attempt_completed (cx_now cx) req o)) ;;
  or_throw dbErr r.

(** A terminal status drops every lock; a pause keeps all but [file_scope]. *)
Definition complete_release (cx : Ctx) (req : CompleteAttemptRequest) (o : Outcome)
  : Tx unit :=
  rl <- (if decide (o = OPaused) then
           releaseLocks (acquireLocksReleasePaused (co_attempt req))
             (withExtra [("retained_types",
                          JStr "git_branch, deploy_env, worktree, tcp_port")]
                (newLockOp (cx_op1 cx) "attempt_paused" (mkActor "" "")))
         else
           releaseLocks (lockDeleteByAttempt (co_attempt req))
             (withExtra [("attempt_status", JStr (co_status req))]
                (newLockOp (cx_op1 cx) "attempt_terminal" (mkActor "" "")))) ;;
  or_throw dbErr rl ;;;
  tret tt.

Definition complete_set_status (cx : Ctx) (wi : string) (o : Outcome) : Tx unit :=
  r <- exec (update_wi wi (wi_with_status (cx_now cx) (outcome_wi o))) ;;
  or_throw dbErr r.

Definition opt_field (k : string) (o : option string) : jobj :=
  match o with Some s => [(k, JStr s)] | None => [] end.

Definition complete_event (req : CompleteAttemptRequest) (o : Outcome)
  (w : WorkItem) : Tx unit :=
  bestEffortExec (insert_event
    (mkEvent "attempt_completed" (wi_id w) (Some (co_attempt req)) None ""
       ([("status", JStr (co_status req))]
        ++ opt_field "pause_reason" (stored_pause_reason req o)
        ++ match stored_derived req o with
           | Some l => [("derived", JArr (JStr <$> l))] | None => [] end
        ++ opt_field "no_steps_reason" (stored_no_steps req o))%list
       (Some (wi_project w)))).

Definition ninety_days : Z := 90 * 24 * 3600 * 1000000000.

(** [type LIKE 'methodology.%' AND expires_at IS NULL] *)
Definition expire_memories (now : Z) (wi : string) (c : Core) : result DbErr Core :=
  inr (set_memories (fmap (λ m : MemoryRow,
    if String.eqb (mem_wi m) wi && like (mem_type m) "methodology.%"
       && bool_decide (mem_expires m = None)
    then mkMem (mem_wi m) (mem_type m) (mem_status m) (Some (now + ninety_days)%Z)
           (mem_visibility m) (mem_author m) (mem_attrs m)
    else m)) c).

Definition complete_dependents (cx : Ctx) (w : WorkItem) (o : Outcome) : Tx unit :=
  if decide (o = OPaused) then tret tt
  else
    unblockDependentWI cx (wi_id w) (wi_project w) ;;;
    bestEffortExec (expire_memories (cx_now cx) (wi_id w)).

(** The writes, once every check has passed. *)
Definition complete_writes (cx : Ctx) (req : CompleteAttemptRequest) (o : Outcome)
  (w : WorkItem) : Tx unit :=
  complete_update_attempt cx req o ;;;
  complete_release cx req o ;;;
  complete_set_status cx (wi_id w) o ;;;
  complete_event req o w ;;;
  complete_dependents cx w o ;;;
  commit_tail tt.

Definition complete_body (cx : Ctx) (wiID : string) (req : CompleteAttemptRequest)
  (o : Outcome) (roles : gmap string string) (role : string) : Tx unit :=
  w <- complete_lock_wi wiID ;;
  if wi_terminal (wi_status w) then tthrow (NewErr ErrConflictTerminalState)
  else
    verifyAttemptCredential cx w (co_attempt req) (co_epoch req) (co_secret req) ;;;
    complete_filed_refs req o (wi_project w) roles role ;;;
    version <- complete_step cx wiID req o ;;
    complete_no_steps_gate (wi_id w) req o version ;;;
    complete_writes cx req o w.

Definition FnCompleteAttempt (env : Env) (cx : Ctx) (wiID : string)
  (req : CompleteAttemptRequest) (roles : gmap string string) (role : string)
  (d : Db) : result AihubError unit * Db :=
  match complete_args req with
  | inl e => (inl e, d)
  | inr o => runTx env (complete_body cx wiID req o roles role) d
  end.

#[export] Instance complete_body_robust cx wiID req o roles role :
  Robust (complete_body cx wiID req o roles role).
Proof. solve_robust. Qed.
#[export] Instance complete_body_commits cx wiID req o roles role :
  CommitsOnOk (complete_body cx wiID req o roles role).
Proof. solve_commits. Qed.
