(* ===== verification/Takeover.v ===== *)
(** * Taking over, extending locks, recording pins, cancelling

    [FnForceTakeover], [FnAcquireLocks], [FnRecordRepoPins],
    [VerifyAttemptCredentialPool] ([internal/domain/run_attempts.go]) and
    [CancelWorkItem] ([internal/domain/work_items.go]).  A handler that reads
    rows before it opens its transaction takes the database of that earlier
    moment as a separate argument, [d0]. *)

From S2P Require Import Prelude GoStrings Errors Json Crypto Declared Locks Store.
From S2P Require Import TxLogic ResourceEvents Attempts Claim.

Open Scope tx_scope.

(** A read outside any transaction: rows, or a fault. *)
Definition pool_query {A} (fault : option Fault) (f : Core → result DbErr A) (d : Db)
  : result DbErr A :=
  match fault with Some e => inl (fault_err e) | None => f (core d) end.

(** [GetWorkItem] *)
Definition GetWorkItem (fault : option Fault) (idOrSlug : string) (d : Db)
  : result AihubError WorkItem :=
  match pool_query fault (select_wi idOrSlug) d with
  | inl e => inl (pgxErr e)
  | inr w => inr w
  end.

(** ** Force takeover *)

Record ForceTakeoverRequest : Type := mkForce {
  fo_reason : string; fo_machine : string; fo_secret : string;
}.

Record ForceTakeoverResponse : Type := mkForceResp {
  ft_id : string; ft_slug : string; ft_project : string;
  ft_prior : string; ft_prior_actor : string;
  ft_attempt : string; ft_epoch : Z; ft_secret : string;
  ft_unrecognized : list Unrecognized;
}.

(** The checks on the snapshot: the running work item and its attempt. *)
Definition takeover_gate (f1 f2 : option Fault) (wiID callerUser callerRole : string)
  (roles : gmap string string) (req : ForceTakeoverRequest) (d0 : Db)
  : result AihubError (WorkItem * string * string) :=
  if String.eqb (fo_reason req) "" then Err (NewErr ErrBadRequest)
  else
    rbind (GetWorkItem f1 wiID d0) (λ w,
      if negb (bool_decide (wi_status w = WRunning)) then Err (NewErr ErrBadRequest)
      else match wi_current w with
      | None => Err (NewErr ErrInternalError)
      | Some cur =>
          match pool_query f2 (select_attempt cur) d0 with
          | inl e => Err (dbErr e)
          | inr a =>
              let isSelf := String.eqb (ra_actor a) callerUser in
              let isMaintainerOrAdmin :=
                bool_decide (roles !! wi_project w = Some "maintainer")
                || String.eqb callerRole "admin" in
              if negb isSelf && negb isMaintainerOrAdmin
              then Err (NewErr ErrForbidden)
              else Ok (w, cur, ra_display a)
          end
      end).

Definition takeover_locks (w : WorkItem)
  : list ResourceLockReq * list lockConflictProbe :=
  let l := omap (λ res, match derivedLockProbe res (wi_project w) with
                        | Some (typ, key, probe) =>
                            if String.eqb typ "" then None
                            else Some (mkLockReq typ key, probe)
                        | None => None
                        end) (unmarshalDeclaredResources (wi_declared w)) in
  (l.*1, l.*2).

(** An in-progress step is terminated; only a lost race is surfaced. *)
Definition swallow_internal (m : Tx unit) : Tx unit := λ s,
  match m s with
  | (inl e, s') =>
      if decide (err_code e = ErrConflictSerializationFailure) then (inl e, s')
      else (inr tt, s')
  | r => r
  end.

Definition takeover_step (cx : Ctx) (wi prior : string) : Tx unit :=
  r <- query (select_step wi) ;;
  throw_opt (retry_of r) ;;;
  match r with
  | inr s =>
      if decide (ss_status s = StepInProgress) then
        swallow_internal (fnForceTerminateStep cx wi prior (ss_attempt s))
      else tret tt
  | inl _ => tret tt
  end.

Definition takeover_op (cx : Ctx) (user display prior reason : string) : lockOpCtx :=
  withExtra [("prior_attempt_id", JStr prior); ("reason", JStr reason)]
    (newLockOp (cx_op1 cx) "force_takeover" (mkActor user display)).

(** Supersede the prior attempt, drop its locks, record the event. *)
Definition takeover_supersede (cx : Ctx) (user display : string)
  (req : ForceTakeoverRequest) (w : WorkItem) (prior prior_actor : string) : Tx unit :=
  r <- exec (update_attempt prior (ra_with_status (cx_now cx) RSuperseded)) ;;
  or_throw dbErr r ;;;
  rl <- releaseLocks (lockDeleteByAttempt prior)
          (takeover_op cx user display prior (fo_reason req)) ;;
  throw_opt (retry_of rl) ;;;
  bestEffortExec (insert_event
    (mkEvent "force_takeover" (wi_id w) None (Some user) ""
       [("prior_attempt_id", JStr prior); ("prior_actor", JStr prior_actor);
        ("reason", JStr (fo_reason req))] (Some (wi_project w)))).

Definition takeover_machine (req : ForceTakeoverRequest) : string :=
  if String.eqb (fo_machine req) "" then "force-takeover" else fo_machine req.

Definition takeover_insert (cx : Ctx) (user display secret : string)
  (req : ForceTakeoverRequest) (w : WorkItem) (epoch : Z) (prior : string) : Tx unit :=
  r <- exec (insert_attempt (cx_attempt cx)
         (new_attempt cx (wi_id w) epoch ("force-takeover-" +:+ cx_attempt cx)
            (mkCaller user display) (takeover_machine req) secret (Some prior))) ;;
  or_throw dbErr r.

(** Only a refusal or a lost race stops the loop. *)
Definition takeover_acquire (cx : Ctx) (user display prior : string)
  (req : ForceTakeoverRequest) (w : WorkItem) (epoch : Z)
  (locks : list ResourceLockReq) : Tx unit :=
  tforeach locks (λ l,
    r <- acquireLockUpsert (req_resource_type l) (req_resource_key l)
           (cx_attempt cx) epoch (wi_project w) (wi_id w)
           (takeover_op cx user display prior (fo_reason req)) ;;
    match r with
    | inr _ => tret tt
    | inl (LockDbErr e) => throw_opt (retryConflictErr e)
    | inl e => throw_opt (lockTakenErrFor e)
    end).

Definition takeover_body (cx : Ctx) (user display secret : string)
  (req : ForceTakeoverRequest) (w : WorkItem) (prior prior_actor : string)
  : Tx ForceTakeoverResponse :=
  let '(locks, probes) := takeover_locks w in
  probeForeignLockHolders (wi_id w) locks probes ;;;
  takeover_step cx (wi_id w) prior ;;;
  takeover_supersede cx user display req w prior prior_actor ;;;
  let epoch := wrap64 (wi_epoch w + 1) in
  takeover_insert cx user display secret req w epoch prior ;;;
  takeover_acquire cx user display prior req w epoch locks ;;;
  claim_set_running cx w epoch ;;;
  commit_tail
    (mkForceResp (wi_id w) (wi_slug w) (wi_project w) prior prior_actor
       (cx_attempt cx) epoch secret
       (UnrecognizedDeclaredResources (wi_declared w))).

(** [generated] is the secret [generateSessionSecret] draws (random).  The
    transaction is READ COMMITTED; the model is its execution when no other
    request commits between its first statement and COMMIT.  Its commit window
    is [ResourceEvents.lockUpsert_window]. *)
Definition FnForceTakeover (env : Env) (f1 f2 : option Fault) (cx : Ctx)
  (wiID user display role : string) (roles : gmap string string)
  (req : ForceTakeoverRequest) (generated : string) (d0 d : Db)
  : result AihubError ForceTakeoverResponse * Db :=
  match takeover_gate f1 f2 wiID user role roles req d0 with
  | inl e => (inl e, d)
  | inr (w, prior, prior_actor) =>
      let secret := if String.eqb (fo_secret req) "" then generated
                    else fo_secret req in
      runTx env (takeover_body cx user display secret req w prior prior_actor) d
  end.

(** ** Acquiring the locks of declarations added while running *)

Record AttemptRequest : Type := mkAttReq {
  at_attempt : string; at_epoch : Z; at_secret : string;
}.

Record AcquireLocksResponse : Type := mkAcqResp {
  aq_acquired : list ResourceLock;
  aq_already : list ResourceLock;
  aq_unrecognized : list Unrecognized;
}.

Record targetLock : Type := mkTarget {
  tl_type : string; tl_key : string; tl_probe : lockConflictProbe;
}.

(** The [file_scope] locks the declarations derive. *)
Definition acquire_targets (declared : list DeclaredResourceItem) (project : string)
  : list targetLock :=
  omap (λ d, match derivedLockProbe d project with
             | Some (typ, key, probe) =>
                 if negb (String.eqb typ "file_scope") then None
                 else if String.eqb key "" then None
                 else Some (mkTarget typ key probe)
             | None => None
             end) declared.

Definition taken_by (o : string * string * string) : AihubError :=
  let '(owner, display, slug) := o in
  NewErrDetails ErrConflictLockTaken (DConflictWith owner display slug).

(** Drop the dead row of a key and take the key. *)
Definition reclaim_key (op : lockOpCtx) (att : string) (epoch : Z) (w : WorkItem)
  (typ key : string) : Tx unit :=
  d <- releaseLocks (lockDeleteByKey typ key) op ;;
  or_throw dbErr d ;;;
  i <- acquireLockIfFree typ key att epoch (wi_project w) (wi_id w) op ;;
  or_throw dbErr i ;;;
  tret tt.

(** The key is taken but no live holder shows: reclaim it. *)
Definition acquire_reclaim (cx : Ctx) (req : AttemptRequest) (w : WorkItem)
  (t : targetLock) : Tx unit :=
  reclaim_key
    (withExtra [("reclaimed_by_attempt_id", JStr (at_attempt req))]
       (newLockOp (cx_op2 cx) "orphan_reclaim" (mkActor "" "")))
    (at_attempt req) (at_epoch req) w (tl_type t) (tl_key t).

(** One target: [true] when the lock is newly acquired. *)
Definition acquire_one (cx : Ctx) (req : AttemptRequest) (w : WorkItem)
  (t : targetLock) : Tx bool :=
  r <- query (select_collision (tl_type t) (tl_probe t) None) ;;
  match r with
  | inr o => if negb (String.eqb o.1.1 (at_attempt req)) then tthrow (taken_by o)
             else tret false
  | inl NoRows =>
      took <- acquireLockIfFree (tl_type t) (tl_key t) (at_attempt req)
                (at_epoch req) (wi_project w) (wi_id w)
                (newLockOp (cx_op1 cx) "acquire_locks" (mkActor "" "")) ;;
      match took with
      | inl e => tthrow (dbErrCause e)
      | inr true => tret true
      | inr false =>
          r2 <- query (select_collision (tl_type t) (tl_probe t) None) ;;
          match r2 with
          | inr o => if String.eqb o.1.1 (at_attempt req) then tret false
                     else tthrow (taken_by o)
          | inl NoRows => acquire_reclaim cx req w t ;;; tret true
          | inl _ => tthrow (NewErr ErrInternalError)
          end
      end
  | inl _ => tthrow (NewErr ErrInternalError)
  end.

Definition acquired_of (req : AttemptRequest) (ts : list targetLock) (took : list bool)
  : list ResourceLock :=
  (λ t : targetLock * bool,
     mkRLock (tl_type t.1) (tl_key t.1) (at_attempt req) (at_epoch req))
  <$> filter (λ t : targetLock * bool, t.2 = true) (zip ts took).

(** [ORDER BY resource_type, resource_key] is presentation and left out. *)
Definition acquire_held (req : AttemptRequest) (acquired : list ResourceLock)
  : Tx (list ResourceLock) :=
  r <- query (select_owned_locks (at_attempt req)) ;;
  held <- or_throw dbErr r ;;
  tret (filter (λ l, Is_true (negb (existsb (λ a : ResourceLock,
          String.eqb (rl_type a +:+ ":" +:+ rl_key a)
                     (rl_type l +:+ ":" +:+ rl_key l)) acquired))) held).

Definition acquire_body (cx : Ctx) (wiID : string) (req : AttemptRequest)
  : Tx AcquireLocksResponse :=
  w <- claim_lock_wi wiID ;;
  if negb (bool_decide (wi_status w = WRunning)) then
    tthrow (NewErr ErrAttemptMismatch)
  else
    verifyAttemptCredential cx w (at_attempt req) (at_epoch req) (at_secret req) ;;;
    match decodeDeclaredResources (wi_declared w) with
    | None => tthrow (NewErr ErrInternalError)
    | Some declared =>
        let ts := acquire_targets declared (wi_project w) in
        took <- tmap (acquire_one cx req w) ts ;;
        let acquired := acquired_of req ts took in
        held <- acquire_held req acquired ;;
        commit_tail (mkAcqResp acquired held
                       (UnrecognizedDeclaredResources (wi_declared w)))
    end.

Definition FnAcquireLocks (env : Env) (cx : Ctx) (wiID : string)
  (req : AttemptRequest) (d : Db) : result AihubError AcquireLocksResponse * Db :=
  runTx env (acquire_body cx wiID req) d.

(** ** Repository pins *)

(** [len(pins) == 0] keeps the column as it is. *)
Definition record_pins_body (cx : Ctx) (wiID : string) (req : AttemptRequest)
  (pins : gmap string string) : Tx unit :=
  r <- query (select_wi_by_id wiID) ;;
  w <- or_throw lock_wi_error r ;;
  verifyAttemptCredential cx w (at_attempt req) (at_epoch req) (at_secret req) ;;;
  (if decide (pins = ∅) then tret tt
   else r <- exec (update_attempt (at_attempt req) (ra_with_pins pins)) ;;
        or_throw dbErr r) ;;;
  commit_tail tt.

Definition FnRecordRepoPins (env : Env) (cx : Ctx) (wiID : string)
  (req : AttemptRequest) (pins : gmap string string) (d : Db)
  : result AihubError unit * Db :=
  runTx env (record_pins_body cx wiID req pins) d.

(** ** The pool form of the credential check

    A non-retryable COMMIT failure is not an error of the verification. *)
Definition verify_pool_body (cx : Ctx) (w : WorkItem) (req : AttemptRequest)
  : Tx unit :=
  verifyAttemptCredential cx w (at_attempt req) (at_epoch req) (at_secret req) ;;;
  r <- commit ;;
  throw_opt (retry_of r).

Definition VerifyAttemptCredentialPool (env : Env) (f : option Fault) (cx : Ctx)
  (wiID : string) (req : AttemptRequest) (d0 d : Db)
  : result AihubError unit * Db :=
  match GetWorkItem f wiID d0 with
  | inl e => (inl e, d)
  | inr w => runTx env (verify_pool_body cx w req) d
  end.

(** ** Cancelling *)

Definition cancelGate (status : WiStatus) (isReporter : bool)
  (callerRole projectRole : string) : option AihubError :=
  match status with
  | WRunning => Some (NewErr ErrConflictWIAlreadyClaimed)
  | WWrapped | WFailed | WCancelled => Some (NewErr ErrConflictTerminalState)
  | _ =>
      if String.eqb callerRole "admin" || String.eqb projectRole "maintainer"
         || isReporter then None
      else Some (NewErr ErrForbidden)
  end.

(** [UPDATE run_attempts ... WHERE work_item_id=$1 AND status IN (...)] *)
Definition cancel_attempts (now : Z) (wi : string) (c : Core) : result DbErr Core :=
  inr (set_run_attempts (fmap (λ a : RunAttempt,
    if String.eqb (ra_wi a) wi && ra_live (ra_status a)
    then ra_with_status now RCancelled a else a)) c).

Definition wi_status_text (st : WiStatus) : string :=
  match st with
  | WQueued => "queued" | WRunning => "running" | WPaused => "paused"
  | WBlocked => "blocked" | WWrapped => "wrapped" | WFailed => "failed"
  | WCancelled => "cancelled"
  end.

Definition cancel_body (cx : Ctx) (wi user : string) (isReporter : bool)
  (callerRole projectRole : string) : Tx unit :=
  r <- query (select_wi_by_id wi) ;;
  w <- or_throw dbErr r ;;
  throw_opt (cancelGate (wi_status w) isReporter callerRole projectRole) ;;;
  r1 <- exec (update_wi wi (wi_with_status (cx_now cx) WCancelled)) ;;
  or_throw dbErr r1 ;;;
  r2 <- exec (cancel_attempts (cx_now cx) wi) ;;
  or_throw dbErr r2 ;;;
  r3 <- releaseLocks (releaseCancelledWILocks wi)
          (withExtra [("prior_wi_status", JStr (wi_status_text (wi_status w)))]
             (newLockOp (cx_op1 cx) "wi_cancelled" (mkActor user ""))) ;;
  or_throw dbErr r3 ;;;
  commit_tail tt.

Definition CancelWorkItem (env : Env) (f : option Fault) (cx : Ctx)
  (idOrSlug user role : string) (roles : gmap string string) (d0 d : Db)
  : result AihubError unit * Db :=
  match GetWorkItem f idOrSlug d0 with
  | inl e => (inl e, d)
  | inr w0 =>
      let isReporter := String.eqb (wi_reporter w0) user in
      let projectRole := match roles !! wi_project w0 with
                         | Some r => r | None => "" end in
      match cancelGate (wi_status w0) isReporter role projectRole with
      | Some e => (inl e, d)
      | None => runTx env (cancel_body cx (wi_id w0) user isReporter role projectRole) d
      end
  end.

(** ** Instances *)

#[export] Instance swallow_internal_robust m :
  Robust m → Robust (swallow_internal m).
Proof.
  intros Hm. split.
  - intros s Hs. unfold swallow_internal. pose proof (robust_sticky (m:=m) s Hs).
    destruct (m s) as [[e|[]] s']; [destruct (decide _)|]; done.
  - intros s i Hsi. unfold swallow_internal. pose proof (robust_sim (m:=m) s i Hsi) as Ho.
    destruct (m s) as [r s'], (m i) as [ri i']; unfold outcome in *; simpl in *.
    destruct Ho as [Ha|[Hl|[-> Hs]]].
    + left. by destruct r as [e|[]]; [destruct (decide _)|].
    + right; left. by destruct r as [e|[]], ri as [e'|[]];
        repeat destruct (decide _).
    + right; right. by destruct ri as [e|[]]; [destruct (decide _)|].
Qed.

#[export] Instance takeover_body_robust cx u dn s req w p pa :
  Robust (takeover_body cx u dn s req w p pa).
Proof. solve_robust. Qed.
#[export] Instance takeover_body_commits cx u dn s req w p pa :
  CommitsOnOk (takeover_body cx u dn s req w p pa).
Proof. solve_commits. Qed.
#[export] Instance acquire_body_robust cx wiID req : Robust (acquire_body cx wiID req).
Proof. solve_robust. Qed.
#[export] Instance acquire_body_commits cx wiID req :
  CommitsOnOk (acquire_body cx wiID req).
Proof. solve_commits. Qed.
#[export] Instance record_pins_robust cx wiID req pins :
  Robust (record_pins_body cx wiID req pins).
Proof. solve_robust. Qed.
#[export] Instance record_pins_commits cx wiID req pins :
  CommitsOnOk (record_pins_body cx wiID req pins).
Proof. solve_commits. Qed.
#[export] Instance cancel_body_robust cx wi u r role prole :
  Robust (cancel_body cx wi u r role prole).
Proof. solve_robust. Qed.
#[export] Instance cancel_body_commits cx wi u r role prole :
  CommitsOnOk (cancel_body cx wi u r role prole).
Proof. solve_commits. Qed.
