(* ===== verification/CommitLocks.v ===== *)
(** * The commit-time lock gate

    [internal/domain/commit_locks.go]: before a commit, the paths it writes are
    compared with the file locks the attempt holds; the missing locks are taken,
    and the whole call is refused when another live attempt holds one of them.
    The lookup of the work item takes no row lock, which the serializable
    transaction of the model does not distinguish from [claim_lock_wi]. *)

From S2P Require Import Prelude GoStrings Errors Json Crypto Declared Locks Store.
From S2P Require Import TxLogic ResourceEvents Attempts Claim Takeover.

Open Scope nat_scope.
Open Scope list_scope.
Open Scope tx_scope.

(** ** Data *)

Record ReconcileCommitLocksRequest : Type := mkReconcile {
  rc_attempt : string; rc_epoch : Z; rc_secret : string;
  rc_repo : string; rc_paths : list string; rc_merge : bool;
}.

Record ReconcileCommitLocksResponse : Type := mkReconciled {
  rp_checked : nat;
  rp_covered : list string;
  rp_probed : nat;
  rp_acquired_paths : list string;
  rp_acquired : list ResourceLock;
}.

(** ** The refusal *)

Definition CommitLockRefusalAdvice : string :=
  "Those files belong to another live attempt. Do NOT force a takeover: " +:+
  "the holder is editing them. Either wait for it to finish, or take them out of this commit, " +:+
  "which takes TWO steps: a plain retry re-runs `git add -A` and re-stages exactly what step 1 " +:+
  "removed, earning the same refusal. " +:+
  "(1) `git restore --staged <blocked paths>` " +:+
  "(2) retry with paths=[the files that are left].".

Definition CommitLockMergeRefusalAdvice : string :=
  "This is a MERGE commit, and the usual remedy is UNSAFE here: " +:+
  "`git restore --staged` on a path the other side brought in has nothing in HEAD to reset to, " +:+
  "so it records the merge as DELETING that file. That deletion does not show up in the merge's " +:+
  "own diff, and it lands on the base branch when the PR merges. Do NOT do it, and do NOT force " +:+
  "a takeover. Get the lock released instead: wait for the holder to finish, or ask it to pause, " +:+
  "then re-run this commit with the merge still in progress. `git merge --abort` is the fallback " +:+
  "if you cannot wait, but it discards your conflict resolutions along with the merge.".

Definition CommitLockAdviceFor (merge : bool) : string :=
  if merge then CommitLockMergeRefusalAdvice else CommitLockRefusalAdvice.

(** [conflicts] is [first :: rest]: the callers pass at least one. *)
Definition commitLockConflictErr (first : commitLockConflict)
  (rest : list commitLockConflict) (merge : bool) : AihubError :=
  NewErrDetails ErrConflictLockTaken
    (DCommitConflicts (first :: rest) (cc_attempt first) (cc_display first)
       (cc_slug first) (cc_path <$> first :: rest) (CommitLockAdviceFor merge)).

(** ** Coverage *)

(** [heldFileScopeKeysSQL] *)
Definition select_held_keys (att : string) (c : Core) : result DbErr (list string) :=
  inr ((λ kl, kl.1.2) <$> map_to_list (filter (λ kl : (string * string) * LockRow,
         lk_owner kl.2 = att ∧ kl.1.1 = "file_scope") (resource_locks c))).

Definition heldFileScopeKeys (att : string) : Tx (list string) :=
  r <- query (select_held_keys att) ;;
  or_throw dbErr r.

Definition anyMatches (probe : lockConflictProbe) (held : list string) : bool :=
  existsb (Matches probe) held.

Record missingPath : Type := mkMissing {
  mp_path : string; mp_key : string; mp_probe : lockConflictProbe;
}.

Definition commit_item (repo p : string) : DeclaredResourceItem :=
  mkItem "path" ("file:" +:+ p) repo "write" "" "".

(** The variables of the loop that splits covered from missing. *)
Record SplitState : Type := mkSplit {
  sp_seen : gset string; sp_covered : list string; sp_missing : list missingPath;
}.

Definition split_one (project repo : string) (held : list string) (s : SplitState)
  (p : string) : SplitState :=
  if String.eqb p "" || bool_decide (p ∈ sp_seen s) then s
  else
    let seen := {[p]} ∪ sp_seen s in
    match derivedLockProbe (commit_item repo p) project with
    | None => mkSplit seen (sp_covered s) (sp_missing s)
    | Some (lockType, lockKey, probe) =>
        if negb (String.eqb lockType "file_scope") || String.eqb lockKey "" then
          mkSplit seen (sp_covered s) (sp_missing s)
        else if anyMatches probe held then
          mkSplit seen (sp_covered s ++ [p]) (sp_missing s)
        else mkSplit seen (sp_covered s) (sp_missing s ++ [mkMissing p lockKey probe])
    end.

Definition split_paths (project repo : string) (held paths : list string) : SplitState :=
  fold_left (split_one project repo held) paths (mkSplit ∅ [] []).

(** ** Phase 1: probe every missing path *)

Inductive ProbeOutcome : Type :=
  | PathOurs
  | PathConflict (c : commitLockConflict)
  | PathFree.

Definition conflict_at (m : missingPath) (o : string * string * string)
  : commitLockConflict := mkConflict (mp_path m) (mp_key m) o.1.1 o.1.2 o.2.

Definition probe_missing (att : string) (m : missingPath) : Tx ProbeOutcome :=
  r <- query (select_collision "file_scope" (mp_probe m) None) ;;
  match r with
  | inr o => tret (if String.eqb o.1.1 att then PathOurs
                   else PathConflict (conflict_at m o))
  | inl NoRows => tret PathFree
  | inl e => tthrow (dbErr e)
  end.

Definition ours_of (l : list (missingPath * ProbeOutcome)) : list string :=
  omap (λ mo, match mo.2 with PathOurs => Some (mp_path mo.1) | _ => None end) l.
Definition conflicts_of (l : list (missingPath * ProbeOutcome))
  : list commitLockConflict :=
  omap (λ mo, match mo.2 with PathConflict c => Some c | _ => None end) l.
Definition free_of (l : list (missingPath * ProbeOutcome)) : list missingPath :=
  omap (λ mo, match mo.2 with PathFree => Some mo.1 | _ => None end) l.

(** ** Phase 2: take the free ones *)

Definition gate_op (cx : Ctx) : lockOpCtx :=
  newLockOp (cx_op1 cx) "commit_gate" (mkActor "" "").
Definition gate_reclaim_op (cx : Ctx) (att : string) : lockOpCtx :=
  withExtra [("reclaimed_by_attempt_id", JStr att);
             ("reclaimed_by_cause", JStr "commit_gate")]
    (newLockOp (cx_op2 cx) "orphan_reclaim" (mkActor "" "")).

(** One free path: [true] when its lock was taken, [false] when it turned out
    to be covered. *)
Definition take_path (cx : Ctx) (req : ReconcileCommitLocksRequest) (w : WorkItem)
  (m : missingPath) : Tx bool :=
  took <- acquireLockIfFree "file_scope" (mp_key m) (rc_attempt req) (rc_epoch req)
            (wi_project w) (wi_id w) (gate_op cx) ;;
  match took with
  | inl e => tthrow (dbErrCause e)
  | inr true => tret true
  | inr false =>
      r <- query (select_collision "file_scope" (mp_probe m) None) ;;
      match r with
      | inr o =>
          if String.eqb o.1.1 (rc_attempt req) then tret false
          else tthrow (commitLockConflictErr (conflict_at m o) [] (rc_merge req))
      | inl NoRows =>
          reclaim_key (gate_reclaim_op cx (rc_attempt req)) (rc_attempt req)
            (rc_epoch req) w "file_scope" (mp_key m) ;;;
          tret true
      | inl e => tthrow (dbErr e)
      end
  end.

Definition taken_of (l : list (missingPath * bool)) : list missingPath :=
  omap (λ mt, if mt.2 : bool then Some mt.1 else None) l.
Definition raced_of (l : list (missingPath * bool)) : list missingPath :=
  omap (λ mt, if mt.2 : bool then None else Some mt.1) l.

Definition commit_lock_row (req : ReconcileCommitLocksRequest) (m : missingPath)
  : ResourceLock := mkRLock "file_scope" (mp_key m) (rc_attempt req) (rc_epoch req).

(** ** The handler *)

Definition reconcile_take (cx : Ctx) (req : ReconcileCommitLocksRequest)
  (w : WorkItem) (s : SplitState) : Tx ReconcileCommitLocksResponse :=
  outs <- tmap (probe_missing (rc_attempt req)) (sp_missing s) ;;
  let probed := zip (sp_missing s) outs in
  match conflicts_of probed with
  | first :: rest => tthrow (commitLockConflictErr first rest (rc_merge req))
  | [] =>
      took <- tmap (take_path cx req w) (free_of probed) ;;
      let done := zip (free_of probed) took in
      commit_tail
        (mkReconciled (size (sp_seen s))
           (sp_covered s ++ ours_of probed ++ (mp_path <$> raced_of done))
           (length (sp_missing s))
           (mp_path <$> taken_of done)
           (commit_lock_row req <$> taken_of done))
  end.

(** From the held keys to the answer. *)
Definition reconcile_gate (cx : Ctx) (req : ReconcileCommitLocksRequest)
  (w : WorkItem) : Tx ReconcileCommitLocksResponse :=
  held <- heldFileScopeKeys (rc_attempt req) ;;
  let s := split_paths (wi_project w) (rc_repo req) held (rc_paths req) in
  match sp_missing s with
  | [] => commit_tail (mkReconciled (size (sp_seen s)) (sp_covered s) 0 [] [])
  | _ => reconcile_take cx req w s
  end.

Definition reconcile_body (cx : Ctx) (wiID : string)
  (req : ReconcileCommitLocksRequest) : Tx ReconcileCommitLocksResponse :=
  w <- claim_lock_wi wiID ;;
  if negb (bool_decide (wi_status w = WRunning)) then
    tthrow (NewErr ErrAttemptMismatch)
  else
    verifyAttemptCredential cx w (rc_attempt req) (rc_epoch req) (rc_secret req) ;;;
    reconcile_gate cx req w.

Definition FnReconcileCommitLocks (env : Env) (cx : Ctx) (wiID : string)
  (req : ReconcileCommitLocksRequest) (d : Db)
  : result AihubError ReconcileCommitLocksResponse * Db :=
  if String.eqb (rc_repo req) "" then (inl (NewErr ErrBadRequest), d)
  else runTx env (reconcile_body cx wiID req) d.

(** ** Instances *)

#[export] Instance reconcile_body_robust cx wiID req : Robust (reconcile_body cx wiID req).
Proof. solve_robust. Qed.
#[export] Instance reconcile_body_commits cx wiID req :
  CommitsOnOk (reconcile_body cx wiID req).
Proof. solve_commits. Qed.
