(* ===== verification/Edit.v ===== *)
(** * Editing a work item

    [UpdateWorkItem] of [internal/domain/work_items.go] with everything it
    calls: the validation of fields ([work_item_fields.go]), the editability
    matrix, the compiled UPDATE with its compare-and-set, and the narrowing
    that releases the locks of paths no longer declared.

    The transaction runs at READ COMMITTED.  It locks the row of the item with
    its first statement, reads only that row, and writes the lock table with a
    single DELETE; its effect is the one it has alone on the database it meets
    at that DELETE, and it is modelled so. *)

From stdpp Require Import pretty sorting.
From S2P Require Import Prelude GoStrings Errors Json Crypto Declared Locks Store.
From S2P Require Import TxLogic ResourceEvents Attempts Claim Takeover.

Open Scope nat_scope.
Open Scope list_scope.
Open Scope tx_scope.

(** ** Field vocabularies and limits *)

Definition workItemPriorities : list string := ["low"; "normal"; "high"; "urgent"].
Definition maxWorkItemGoalRunes : nat := Z.to_nat 500.
Definition maxWorkItemLabels : nat := 20.
Definition maxWorkItemContentRunes : nat := Z.to_nat 20000.

(** [allowed] is sorted, as [sortedKeys] returns it. *)
Definition vocabularyErr (field got : string) (allowed : list string) : AihubError :=
  NewErrDetails ErrBadRequest (DVocabulary field got (merge_sort string_le allowed)).

Definition validateWorkItemPriority (priority : string) : result AihubError unit :=
  if bool_decide (priority ∈ workItemPriorities) then Ok tt
  else Err (vocabularyErr "priority" priority workItemPriorities).

Definition validateWorkItemLabels (labels : list string) : result AihubError unit :=
  if maxWorkItemLabels <? length labels then
    Err (NewErrDetails ErrBadRequest
           (DLimit "labels" (Z.of_nat (length labels)) (Z.of_nat maxWorkItemLabels)))
  else Ok tt.

Definition validateWorkItemGoalShape (goal : string) : result AihubError unit :=
  if maxWorkItemGoalRunes <? RuneCountInString goal then Err (NewErr ErrBadRequest)
  else if containsAny goal (bytes [10; 13]) then Err (NewErr ErrGoalMultiline)
  else Ok tt.

Definition validateWorkItemGoalPresent (goal : string) : result AihubError unit :=
  if String.eqb goal "" then Err (NewErr ErrBadRequest) else Ok tt.

Definition validateWorkItemContent (content : option string) : result AihubError unit :=
  match content with
  | None => Ok tt
  | Some s =>
      if maxWorkItemContentRunes <? RuneCountInString s then
        Err (NewErrDetails ErrBadRequest
               (DLimit "content" (Z.of_nat (RuneCountInString s))
                  (Z.of_nat maxWorkItemContentRunes)))
      else Ok tt
  end.

(** ** The request *)

(** A JSON field that was not sent is [None]; one sent as [null] is
    [Some (RawJSON JNull)]. *)
Record UpdateWorkItemRequest : Type := mkUpdate {
  Priority : option string;
  Milestone : option string;
  WIType : option string;
  RequiresHumanSession : option bool;
  ReclassifyReason : option string;
  Labels : option (list string);
  DeclaredResources : option RawMessage;
  ResourcesVersion : option Z;
  Attrs : option RawMessage;
  AttrsPatch : option RawMessage;
  AttrsUnset : option (list string);
  Goal : option string;
  GoalChangeReason : option string;
  Content : option string;
}.

Definition set_declared (d : option RawMessage) (r : UpdateWorkItemRequest)
  : UpdateWorkItemRequest :=
  mkUpdate (Priority r) (Milestone r) (WIType r) (RequiresHumanSession r)
    (ReclassifyReason r) (Labels r) d (ResourcesVersion r) (Attrs r) (AttrsPatch r)
    (AttrsUnset r) (Goal r) (GoalChangeReason r) (Content r).
Definition set_patch (p : option RawMessage) (u : option (list string))
  (r : UpdateWorkItemRequest) : UpdateWorkItemRequest :=
  mkUpdate (Priority r) (Milestone r) (WIType r) (RequiresHumanSession r)
    (ReclassifyReason r) (Labels r) (DeclaredResources r) (ResourcesVersion r)
    (Attrs r) p u (Goal r) (GoalChangeReason r) (Content r).

Definition raw_null (raw : RawMessage) : bool :=
  match raw with RawJSON JNull => true | _ => false end.

(** [None] when the value is absent or satisfies [drop]. *)
Definition unless {A} (drop : A → bool) (o : option A) : option A :=
  match o with Some x => if drop x then None else Some x | None => None end.

Definition normalizeDeclaredResources (r : UpdateWorkItemRequest)
  : UpdateWorkItemRequest :=
  set_declared (unless raw_null (DeclaredResources r)) r.

Definition normalizeAttrsPatch (r : UpdateWorkItemRequest) : UpdateWorkItemRequest :=
  set_patch (unless raw_null (AttrsPatch r))
    (unless (λ l, Nat.eqb (length l) 0) (AttrsUnset r)) r.

(** ** Parameters that must be JSON objects *)

Definition jsonValueKind (raw : RawMessage) : string :=
  match raw with
  | RawEmpty | RawInvalid => "malformed JSON"
  | RawJSON (JObj _) => "a JSON object"
  | RawJSON (JArr _) => "a JSON array"
  | RawJSON (JStr _) => "a JSON string"
  | RawJSON (JBool _) => "a JSON boolean"
  | RawJSON (JNum _) => "a JSON number"
  | RawJSON JNull => "a JSON null"
  end.

(** The byte count and what an encoded string decodes to are left out of the
    details: the model has values, not their text. *)
Definition jsonObjectParamErr (field : string) (raw : RawMessage) : AihubError :=
  NewErrDetails ErrBadRequest (DField field (jsonValueKind raw)).

(** [json.Unmarshal] into a map gives a non-nil map. *)
Definition raw_object (raw : RawMessage) : bool :=
  match raw with RawJSON (JObj _) => true | _ => false end.

Definition validateJSONObjectParam (field : string) (raw : option RawMessage)
  : result AihubError unit :=
  match raw with
  | None => Ok tt
  | Some raw =>
      if raw_absent raw then Ok tt
      else if raw_object raw then Ok tt
      else Err (jsonObjectParamErr field raw)
  end.

Definition validateAttrsPatch (r : UpdateWorkItemRequest) : result AihubError unit :=
  rbind (match AttrsPatch r with
         | Some p => if raw_object p then Ok tt else Err (jsonObjectParamErr "attrs_patch" p)
         | None => Ok tt
         end) (λ _,
  rbind (validateJSONObjectParam "attrs" (Attrs r)) (λ _,
    if bool_decide (is_Some (Attrs r))
       && (bool_decide (is_Some (AttrsPatch r)) || bool_decide (is_Some (AttrsUnset r)))
    then Err (NewErr ErrBadRequest) else Ok tt)).

(** ** The editability matrix *)

Inductive wiEditTier : Type := wiTierRecord | wiTierWorking | wiTierContract.
Inductive wiStatusClass : Type :=
  | wiStatusOpen | wiStatusLive | wiStatusClosed | wiStatusUnknown.

#[export] Instance wiEditTier_eq_dec : EqDecision wiEditTier.
Proof. solve_decision. Defined.

(** The [iota] values the code compares. *)
Definition tier_rank (t : wiEditTier) : nat :=
  match t with wiTierRecord => 0 | wiTierWorking => 1 | wiTierContract => 2 end.

(** The stored status is text; the rows of the model hold legal ones only. *)
Definition wiStatusClassOf (status : string) : wiStatusClass :=
  if bool_decide (status ∈ ["queued"; "paused"; "blocked"]) then wiStatusOpen
  else if String.eqb status "running" then wiStatusLive
  else if bool_decide (status ∈ ["wrapped"; "failed"; "cancelled"]) then wiStatusClosed
  else wiStatusUnknown.

Definition wiEditTierByField : list (string * wiEditTier) :=
  [("goal", wiTierContract); ("wi_type", wiTierContract);
   ("content", wiTierWorking); ("labels", wiTierWorking);
   ("priority", wiTierWorking); ("milestone", wiTierWorking);
   ("requires_human_session", wiTierWorking); ("declared_resources", wiTierWorking);
   ("attrs", wiTierRecord); ("attrs_patch", wiTierRecord); ("attrs_unset", wiTierRecord)].

(** A field the table misses counts as the strictest tier. *)
Definition tier_of_field (field : string) : wiEditTier :=
  match List.find (λ ft : string * wiEditTier, String.eqb ft.1 field) wiEditTierByField with
  | Some ft => ft.2
  | None => wiTierContract
  end.

Definition supplied {A} (name : string) (o : option A) : list string :=
  match o with Some _ => [name] | None => [] end.

Definition suppliedEditFields (r : UpdateWorkItemRequest) : list string :=
  supplied "goal" (Goal r) ++ supplied "wi_type" (WIType r)
  ++ supplied "content" (Content r) ++ supplied "labels" (Labels r)
  ++ supplied "priority" (Priority r) ++ supplied "milestone" (Milestone r)
  ++ supplied "requires_human_session" (RequiresHumanSession r)
  ++ supplied "declared_resources" (DeclaredResources r)
  ++ supplied "attrs" (Attrs r) ++ supplied "attrs_patch" (AttrsPatch r)
  ++ supplied "attrs_unset" (AttrsUnset r).

(** One pass of the loop: the first field of the strictest tier so far. *)
Definition stricter (acc : option (wiEditTier * string)) (f : string)
  : option (wiEditTier * string) :=
  match acc with
  | None => Some (tier_of_field f, f)
  | Some (tier, field) =>
      if tier_rank tier <? tier_rank (tier_of_field f) then Some (tier_of_field f, f)
      else Some (tier, field)
  end.

Definition strictestSuppliedEditTier (r : UpdateWorkItemRequest)
  : option (wiEditTier * string) :=
  fold_left stricter (suppliedEditFields r) None.

Definition updateGate (status : string) (tier : wiEditTier) (isReporter : bool)
  (callerRole projectRole : string) : option AihubError :=
  if decide (tier = wiTierRecord) then None
  else
    let permission :=
      if decide (tier = wiTierContract) then
        if String.eqb callerRole "admin" || String.eqb projectRole "maintainer" || isReporter
        then None else Some (NewErr ErrForbidden)
      else None in
    match wiStatusClassOf status with
    | wiStatusLive =>
        if decide (tier = wiTierContract) then Some (NewErr ErrConflictWIAlreadyClaimed)
        else permission
    | wiStatusClosed | wiStatusUnknown => Some (NewErr ErrConflictTerminalState)
    | wiStatusOpen => permission
    end.

(** ** Checks before the transaction *)

Definition opt_check {A} (f : A → result AihubError unit) (o : option A)
  : result AihubError unit :=
  match o with Some x => f x | None => Ok tt end.

Definition reason_given (reason : option string) : bool :=
  match reason with Some s => 10 <=? String.length s | None => false end.

Definition opt_err (o : option AihubError) : result AihubError unit :=
  match o with Some e => Err e | None => Ok tt end.

Definition edit_gate (w : WorkItem) (user role : string) (roles : gmap string string)
  (r : UpdateWorkItemRequest) : result AihubError unit :=
  match strictestSuppliedEditTier r with
  | None => Ok tt
  | Some (tier, _) =>
      opt_err (updateGate (wi_status_text (wi_status w)) tier
                 (String.eqb (wi_reporter w) user) role
                 (match roles !! wi_project w with Some r => r | None => "" end))
  end.

Definition goal_shape (r : UpdateWorkItemRequest) : result AihubError unit :=
  opt_check (λ g,
    if negb (reason_given (GoalChangeReason r)) then Err (NewErr ErrBadRequest)
    else rbind (validateWorkItemGoalPresent g) (λ _, validateWorkItemGoalShape g)) (Goal r).

Definition type_shape (r : UpdateWorkItemRequest) : result AihubError unit :=
  opt_check (λ _,
    if negb (reason_given (ReclassifyReason r)) then Err (NewErr ErrBadRequest)
    else Ok tt) (WIType r).

Section url.
Variable url_parse : string → option (string * string * string).

(** From the row of the snapshot to the normalized request. *)
Definition edit_checks (w : WorkItem) (user role : string) (roles : gmap string string)
  (req : UpdateWorkItemRequest) : result AihubError UpdateWorkItemRequest :=
  let r := normalizeDeclaredResources req in
  rbind (opt_check (ValidateDeclaredResources url_parse) (DeclaredResources r)) (λ _,
  rbind (opt_check validateWorkItemPriority (Priority r)) (λ _,
  rbind (opt_check validateWorkItemLabels (Labels r)) (λ _,
  rbind (validateWorkItemContent (Content r)) (λ _,
  let r := normalizeAttrsPatch r in
  rbind (validateAttrsPatch r) (λ _,
  rbind (edit_gate w user role roles r) (λ _,
  rbind (goal_shape r) (λ _,
  rbind (type_shape r) (λ _, Ok r)))))))).
End url.

(** ** The compiled UPDATE *)

Definition pgInvalidText : string := "22P02".
Definition pgNumericOutOfRange : string := "22003".
Definition pgSyntaxError : string := "42601".

Definition in_int32 (z : Z) : bool := Z.leb (- 2 ^ 31) z && Z.ltb z (2 ^ 31).

(** A parameter cast to [jsonb].  Its other refusals (a lone surrogate, a number
    out of range, the size limits) are left out. *)
Definition jsonb (raw : RawMessage) : result DbErr json :=
  match raw with
  | RawJSON j => if has_nul j then inl (PgError pgUntranslatableCharacter) else inr j
  | _ => inl (PgError pgInvalidText)
  end.

(** [a || b]: two objects merge, anything else becomes an array. *)
Definition jsonb_concat (a b : json) : json :=
  match a, b with
  | JObj o, JObj p => JObj (filter (λ kv : string * json, kv.1 ∉ p.*1) o ++ p)
  | _, _ => JArr (match a with JArr l => l | _ => [a] end
                  ++ match b with JArr l => l | _ => [b] end)
  end.

(** [a - keys] *)
Definition jsonb_minus (a : json) (keys : list string) : result DbErr json :=
  match a with
  | JObj o => inr (JObj (filter (λ kv : string * json, kv.1 ∉ keys) o))
  | JArr l => inr (JArr (List.filter (λ x, match x with
                    | JStr s => negb (bool_decide (s ∈ keys)) | _ => true end) l))
  | _ => inl (PgError "22023")
  end.

Definition attrsAsObject (attrs : json) : json :=
  match attrs with JObj o => JObj o | _ => JObj [] end.

(** The SET clauses of the [attrs] column; two for one column is an error. *)
Definition updated_attrs (r : UpdateWorkItemRequest) (old : json) : result DbErr json :=
  match Attrs r, AttrsPatch r, AttrsUnset r with
  | None, None, None => inr old
  | Some raw, None, None => jsonb raw
  | Some _, _, _ => inl (PgError pgSyntaxError)
  | None, patch, unset =>
      rbind (match patch with
             | Some raw => rbind (jsonb raw) (λ p, inr (jsonb_concat (attrsAsObject old) p))
             | None => inr (attrsAsObject old)
             end) (λ merged,
        match unset with Some keys => jsonb_minus merged keys | None => inr merged end)
  end.

(** The column CHECKs of migrations 0002 and 0011. *)
Definition work_item_checks (goal : string) (doc : WorkItemDoc) : bool :=
  (RuneCountInString goal <=? maxWorkItemGoalRunes)
  && negb (containsAny goal (bytes [10; 13]))
  && bool_decide (doc_priority doc ∈ workItemPriorities)
  && (length (doc_labels doc) <=? maxWorkItemLabels)
  && match doc_content doc with
     | Some s => RuneCountInString s <=? maxWorkItemContentRunes
     | None => true
     end.

Definition or_old {A} (new : option A) (old : A) : A :=
  match new with Some x => x | None => old end.
Definition or_old_opt {A} (new old : option A) : option A :=
  match new with Some x => Some x | None => old end.

Definition updated_doc (r : UpdateWorkItemRequest) (doc : WorkItemDoc) (attrs : json)
  : WorkItemDoc :=
  mkDoc (or_old (Priority r) (doc_priority doc)) (or_old_opt (Milestone r) (doc_milestone doc))
    (or_old (Labels r) (doc_labels doc)) (or_old_opt (Content r) (doc_content doc)) attrs
    (doc_seq doc) (doc_scenario doc) (doc_source doc) (doc_display doc) (doc_parent doc).

(** The text parameters of the statement. *)
Definition update_texts (r : UpdateWorkItemRequest) : list string :=
  let texts (o : option string) := match o with Some s => [s] | None => [] end in
  texts (Goal r) ++ texts (WIType r) ++ texts (Priority r) ++ texts (Milestone r)
  ++ texts (Content r) ++ default [] (Labels r) ++ default [] (AttrsUnset r).

(** Index row-size limits, which a long milestone or label can meet, are left
    out. *)
Definition updated_row (r : UpdateWorkItemRequest) (w : WorkItem) : result DbErr WorkItem :=
  rbind (texts_in (update_texts r)) (λ _,
  rbind (updated_attrs r (doc_attrs (wi_doc w))) (λ attrs,
  rbind (match DeclaredResources r with
         | None => inr (wi_declared w, wi_resources_version w)
         | Some raw =>
             rbind (jsonb raw) (λ j,
               if in_int32 (wi_resources_version w + 1)
               then inr (RawJSON j, (wi_resources_version w + 1)%Z)
               else inl (PgError pgNumericOutOfRange))
         end) (λ dv,
    let goal := or_old (Goal r) (wi_goal w) in
    let doc := updated_doc r (wi_doc w) attrs in
    if work_item_checks goal doc then
      inr (mkWI (wi_id w) (wi_slug w) (wi_project w) goal
             (or_old_opt (WIType r) (wi_type w))
             (or_old_opt (RequiresHumanSession r) (wi_rhs w))
             (wi_status w) dv.1 dv.2 (wi_reporter w) (wi_current w) (wi_epoch w)
             (wi_mode w) (wi_closed_at w) doc)
    else inl (PgError pgCheckViolation)))).

(** The statement; the answer is whether a row was written.  The version is
    sent as an [int4] parameter. *)
Definition buildWorkItemUpdate (r : UpdateWorkItemRequest) (id : string) (c : Core)
  : result DbErr (bool * Core) :=
  rbind (match ResourcesVersion r with
         | Some v => if in_int32 v then inr tt else inl OtherErr
         | None => inr tt
         end) (λ _,
    match work_items c !! id with
    | None => inr (false, c)
    | Some w =>
        if match ResourcesVersion r with
           | Some v => negb (Z.eqb v (wi_resources_version w)) | None => false end
        then inr (false, c)
        else rbind (updated_row r w) (λ w',
               inr (true, set_work_items <[id := w']> c))
    end).

Definition casVersionUnknown : Z := -1.

Definition isCASConflict (cas rowsAffected : bool) : bool := cas && negb rowsAffected.

Definition casConflictErr (expected current : Z) : AihubError :=
  NewErrDetails ErrConflictCASFailed (DVersions expected current).

(** ** Narrowing *)

Record narrowingDiff : Type := mkDiff {
  PriorPaths : list string; NextPaths : list string;
  AddedPaths : list string; RemovedPaths : list string; ReleasedKeys : list string;
}.

Definition sort_strings (l : list string) : list string := merge_sort string_le l.
Definition paths_of (byKey : gmap string string) : list string := (map_to_list byKey).*2.
Definition uniqueSorted (byKey : gmap string string) : list string :=
  sort_strings (remove_dups (paths_of byKey)).

Definition removed_paths (priorLocks nextLocks : gmap string string) : list string :=
  remove_dups (filter (λ p, p ∉ paths_of nextLocks) (paths_of priorLocks)).

(** The subtraction, before anything is released. *)
Definition narrowing_of (priorLocks nextLocks : gmap string string) : narrowingDiff :=
  mkDiff (uniqueSorted priorLocks) (uniqueSorted nextLocks)
    (sort_strings (filter (λ p, p ∉ paths_of priorLocks) (paths_of nextLocks)))
    (sort_strings (removed_paths priorLocks nextLocks)) [].

Definition with_released (keys : list string) (d : narrowingDiff) : narrowingDiff :=
  mkDiff (PriorPaths d) (NextPaths d) (AddedPaths d) (RemovedPaths d) (sort_strings keys).

(** Every key form a removed path may be held under. *)
Definition removed_probe (project p : string) : lockConflictProbe :=
  fileScopeConflictProbe project "" ("file:" +:+ p).
Definition removed_keys (project : string) (ps : list string) : list string :=
  ps ≫= λ p, Keys (removed_probe project p).
Definition removed_patterns (project : string) (ps : list string) : list string :=
  filter (λ s, s ≠ "") ((λ p, LikePattern (removed_probe project p)) <$> ps).

(** [None] is [Readable: false].  The code sorts the parameters of the DELETE,
    which compares them as a set. *)
Definition releaseUndeclaredFileScopeLocks (wi project : string)
  (prior next : RawMessage) (op : lockOpCtx) : Tx (option narrowingDiff) :=
  match derivedFileScopeLocks prior project, derivedFileScopeLocks next project with
  | Some priorLocks, Some nextLocks =>
      let diff := narrowing_of priorLocks nextLocks in
      let ps := removed_paths priorLocks nextLocks in
      if decide (ps = []) then tret (Some diff)
      else
        r <- releaseLocks (releaseUndeclaredLocks wi (removed_keys project ps)
                             (removed_patterns project ps)) op ;;
        released <- or_throw dbErrCause r ;;
        tret (Some (with_released (ResourceKey <$> released) diff))
  | _, _ => tret None
  end.

(** ** The audit events *)

Definition resourceKeyListCap : nat := 60.

Definition cappedKeyList (keys : list string) : list string * bool :=
  let out := sort_strings keys in
  if resourceKeyListCap <? length out then (take resourceKeyListCap out, true)
  else (out, false).

Definition jstrings (l : list string) : json := JArr (JStr <$> l).

Definition declaredEntryCount (raw : RawMessage) : Z :=
  match raw with
  | RawEmpty | RawJSON JNull => 0
  | RawJSON (JArr l) => Z.of_nat (length l)
  | _ => -1
  end.

Definition resources_payload (priorVersion newVersion priorEntries newEntries : Z)
  (rel : option narrowingDiff) (user op : string) : jobj :=
  [("prior_resources_version", jint priorVersion);
   ("new_resources_version", jint newVersion);
   ("prior_entry_count", jint priorEntries);
   ("new_entry_count", jint newEntries);
   ("op_id", JStr op)]
  ++ match rel with
     | None => [("locked_paths_unreadable", JBool true)]
     | Some d =>
         let lists := [("prior_locked_paths", PriorPaths d); ("new_locked_paths", NextPaths d);
                       ("added_locked_paths", AddedPaths d);
                       ("removed_locked_paths", RemovedPaths d);
                       ("released_file_scope_keys", ReleasedKeys d)] in
         ((λ kl : string * list string, (kl.1, jstrings (cappedKeyList kl.2).1)) <$> lists)
         ++ (if existsb (λ kl : string * list string, (cappedKeyList kl.2).2) lists
             then [("keys_truncated", JBool true);
                   ("keys_truncated_at", jint (Z.of_nat resourceKeyListCap))] else [])
     end
  ++ (if String.eqb user "" then [] else [("changed_by", JStr user)]).

Definition emitResourcesUpdated (wi project : string)
  (priorVersion newVersion priorEntries newEntries : Z) (rel : option narrowingDiff)
  (user op : string) : Tx unit :=
  emitResourceEvents
    [mkREvent "wi_resources_updated" wi "" project (mkActor user "")
       (resources_payload priorVersion newVersion priorEntries newEntries rel user op)].

(** An audit row written in the transaction itself. *)
Definition audit (user : string) (w : WorkItem) (typ : string) (payload : jobj) : Tx unit :=
  r <- exec (insert_event (mkEvent typ (wi_id w) None (Some user) "" payload
                             (Some (wi_project w)))) ;;
  or_throw dbErr r.

Definition audit_goal (user : string) (w : WorkItem) (r : UpdateWorkItemRequest) : Tx unit :=
  match Goal r, GoalChangeReason r with
  | Some g, Some why =>
      audit user w "wi_goal_updated"
        [("old_goal", JStr (wi_goal w)); ("new_goal", JStr g); ("reason", JStr why);
         ("changed_by", JStr user)]
  | _, _ => tret tt
  end.

Definition jopt_bool (b : option bool) : json :=
  match b with Some b => JBool b | None => JNull end.

Definition audit_type (user : string) (w : WorkItem) (r : UpdateWorkItemRequest) : Tx unit :=
  match WIType r with
  | Some t =>
      audit user w "wi_reclassified"
        [("old_wi_type", JStr (or_old (wi_type w) ""));
         ("new_wi_type", JStr t);
         ("old_requires_human_session", jopt_bool (wi_rhs w));
         ("new_requires_human_session", jopt_bool (RequiresHumanSession r));
         ("reason", JStr (or_old (ReclassifyReason r) ""))]
  | None => tret tt
  end.

(** The first eight bytes of the digest, in hexadecimal. *)
Definition content_hash (content : option string) : string :=
  match content with
  | Some s => EncodeToString (take 8 (Sum256 (bytes_of s)))
  | None => ""
  end.

Definition audit_content (user : string) (w : WorkItem) (r : UpdateWorkItemRequest)
  : Tx unit :=
  match Content r with
  | Some s =>
      audit user w "wi_content_updated"
        [("old_content_hash", JStr (content_hash (doc_content (wi_doc w))));
         ("new_content_length", jint (Z.of_nat (String.length s)));
         ("changed_by", JStr user)]
  | None => tret tt
  end.

(** ** The transaction *)

(** [FOR UPDATE], only when the declarations are part of the patch. *)
Definition edit_read_prior (w : WorkItem) (r : UpdateWorkItemRequest)
  : Tx (RawMessage * Z) :=
  match DeclaredResources r with
  | Some _ =>
      q <- query (select_wi_by_id (wi_id w)) ;;
      v <- or_throw pgxErr q ;;
      tret (wi_declared v, wi_resources_version v)
  | None => tret (RawEmpty, casVersionUnknown)
  end.

(** A failed compare-and-set: what the row holds now. *)
Definition edit_cas_failed (w : WorkItem) (expected : Z) : Tx unit :=
  q <- query (select_wi_by_id (wi_id w)) ;;
  match q with
  | inl NoRows => tthrow (NewErr ErrNotFound)
  | inl _ => tthrow (casConflictErr expected casVersionUnknown)
  | inr v => tthrow (casConflictErr expected (wi_resources_version v))
  end.

Definition edit_update (w : WorkItem) (r : UpdateWorkItemRequest) : Tx unit :=
  u <- stmt (buildWorkItemUpdate r (wi_id w)) ;;
  rows <- or_throw dbErrCause u ;;
  match ResourcesVersion r with
  | Some expected =>
      if isCASConflict true rows then edit_cas_failed w expected else tret tt
  | None => tret tt
  end.

Definition edit_narrow (cx : Ctx) (user : string) (w : WorkItem)
  (prior : RawMessage * Z) (r : UpdateWorkItemRequest) : Tx unit :=
  match DeclaredResources r with
  | Some next =>
      let op := newLockOp (cx_op1 cx) "declaration_narrowed" (mkActor user "") in
      rel <- releaseUndeclaredFileScopeLocks (wi_id w) (wi_project w) prior.1 next op ;;
      q <- query (select_wi_by_id (wi_id w)) ;;
      v <- or_throw dbErr q ;;
      emitResourcesUpdated (wi_id w) (wi_project w) prior.2 (wi_resources_version v)
        (declaredEntryCount prior.1) (declaredEntryCount next) rel user (op_id op)
  | None => tret tt
  end.

(** [w] is the row of the snapshot, [r] the normalized request. *)
Definition edit_body (cx : Ctx) (user : string) (w : WorkItem) (r : UpdateWorkItemRequest)
  : Tx unit :=
  prior <- edit_read_prior w r ;;
  edit_update w r ;;;
  edit_narrow cx user w prior r ;;;
  audit_goal user w r ;;;
  audit_type user w r ;;;
  audit_content user w r ;;;
  commit_tail tt.

(** [d0] is the database of the first read, [later] what other requests made of
    the database before the last one. *)
Definition UpdateWorkItem (url_parse : string → option (string * string * string))
  (env : Env) (f1 f2 : option Fault) (cx : Ctx) (idOrSlug user role : string)
  (roles : gmap string string) (req : UpdateWorkItemRequest) (later : Db → Db) (d0 d : Db)
  : result AihubError WorkItem * Db :=
  match GetWorkItem f1 idOrSlug d0 with
  | inl e => (inl e, d)
  | inr w =>
      match edit_checks url_parse w user role roles req with
      | inl e => (inl e, d)
      | inr r =>
          match runTx env (edit_body cx user w r) d with
          | (inl e, d') => (inl e, d')
          | (inr _, d') => (GetWorkItem f2 (wi_id w) (later d'), d')
          end
      end
  end.

(** ** Instances *)

#[export] Instance edit_body_robust cx user w r : Robust (edit_body cx user w r).
Proof. solve_robust. Qed.
#[export] Instance edit_body_commits cx user w r : CommitsOnOk (edit_body cx user w r).
Proof. solve_commits. Qed.
