(* ===== verification/WorkflowStart.v ===== *)
(** * Starting a workflow step

    [StartWorkflowStep] of [internal/domain/workflow_run.go] with everything
    that decides whether a step may start: the revalidation of the pinned
    generation, the order of the steps, open repair authorizations and their
    roles, and human approvals.

    The handlers of this file and of [WorkflowRun] run at READ COMMITTED and
    lock the row of their work item first.  Every writer of the workflow tables
    does so, hence they are modelled as running alone. *)

From stdpp Require Import pretty sorting.
From S2P Require Import Prelude GoStrings Errors Json Crypto Declared Flow Policy.
From S2P Require Import WorkflowTables WorkflowPin Store ResourceEvents Attempts Claim.

Open Scope nat_scope.
Open Scope list_scope.
Open Scope tx_scope.

(** The random ids of a request. *)
Record WfIds : Type := mkIds {
  new_sa : string;                 (* NewID("sa") *)
  new_producer : string;           (* NewID("wfp") *)
  new_inv : string;                (* NewID("winv") *)
  new_result : string;             (* NewID("wres") *)
  new_approval : string;           (* NewID("wapp") *)
  new_repair : string;             (* NewID("wrep") *)
}.

(** ** Shared reads *)

(** A row of [work_items] with its workflow columns. *)
Definition getWorkflowWI (idOrSlug : string) : Tx (WorkItem * option (Flow * Z)) :=
  q <- query (λ c, rbind (select_wi idOrSlug c) (λ w,
                     inr (w, wf_pointers (workflow c) !! wi_id w))) ;;
  or_throw pgxErr q.

Definition steps_version (p : option (Flow * Z)) : Z :=
  match p with Some (_, v) => v | None => 0%Z end.

(** [requires_human_session] set and true. *)
Definition wi_human (w : WorkItem) : bool := default false (wi_rhs w).

Definition attemptActor (attempt : string) : Tx (string * string) :=
  q <- query (select_attempt attempt) ;;
  a <- or_throw dbErrCause q ;;
  tret (ra_actor a, ra_display a).

Definition insertWorkflowEvent (wi project user display typ : string) (payload : jobj)
  : Tx unit :=
  q <- exec (insert_event (mkEvent typ wi None (Some user) display payload (Some project))) ;;
  or_throw dbErrCause q.

(** [b] was recorded after [a]: [created_at], then [id]. *)
Definition row_newer (a b : Z * string) : bool :=
  Z.ltb a.1 b.1 || (Z.eqb a.1 b.1 && String.ltb a.2 b.2).

Definition result_stamp (kr : string * WfResult) : Z * string := (wr_created kr.2, kr.1).

(** [ORDER BY created_at DESC, id DESC LIMIT 1] *)
Definition newest {A} (stamp : string * A → Z * string) (rows : list (string * A))
  : option (string * A) :=
  fold_left (λ acc x, match acc with
                      | None => Some x
                      | Some y => if row_newer (stamp y) (stamp x) then Some x else Some y
                      end) rows None.

Definition generation_results (wi : string) (v : Z) (w : WorkflowTables)
  : list (string * WfResult) :=
  filter (λ kr : string * WfResult, wr_wi kr.2 = wi ∧ wr_version kr.2 = v)
    (map_to_list (wf_results w)).

Definition latest_result (wi : string) (v : Z) (step : string) (w : WorkflowTables)
  : option (string * WfResult) :=
  newest result_stamp
    (filter (λ kr : string * WfResult, wr_step kr.2 = step) (generation_results wi v w)).

(** [DISTINCT ON (step_id)]: what [latest[step]] holds. *)
Definition latestWorkflowResults (wi : string) (v : Z) : Tx (string → option WfResult) :=
  q <- query (λ c, inr (λ step, snd <$> latest_result wi v step (workflow c))) ;;
  or_throw dbErrCause q.

Definition find_step (flow : Flow) (id : string) : option Step :=
  List.find (λ s, String.eqb (st_id s) id) (fl_steps flow).

Definition workflowStepIndex (flow : Flow) (id : string) : nat :=
  match list_find (λ s, st_id s = id) (fl_steps flow) with
  | Some (i, _) => i
  | None => length (fl_steps flow)
  end.

Definition workflowStepFeeds (flow : Flow) (producer consumer : string) : bool :=
  existsb (λ s, String.eqb (st_id s) consumer
                && existsb (λ i, String.eqb (in_step i) producer) (st_inputs s))
    (fl_steps flow).

Definition stepHasCapability (meta : gmap string wiStepMeta) (step want : string) : bool :=
  match meta !! step with
  | Some m => existsb (String.eqb want) (Capabilities m)
  | None => false
  end.

(** ** Revalidation *)

Definition select_attempt_flow (attempt : string) (c : Core) : result DbErr (option Flow) :=
  match run_attempts c !! attempt with
  | None => inl NoRows
  | Some a =>
      match work_items c !! ra_wi a with
      | None => inl NoRows
      | Some w => inr (fst <$> wf_pointers (workflow c) !! wi_id w)
      end
  end.

Definition spec_of_step (s : Step) : WorkflowStepSpec :=
  mkSpec (st_id s) (st_skill s) (st_skill_version s) (st_rhs s) (st_models s)
    (st_params s) (st_inputs s).

Definition throw_result {A} (r : result AihubError A) : Tx A :=
  match r with inl e => tthrow e | inr a => tret a end.

Definition userRecordForAttempt (o : Outside) (attempt : string) : Tx UserRecord :=
  q <- query (λ c, rbind (select_attempt attempt c) (λ _, ou_user o attempt)) ;;
  or_throw dbErrCause q.

(** The stored flow, with the grants and metadata of a fresh pinning of it. *)
Definition revalidateWorkflowGeneration (o : Outside) (v : Z) (attempt : string)
  (wiRHS : bool) : Tx (Flow * gmap string StepGrant * gmap string wiStepMeta) :=
  q <- query (select_attempt_flow attempt) ;;
  stored <- or_throw dbErrCause q ;;
  match stored with
  | None => tthrow (NewErr ErrInternalError)
  | Some flow =>
      actor <- userRecordForAttempt o attempt ;;
      pin <- throw_result (pinWorkflowGeneration o v actor wiRHS
                             (spec_of_step <$> fl_steps flow)) ;;
      tret (flow, pn_grants pin, pn_meta pin)
  end.

(** ** The rows of a repair episode *)

Record episodeResultRow : Type := mkEpRow {
  er_step : string;
  er_attempt : string;
  er_status : string;              (* "" without a result *)
  er_stamp : option (Z * string);  (* created_at and id of the result *)
}.

Record episodeRoles : Type := mkRoles {
  ro_repair : list episodeResultRow;
  ro_verify : list episodeResultRow;
  ro_review : list episodeResultRow;
}.

(** The result of an invocation (LEFT JOIN). *)
Definition result_of (inv : string) (w : WorkflowTables) : option (string * WfResult) :=
  List.find (λ kr : string * WfResult, String.eqb (wr_inv kr.2) inv)
    (map_to_list (wf_results w)).

(** Invocations bound to an authorization, the superseded ones left out. *)
Definition bound_invocations (episode : string) (w : WorkflowTables)
  : list (string * Invocation) :=
  filter (λ ki : string * Invocation,
            iv_episode ki.2 = Some episode ∧ iv_status ki.2 ≠ InvSuperseded)
    (map_to_list (wf_invocations w)).

Definition row_of (w : WorkflowTables) (ki : string * Invocation) : episodeResultRow :=
  match result_of ki.1 w with
  | Some kr => mkEpRow (iv_step ki.2) (iv_attempt ki.2) (wr_status kr.2)
                 (Some (result_stamp kr))
  | None => mkEpRow (iv_step ki.2) (iv_attempt ki.2) "" None
  end.

(** [ORDER BY res.created_at, res.id]: rows without a result come last. *)
Definition stamp_le (a b : option (Z * string)) : bool :=
  match a, b with
  | _, None => true
  | None, Some _ => false
  | Some x, Some y => negb (row_newer y x)
  end.
Definition row_le (a b : episodeResultRow) : Prop := Is_true (stamp_le (er_stamp a) (er_stamp b)).
#[export] Instance row_le_dec : RelDecision row_le.
Proof. intros a b. unfold row_le. apply _. Defined.

Definition episode_rows (episode : string) (w : WorkflowTables) : list episodeResultRow :=
  merge_sort row_le (row_of w <$> bound_invocations episode w).

(** The replacement of a failed attempt under a retry of the episode. *)
Definition Replacement : Type := string * episodeResultRow.

Definition replacement_le (a b : Replacement) : Prop := row_le a.2 b.2.
#[export] Instance replacement_le_dec : RelDecision replacement_le.
Proof. intros a b. unfold replacement_le. apply _. Defined.

Definition retry_replacements (episode : string) (w : WorkflowTables) : list Replacement :=
  merge_sort replacement_le
    (filter (λ kr : string * Repair, rpr_parent kr.2 = Some episode)
       (map_to_list (wf_repairs w)) ≫= λ kr,
     (λ ki, (rpr_attempt kr.2, row_of w ki)) <$> bound_invocations kr.1 w).

(** The map, in which a later row of one failed attempt wins. *)
Definition loadEpisodeRetryReplacements (episode : string) (w : WorkflowTables)
  : gmap string episodeResultRow :=
  list_to_map (reverse (retry_replacements episode w)).

(** The chain of replacements of one row; [None] when it has more links than
    there are replacements, in which case the loop of the code never ends. *)
Fixpoint overlay (fuel : nat) (repl : gmap string episodeResultRow) (r : episodeResultRow)
  : option episodeResultRow :=
  match repl !! er_attempt r with
  | None => Some r
  | Some n =>
      if String.eqb (er_attempt n) "" then Some r
      else match fuel with
           | O => None
           | S fuel =>
               overlay fuel repl (mkEpRow (er_step r) (er_attempt n) (er_status n)
                                    (er_stamp n))
           end
  end.

Definition overlay_rows (repl : gmap string episodeResultRow) (rows : list episodeResultRow)
  : option (list episodeResultRow) :=
  mapM (overlay (size repl) repl) rows.

(** ** The roles of an episode *)

Section roles.
Variables (flow : Flow) (grants : gmap string StepGrant) (meta : gmap string wiStepMeta).
Variable failed : string.

Definition shared_writer (step : string) : bool :=
  let g := grant_of grants step in
  String.eqb (gr_authority g) AuthorityWrite && String.eqb (gr_isolation g) IsolationShared.
Definition isolated_reader (step : string) : bool :=
  let g := grant_of grants step in
  String.eqb (gr_authority g) AuthorityReadOnly && String.eqb (gr_isolation g) IsolationRequired.

(** Feeds the failed review and comes before it. *)
Definition upstream (step : string) : bool :=
  Nat.ltb (workflowStepIndex flow step) (workflowStepIndex flow failed)
  && workflowStepFeeds flow step failed.

Definition is_repair_row (r : episodeResultRow) : bool :=
  shared_writer (er_step r) && negb (stepHasCapability meta (er_step r) CapShipping)
  && negb (String.eqb (er_step r) failed) && upstream (er_step r).
Definition is_verify_row (r : episodeResultRow) : bool :=
  isolated_reader (er_step r) && stepHasCapability meta (er_step r) CapVerification.
Definition is_review_row (r : episodeResultRow) : bool :=
  isolated_reader (er_step r) && stepHasCapability meta (er_step r) CapReview.

Definition with_role (f : episodeResultRow → bool) (rows : list episodeResultRow)
  : list episodeResultRow := List.filter f rows.

(** [None]: some overlay does not end. *)
Definition roles_of (rows : list episodeResultRow) (repl : gmap string episodeResultRow)
  : option episodeRoles :=
  match overlay_rows repl (with_role is_repair_row rows),
        overlay_rows repl (with_role is_verify_row rows),
        overlay_rows repl (with_role is_review_row rows) with
  | Some a, Some b, Some c => Some (mkRoles a b c)
  | _, _, _ => None
  end.

(** An endless overlay is an error of the model. *)
Definition loadEpisodeRoleRows (episode : string) : Tx episodeRoles :=
  q <- query (λ c, inr (episode_rows episode (workflow c))) ;;
  rows <- or_throw dbErrCause q ;;
  q2 <- query (λ c, inr (loadEpisodeRetryReplacements episode (workflow c))) ;;
  repl <- or_throw dbErrCause q2 ;;
  match roles_of rows repl with
  | Some roles => tret roles
  | None => tthrow (NewErr ErrInternalError)
  end.

Definition row_completed (r : episodeResultRow) : bool :=
  String.eqb (er_status r) StatusCompleted.

Definition episodeRoleRowsCompleted (rows : list episodeResultRow) : bool :=
  negb (bool_decide (rows = [])) && forallb row_completed rows.

Definition checkEpisodeRolePrerequisites (episode target : string) : Tx unit :=
  roles <- loadEpisodeRoleRows episode ;;
  let other := negb (String.eqb target failed) in
  let repairDone := episodeRoleRowsCompleted (ro_repair roles) in
  if other && shared_writer target && upstream target then tret tt
  else if other && isolated_reader target && stepHasCapability meta target CapVerification
  then if repairDone then tret tt else tthrow (NewErr ErrConflictStepInProgress)
  else if repairDone && episodeRoleRowsCompleted (ro_verify roles) then tret tt
  else tthrow (NewErr ErrConflictStepInProgress).
End roles.

(** ** Open authorizations *)

Definition count_bound (episode : string) (st : InvStatus) (w : WorkflowTables) : nat :=
  length (filter (λ ki : string * Invocation,
                    iv_episode ki.2 = Some episode ∧ iv_status ki.2 = st)
            (map_to_list (wf_invocations w))).

(** A retry is done when its invocation has a result and none is open. *)
Definition retry_recorded (episode : string) : Tx bool :=
  q <- query (λ c, inr (count_bound episode InvOpen (workflow c),
                        count_bound episode InvRecorded (workflow c))) ;;
  n <- or_throw dbErrCause q ;;
  tret (Nat.eqb n.1 0 && Nat.ltb 0 n.2).

Definition select_generation (wi : string) (v : Z) (c : Core) : result DbErr Generation :=
  match wf_generations (workflow c) !! (wi, v) with
  | Some g => inr g
  | None => inl NoRows
  end.

Definition select_result_of (wi : string) (v : Z) (attempt : string) (c : Core)
  : result DbErr (string * WfResult) :=
  match List.find (λ kr : string * WfResult, String.eqb (wr_attempt kr.2) attempt)
          (generation_results wi v (workflow c)) with
  | Some kr => inr kr
  | None => inl NoRows
  end.

(** [a] strictly precedes [b]; a row without a result has the zero time. *)
Definition row_before (a b : option (Z * string)) : bool :=
  match a, b with
  | None, Some _ => true
  | Some x, Some y => row_newer x y
  | _, None => false
  end.

(** The last tests of [episodeRoleSetComplete]. *)
Definition role_set_complete (failed : Z * string) (roles : episodeRoles) : bool :=
  match ro_repair roles, ro_verify roles, ro_review roles with
  | p :: _, v :: _, r :: _ =>
      forallb row_completed (ro_repair roles ++ ro_verify roles ++ ro_review roles)
      && row_before (Some failed) (er_stamp p) && row_before (er_stamp p) (er_stamp v)
      && row_before (er_stamp v) (er_stamp r)
  | _, _, _ => false
  end.

Definition episodeRoleSetComplete (episode wi : string) (v : Z) (failedStep failedAttempt : string)
  : Tx bool :=
  q <- query (select_generation wi v) ;;
  g <- or_throw dbErrCause q ;;
  q2 <- query (select_result_of wi v failedAttempt) ;;
  match q2 with
  | inl NoRows => tret false
  | inl e => tthrow (dbErrCause e)
  | inr kr =>
      if negb (String.eqb (wr_verdict kr.2) ReviewFail)
         || negb (stepHasCapability (gn_meta g) failedStep CapReview)
      then tret false
      else
        roles <- loadEpisodeRoleRows (gn_steps g) (gn_grants g) (gn_meta g) failedStep episode ;;
        tret (role_set_complete (result_stamp kr) roles)
  end.

(** ** Approvals *)

Definition approval_of (wi : string) (v : Z) (step : string) (a : ArtifactRef)
  (w : WorkflowTables) : option (string * Approval) :=
  List.find (λ ka : string * Approval,
      String.eqb (wa_wi ka.2) wi && Z.eqb (wa_version ka.2) v && String.eqb (wa_step ka.2) step
      && bool_decide (wa_artifact ka.2 = a))
    (map_to_list (wf_approvals w)).

(** The latest result with the decision on exactly its artifact, if any. *)
Definition latest_decision (wi : string) (v : Z) (step : string) (w : WorkflowTables)
  : option (option string) :=
  match latest_result wi v step w with
  | None => None
  | Some kr => Some (wa_decision ∘ snd <$> approval_of wi v step (wr_artifact kr.2) w)
  end.

(** Any failure of the query counts as no rejection. *)
Definition targetStepRejectsLatest (wi : string) (v : Z) (s : Step) : Tx bool :=
  if negb (step_rhs s) then tret false
  else
    q <- query (λ c, match latest_decision wi v (st_id s) (workflow c) with
                     | Some (Some d) => inr d
                     | _ => inl NoRows
                     end) ;;
    tret (match q with inr d => String.eqb d ApprovalDenied | inl _ => false end).

Definition any_decision (wi : string) (v : Z) (step : string) (w : WorkflowTables) : bool :=
  existsb (λ ka : string * Approval,
      String.eqb (wa_wi ka.2) wi && Z.eqb (wa_version ka.2) v && String.eqb (wa_step ka.2) step)
    (map_to_list (wf_approvals w)).

(** One gating step; the two refusals of the middle case differ in the text. *)
Definition check_approval (wi : string) (v : Z) (step : string) : Tx unit :=
  q <- query (λ c, match latest_decision wi v step (workflow c) with
                   | Some d => inr d | None => inl NoRows end) ;;
  match q with
  | inl NoRows => tret tt
  | inl e => tthrow (dbErrCause e)
  | inr None =>
      q2 <- query (λ c, inr (any_decision wi v step (workflow c))) ;;
      _ <- or_throw dbErrCause q2 ;;
      tthrow (NewErr ErrConflictStepInProgress)
  | inr (Some d) =>
      if negb (String.eqb d ApprovalGranted) then tthrow (NewErr ErrConflictStepInProgress)
      else tret tt
  end.

Definition gates_start (target exclude : string) (s : Step) : bool :=
  negb (String.eqb (st_id s) target)
  && negb (negb (String.eqb exclude "") && String.eqb (st_id s) exclude)
  && step_rhs s.

Definition checkWorkflowStartApprovals (wi : string) (v : Z) (flow : Flow) (wiRHS : bool)
  (target exclude : string) : Tx unit :=
  if negb wiRHS then tret tt
  else tforeach (List.filter (gates_start target exclude) (fl_steps flow))
         (λ s, check_approval wi v (st_id s)).

(** ** The order of starts *)

Section ordering.
Variables (wi : string) (v : Z) (flow : Flow) (grants : gmap string StepGrant)
  (meta : gmap string wiStepMeta) (target : Step) (index : nat) (wiRHS : bool).

Definition select_repair (id : string) (c : Core) : result DbErr Repair :=
  match wf_repairs (workflow c) !! id with
  | Some r => inr r | None => inl NoRows end.

(** [WHERE id = $1 AND work_item_id = $2] *)
Definition select_own_repair (id : string) (c : Core) : result DbErr Repair :=
  rbind (select_repair id c) (λ r,
    if String.eqb (rpr_wi r) wi then inr r else inl NoRows).

Definition bound_to_step (episode step : string) (w : WorkflowTables) : bool :=
  existsb (λ ki : string * Invocation, String.eqb (iv_step ki.2) step)
    (bound_invocations episode w).

Definition start_under_retry (repairID : string) (r : Repair) : Tx unit :=
  if negb (String.eqb (st_id target) (rpr_step r)) then tthrow (NewErr ErrBadRequest)
  else
    q <- query (λ c, inr (length (bound_invocations repairID (workflow c)))) ;;
    n <- or_throw dbErrCause q ;;
    if Nat.ltb 0 n then tthrow (NewErr ErrConflictDuplicate) else tret tt.

(** The four roles a step may play in an episode. *)
Definition episode_role (failed : string) : bool :=
  let step := st_id target in
  String.eqb step failed
  || shared_writer grants step && Nat.ltb index (workflowStepIndex flow failed)
     && workflowStepFeeds flow step failed
  || isolated_reader grants step && stepHasCapability meta step CapVerification
  || isolated_reader grants step && stepHasCapability meta step CapReview
     && negb (String.eqb step failed).

Definition start_in_episode (repairID : string) (r : Repair) (failed : WfResult) : Tx unit :=
  if negb (String.eqb (wr_verdict failed) ReviewFail) then tthrow (NewErr ErrBadRequest)
  else if negb (stepHasCapability meta (rpr_step r) CapReview)
  then tthrow (NewErr ErrBadRequest)
  else
    q <- query (λ c, inr (bound_to_step repairID (st_id target) (workflow c))) ;;
    bound <- or_throw dbErrCause q ;;
    if (bound : bool) then tthrow (NewErr ErrConflictDuplicate)
    else if negb (episode_role (rpr_step r)) then tthrow (NewErr ErrBadRequest)
    else checkEpisodeRolePrerequisites flow grants meta (rpr_step r) repairID (st_id target).

Definition start_repair (latest : string → option WfResult) (repairID : string) : Tx unit :=
  q <- query (select_own_repair repairID) ;;
  r <- or_throw pgxErr q ;;
  if negb (rpr_open r) then tthrow (NewErr ErrConflictTerminalState)
  else if negb (Z.eqb (rpr_version r) v) then tthrow (NewErr ErrConflictStepAttemptMismatch)
  else match latest (rpr_step r) with
  | None => tthrow (NewErr ErrConflictStepAttemptMismatch)
  | Some failed =>
      if negb (String.eqb (wr_attempt failed) (rpr_attempt r))
      then tthrow (NewErr ErrConflictStepAttemptMismatch)
      else
        (if String.eqb (rpr_kind r) "retry" then start_under_retry repairID r
         else if String.eqb (rpr_kind r) "episode" then start_in_episode repairID r failed
         else tthrow (NewErr ErrBadRequest)) ;;;
        checkWorkflowStartApprovals wi v flow wiRHS (st_id target) (rpr_step r)
  end.

(** [ORDER BY created_at, id] *)
Definition repair_le (a b : string * Repair) : Prop :=
  Is_true (negb (row_newer (rpr_created b.2, b.1) (rpr_created a.2, a.1))).
#[export] Instance repair_le_dec : RelDecision repair_le.
Proof. intros a b. unfold repair_le. apply _. Defined.

Definition open_repairs (w : WorkflowTables) : list (string * Repair) :=
  merge_sort repair_le
    (filter (λ kr : string * Repair,
               rpr_wi kr.2 = wi ∧ rpr_version kr.2 = v ∧ rpr_open kr.2 = true)
       (map_to_list (wf_repairs w))).

(** An authorization whose work is done no longer blocks. *)
Definition authorization_done (kr : string * Repair) : Tx unit :=
  if String.eqb (rpr_kind kr.2) "retry" then
    recorded <- retry_recorded kr.1 ;;
    if (recorded : bool) then tret tt else tthrow (NewErr ErrConflictStepInProgress)
  else if String.eqb (rpr_kind kr.2) "episode" then
    complete <- episodeRoleSetComplete kr.1 wi v (rpr_step kr.2) (rpr_attempt kr.2) ;;
    if (complete : bool) then tret tt else tthrow (NewErr ErrConflictStepInProgress)
  else tthrow (NewErr ErrInternalError).

(** A predecessor whose latest result completed and is no failed review. *)
Definition predecessor_done (latest : string → option WfResult) (s : Step) : bool :=
  match latest (st_id s) with
  | Some r => String.eqb (wr_status r) StatusCompleted
              && negb (String.eqb (wr_verdict r) ReviewFail)
  | None => false
  end.

Definition start_ordinary (latest : string → option WfResult) : Tx unit :=
  match latest (st_id target) with
  | None => tret tt
  | Some _ =>
      rejected <- (if wiRHS then targetStepRejectsLatest wi v target else tret false) ;;
      if (rejected : bool) then tret tt else tthrow (NewErr ErrConflictDuplicate)
  end ;;;
  q <- query (λ c, inr (open_repairs (workflow c))) ;;
  authz <- or_throw dbErrCause q ;;
  tforeach authz authorization_done ;;;
  (if forallb (predecessor_done latest) (take index (fl_steps flow)) then tret tt
   else tthrow (NewErr ErrConflictStepInProgress)) ;;;
  checkWorkflowStartApprovals wi v flow wiRHS (st_id target) "".

Definition checkWorkflowStartOrdering (repairID : string) : Tx unit :=
  latest <- latestWorkflowResults wi v ;;
  if negb (String.eqb repairID "") then start_repair latest repairID
  else start_ordinary latest.
End ordering.

(** ** The handler *)

Record StartWorkflowStepRequest : Type := mkStart {
  sw_attempt : string; sw_epoch : Z; sw_secret : string; sw_step : string;
  sw_repair : string;
}.

Record StartWorkflowStepResponse : Type := mkStarted {
  sp_invocation : string; sp_version : Z; sp_attempt : string; sp_producer : string;
  sp_grant : StepGrant; sp_pinned : Step; sp_effective_rhs : bool;
}.

Definition open_invocation (wi : string) (v : Z) (step : string) (w : WorkflowTables)
  : option (string * Invocation) :=
  List.find (λ ki : string * Invocation,
      String.eqb (iv_wi ki.2) wi && Z.eqb (iv_version ki.2) v && String.eqb (iv_step ki.2) step
      && bool_decide (iv_status ki.2 = InvOpen))
    (map_to_list (wf_invocations w)).

(** Both answers of the code name the status of the attempt in the text only. *)
Definition no_open_invocation (wi : string) (v : Z) (step : string) : Tx unit :=
  q <- query (λ c, match open_invocation wi v step (workflow c) with
                   | Some ki => inr ki.1 | None => inl NoRows end) ;;
  match q with
  | inr _ => tthrow (NewErr ErrConflictStepInProgress)
  | inl NoRows => tret tt
  | inl e => tthrow (dbErrCause e)
  end.

(** The keys and CHECKs of [wi_workflow_invocations]. *)
Definition insert_invocation (id : string) (i : Invocation) (c : Core) : result DbErr Core :=
  let w := workflow c in
  if bool_decide (is_Some (wf_invocations w !! id))
     || existsb (λ ki : string * Invocation, String.eqb (iv_attempt ki.2) (iv_attempt i))
          (map_to_list (wf_invocations w))
  then inl (PgError pgUniqueViolation)
  else if negb (bool_decide (is_Some (run_attempts c !! iv_run i)))
          || negb (bool_decide (is_Some (wf_generations w !! (iv_wi i, iv_version i))))
  then inl (PgError pgForeignKeyViolation)
  else inr (set_workflow (set_invocations (<[id := i]>)) c).

Definition optional (s : string) : option string := if String.eqb s "" then None else Some s.

Definition new_invocation (cx : Ctx) (ids : WfIds) (wi : string) (v : Z) (s : Step)
  (grant : StepGrant) (req : StartWorkflowStepRequest) : Invocation :=
  mkInv wi v (st_id s) (new_sa ids) (sw_attempt req) (sw_epoch req) (new_producer ids) grant
    InvOpen (optional (sw_repair req)) (cx_now cx).

Definition start_body (o : Outside) (cx : Ctx) (ids : WfIds) (idOrSlug : string)
  (req : StartWorkflowStepRequest) : Tx StartWorkflowStepResponse :=
  wp <- getWorkflowWI idOrSlug ;;
  let w := wp.1 in
  let v := steps_version wp.2 in
  verifyAttemptCredential cx w (sw_attempt req) (sw_epoch req) (sw_secret req) ;;;
  if Z.eqb v 0 then tthrow (NewErr ErrNotFound)
  else if negb (bool_decide (wi_status w = WRunning))
  then tthrow (NewErr ErrConflictTerminalState)
  else
    g <- revalidateWorkflowGeneration o v (sw_attempt req) (wi_human w) ;;
    let '(flow, grants, meta) := g in
    match find_step flow (sw_step req) with
    | None => tthrow (NewErr ErrNotFound)
    | Some s =>
        no_open_invocation (wi_id w) v (st_id s) ;;;
        checkWorkflowStartOrdering (wi_id w) v flow grants meta s
          (workflowStepIndex flow (sw_step req)) (wi_human w) (sw_repair req) ;;;
        q <- exec (insert_invocation (new_inv ids)
               (new_invocation cx ids (wi_id w) v s (grant_of grants (st_id s)) req)) ;;
        or_throw dbErrCause q ;;;
        actor <- attemptActor (sw_attempt req) ;;
        insertWorkflowEvent (wi_id w) (wi_project w) actor.1 actor.2
          "workflow_invocation_started"
          [("steps_version", jint v); ("step_id", JStr (st_id s));
           ("step_attempt_id", JStr (new_sa ids)); ("producer_id", JStr (new_producer ids));
           ("run_attempt_id", JStr (sw_attempt req)); ("claim_epoch", jint (sw_epoch req));
           ("repair_episode_id", JStr (sw_repair req))] ;;;
        commit_tail (mkStarted (new_inv ids) v (new_sa ids) (new_producer ids)
          (grant_of grants (st_id s)) s (wi_human w && step_rhs s))
    end.

Definition StartWorkflowStep (o : Outside) (env : Env) (cx : Ctx) (ids : WfIds)
  (idOrSlug : string) (req : StartWorkflowStepRequest) (d : Db)
  : result AihubError StartWorkflowStepResponse * Db :=
  if String.eqb (sw_step req) "" then (inl (NewErr ErrBadRequest), d)
  else runTx env (start_body o cx ids idOrSlug req) d.

(** ** Instances *)

#[export] Instance start_body_robust o cx ids key req : Robust (start_body o cx ids key req).
Proof. solve_robust. Qed.
#[export] Instance start_body_commits o cx ids key req :
  CommitsOnOk (start_body o cx ids key req).
Proof. solve_commits. Qed.
