(* ===== verification/Pooled.v ===== *)
(** * Statements outside a transaction

    A handler that works on the pool makes one query after the other, each on
    its own: every query may see another state of the database.  [Rd] is a
    read-only computation; [autocommit] is one statement that commits itself. *)

From S2P Require Import Prelude GoStrings Errors Json Store.

Open Scope nat_scope.
Open Scope list_scope.

(** ** Reads *)

(** What the n-th query of a request sees, or the fault it meets. *)
Record Pool : Type := mkPool {
  pool_core : nat → Core;
  pool_fault : nat → option Fault;
}.

(** A read-only computation: [n] queries were made before it. *)
Definition Rd (A : Type) : Type := Pool → nat → result AihubError A * nat.

Definition rret {A} (a : A) : Rd A := λ _ n, (inr a, n).
Definition rthrow {A} (e : AihubError) : Rd A := λ _ n, (inl e, n).
Definition rdbind {A B} (m : Rd A) (k : A → Rd B) : Rd B := λ p n,
  match m p n with
  | (inl e, n') => (inl e, n')
  | (inr a, n') => k a p n'
  end.
Definition rread {A} (f : Core → result DbErr A) : Rd (result DbErr A) := λ p n,
  (inr match pool_fault p n with Some e => inl (fault_err e) | None => f (pool_core p n) end,
   S n).

(** A query whose empty answer is ordinary. *)
Definition read_opt {A} (f : Core → option A) : Rd (option A) :=
  rdbind (rread (λ c, inr (f c))) (λ q,
    match q with inl e => rthrow (dbErrCause e) | inr a => rret a end).
Definition read_rows {A} (f : Core → list A) : Rd (list A) :=
  rdbind (rread (λ c, inr (f c))) (λ q,
    match q with inl e => rthrow (dbErrCause e) | inr a => rret a end).

Fixpoint rmap {A B} (f : A → Rd B) (l : list A) : Rd (list B) :=
  match l with
  | [] => rret []
  | x :: l => rdbind (f x) (λ y, rdbind (rmap f l) (λ ys, rret (y :: ys)))
  end.

(** [pool.QueryRow(...).Scan(...)] where an empty answer has an error of its
    own. *)
Definition read_row {A} (missing : AihubError) (f : Core → result DbErr A) : Rd A :=
  rdbind (rread f) (λ q,
    match q with
    | inl NoRows => rthrow missing
    | inl e => rthrow (dbErrCause e)
    | inr a => rret a
    end).

(** [if aerr != nil { return aerr }] *)
Definition rguard (o : option AihubError) : Rd unit :=
  match o with Some e => rthrow e | None => rret tt end.

(** ** Writes *)

(** [pool.Exec]: the statement in a transaction of its own, which may meet a
    fault, fail to commit, or commit without an answer. *)
Definition autocommit (env : Env) (f : Core → result DbErr Core) (d : Db)
  : result DbErr unit * Db :=
  match runTx (mkEnv true (env_faults env) (env_commit env))
          (tbind (exec f) (λ r, match r with inl e => tret (inl e) | inr _ => commit end)) d with
  | (inr r, d') => (r, d')
  | (inl _, d') => (inl OtherErr, d')
  end.

(** Either nothing happened, or the statement did and [d'] is what it made. *)
Lemma autocommit_spec env f d r d' :
  autocommit env f d = (r, d') →
  (d' = d ∧ r ≠ inr tt ∨ f (core d) = inr (core d') ∧ savepoint_events d' = savepoint_events d)
  ∧ (r = inr tt → f (core d) = inr (core d')).
Proof.
  unfold autocommit, runTx, exec, stmt, tbind, commit, tret. simpl.
  destruct (next_fault (env_faults env)) as [[e|] fs]; simpl.
  - intros [= <- <-]. split; [by left|done].
  - destruct (f (core d)) as [[]|c] eqn:E; simpl.
    1-3: intros [= <- <-]; split; [by left|done].
    destruct (env_commit env); simpl; intros [= <- <-]; simpl;
      (split; [first [by left|by right]|done]).
Qed.
