(* ===== verification/WorkflowRun.v ===== *)
(** * Recording the result of a workflow step

    [RecordWorkflowResult] of [internal/domain/workflow_run.go]: the fence
    around the open invocation, the shape of the result, the artifact of a
    completed one, the pause after a failed review, and the closing of repair
    authorizations whose work is done. *)

From stdpp Require Import pretty sorting.
From S2P Require Import Prelude GoStrings Errors Json Crypto GoJson Declared Flow Policy.
From S2P Require Import WorkflowTables WorkflowPin Store ResourceEvents Attempts Claim.
From S2P Require Import Takeover Edit WorkflowStart.

Open Scope nat_scope.
Open Scope list_scope.
Open Scope tx_scope.

(** ** Recording a result *)

(** [rq_result] is [None] when the bytes are absent or do not decode. *)
Record RecordWorkflowResultRequest : Type := mkRecord {
  rq_attempt : string; rq_epoch : Z; rq_secret : string; rq_result : option StepResult;
}.

Record WorkflowResultRecorded : Type := mkRecorded {
  rd_wi : string; rd_version : Z; rd_step : string; rd_attempt : string;
  rd_status : string; rd_verdict : string; rd_paused : bool;
}.

(** The row of the invocation, whatever its status, then the two refusals. *)
Definition select_invocation (wi : string) (v : Z) (attempt : string) (c : Core)
  : result DbErr (string * Invocation) :=
  match List.find (λ ki : string * Invocation,
      String.eqb (iv_wi ki.2) wi && Z.eqb (iv_version ki.2) v
      && String.eqb (iv_attempt ki.2) attempt) (map_to_list (wf_invocations (workflow c))) with
  | Some ki => inr ki
  | None => inl NoRows
  end.

Definition loadOpenInvocation (wi : string) (v : Z) (step attempt : string)
  : Tx (string * Invocation) :=
  q <- query (select_invocation wi v attempt) ;;
  match q with
  | inl NoRows => tthrow (NewErr ErrConflictStepAttemptMismatch)
  | inl e => tthrow (dbErrCause e)
  | inr ki =>
      if String.eqb (iv_step ki.2) step && bool_decide (iv_status ki.2 = InvOpen)
      then tret ki else tthrow (NewErr ErrConflictStepAttemptMismatch)
  end.

Definition workflowStepMetaFor (wi : string) (v : Z) (step : string) : Tx wiStepMeta :=
  q <- query (select_generation wi v) ;;
  g <- or_throw dbErrCause q ;;
  match gn_meta g !! step with
  | Some m => tret m
  | None => tthrow (NewErr ErrInternalError)
  end.

(** [strings.ToLower] changes an ASCII letter A-Z and leaves hex digits alone;
    what is not ASCII does not decode. *)
Definition isSHA256Digest (s : string) : bool :=
  match strip_prefix "sha256:" s with
  | None => false
  | Some suffix =>
      Nat.eqb (String.length s) 71 && all_chars (λ c, negb (upper c)) suffix
      && match DecodeString suffix with Some _ => true | None => false end
  end.

Definition run_evidence_ok (e : Evidence) : bool :=
  negb (String.eqb (evd_kind e) "") && negb (blank (evd_ref e)) && isSHA256Digest (evd_hash e).

Definition meta_has (want : string) (m : wiStepMeta) : bool :=
  existsb (String.eqb want) (Capabilities m).
Definition stepMetaIsReview (m : wiStepMeta) : bool := meta_has CapReview m.

Definition review_verdict_ok (r : StepResult) : bool :=
  if bool_decide (sr_verdict r ∈ [ReviewPass; ReviewWarn; ReviewFail]) then true
  else String.eqb (sr_verdict r) "" && String.eqb (sr_status r) StatusProviderError.

(** All errors of the code become the one [ErrBadRequest] of its caller. *)
Definition validateWorkflowResultShape (r : StepResult) (m : wiStepMeta) : bool :=
  let isReview := stepMetaIsReview m in
  let hasVerification := meta_has CapVerification m in
  bool_decide (sr_status r ∈ [StatusCompleted; StatusIncomplete; StatusBlocked;
                              StatusProviderError; StatusInvalidResult])
  && negb (String.eqb (af_id (sr_artifact r)) "") && Z.ltb 0 (af_version (sr_artifact r))
  && isSHA256Digest (af_hash (sr_artifact r))
  && forallb run_evidence_ok (sr_evidence r)
  && (if isReview then review_verdict_ok r else String.eqb (sr_verdict r) "")
  && negb ((isReview || hasVerification) && String.eqb (sr_status r) StatusCompleted
           && bool_decide (sr_evidence r = [])).

(** ** The artifact of a completed result *)

Definition workflowArtifactDigest (payload : json) : string :=
  "sha256:" +:+ EncodeToString (Sum256 (bytes_of (json_text payload))).

Definition select_memory (id : string) (c : Core) : result DbErr MemoryRow :=
  match memories c !! id with Some m => inr m | None => inl NoRows end.

(** [memoryVisibilityScopeSQL] on a row. *)
Definition memory_visible (role user : string) (m : MemoryRow) : bool :=
  String.eqb role "admin"
  || (negb (String.eqb (mem_visibility m) "private") || String.eqb (mem_author m) user)
     && negb (String.eqb (mem_visibility m) "admin").

Definition structured_payload (attrs : RawMessage) : option json :=
  match attrs with
  | RawJSON (JObj o) =>
      match jlookup o "structured_payload" with
      | Some (JObj p) => Some (JObj p)
      | _ => None
      end
  | _ => None
  end.

(** Attributes that are not an object (or null) do not decode into a map. *)
Definition attrs_decode (attrs : RawMessage) : bool :=
  match attrs with RawEmpty | RawJSON JNull | RawJSON (JObj _) => true | _ => false end.

(** The tests on the stored row, in the order of the code. *)
Definition artifact_row_error (wi : string) (a : ArtifactRef) (m : MemoryRow)
  : option AihubError :=
  if negb (String.eqb (mem_wi m) wi) then Some (NewErr ErrBadRequest)
  else if negb (hasPrefix (mem_type m) "methodology.") then Some (NewErr ErrBadRequest)
  else if String.eqb (mem_status m) "redacted" then Some (NewErr ErrBadRequest)
  else if negb (Z.eqb (af_version a) 1) then Some (NewErr ErrBadRequest)
  else None.

Definition artifact_payload (a : ArtifactRef) (m : MemoryRow) : result AihubError json :=
  if negb (attrs_decode (mem_attrs m)) then Err (NewErr ErrInternalError)
  else match structured_payload (mem_attrs m) with
  | None => Err (NewErr ErrBadRequest)
  | Some p =>
      if String.eqb (workflowArtifactDigest p) (af_hash a) then Ok p
      else Err (NewErr ErrBadRequest)
  end.

(** The pinned output schema, if the skill declares one. *)
Definition artifact_schema (o : Outside) (flow : option Flow) (step : string) (p : json)
  : result AihubError unit :=
  match flow with
  | None => Err (NewErr ErrInternalError)
  | Some flow =>
      match find_step flow step with
      | None => Err (NewErr ErrInternalError)
      | Some s =>
          rbind (ou_pinned o (st_skill s) (st_skill_version s)) (λ ct,
            if String.eqb (ct_output_schema ct) "" then Ok tt
            else if negb (ou_compiles o (ct_output_schema ct)) then Err (NewErr ErrInternalError)
            else if ou_output_conforms o (ct_output_schema ct) p then Ok tt
            else Err (NewErr ErrBadRequest))
      end
  end.

Definition resolveCompletedResultArtifact (o : Outside) (w : WorkItem) (flow : option Flow)
  (attempt : string) (r : StepResult) : Tx unit :=
  let a := sr_artifact r in
  actor <- userRecordForAttempt o attempt ;;
  q <- query (select_memory (af_id a)) ;;
  match q with
  | inl NoRows => tthrow (NewErr ErrBadRequest)
  | inl e => tthrow (dbErrCause e)
  | inr m =>
      throw_opt (artifact_row_error (wi_id w) a m) ;;;
      q2 <- query (λ c, rbind (select_memory (af_id a) c) (λ m,
              if memory_visible (us_role actor) (us_id actor) m then inr tt else inl NoRows)) ;;
      match q2 with
      | inl NoRows => tthrow (NewErr ErrForbidden)
      | inl e => tthrow (dbErrCause e)
      | inr _ =>
          p <- throw_result (artifact_payload a m) ;;
          throw_result (artifact_schema o flow (sr_step r) p)
      end
  end.

(** ** The pause after a failed review *)

(** [%q] of a step id is the id in quotes: ids of a validated flow are
    identifiers. *)
Definition review_fail_reason (r : StepResult) : string :=
  "review FAIL on workflow step " +:+ String dquote (sr_step r +:+ String dquote "")
  +:+ " (generation " +:+ pretty (sr_flow_version r) +:+ ", step attempt "
  +:+ sr_attempt r +:+ ")".

Definition ra_paused_for (now : Z) (reason : string) (a : RunAttempt) : RunAttempt :=
  ra_with_completion (Some reason) (ra_derived a) (ra_no_steps a)
    (ra_with_status now RPaused a).

Definition pauseAttemptForReviewFail (cx : Ctx) (w : WorkItem) (attempt : string)
  (r : StepResult) : Tx unit :=
  let reason := review_fail_reason r in
  q <- exec (update_attempt attempt (ra_paused_for (cx_now cx) reason)) ;;
  or_throw dbErrCause q ;;;
  rl <- releaseLocks (acquireLocksReleasePaused attempt)
          (withExtra [("retained_types", JStr "git_branch, deploy_env, worktree, tcp_port");
                      ("reason", JStr reason)]
             (newLockOp (cx_op1 cx) "attempt_paused" (mkActor "" ""))) ;;
  or_throw dbErr rl ;;;
  q2 <- exec (update_wi (wi_id w) (wi_with_status (cx_now cx) WPaused)) ;;
  or_throw dbErrCause q2 ;;;
  insertWorkflowEvent (wi_id w) (wi_project w) (wi_reporter w) "" "attempt_completed"
    [("status", JStr "paused"); ("pause_reason", JStr reason);
     ("step_attempt_id", JStr (sr_attempt r)); ("review_verdict", JStr (sr_verdict r))].

(** ** Closing authorizations *)

Definition close_repair (id : string) (c : Core) : result DbErr Core :=
  inr (set_workflow (set_repairs (alter rpr_closed id)) c).

Definition closeRepairEpisodeIfComplete (episode : string) : Tx unit :=
  q <- query (select_repair episode) ;;
  r <- or_throw dbErrCause q ;;
  if negb (rpr_open r) then tret tt
  else
    complete <- (if String.eqb (rpr_kind r) "retry" then retry_recorded episode
                 else if String.eqb (rpr_kind r) "episode"
                 then episodeRoleSetComplete episode (rpr_wi r) (rpr_version r) (rpr_step r)
                        (rpr_attempt r)
                 else tthrow (NewErr ErrInternalError)) ;;
    if negb complete then tret tt
    else q2 <- exec (close_repair episode) ;; or_throw dbErrCause q2.

Definition closeParentEpisodeAfterRetry (retryID : string) : Tx unit :=
  q <- query (select_repair retryID) ;;
  match q with
  | inl NoRows => tret tt
  | inl e => tthrow (dbErrCause e)
  | inr r =>
      match rpr_parent r with
      | None => tret tt
      | Some parent =>
          if String.eqb parent "" then tret tt else closeRepairEpisodeIfComplete parent
      end
  end.

Definition close_bound (episode : option string) : Tx unit :=
  match episode with
  | None => tret tt
  | Some e =>
      if String.eqb e "" then tret tt
      else closeRepairEpisodeIfComplete e ;;; closeParentEpisodeAfterRetry e
  end.

(** ** The handler *)

(** The keys and CHECKs of [wi_workflow_results]. *)
Definition insert_result (id : string) (r : WfResult) (c : Core) : result DbErr Core :=
  let w := workflow c in
  if bool_decide (is_Some (wf_results w !! id))
     || existsb (λ kr : string * WfResult, String.eqb (wr_inv kr.2) (wr_inv r)
                   || String.eqb (wr_attempt kr.2) (wr_attempt r))
          (map_to_list (wf_results w))
  then inl (PgError pgUniqueViolation)
  else if negb (bool_decide (is_Some (wf_invocations w !! wr_inv r)))
          || negb (bool_decide (is_Some (run_attempts c !! wr_run r)))
  then inl (PgError pgForeignKeyViolation)
  else if negb (known_status (wr_status r))
          || negb (bool_decide (wr_verdict r ∈ [""; ReviewPass; ReviewWarn; ReviewFail]))
  then inl (PgError pgCheckViolation)
  else inr (set_workflow (set_results (<[id := r]>)) c).

Definition close_invocation (id : string) (c : Core) : result DbErr Core :=
  inr (set_workflow (set_invocations (alter (iv_with_status InvRecorded) id)) c).

Definition new_wf_result (cx : Ctx) (inv : string) (wi : string) (v : Z)
  (req : RecordWorkflowResultRequest) (r : StepResult) : WfResult :=
  mkWRes wi inv v (sr_step r) (sr_attempt r) (rq_attempt req) (rq_epoch req) (sr_producer r)
    (sr_status r) (sr_verdict r) (sr_artifact r) (sr_evidence r) (cx_now cx).

Definition jartifact (a : ArtifactRef) : json :=
  JObj [("id", JStr (af_id a)); ("version", jint (af_version a)); ("hash", JStr (af_hash a))].

(** The identity of the result against the request and the invocation. *)
Definition result_identity (w : WorkItem) (v : Z) (r : StepResult) : result AihubError unit :=
  if Z.eqb v 0 then Err (NewErr ErrConflictStepAttemptMismatch)
  else if negb (String.eqb (sr_wi r) (wi_id w))
  then Err (NewErr ErrConflictStepAttemptMismatch)
  else if negb (Z.eqb (sr_flow_version r) v)
  then Err (NewErrDetails ErrConflictStepAttemptMismatch (DVersions (sr_flow_version r) v))
  else Ok tt.

(** [result.Epoch] is an [int], 64 bits wide. *)
Definition invocation_identity (i : Invocation) (req : RecordWorkflowResultRequest)
  (r : StepResult) : result AihubError unit :=
  if negb (String.eqb (iv_run i) (rq_attempt req)) then Err (NewErr ErrConflictEpochMismatch)
  else if negb (Z.eqb (iv_epoch i) (rq_epoch req)) || negb (Z.eqb (sr_epoch r) (rq_epoch req))
  then Err (NewErr ErrConflictEpochMismatch)
  else if negb (String.eqb (sr_producer r) (iv_producer i)) then Err (NewErr ErrAttemptMismatch)
  else Ok tt.

Definition record_event (w : WorkItem) (v : Z) (attempt : string) (r : StepResult) : Tx unit :=
  actor <- attemptActor attempt ;;
  insertWorkflowEvent (wi_id w) (wi_project w) actor.1 actor.2
    (if String.eqb (sr_status r) StatusCompleted then "step_completed" else "step_failed")
    [("step", JStr (sr_step r)); ("steps_version", jint v);
     ("step_attempt_id", JStr (sr_attempt r)); ("status", JStr (sr_status r));
     ("review_verdict", JStr (sr_verdict r)); ("artifact", jartifact (sr_artifact r))].

Definition record_body (o : Outside) (cx : Ctx) (ids : WfIds) (idOrSlug : string)
  (req : RecordWorkflowResultRequest) (r : StepResult) : Tx WorkflowResultRecorded :=
  wp <- getWorkflowWI idOrSlug ;;
  let w := wp.1 in
  let v := steps_version wp.2 in
  verifyAttemptCredential cx w (rq_attempt req) (rq_epoch req) (rq_secret req) ;;;
  throw_result (result_identity w v r) ;;;
  ki <- loadOpenInvocation (wi_id w) v (sr_step r) (sr_attempt r) ;;
  throw_result (invocation_identity ki.2 req r) ;;;
  m <- workflowStepMetaFor (wi_id w) v (sr_step r) ;;
  (if validateWorkflowResultShape r m then tret tt else tthrow (NewErr ErrBadRequest)) ;;;
  (if String.eqb (sr_status r) StatusCompleted
   then resolveCompletedResultArtifact o w (fst <$> wp.2) (rq_attempt req) r else tret tt) ;;;
  q <- exec (insert_result (new_result ids) (new_wf_result cx ki.1 (wi_id w) v req r)) ;;
  or_throw dbErrCause q ;;;
  q2 <- exec (close_invocation ki.1) ;;
  or_throw dbErrCause q2 ;;;
  record_event w v (rq_attempt req) r ;;;
  let paused := String.eqb (sr_verdict r) ReviewFail in
  (if paused then pauseAttemptForReviewFail cx w (rq_attempt req) r else tret tt) ;;;
  close_bound (iv_episode ki.2) ;;;
  commit_tail (mkRecorded (wi_id w) v (sr_step r) (sr_attempt r) (sr_status r) (sr_verdict r)
                 paused).

Definition RecordWorkflowResult (o : Outside) (env : Env) (cx : Ctx) (ids : WfIds)
  (idOrSlug : string) (req : RecordWorkflowResultRequest) (d : Db)
  : result AihubError WorkflowResultRecorded * Db :=
  match rq_result req with
  | None => (inl (NewErr ErrBadRequest), d)
  | Some r => runTx env (record_body o cx ids idOrSlug req r) d
  end.

#[export] Instance record_body_robust o cx ids key req r :
  Robust (record_body o cx ids key req r).
Proof. solve_robust. Qed.
#[export] Instance record_body_commits o cx ids key req r :
  CommitsOnOk (record_body o cx ids key req r).
Proof. solve_commits. Qed.
