(* ===== verification/WorkflowRepair.v ===== *)
(** * Approving a step, authorizing a repair, reconciling invocations

    [ApproveWorkflowStep], [AuthorizeWorkflowRepair] and
    [ReconcileWorkflowInvocations] of [internal/domain/workflow_run.go].  The
    first two read their answer back after their commit, from what other
    requests made of the database meanwhile ([later]). *)

From stdpp Require Import pretty sorting.
From S2P Require Import Prelude GoStrings Errors Json Crypto Declared Flow Policy.
From S2P Require Import WorkflowTables WorkflowPin Store ResourceEvents Attempts Claim.
From S2P Require Import Takeover Edit WorkflowStart WorkflowRun.

Open Scope nat_scope.
Open Scope list_scope.
Open Scope tx_scope.

(** ** Approving *)

Record ApproveWorkflowRequest : Type := mkApproveReq {
  aq_version : Z; aq_step : string; aq_artifact : ArtifactRef; aq_decision : string;
}.

Definition select_approval (id : string) (c : Core) : result DbErr (string * Approval) :=
  match wf_approvals (workflow c) !! id with
  | Some a => inr (id, a) | None => inl NoRows end.

(** The UNIQUE index and the CHECKs of [wi_workflow_approvals]. *)
Definition insert_approval (id : string) (a : Approval) (c : Core) : result DbErr Core :=
  let w := workflow c in
  if bool_decide (is_Some (wf_approvals w !! id))
     || bool_decide (is_Some (approval_of (wa_wi a) (wa_version a) (wa_step a)
                                (wa_artifact a) w))
  then inl (PgError pgUniqueViolation)
  else if Z.ltb (wa_version a) 1 || Z.ltb (af_version (wa_artifact a)) 1
          || negb (sha256RE (af_hash (wa_artifact a)))
          || negb (bool_decide (wa_decision a ∈ [ApprovalGranted; ApprovalDenied]))
  then inl (PgError pgCheckViolation)
  else inr (set_workflow (set_approvals (<[id := a]>)) c).

Definition unique_or (e : DbErr) : AihubError :=
  match e with
  | PgError code => if String.eqb code pgUniqueViolation then NewErr ErrConflictDuplicate
                    else dbErrCause e
  | _ => dbErrCause e
  end.

(** May a human decide on this artifact now? *)
Definition approve_gate (w : WorkItem) (p : option (Flow * Z)) (req : ApproveWorkflowRequest)
  : result AihubError unit :=
  match p with
  | None => Err (NewErr ErrNotFound)
  | Some (flow, v) =>
      if negb (Z.eqb (aq_version req) v)
      then Err (NewErrDetails ErrConflictStepAttemptMismatch (DVersions (aq_version req) v))
      else match find_step flow (aq_step req) with
           | None => Err (NewErr ErrNotFound)
           | Some s => if negb (wi_human w) || negb (step_rhs s)
                       then Err (NewErr ErrBadRequest) else Ok tt
           end
  end.

(** Left: the decision that is already recorded, answered without a commit. *)
Definition approve_body (cx : Ctx) (ids : WfIds) (idOrSlug : string) (actor : UserRecord)
  (display : string) (req : ApproveWorkflowRequest)
  : Tx (result (string * Approval) unit) :=
  wp <- getWorkflowWI idOrSlug ;;
  let w := wp.1 in
  throw_result (approve_gate w wp.2 req) ;;;
  q <- query (λ c, match latest_result (wi_id w) (aq_version req) (aq_step req) (workflow c) with
                   | Some kr => inr (wr_artifact kr.2) | None => inl NoRows end) ;;
  match q with
  | inl NoRows => tthrow (NewErr ErrConflictStepAttemptMismatch)
  | inl e => tthrow (dbErrCause e)
  | inr latest =>
      if negb (bool_decide (latest = aq_artifact req))
      then tthrow (NewErr ErrConflictStepAttemptMismatch)
      else
        q2 <- query (λ c, match approval_of (wi_id w) (aq_version req) (aq_step req)
                                  (aq_artifact req) (workflow c) with
                          | Some ka => inr ka | None => inl NoRows end) ;;
        match q2 with
        | inr ka =>
            if negb (String.eqb (wa_decision ka.2) (aq_decision req))
            then tthrow (NewErr ErrConflictDuplicate)
            else
              q3 <- query (select_approval ka.1) ;;
              a <- or_throw dbErrCause q3 ;;
              tret (inl a)
        | inl NoRows =>
            q3 <- exec (insert_approval (new_approval ids)
                    (mkAppr (wi_id w) (aq_version req) (aq_step req) (aq_artifact req)
                       (aq_decision req) (us_id actor) display (cx_now cx))) ;;
            or_throw unique_or q3 ;;;
            insertWorkflowEvent (wi_id w) (wi_project w) (us_id actor) display
              "workflow_approval"
              [("steps_version", jint (aq_version req)); ("step_id", JStr (aq_step req));
               ("artifact", jartifact (aq_artifact req)); ("decision", JStr (aq_decision req))] ;;;
            commit_tail (inr tt)
        | inl e => tthrow (dbErrCause e)
        end
  end.

Definition approve_args (actor : option UserRecord) (actorType : string)
  (req : ApproveWorkflowRequest) : result AihubError UserRecord :=
  if negb (bool_decide (aq_decision req ∈ [ApprovalGranted; ApprovalDenied]))
  then Err (NewErr ErrBadRequest)
  else if negb (String.eqb actorType "human") then Err (NewErr ErrForbidden)
  else match actor with
       | None => Err (NewErr ErrUnauthorized)
       | Some u => if String.eqb (us_id u) "" then Err (NewErr ErrUnauthorized) else Ok u
       end.

Definition ApproveWorkflowStep (env : Env) (f : option Fault) (cx : Ctx) (ids : WfIds)
  (idOrSlug : string) (actor : option UserRecord) (display actorType : string)
  (req : ApproveWorkflowRequest) (later : Db → Db) (d : Db)
  : result AihubError (string * Approval) * Db :=
  match approve_args actor actorType req with
  | inl e => (inl e, d)
  | inr u =>
      match runTx env (approve_body cx ids idOrSlug u display req) d with
      | (inl e, d') => (inl e, d')
      | (inr (inl a), d') => (inr a, d')
      | (inr (inr _), d') =>
          (match pool_query f (select_approval (new_approval ids)) (later d') with
           | inl e => inl (dbErrCause e) | inr a => inr a end, d')
      end
  end.

(** ** Authorizing a repair *)

Definition maxOpenRepairAuthorizations : nat := 8.
Definition maxRetryChainDepth : nat := 3.

Record AuthorizeWorkflowRepairRequest : Type := mkAuthReq {
  au_attempt : string; au_epoch : Z; au_secret : string; au_failed : string;
  au_kind : string; au_reason : string;
}.

Definition authorize_args (req : AuthorizeWorkflowRepairRequest) : result AihubError string :=
  let trimmed := trimSpace (au_reason req) in
  if negb (bool_decide (au_kind req ∈ ["retry"; "episode"])) then Err (NewErr ErrBadRequest)
  else if Nat.ltb (String.length trimmed) 10 || Nat.ltb (Z.to_nat 2000) (String.length trimmed)
  then Err (NewErr ErrBadRequest)
  else if String.eqb (au_failed req) "" then Err (NewErr ErrBadRequest)
  else Ok trimmed.

(** [WHERE work_item_id = $1 AND step_attempt_id = $2], any generation *)
Definition select_result_by_attempt (wi attempt : string) (c : Core)
  : result DbErr (string * WfResult) :=
  match List.find (λ kr : string * WfResult,
      String.eqb (wr_wi kr.2) wi && String.eqb (wr_attempt kr.2) attempt)
          (map_to_list (wf_results (workflow c))) with
  | Some kr => inr kr
  | None => inl NoRows
  end.

Definition select_binding (wi attempt : string) (c : Core) : result DbErr (option string) :=
  match List.find (λ ki : string * Invocation,
      String.eqb (iv_wi ki.2) wi && String.eqb (iv_attempt ki.2) attempt)
          (map_to_list (wf_invocations (workflow c))) with
  | Some ki => inr (iv_episode ki.2)
  | None => inl NoRows
  end.

Record retryLineage : Type := mkLineage { ln_parent : string; ln_depth : nat }.

(** [fuel] iterations are left before the walk is declared corrupt; a binding
    whose authorization is missing is an internal error either way. *)
Fixpoint lineage_walk (wi : string) (fuel : nat) (out : retryLineage) (cur : string)
  : Tx retryLineage :=
  match fuel with
  | O => tthrow (NewErr ErrInternalError)
  | S fuel =>
      q <- query (select_binding wi cur) ;;
      bind <- or_throw dbErrCause q ;;
      match bind with
      | None => tret out
      | Some e =>
          if String.eqb e "" then tret out
          else
            q2 <- query (select_own_repair wi e) ;;
            r <- or_throw dbErrCause q2 ;;
            if String.eqb (rpr_kind r) "episode" then tret (mkLineage e (ln_depth out))
            else if String.eqb (rpr_kind r) "retry" then
              lineage_walk wi fuel
                (mkLineage (match rpr_parent r with
                            | Some p => if String.eqb p "" then ln_parent out else p
                            | None => ln_parent out end) (S (ln_depth out)))
                (rpr_attempt r)
            else tthrow (NewErr ErrInternalError)
      end
  end.

(** [hops > maxRetryChainDepth+1] is the error: so many iterations succeed. *)
Definition resolveRetryLineage (wi failed : string) : Tx retryLineage :=
  lineage_walk wi (maxRetryChainDepth + 2) (mkLineage "" 0) failed.

(** The class of the failure against the kind asked for; the answer is the
    episode the new authorization belongs to, "" for none. *)
Definition authorize_kind (wi : string) (req : AuthorizeWorkflowRepairRequest)
  (m : wiStepMeta) (failed : WfResult) : Tx string :=
  if String.eqb (au_kind req) "episode" then
    if negb (String.eqb (wr_verdict failed) ReviewFail) then tthrow (NewErr ErrBadRequest)
    else if negb (stepMetaIsReview m) then tthrow (NewErr ErrBadRequest)
    else tret ""
  else if negb (String.eqb (wr_status failed) StatusProviderError)
          || String.eqb (wr_verdict failed) ReviewFail then tthrow (NewErr ErrBadRequest)
  else
    lineage <- resolveRetryLineage wi (au_failed req) ;;
    if Nat.leb maxRetryChainDepth (ln_depth lineage)
    then tthrow (NewErr ErrConflictDuplicate) else tret (ln_parent lineage).

Definition open_repair_count (wi : string) (w : WorkflowTables) : nat :=
  length (filter (λ kr : string * Repair, rpr_wi kr.2 = wi ∧ rpr_open kr.2 = true)
            (map_to_list (wf_repairs w))).

(** The keys and CHECKs of [wi_workflow_repair_episodes]. *)
Definition insert_repair (id : string) (r : Repair) (c : Core) : result DbErr Core :=
  let w := workflow c in
  if bool_decide (is_Some (wf_repairs w !! id))
     || existsb (λ kr : string * Repair, String.eqb (rpr_kind kr.2) (rpr_kind r)
                   && String.eqb (rpr_attempt kr.2) (rpr_attempt r))
          (map_to_list (wf_repairs w))
  then inl (PgError pgUniqueViolation)
  else if negb (bool_decide (is_Some (run_attempts c !! rpr_run r)))
  then inl (PgError pgForeignKeyViolation)
  else if negb (bool_decide (rpr_kind r ∈ ["retry"; "episode"])) || Z.ltb (rpr_version r) 1
          || Nat.ltb (RuneCountInString (rpr_reason r)) 10
          || Nat.ltb (Z.to_nat 2000) (RuneCountInString (rpr_reason r))
  then inl (PgError pgCheckViolation)
  else inr (set_workflow (set_repairs (<[id := r]>)) c).

Definition authorize_body (cx : Ctx) (ids : WfIds) (idOrSlug : string)
  (req : AuthorizeWorkflowRepairRequest) (reason : string) : Tx unit :=
  wp <- getWorkflowWI idOrSlug ;;
  let w := wp.1 in
  let v := steps_version wp.2 in
  verifyAttemptCredential cx w (au_attempt req) (au_epoch req) (au_secret req) ;;;
  if Z.eqb v 0 then tthrow (NewErr ErrNotFound)
  else
    q <- query (select_result_by_attempt (wi_id w) (au_failed req)) ;;
    match q with
    | inl NoRows => tthrow (NewErr ErrNotFound)
    | inl e => tthrow (dbErrCause e)
    | inr kr =>
        let failed := kr.2 in
        if negb (Z.eqb (wr_version failed) v)
        then tthrow (NewErr ErrConflictStepAttemptMismatch)
        else
          m <- workflowStepMetaFor (wi_id w) v (wr_step failed) ;;
          parent <- authorize_kind (wi_id w) req m failed ;;
          q2 <- query (λ c, inr (open_repair_count (wi_id w) (workflow c))) ;;
          n <- or_throw dbErrCause q2 ;;
          if Nat.leb maxOpenRepairAuthorizations n then tthrow (NewErr ErrConflictDuplicate)
          else
            actor <- attemptActor (au_attempt req) ;;
            q3 <- exec (insert_repair (new_repair ids)
                    (mkRep (wi_id w) (au_kind req) v (wr_step failed) (au_failed req) reason
                       (au_attempt req) (au_epoch req) actor.1 true (cx_now cx)
                       (optional parent))) ;;
            or_throw unique_or q3 ;;;
            insertWorkflowEvent (wi_id w) (wi_project w) actor.1 ""
              "workflow_repair_authorized"
              ([("repair_id", JStr (new_repair ids)); ("kind", JStr (au_kind req));
                ("failed_step_id", JStr (wr_step failed));
                ("failed_step_attempt_id", JStr (au_failed req));
                ("steps_version", jint v); ("reason", JStr reason)]
               ++ (if String.eqb parent "" then []
                   else [("parent_episode_id", JStr parent)])) ;;;
            commit_tail tt
    end.

Definition AuthorizeWorkflowRepair (env : Env) (f : option Fault) (cx : Ctx) (ids : WfIds)
  (idOrSlug : string) (req : AuthorizeWorkflowRepairRequest) (later : Db → Db) (d : Db)
  : result AihubError Repair * Db :=
  match authorize_args req with
  | inl e => (inl e, d)
  | inr reason =>
      match runTx env (authorize_body cx ids idOrSlug req reason) d with
      | (inl e, d') => (inl e, d')
      | (inr _, d') =>
          (match pool_query f (select_repair (new_repair ids)) (later d') with
           | inl e => inl (dbErrCause e) | inr r => inr r end, d')
      end
  end.

(** ** Reconciling the invocations of a dead attempt *)

Record ReconcileWorkflowInvocationsRequest : Type := mkReconcileInv {
  ri_attempt : string; ri_epoch : Z; ri_secret : string; ri_supersede : string;
}.

Record WorkflowInvocationReconcile : Type := mkReconciled {
  rr_wi : string; rr_attempt : string; rr_superseded : Z; rr_ids : list string;
}.

Definition supersedes (wi attempt : string) (i : Invocation) : bool :=
  String.eqb (iv_wi i) wi && String.eqb (iv_run i) attempt
  && bool_decide (iv_status i = InvOpen).

(** [UPDATE ... RETURNING] *)
Definition supersede_invocations (wi attempt : string) (c : Core)
  : result DbErr (list (string * Invocation) * Core) :=
  inr (filter (λ ki : string * Invocation, supersedes wi attempt ki.2 = true)
         (map_to_list (wf_invocations (workflow c))),
       set_workflow (set_invocations (fmap (λ i,
         if supersedes wi attempt i then iv_with_status InvSuperseded i else i))) c).

Definition reconcile_target (w : WorkItem) (named : string) (a : RunAttempt)
  : result AihubError unit :=
  if negb (String.eqb (ra_wi a) (wi_id w)) then Err (NewErr ErrConflictStepAttemptMismatch)
  else if bool_decide (wi_current w = Some named) then Err (NewErr ErrConflictStepInProgress)
  else if bool_decide (ra_status a = RRunning) then Err (NewErr ErrConflictStepInProgress)
  else Ok tt.

Definition superseded_payload (req : ReconcileWorkflowInvocationsRequest)
  (ki : string * Invocation) : jobj :=
  [("steps_version", jint (iv_version ki.2)); ("step_id", JStr (iv_step ki.2));
   ("step_attempt_id", JStr (iv_attempt ki.2)); ("invocation_id", JStr ki.1);
   ("superseded_attempt_id", JStr (ri_supersede req)); ("run_attempt_id", JStr (ri_attempt req))]
  ++ match iv_episode ki.2 with
     | Some e => if String.eqb e "" then [] else [("repair_episode_id", JStr e)]
     | None => []
     end.

Definition reconcile_inv_body (cx : Ctx) (idOrSlug : string)
  (req : ReconcileWorkflowInvocationsRequest) : Tx WorkflowInvocationReconcile :=
  wp <- getWorkflowWI idOrSlug ;;
  let w := wp.1 in
  verifyAttemptCredential cx w (ri_attempt req) (ri_epoch req) (ri_secret req) ;;;
  if Z.eqb (steps_version wp.2) 0 then tthrow (NewErr ErrNotFound)
  else
    q <- query (select_attempt (ri_supersede req)) ;;
    named <- or_throw pgxErr q ;;
    throw_result (reconcile_target w (ri_supersede req) named) ;;;
    q2 <- stmt (supersede_invocations (wi_id w) (ri_supersede req)) ;;
    rows <- or_throw dbErrCause q2 ;;
    actor <- attemptActor (ri_attempt req) ;;
    tforeach rows (λ ki, insertWorkflowEvent (wi_id w) (wi_project w) actor.1 actor.2
      "workflow_invocation_superseded" (superseded_payload req ki)) ;;;
    commit_tail (mkReconciled (wi_id w) (ri_supersede req) (Z.of_nat (length rows)) rows.*1).

Definition ReconcileWorkflowInvocations (env : Env) (cx : Ctx) (idOrSlug : string)
  (req : ReconcileWorkflowInvocationsRequest) (d : Db)
  : result AihubError WorkflowInvocationReconcile * Db :=
  if String.eqb (ri_supersede req) "" then (inl (NewErr ErrBadRequest), d)
  else runTx env (reconcile_inv_body cx idOrSlug req) d.

(** ** Instances *)

#[export] Instance approve_body_robust cx ids key u display req :
  Robust (approve_body cx ids key u display req).
Proof. solve_robust. Qed.

#[export] Instance lineage_walk_robust wi fuel out cur :
  Robust (lineage_walk wi fuel out cur).
Proof. revert out cur. induction fuel; solve_robust. Qed.
#[export] Instance authorize_body_robust cx ids key req reason :
  Robust (authorize_body cx ids key req reason).
Proof. solve_robust. Qed.
#[export] Instance authorize_body_commits cx ids key req reason :
  CommitsOnOk (authorize_body cx ids key req reason).
Proof. solve_commits. Qed.

#[export] Instance reconcile_inv_body_robust cx key req :
  Robust (reconcile_inv_body cx key req).
Proof. solve_robust. Qed.
#[export] Instance reconcile_inv_body_commits cx key req :
  CommitsOnOk (reconcile_inv_body cx key req).
Proof. solve_commits. Qed.
