(* ===== verification/WorkflowRevise.v ===== *)
(** * Revising and viewing a workflow

    [UpdateWorkItemWorkflow], the create-time [pinFirstWorkflowGenerationInTx]
    and the view [GetWorkItemWorkflow] of [internal/domain/workflow_run.go].
    The view reads with one query after the other, outside any transaction:
    each query may see another state of the database. *)

From stdpp Require Import sorting.
From S2P Require Import Prelude GoStrings Errors Json Crypto Declared Flow Policy.
From S2P Require Import WorkflowTables WorkflowPin Store ResourceEvents Attempts Claim.
From S2P Require Import Takeover Edit Pooled WorkflowStart.

Open Scope nat_scope.
Open Scope list_scope.
Open Scope tx_scope.

(** ** The view *)

Record WorkflowGenerationSummary : Type := mkGenSum {
  gs_version : Z; gs_rhs : bool; gs_by : string; gs_created : Z; gs_digest : string;
}.
Record WorkflowStepProgress : Type := mkProgress {
  pr_step : string; pr_status : string; pr_verdict : string; pr_attempt : string;
  pr_artifact : option ArtifactRef; pr_open : string; pr_approved : option bool; pr_rhs : bool;
}.
Record WorkflowRepairSummary : Type := mkRepSum {
  su_id : string; su_kind : string; su_version : Z; su_step : string; su_attempt : string;
  su_open : bool; su_created : Z; su_parent : string;
}.
Record WorkItemWorkflow : Type := mkView {
  vw_wi : string; vw_version : Z; vw_steps : option Flow; vw_rhs : option bool;
  vw_generations : list WorkflowGenerationSummary;
  vw_progress : list WorkflowStepProgress;
  vw_repairs : list WorkflowRepairSummary;
}.

Definition generation_le (a b : (string * Z) * Generation) : Prop := (a.1.2 <= b.1.2)%Z.
#[export] Instance generation_le_dec : RelDecision generation_le.
Proof. intros a b. unfold generation_le. apply _. Defined.

Definition generation_rows (wi : string) (w : WorkflowTables)
  : list WorkflowGenerationSummary :=
  (λ kg : (string * Z) * Generation,
     mkGenSum kg.1.2 (gn_rhs kg.2) (gn_by kg.2) (gn_created kg.2) (gn_digest kg.2))
  <$> merge_sort generation_le
        (filter (λ kg : (string * Z) * Generation, kg.1.1 = wi)
           (map_to_list (wf_generations w))).

(** [ORDER BY created_at DESC LIMIT 1]; equal times are ordered by the id. *)
Definition newest_open (wi : string) (v : Z) (step : string) (w : WorkflowTables)
  : option string :=
  fst <$> newest (λ ki : string * Invocation, (iv_created ki.2, ki.1))
    (filter (λ ki : string * Invocation,
       iv_wi ki.2 = wi ∧ iv_version ki.2 = v ∧ iv_step ki.2 = step ∧ iv_status ki.2 = InvOpen)
       (map_to_list (wf_invocations w))).

Definition repair_rows (wi : string) (w : WorkflowTables) : list WorkflowRepairSummary :=
  (λ kr : string * Repair,
     mkRepSum kr.1 (rpr_kind kr.2) (rpr_version kr.2) (rpr_step kr.2) (rpr_attempt kr.2)
       (rpr_open kr.2) (rpr_created kr.2) (default "" (rpr_parent kr.2)))
  <$> merge_sort repair_le
        (filter (λ kr : string * Repair, rpr_wi kr.2 = wi) (map_to_list (wf_repairs w))).

(** A step attempt "" never has a decision looked up. *)
Definition step_progress (wi : string) (v : Z) (wiRHS : bool) (s : Step)
  : Rd WorkflowStepProgress :=
  rdbind (read_opt (λ c, snd <$> latest_result wi v (st_id s) (workflow c))) (λ last,
  rdbind (read_opt (λ c, newest_open wi v (st_id s) (workflow c))) (λ inv,
  let row approved :=
    match last with
    | None => mkProgress (st_id s) "" "" "" None (default "" inv) approved (wiRHS && step_rhs s)
    | Some r => mkProgress (st_id s) (wr_status r) (wr_verdict r) (wr_attempt r)
                  (Some (wr_artifact r)) (default "" inv) approved (wiRHS && step_rhs s)
    end in
  match last with
  | None => rret (row None)
  | Some r =>
      if String.eqb (wr_attempt r) "" then rret (row None)
      else
        rdbind (read_opt (λ c, wa_decision ∘ snd
                  <$> approval_of wi v (st_id s) (wr_artifact r) (workflow c))) (λ d,
        rret (row (String.eqb ApprovalGranted <$> d)))
  end)).

(** [getWorkflowWI] on the pool; a BEGIN that fails is an internal error. *)
Definition read_workflow_wi (idOrSlug : string) : Rd (WorkItem * option (Flow * Z)) :=
  rdbind (rread (λ _, inr tt)) (λ b,
  match b with
  | inl _ => rthrow (NewErr ErrInternalError)
  | inr _ =>
      rdbind (rread (λ c, rbind (select_wi idOrSlug c) (λ w,
                inr (w, wf_pointers (workflow c) !! wi_id w)))) (λ q,
      match q with
      | inl NoRows => rthrow (NewErr ErrNotFound)
      | inl e => rthrow (dbErrCause e)
      | inr wp => rret wp
      end)
  end).

Definition GetWorkItemWorkflow (idOrSlug : string) : Rd WorkItemWorkflow :=
  rdbind (read_workflow_wi idOrSlug) (λ wp,
  let w := wp.1 in
  let v := steps_version wp.2 in
  match wp.2 with
  | None => rret (mkView (wi_id w) v None (wi_rhs w) [] [] [])
  | Some (flow, _) =>
      if Z.eqb v 0 then rret (mkView (wi_id w) v None (wi_rhs w) [] [] [])
      else
        rdbind (read_rows (λ c, generation_rows (wi_id w) (workflow c))) (λ gens,
        rdbind (rmap (step_progress (wi_id w) v (wi_human w)) (fl_steps flow)) (λ progress,
        rdbind (read_rows (λ c, repair_rows (wi_id w) (workflow c))) (λ repairs,
        rret (mkView (wi_id w) v (Some flow) (wi_rhs w) gens progress repairs))))
  end).

(** ** Revising the workflow *)

Record UpdateWorkItemWorkflowRequest : Type := mkRevision {
  rv_expected : Z;                 (* expected_steps_version *)
  rv_rhs : option bool;
  rv_steps : list WorkflowStepSpec;
}.

(** The primary key and the CHECKs of [wi_workflow_generations], and of
    [work_items.steps_version]. *)
Definition insert_generation (wi : string) (v : Z) (g : Generation) (c : Core)
  : result DbErr Core :=
  if negb (in_int32 v) then inl (PgError pgNumericOutOfRange)
  else if bool_decide (is_Some (wf_generations (workflow c) !! (wi, v)))
  then inl (PgError pgUniqueViolation)
  else if Z.ltb v 1 || negb (sha256RE (gn_digest g)) then inl (PgError pgCheckViolation)
  else inr (set_workflow (λ w, mkWf (wf_pointers w) (<[(wi, v) := g]> (wf_generations w))
              (wf_invocations w) (wf_results w) (wf_approvals w) (wf_repairs w)) c).

Definition wi_with_workflow (rhs : bool) (w : WorkItem) : WorkItem :=
  mkWI (wi_id w) (wi_slug w) (wi_project w) (wi_goal w) (wi_type w) (Some rhs) (wi_status w)
    (wi_declared w) (wi_resources_version w) (wi_reporter w) (wi_current w) (wi_epoch w) "db"
    (wi_closed_at w) (wi_doc w).

Definition wi_with_mode (mode : string) (w : WorkItem) : WorkItem :=
  mkWI (wi_id w) (wi_slug w) (wi_project w) (wi_goal w) (wi_type w) (wi_rhs w) (wi_status w)
    (wi_declared w) (wi_resources_version w) (wi_reporter w) (wi_current w) (wi_epoch w) mode
    (wi_closed_at w) (wi_doc w).

Definition move_pointer (wi : string) (v : Z) (flow : Flow) (rhs : bool) (c : Core)
  : result DbErr Core :=
  inr (match work_items c !! wi with
       | None => c
       | Some _ =>
           set_workflow (λ w, mkWf (<[wi := (flow, v)]> (wf_pointers w)) (wf_generations w)
               (wf_invocations w) (wf_results w) (wf_approvals w) (wf_repairs w))
             (set_work_items (alter (wi_with_workflow rhs) wi) c)
       end).

Definition revise_body (o : Outside) (cx : Ctx) (idOrSlug : string) (caller : UserRecord)
  (user role : string) (roles : gmap string string) (rhs : bool)
  (req : UpdateWorkItemWorkflowRequest) : Tx string :=
  wp <- getWorkflowWI idOrSlug ;;
  let w := wp.1 in
  let v := steps_version wp.2 in
  throw_opt (updateGate (wi_status_text (wi_status w)) wiTierContract
               (String.eqb (wi_reporter w) user) role
               (match roles !! wi_project w with Some r => r | None => "" end)) ;;;
  q <- query (select_step (wi_id w)) ;;
  legacy <- match q with
            | inl NoRows => tret 0%Z
            | inl e => tthrow (dbErrCause e)
            | inr s => tret (ss_version s)
            end ;;
  if Z.ltb 0 legacy then tthrow (NewErr ErrConflictTerminalState)
  else if negb (Z.eqb (rv_expected req) v)
  then tthrow (NewErrDetails ErrConflictCASFailed (DVersions (rv_expected req) v))
  else
    let next := (v + 1)%Z in
    pin <- throw_result (pinWorkflowGeneration o next caller rhs (rv_steps req)) ;;
    q2 <- exec (insert_generation (wi_id w) next
            (mkGen (pn_flow pin) (pn_grants pin) (pn_meta pin) (pn_digest pin) rhs user
               (cx_now cx))) ;;
    or_throw dbErrCause q2 ;;;
    q3 <- exec (move_pointer (wi_id w) next (pn_flow pin) rhs) ;;
    or_throw dbErrCause q3 ;;;
    insertWorkflowEvent (wi_id w) (wi_project w) user "" "workflow_revision"
      [("steps_version", jint next); ("expected_steps_version", jint (rv_expected req));
       ("requires_human_session", JBool rhs);
       ("steps", jint (Z.of_nat (length (rv_steps req))));
       ("validation_digest", JStr (pn_digest pin))] ;;;
    commit_tail (wi_id w).

(** [later] is what the queries of the view see after the commit. *)
Definition UpdateWorkItemWorkflow (o : Outside) (env : Env) (cx : Ctx) (idOrSlug : string)
  (caller : UserRecord) (user role : string) (roles : gmap string string)
  (req : UpdateWorkItemWorkflowRequest) (later : Db → Pool) (d : Db)
  : result AihubError WorkItemWorkflow * Db :=
  match rv_rhs req with
  | None => (inl (NewErr ErrBadRequest), d)
  | Some rhs =>
      if bool_decide (rv_steps req = []) then (inl (NewErr ErrBadRequest), d)
      else match runTx env (revise_body o cx idOrSlug caller user role roles rhs req) d with
           | (inl e, d') => (inl e, d')
           | (inr id, d') => ((GetWorkItemWorkflow id (later d') 0).1, d')
           end
  end.

(** ** Pinning at creation *)

(** The second UPDATE leaves [requires_human_session] as the INSERT set it. *)
Definition pin_pointer (wi : string) (flow : Flow) (c : Core) : result DbErr Core :=
  inr (match work_items c !! wi with
       | None => c
       | Some w =>
           set_workflow (λ t, mkWf (<[wi := (flow, 1%Z)]> (wf_pointers t)) (wf_generations t)
               (wf_invocations t) (wf_results t) (wf_approvals t) (wf_repairs t))
             (set_work_items (alter (wi_with_mode "db") wi) c)
       end).

Definition pinFirstWorkflowGenerationInTx (o : Outside) (cx : Ctx) (wi project user : string)
  (caller : UserRecord) (rhs : bool) (steps : list WorkflowStepSpec) : Tx unit :=
  pin <- throw_result (pinWorkflowGeneration o 1 caller rhs steps) ;;
  q <- exec (insert_generation wi 1
         (mkGen (pn_flow pin) (pn_grants pin) (pn_meta pin) (pn_digest pin) rhs user
            (cx_now cx))) ;;
  or_throw dbErrCause q ;;;
  q2 <- exec (pin_pointer wi (pn_flow pin)) ;;
  or_throw dbErrCause q2 ;;;
  insertWorkflowEvent wi project user "" "workflow_revision"
    [("steps_version", jint 1); ("requires_human_session", JBool rhs);
     ("steps", jint (Z.of_nat (length steps))); ("validation_digest", JStr (pn_digest pin))].

(** ** Instances *)

#[export] Instance revise_body_robust o cx key caller user role roles rhs req :
  Robust (revise_body o cx key caller user role roles rhs req).
Proof. solve_robust. Qed.
#[export] Instance revise_body_commits o cx key caller user role roles rhs req :
  CommitsOnOk (revise_body o cx key caller user role roles rhs req).
Proof. solve_commits. Qed.
#[export] Instance pinFirst_robust o cx wi project user caller rhs steps :
  Robust (pinFirstWorkflowGenerationInTx o cx wi project user caller rhs steps).
Proof. solve_robust. Qed.
