(* ===== verification/Dependencies.v ===== *)
(** * Dependencies between work items, and the garbage collector's sweeps

    [internal/domain/dependencies.go] (edges, cycle detection, listing), the
    two sweeps of [internal/domain/gc.go] that touch the lifecycle tables, and
    the administrator's unblock of [internal/server/router.go]. *)

From S2P Require Import Prelude GoStrings Errors Json Store TxLogic LifecycleSpec.
From S2P Require Import ResourceEvents Attempts Claim Takeover Pooled.
From stdpp Require Import gmap sets fin_sets relations.

Open Scope tx_scope.

(** ** Creating an edge *)

Definition dependencyKinds (kind : string) : bool :=
  bool_decide (kind ∈ ["blocks"; "supersedes"; "related"]).

Definition validateDependencyKind (kind : string) : result AihubError unit :=
  if dependencyKinds kind then Ok tt else Err (NewErr ErrBadRequest).

Record CreateDependencyRequest : Type := mkDepReq {
  dr_blocked : string; dr_blocking : string; dr_kind : string;
  dr_note : option string;
}.

(** The rows [blocking_wi_id] of [WHERE blocked_wi_id ∈ ids AND kind = kind]. *)
Definition blockers_of (c : Core) (kind : string) (ids : gset string) : gset string :=
  foldr (λ d acc, if String.eqb d.2 kind && bool_decide (d.1.1 ∈ ids)
                  then {[ d.1.2 ]} ∪ acc else acc) ∅ (dep_rows c).

(** [n] rounds of the recursive term: [UNION] keeps each row once. *)
Fixpoint reach_iter (c : Core) (kind : string) (n : nat) (ids : gset string)
  : gset string :=
  match n with
  | O => ids
  | S n => reach_iter c kind n (ids ∪ blockers_of c kind ids)
  end.

(** [WITH RECURSIVE reachable]: one round per edge is enough. *)
Definition reachable (c : Core) (kind start : string) : gset string :=
  reach_iter c kind (length (dep_rows c)) (blockers_of c kind {[ start ]}).

Definition detectCycle (blocked blocking kind : string) (c : Core)
  : result AihubError unit :=
  if bool_decide (blocked ∈ reachable c kind blocking)
  then Err (NewErrDetails ErrConflictDependencyCycle (DCyclePath [blocked; blocking]))
  else Ok tt.

(** The argument checks, in order; answers the kind with its default. *)
Definition create_dep_args (req : CreateDependencyRequest) : result AihubError string :=
  if String.eqb (dr_blocked req) "" || String.eqb (dr_blocking req) "" then
    Err (NewErr ErrBadRequest)
  else if String.eqb (dr_blocked req) (dr_blocking req) then Err (NewErr ErrBadRequest)
  else
    let kind := if String.eqb (dr_kind req) "" then "blocks" else dr_kind req in
    rbind (validateDependencyKind kind) (λ _, Ok kind).

(** The reads before the transaction: both work items, the caller's access to
    the blocker's project, and the cycle check; answers the blocked item's
    project.  Every error of the first two reads is reported as not found. *)
Definition create_dep_gate (f1 f2 f3 : option Fault) (req : CreateDependencyRequest)
  (kind : string) (roles : gmap string string) (role : string) (d0 : Db)
  : result AihubError string :=
  match pool_query f1 (select_wi_by_id (dr_blocked req)) d0 with
  | inl _ => Err (NewErr ErrNotFound)
  | inr w =>
      match pool_query f2 (select_wi_by_id (dr_blocking req)) d0 with
      | inl _ => Err (NewErr ErrNotFound)
      | inr b =>
          if negb (String.eqb (wi_project b) (wi_project w))
             && (negb (String.eqb role "admin")
                 && match roles !! wi_project b with
                    | Some r => String.eqb r "" | None => true end)
          then Err (NewErr ErrForbidden)
          else if String.eqb kind "blocks" || String.eqb kind "supersedes" then
            match f3 with
            | Some e => Err (dbErrCause (fault_err e))
            | None => rbind (detectCycle (dr_blocked req) (dr_blocking req) kind (core d0))
                        (λ _, Ok (wi_project w))
            end
          else Ok (wi_project w)
      end
  end.

(** [ON CONFLICT DO NOTHING]; the CHECK and the two foreign keys. *)
Definition insert_dep (k : string * string * string) (note : option string) (c : Core)
  : result DbErr (bool * Core) :=
  if String.eqb k.1.1 k.1.2 || negb (dependencyKinds k.2) then
    inl (PgError pgCheckViolation)
  else match work_items c !! k.1.1, work_items c !! k.1.2 with
  | Some _, Some _ =>
      match wi_dependencies c !! k with
      | Some _ => inr (false, c)
      | None => inr (true, set_deps (<[k := note]> (wi_dependencies c)) c)
      end
  | _, _ => inl (PgError pgForeignKeyViolation)
  end.

Definition emitDependencyCreatedEvent (req : CreateDependencyRequest)
  (kind project user display via : string) : Tx (result DbErr unit) :=
  exec (insert_event
    (mkEvent "dependency_created" (dr_blocked req) None (Some user) display
       [("blocking_wi_id", JStr (dr_blocking req)); ("kind", JStr kind);
        ("via", JStr via)] (Some project))).

(** [UPDATE work_items SET status='blocked' WHERE id=$1 AND status='queued'] *)
Definition derive_blocked (now : Z) (id : string) (c : Core) : result DbErr Core :=
  inr match work_items c !! id with
      | Some w => if decide (wi_status w = WQueued)
                  then set_work_items (alter (wi_with_status now WBlocked) id) c else c
      | None => c
      end.

Definition create_dep_body (cx : Ctx) (req : CreateDependencyRequest)
  (kind project user : string) : Tx unit :=
  r <- stmt (insert_dep (dr_blocked req, dr_blocking req, kind) (dr_note req)) ;;
  inserted <- or_throw dbErrCause r ;;
  (if inserted : bool then
     e <- emitDependencyCreatedEvent req kind project user "" "create_dependency" ;;
     or_throw dbErrCause e
   else tret tt) ;;;
  (if String.eqb kind "blocks" then
     u <- exec (derive_blocked (cx_now cx) (dr_blocked req)) ;;
     or_throw dbErrCause u
   else tret tt) ;;;
  commit_tail tt.

Definition CreateDependency (env : Env) (f1 f2 f3 : option Fault) (cx : Ctx)
  (req : CreateDependencyRequest) (user : string) (roles : gmap string string)
  (role : string) (d0 d : Db) : result AihubError unit * Db :=
  match rbind (create_dep_args req) (λ kind,
          rbind (create_dep_gate f1 f2 f3 req kind roles role d0)
            (λ project, Ok (kind, project))) with
  | inl e => (inl e, d)
  | inr (kind, project) => runTx env (create_dep_body cx req kind project user) d
  end.

(** ** Deleting an edge *)

Definition delete_dep (k : string * string * string) (c : Core)
  : result DbErr (bool * Core) :=
  match wi_dependencies c !! k with
  | Some _ => inr (true, set_deps (delete k (wi_dependencies c)) c)
  | None => inr (false, c)
  end.

(** The event is written only when the project can be read. *)
Definition delete_dep_event (blocked blocking : string) : Tx unit :=
  p <- query (select_wi_by_id blocked) ;;
  match p with
  | inr w => emitWIUnblockedEvent blocked (wi_project w)
               [("unblocked_by", JStr "dependency_removed");
                ("removed_blocker_wi_id", JStr blocking)]
  | inl _ => tret tt
  end.

Definition delete_dep_body (cx : Ctx) (blocked blocking kind : string) : Tx unit :=
  r <- stmt (delete_dep (blocked, blocking, kind)) ;;
  found <- or_throw dbErrCause r ;;
  if negb found then tthrow (NewErr ErrNotFound)
  else
    (if String.eqb kind "blocks" then
       u <- stmt (requeueIfUnblocked (cx_now cx) blocked "") ;;
       match u with
       | inl _ => tthrow (NewErr ErrInternalError)
       | inr true => delete_dep_event blocked blocking
       | inr false => tret tt
       end
     else tret tt) ;;;
    commit_tail tt.

Definition DeleteDependency (env : Env) (cx : Ctx) (blocked blocking kind : string)
  (d : Db) : result AihubError unit * Db :=
  runTx env (delete_dep_body cx blocked blocking kind) d.

(** ** Listing *)

Definition RoleLevel (role : string) : Z :=
  if String.eqb role "viewer" then 1
  else if String.eqb role "writer" then 2
  else if String.eqb role "maintainer" then 3
  else 0.

Record DependencyListEntry : Type := mkDepEntry {
  de_id : string; de_slug : option string; de_project : string; de_kind : string;
  de_note : option string; de_accessible : bool;
}.

Record DependenciesResponse : Type := mkDepResp {
  dp_blocking : list DependencyListEntry;
  dp_blocked_by : list DependencyListEntry;
}.

Definition role_of (roles : gmap string string) (project : string) : string :=
  match roles !! project with Some r => r | None => "" end.

(** One scanned row: the id of a work item the caller cannot read is hidden. *)
Definition dep_entry (roles : gmap string string) (role : string) (w : WorkItem)
  (id kind : string) (note : option string) : DependencyListEntry :=
  let accessible := String.eqb role "admin"
    || Z.leb (RoleLevel "viewer") (RoleLevel (role_of roles (wi_project w))) in
  mkDepEntry (if accessible then id else "hidden") (Some (wi_slug w)) (wi_project w)
    kind note accessible.

Definition list_side (c : Core) (roles : gmap string string) (role : string)
  (mine other : string * string * string → string) (wi : string)
  : list DependencyListEntry :=
  omap (λ kn : (string * string * string) * option string,
    if String.eqb (mine kn.1) wi then
      match work_items c !! other kn.1 with
      | Some w => Some (dep_entry roles role w (other kn.1) kn.1.2 kn.2)
      | None => None
      end
    else None) (map_to_list (wi_dependencies c)).

(** Two queries on the pool, each of which may fail. *)
Definition ListDependencies (f1 f2 : option Fault) (wi : string)
  (roles : gmap string string) (role : string) (d : Db)
  : result AihubError DependenciesResponse :=
  match pool_query f1 (λ c, inr (list_side c roles role
                                   (λ k, k.1.2) (λ k, k.1.1) wi)) d with
  | inl e => Err (dbErr e)
  | inr blocking =>
      match pool_query f2 (λ c, inr (list_side c roles role
                                       (λ k, k.1.1) (λ k, k.1.2) wi)) d with
      | inl e => Err (dbErr e)
      | inr blocked_by => Ok (mkDepResp blocking blocked_by)
      end
  end.

(** ** Garbage collection *)

Inductive GCResult : Type := GcError | GcSkipped | GcDone (affected : Z).

(** What [tryAdvisoryLock] answered, and the outcome of the sweep's own
    transaction; every error becomes [result.Error]. *)
Definition gc_run {A} (lock : result DbErr bool) (affected : A → Z) (env : Env)
  (m : Tx A) (d : Db) : GCResult * Db :=
  match lock with
  | inl _ => (GcError, d)
  | inr false => (GcSkipped, d)
  | inr true =>
      let '(r, d') := runTx env m d in
      (match r with inl _ => GcError | inr a => GcDone (affected a) end, d')
  end.

Definition orphan_sweep_body (cx : Ctx) : Tx (list lockRow) :=
  r <- releaseLocks orphanLockSweep (newLockOp (cx_op1 cx) "orphan_sweep" (mkActor "" "")) ;;
  released <- or_throw dbErr r ;;
  commit_tail released.

Definition RunOrphanLockSweep (lock : result DbErr bool) (env : Env) (cx : Ctx) (d : Db)
  : GCResult * Db :=
  gc_run lock (λ released, Z.of_nat (length released)) env (orphan_sweep_body cx) d.

(** [EXISTS (... dep.kind = 'blocks')] *)
Definition has_blocks_edge (c : Core) (id : string) : bool :=
  existsb (λ d, String.eqb d.1.1 id && String.eqb d.2 "blocks") (dep_rows c).

Definition sweep_unblocks (c : Core) (id : string) (w : WorkItem) : bool :=
  bool_decide (wi_status w = WBlocked) && has_blocks_edge c id
  && negb (open_blocker c id "").

Definition gc_unblock (now : Z) (c : Core) : result DbErr (Z * Core) :=
  inr (Z.of_nat (size (filter (λ kw : string * WorkItem,
         sweep_unblocks c kw.1 kw.2 = true) (work_items c))),
       set_work_items (map_imap (λ id w, Some (
         if sweep_unblocks c id w then wi_with_status now WQueued w else w))) c).

Definition unblock_sweep_body (cx : Ctx) : Tx Z :=
  r <- stmt (gc_unblock (cx_now cx)) ;;
  n <- or_throw dbErr r ;;
  commit_tail n.

Definition RunUnblockDependentWI (lock : result DbErr bool) (env : Env) (cx : Ctx)
  (d : Db) : GCResult * Db :=
  gc_run lock id env (unblock_sweep_body cx) d.

(** ** Unblocking by an administrator

    [handleUnblockWorkItem] of [internal/server/router.go], behind
    [RequireAdmin]: two statements outside any transaction, of which the second,
    the audit event, may be lost. *)

Definition unblock_sql (now : Z) (id : string) (c : Core) : result DbErr Core :=
  inr (set_work_items (alter (λ w,
    if bool_decide (wi_status w = WBlocked) then wi_with_status now WQueued w else w) id) c).

Definition admin_unblock_event (id user reason : string) (c : Core) : result DbErr Core :=
  insert_event (mkEvent "admin_unblock" id None (Some user) ""
    [("action", JStr "unblock"); ("reason", JStr reason)] (wi_project_of c id)) c.

Definition handleUnblockWorkItem (env1 env2 : Env) (f : option Fault) (cx : Ctx)
  (key user role reason : string) (d0 d : Db) : result AihubError unit * Db :=
  if negb (String.eqb role "admin") then (inl (NewErr ErrForbidden), d)
  else match GetWorkItem f key d0 with
  | inl e => (inl e, d)
  | inr w =>
      if negb (bool_decide (wi_status w = WBlocked))
      then (inl (NewErr ErrConflictTerminalState), d)
      else match autocommit env1 (unblock_sql (cx_now cx) (wi_id w)) d with
           | (inl _, d1) => (inl (NewErr ErrInternalError), d1)
           | (inr _, d1) =>
               (inr tt, (autocommit env2 (admin_unblock_event (wi_id w) user reason) d1).2)
           end
  end.

#[export] Instance create_dep_robust cx req k p u : Robust (create_dep_body cx req k p u).
Proof. solve_robust. Qed.
#[export] Instance create_dep_commits cx req k p u :
  CommitsOnOk (create_dep_body cx req k p u).
Proof. solve_commits. Qed.
#[export] Instance delete_dep_robust cx a b k : Robust (delete_dep_body cx a b k).
Proof. solve_robust. Qed.
#[export] Instance delete_dep_commits cx a b k : CommitsOnOk (delete_dep_body cx a b k).
Proof. solve_commits. Qed.
#[export] Instance orphan_sweep_robust cx : Robust (orphan_sweep_body cx).
Proof. solve_robust. Qed.
#[export] Instance orphan_sweep_commits cx : CommitsOnOk (orphan_sweep_body cx).
Proof. solve_commits. Qed.
#[export] Instance unblock_sweep_robust cx : Robust (unblock_sweep_body cx).
Proof. solve_robust. Qed.
#[export] Instance unblock_sweep_commits cx : CommitsOnOk (unblock_sweep_body cx).
Proof. solve_commits. Qed.
