(* ===== verification/Skills.v ===== *)
(** * The skill registry

    [internal/domain/skill_registry.go] and [skill_registry_sharing.go] over the
    tables of [0043_skill_registry.sql].  A skill belongs to a user; its versions
    are published one after the other and never change, but for who may read
    them: a version is private, public, or granted to projects.  Reads go through
    one predicate, [skill_version_access]. *)

From stdpp Require Import sorting.
From Stdlib Require Import Ascii.
From S2P Require Import Prelude GoStrings Errors Json JsonText Bundle WorkflowTables.
From S2P Require Import Store WorkflowPin Attempts Claim Edit Dependencies Pooled.

Open Scope nat_scope.
Open Scope list_scope.
Open Scope tx_scope.

(** ** Answers and requests *)

Record SkillIdentity : Type := mkIdentity {
  si_id : string; si_name : string; si_owner : string; si_display : string;
  si_latest : Z; si_created : Z; si_updated : Z;
}.
Record SkillVersionSummary : Type := mkSummary {
  vs_skill : string; vs_version : Z; vs_visibility : string; vs_digest : string;
  vs_author : string; vs_created : Z;
}.
(** The contents are the stored [jsonb] values. *)
Record SkillVersion : Type := mkSkillVersion {
  kv_summary : SkillVersionSummary; kv_bundle : json; kv_contract : json;
}.
Record SkillDetail : Type := mkDetail {
  sd_identity : SkillIdentity; sd_accessible : option SkillVersionSummary;
}.

Record PublishSkillVersionRequest : Type := mkPublish {
  pq_skill : string; pq_expected : Z; pq_bundle : string; pq_contract : string;
  pq_digest : string;
}.
Record SkillVersionShareRequest : Type := mkShare {
  hq_skill : string; hq_version : Z; hq_project : string;
}.
Record ListSkillsRequest : Type := mkListSkills {
  lq_owner : option string; lq_limit : Z; lq_cursor : string;
}.

(** ** Callers *)

(** [caller == nil || caller.ID == ""] is the first test of both. *)
Definition skillRequireReadCaller (caller : UserRecord) : option AihubError :=
  if String.eqb (us_id caller) "" then Some (NewErr ErrUnauthorized)
  else if negb (String.eqb (us_role caller) "writer") && negb (String.eqb (us_role caller) "admin")
  then Some (NewErr ErrForbidden)
  else None.

Definition skillRequireWriteCaller (caller : UserRecord) : option AihubError :=
  match skillRequireReadCaller caller with
  | Some e => Some e
  | None => if us_scope caller then Some (NewErr ErrForbidden) else None
  end.

Definition unscoped (caller : UserRecord) : bool :=
  match us_scope caller with None => true | Some _ => false end.

Definition skillSeesAllVersions (caller : UserRecord) : bool :=
  String.eqb (us_role caller) "admin" && unscoped caller.

Definition skillOwnerOrAdmin (caller : UserRecord) (owner : string) : bool :=
  skillSeesAllVersions caller || String.eqb (us_id caller) owner && unscoped caller.

(** ** The access predicate *)

(** [p.members @> '[{"user_id": id}]'::jsonb]: some element is an object with
    this member. *)
Definition members_name (members : json) (id : string) : bool :=
  match members with
  | JArr l =>
      existsb (λ e, match e with
                    | JObj o =>
                        match jlookup o "user_id" with Some (JStr u) => String.eqb u id | _ => false end
                    | _ => false
                    end) l
  | _ => false
  end.

Section tables.
Variable c : Core.
Variable caller : UserRecord.

Definition skillGrantExists (scope : option string) (sk : string) (v : Z) : bool :=
  existsb (λ g : (string * Z * string) * string,
      let '(s, n, project) := g.1 in
      String.eqb s sk && Z.eqb n v
      && match projects c !! project with
         | Some p =>
             String.eqb (pr_owner p) (us_id caller) || members_name (pr_members p) (us_id caller)
             || String.eqb (us_role caller) "admin"
         | None => false
         end
      && match scope with Some name => String.eqb project name | None => true end)
    (map_to_list (rg_grants (registry c))).

Definition skill_version_access (sk : string) (v : Z) (row : VersionRow) : bool :=
  if skillSeesAllVersions caller then true
  else match us_scope caller with
       | Some name => skillGrantExists (Some name) sk v
       | None =>
           String.eqb (sv_visibility row) "public"
           || match rg_skills (registry c) !! sk with
              | Some s => String.eqb (sk_owner s) (us_id caller)
              | None => false
              end
           || skillGrantExists None sk v
       end.

Definition summary_of (sk : string) (v : Z) (row : VersionRow) : SkillVersionSummary :=
  mkSummary sk v (sv_visibility row) (sv_digest row) (sv_author row) (sv_created row).

(** The versions of a skill, in their order. *)
Definition version_le (a b : Z * VersionRow) : Prop := (a.1 <= b.1)%Z.
#[export] Instance version_le_dec : RelDecision version_le.
Proof. intros a b. unfold version_le. apply _. Defined.

Definition versions_of (sk : string) : list (Z * VersionRow) :=
  merge_sort version_le
    (omap (λ kr : (string * Z) * VersionRow, if String.eqb kr.1.1 sk then Some (kr.1.2, kr.2) else None)
       (map_to_list (rg_versions (registry c)))).

Definition accessible_versions (sk : string) : list (Z * VersionRow) :=
  filter (λ vr, Is_true (skill_version_access sk vr.1 vr.2)) (versions_of sk).

(** A row of the identity query: the skill joined with its owner, and the
    latest version the caller may read. *)
Definition skill_row (sk : string) : option (SkillIdentity * option SkillVersionSummary) :=
  s ← rg_skills (registry c) !! sk;
  u ← rg_users (registry c) !! sk_owner s;
  Some (mkIdentity sk (sk_name s) (sk_owner s) (ur_display u) (sk_latest s) (sk_created s)
          (sk_updated s),
        (λ vr, summary_of sk vr.1 vr.2) <$> last (accessible_versions sk)).
End tables.

Definition buildSkillDetail (caller : UserRecord)
  (row : SkillIdentity * option SkillVersionSummary) : result AihubError SkillDetail :=
  let '(i, acc) := row in
  if skillOwnerOrAdmin caller (si_owner i) then Ok (mkDetail i acc)
  else match acc with
       | None => Err (NewErr ErrNotFound)
       | Some a =>
           Ok (mkDetail (mkIdentity (si_id i) (si_name i) (si_owner i) (si_display i) 0
                           (si_created i) (vs_created a)) acc)
       end.

Definition rresult {A} (r : result AihubError A) : Rd A :=
  match r with inl e => rthrow e | inr a => rret a end.

Definition found {A} (o : option A) : result DbErr A :=
  match o with Some a => inr a | None => inl NoRows end.

Definition notFound : AihubError := NewErr ErrNotFound.
Definition badRequest : AihubError := NewErr ErrBadRequest.

(** ** Reading *)

Definition GetSkill (caller : UserRecord) (skillID : string) : Rd SkillDetail :=
  rdbind (rguard (skillRequireReadCaller caller)) (λ _,
  if String.eqb skillID "" then rthrow badRequest
  else rdbind (read_row notFound (λ c, found (skill_row c caller skillID))) (λ row,
       rresult (buildSkillDetail caller row))).

(** A [version] parameter is an [int4]; pgx refuses to encode more. *)
Definition as_int4 {A} (v : Z) (r : result DbErr A) : result DbErr A :=
  if in_int32 v then r else inl OtherErr.

Definition GetSkillVersion (caller : UserRecord) (skillID : string) (version : Z)
  : Rd SkillVersion :=
  rdbind (rguard (skillRequireReadCaller caller)) (λ _,
  if String.eqb skillID "" then rthrow badRequest
  else if Z.ltb version 1 then rthrow badRequest
  else read_row notFound (λ c, as_int4 version (found (
         row ← rg_versions (registry c) !! (skillID, version);
         if skill_version_access c caller skillID version row
         then Some (mkSkillVersion (summary_of skillID version row) (sv_bundle row) (sv_contract row))
         else None)))).

Definition skillListDefaultLimit : Z := 50.
Definition skillListMaxLimit : Z := 200.

Definition list_visible (caller : UserRecord)
  (row : SkillIdentity * option SkillVersionSummary) : bool :=
  let acc := match row.2 with Some _ => true | None => false end in
  if skillSeesAllVersions caller then true
  else if unscoped caller then String.eqb (si_owner row.1) (us_id caller) || acc
  else acc.

Definition list_page (c : Core) (caller : UserRecord) (req : ListSkillsRequest) (limit : Z)
  : list (SkillIdentity * option SkillVersionSummary) :=
  take (Z.to_nat limit)
    (filter (λ row, Is_true (
        list_visible caller row
        && (match lq_owner req with
            | Some o => String.eqb o "" || String.eqb (si_owner row.1) o
            | None => true
            end)
        && (String.eqb (lq_cursor req) "" || negb (String.leb (si_id row.1) (lq_cursor req)))))
      (omap (skill_row c caller)
         (merge_sort string_le (map fst (map_to_list (rg_skills (registry c))))))).

Fixpoint details_of (caller : UserRecord)
  (rows : list (SkillIdentity * option SkillVersionSummary)) : result AihubError (list SkillDetail) :=
  match rows with
  | [] => Ok []
  | row :: rows =>
      rbind (buildSkillDetail caller row) (λ d, rbind (details_of caller rows) (λ ds, Ok (d :: ds)))
  end.

Definition ListSkills (caller : UserRecord) (req : ListSkillsRequest) : Rd (list SkillDetail) :=
  rdbind (rguard (skillRequireReadCaller caller)) (λ _,
  let limit := if Z.eqb (lq_limit req) 0 then skillListDefaultLimit else lq_limit req in
  if Z.ltb limit 1 || Z.ltb skillListMaxLimit limit then rthrow badRequest
  else rdbind (read_rows (λ c, list_page c caller req limit)) (λ rows,
       rresult (details_of caller rows))).

Definition skillOwnsSkill (caller : UserRecord) (skillID : string) : Rd bool :=
  rdbind (rread (λ c, found (sk_owner <$> rg_skills (registry c) !! skillID))) (λ q,
    match q with
    | inl NoRows => rret false
    | inl e => rthrow (dbErrCause e)
    | inr owner => rret (String.eqb owner (us_id caller))
    end).

Definition ListSkillVersions (caller : UserRecord) (skillID : string)
  : Rd (list SkillVersionSummary) :=
  rdbind (rguard (skillRequireReadCaller caller)) (λ _,
  if String.eqb skillID "" then rthrow badRequest
  else
    rdbind (if skillSeesAllVersions caller then rret true
            else if unscoped caller then skillOwnsSkill caller skillID
            else rret false) (λ privileged,
    rdbind (if privileged
            then read_row notFound (λ c, found ((λ _, tt) <$> rg_skills (registry c) !! skillID))
            else rret tt) (λ _,
    rdbind (read_rows (λ c, (λ vr, summary_of skillID vr.1 vr.2)
              <$> (if privileged then versions_of c skillID
                   else accessible_versions c caller skillID))) (λ out,
    if negb privileged && Nat.eqb (length out) 0 then rthrow notFound else rret out)))).

(** ** Creating *)

Fixpoint all_bytes (p : nat → bool) (s : string) : bool :=
  match s with "" => true | String c r => p (byte_of c) && all_bytes p r end.
Definition lower_byte (b : nat) : bool := Nat.leb 97 b && Nat.leb b 122.
Definition digit_byte (b : nat) : bool := Nat.leb 48 b && Nat.leb b 57.

(** [skillNameRE], [^[a-z][a-z0-9-]{0,63}$] *)
Definition skillNameRE (s : string) : bool :=
  match s with
  | "" => false
  | String c r =>
      lower_byte (byte_of c) && Nat.leb (String.length r) 63
      && all_bytes (λ b, lower_byte b || digit_byte b || Nat.eqb b 45) r
  end.

Definition set_skills (f : gmap string SkillRow → gmap string SkillRow) : Core → Core :=
  set_registry (λ r, mkReg (rg_users r) (f (rg_skills r)) (rg_versions r) (rg_grants r)).
Definition set_versions (f : gmap (string * Z) VersionRow → gmap (string * Z) VersionRow)
  : Core → Core :=
  set_registry (λ r, mkReg (rg_users r) (rg_skills r) (f (rg_versions r)) (rg_grants r)).
Definition set_grants (f : gmap (string * Z * string) string → gmap (string * Z * string) string)
  : Core → Core :=
  set_registry (λ r, mkReg (rg_users r) (rg_skills r) (rg_versions r) (f (rg_grants r))).

(** The primary key, UNIQUE (owner_user_id, name), the CHECK on the name and
    the reference to users. *)
Definition insert_skill (now : Z) (id owner name : string) (c : Core) : result DbErr Core :=
  if negb (skillNameRE name) then inl (PgError pgCheckViolation)
  else if bool_decide (is_Some (rg_skills (registry c) !! id))
     || existsb (λ ks : string * SkillRow, String.eqb (sk_owner ks.2) owner
                                           && String.eqb (sk_name ks.2) name)
          (map_to_list (rg_skills (registry c)))
  then inl (PgError pgUniqueViolation)
  else if negb (bool_decide (is_Some (rg_users (registry c) !! owner)))
  then inl (PgError pgForeignKeyViolation)
  else inr (set_skills (insert id (mkSkill owner name 0 now now)) c).

Definition isUniqueViolation (e : DbErr) : bool :=
  match e with PgError s => String.eqb s pgUniqueViolation | _ => false end.

(** The row is read back through the pool: [p] says what its queries see. *)
Definition CreateSkill (env : Env) (p : Pool) (now : Z) (id : string) (caller : UserRecord)
  (name : string) (d : Db) : result AihubError SkillDetail * Db :=
  match skillRequireWriteCaller caller with
  | Some e => (inl e, d)
  | None =>
      if negb (skillNameRE name) then (inl badRequest, d)
      else
        let '(r, d') := autocommit env (insert_skill now id (us_id caller) name) d in
        match r with
        | inl e => (inl (if isUniqueViolation e then NewErr ErrConflictDuplicate else dbErrCause e), d')
        | inr _ => ((GetSkill caller id p 0).1, d')
        end
  end.

(** ** Publishing *)

(** A text written to a [jsonb] column. *)
Definition jsonb_in (text : string) : result DbErr json :=
  match parse_json text with
  | Some j => if has_nul j then inl (PgError pgUntranslatableCharacter) else inr j
  | None => inl (PgError "22P02")
  end.

(** The foreign keys, the primary key and the column types. *)
Definition insert_version (now : Z) (sk : string) (v : Z) (bundle contract digest author : string)
  (c : Core) : result DbErr Core :=
  rbind (as_int4 v (jsonb_in bundle)) (λ b,
  rbind (jsonb_in contract) (λ ct,
  if Z.ltb v 1 then inl (PgError pgCheckViolation)
  else if bool_decide (is_Some (rg_versions (registry c) !! (sk, v)))
  then inl (PgError pgUniqueViolation)
  else if negb (bool_decide (is_Some (rg_skills (registry c) !! sk)))
       || negb (bool_decide (is_Some (rg_users (registry c) !! author)))
  then inl (PgError pgForeignKeyViolation)
  else inr (set_versions (insert (sk, v) (mkVersion b ct digest "private" author now)) c))).

Definition advance_latest (now : Z) (sk : string) (v : Z) (c : Core) : result DbErr Core :=
  inr (set_skills (alter (λ s, mkSkill (sk_owner s) (sk_name s) v (sk_created s) now) sk) c).

Definition casFailed (expected current : Z) : AihubError :=
  NewErrDetails ErrConflictCASFailed (DVersions expected current).

(** [now] is the database's clock; the answer's [CreatedAt] is the server's own,
    read after the commit: [answered]. *)
Definition publish_body (now answered : Z) (caller : UserRecord) (req : PublishSkillVersionRequest)
  (content : string * string * string) : Tx SkillVersionSummary :=
  let '(bundleJSON, contractJSON, digest) := content in
  q <- query (λ c, found (rg_skills (registry c) !! pq_skill req)) ;;
  s <- or_throw (λ e, match e with
                      | NoRows => notFound
                      | _ => default (NewErr ErrInternalError) (retryConflictErr e)
                      end) q ;;
  (if negb (skillOwnerOrAdmin caller (sk_owner s)) then tthrow notFound
   else if negb (Z.eqb (pq_expected req) (sk_latest s))
   then tthrow (casFailed (pq_expected req) (sk_latest s))
   else
     let newVersion := wrap64 (sk_latest s + 1) in
     i <- exec (insert_version now (pq_skill req) newVersion bundleJSON contractJSON digest
                  (us_id caller)) ;;
     or_throw dbErrCause i ;;;
     u <- exec (advance_latest now (pq_skill req) newVersion) ;;
     or_throw dbErrCause u ;;;
     commit_tail (mkSummary (pq_skill req) newVersion "private" digest (us_id caller) answered)).

Definition PublishSkillVersion (regexp_compiles : string → bool) (env : Env) (now answered : Z)
  (caller : UserRecord) (req : PublishSkillVersionRequest) (d : Db)
  : result AihubError SkillVersionSummary * Db :=
  match skillRequireWriteCaller caller with
  | Some e => (inl e, d)
  | None =>
      if String.eqb (pq_skill req) "" then (inl badRequest, d)
      else if Z.ltb (pq_expected req) 0 then (inl badRequest, d)
      else match version_content regexp_compiles (pq_bundle req) (pq_contract req) with
           | None => (inl badRequest, d)
           | Some content =>
               if negb (String.eqb (pq_digest req) "") && negb (String.eqb (pq_digest req) content.2)
               then (inl badRequest, d)
               else runTx env (publish_body now answered caller req content) d
           end
  end.

(** ** Sharing *)

(** The same refusal for a skill that is not there and one the caller may not
    write. *)
Definition skillRequireSkillVersionForWrite (caller : UserRecord) (skillID : string) (version : Z)
  : Rd unit :=
  if String.eqb skillID "" then rthrow badRequest
  else if Z.ltb version 1 then rthrow badRequest
  else
    rdbind (read_row notFound (λ c, found (sk_owner <$> rg_skills (registry c) !! skillID))) (λ owner,
    if negb (skillOwnerOrAdmin caller owner) then rthrow notFound
    else read_row notFound (λ c, as_int4 version
           (found ((λ _, tt) <$> rg_versions (registry c) !! (skillID, version))))).

(** [encoding/json] matches a member's name without regard to case: the letters
    s and k also stand for U+017F and U+212A. *)
Fixpoint fold_name (s : string) : string :=
  match s with
  | "" => ""
  | String a r =>
      let b := byte_of a in
      match r with
      | String a2 r2 =>
          if Nat.eqb b 197 && Nat.eqb (byte_of a2) 191 then String (ascii_of_nat 115) (fold_name r2)
          else match r2 with
               | String a3 r3 =>
                   if Nat.eqb b 226 && Nat.eqb (byte_of a2) 132 && Nat.eqb (byte_of a3) 170
                   then String (ascii_of_nat 107) (fold_name r3)
                   else String (ascii_of_nat (if Nat.leb 65 b && Nat.leb b 90 then b + 32 else b))
                          (fold_name r)
               | "" => String (ascii_of_nat (if Nat.leb 65 b && Nat.leb b 90 then b + 32 else b))
                         (fold_name r)
               end
      | "" => String (ascii_of_nat (if Nat.leb 65 b && Nat.leb b 90 then b + 32 else b)) ""
      end
  end.

(** One field of type [string]: the last member of this name that is a string. *)
Definition field_string (o : jobj) (name : string) : string :=
  foldl (λ s kv, match kv.2 with
                 | JStr v => if String.eqb (fold_name kv.1) name then v else s
                 | _ => s
                 end) "" o.

(** [_ = json.Unmarshal(members, &stored)]: user and role; an element of
    another shape is left zero. *)
Definition projectMembers (members : json) : list (string * string) :=
  match members with
  | JArr l =>
      map (λ e, match e with
                | JObj o => (field_string o "user_id", field_string o "role")
                | _ => ("", "")
                end) l
  | _ => []
  end.

Definition is_member (members : json) (id : string) : bool :=
  existsb (λ m : string * string, String.eqb m.1 id && Z.ltb 0 (RoleLevel m.2)) (projectMembers members).

Definition requireSkillShareProjectRight (caller : UserRecord) (project : string) : Rd unit :=
  rdbind (read_row (NewErr ErrProjectNotFound) (λ c, found (projects c !! project))) (λ p,
  if skillSeesAllVersions caller then rret tt
  else if String.eqb (pr_owner p) (us_id caller) then rret tt
  else if is_member (pr_members p) (us_id caller) then rret tt
  else rthrow (NewErr ErrProjectAccessDenied)).

Definition insert_grant (sk : string) (v : Z) (project by_ : string) (c : Core) : result DbErr Core :=
  match as_int4 v (inr tt) with
  | inl e => inl e
  | inr _ =>
      if bool_decide (is_Some (rg_grants (registry c) !! (sk, v, project))) then inr c
      else if negb (bool_decide (is_Some (rg_versions (registry c) !! (sk, v))))
           || negb (bool_decide (is_Some (projects c !! project)))
           || negb (bool_decide (is_Some (rg_users (registry c) !! by_)))
      then inl (PgError pgForeignKeyViolation)
      else inr (set_grants (insert (sk, v, project) by_) c)
  end.

(** The reads before the statement, then the statement. *)
Definition checked_write {A} (env : Env) (p : Pool) (check : Rd unit) (f : Core → result DbErr Core)
  (answer : Rd A) (d : Db) : result AihubError A * Db :=
  match check p 0 with
  | (inl e, _) => (inl e, d)
  | (inr _, n) =>
      let '(r, d') := autocommit env f d in
      match r with
      | inl e => (inl (dbErrCause e), d')
      | inr _ => ((answer p n).1, d')
      end
  end.

Definition ShareSkillVersionWithProject (env : Env) (p : Pool) (caller : UserRecord)
  (req : SkillVersionShareRequest) (d : Db) : result AihubError unit * Db :=
  checked_write env p
    (rdbind (rguard (skillRequireWriteCaller caller)) (λ _,
     rdbind (skillRequireSkillVersionForWrite caller (hq_skill req) (hq_version req)) (λ _,
     if String.eqb (hq_project req) "" then rthrow badRequest
     else requireSkillShareProjectRight caller (hq_project req))))
    (insert_grant (hq_skill req) (hq_version req) (hq_project req) (us_id caller))
    (rret tt) d.

Definition delete_grant (sk : string) (v : Z) (project : string) (c : Core) : result DbErr Core :=
  as_int4 v (inr (set_grants (delete (sk, v, project)) c)).

Definition RevokeSkillVersionFromProject (env : Env) (p : Pool) (caller : UserRecord)
  (req : SkillVersionShareRequest) (d : Db) : result AihubError unit * Db :=
  checked_write env p
    (rdbind (rguard (skillRequireWriteCaller caller)) (λ _,
     rdbind (skillRequireSkillVersionForWrite caller (hq_skill req) (hq_version req)) (λ _,
     if String.eqb (hq_project req) "" then rthrow badRequest else rret tt)))
    (delete_grant (hq_skill req) (hq_version req) (hq_project req))
    (rret tt) d.

Definition skillVisibilityValues : list string := ["private"; "public"].

(** The only UPDATE of [skill_versions]. *)
Definition update_visibility (sk : string) (v : Z) (visibility : string) (c : Core)
  : result DbErr Core :=
  if negb (bool_decide (visibility ∈ skillVisibilityValues)) then inl (PgError pgCheckViolation)
  else as_int4 v (inr (set_versions (alter (λ row,
         mkVersion (sv_bundle row) (sv_contract row) (sv_digest row) visibility (sv_author row)
           (sv_created row)) (sk, v)) c)).

Definition skillVersionSummaryForOwner (skillID : string) (version : Z) : Rd SkillVersionSummary :=
  read_row notFound (λ c, as_int4 version
    (found (summary_of skillID version <$> rg_versions (registry c) !! (skillID, version)))).

Definition SetSkillVersionVisibility (env : Env) (p : Pool) (caller : UserRecord)
  (skillID : string) (version : Z) (visibility : string) (d : Db)
  : result AihubError SkillVersionSummary * Db :=
  checked_write env p
    (rdbind (rguard (skillRequireWriteCaller caller)) (λ _,
     if negb (bool_decide (visibility ∈ skillVisibilityValues)) then rthrow badRequest
     else skillRequireSkillVersionForWrite caller skillID version))
    (update_visibility skillID version visibility)
    (skillVersionSummaryForOwner skillID version) d.
