(* ===== verification/SkillsSpec.v ===== *)
(** * The registry as a transition system

    What the handlers of [Skills] may do to the registry, without SQL, faults or
    callers: [reg_step].  Its invariant [reg_ok], what it keeps ([reg_grows]),
    and the proof that every handler makes such a step or none. *)

From stdpp Require Import sorting.
From S2P Require Import Prelude GoStrings Errors Json JsonText Bundle WorkflowTables.
From S2P Require Import Store TxLogic WorkflowPin Attempts Edit Dependencies Pooled Skills.

Open Scope nat_scope.
Open Scope list_scope.

(** ** Steps *)

(** What a version holds came out of [version_content]. *)
Definition published (rc : string → bool) (b ct : json) (digest : string) : Prop :=
  ∃ bundle contract bj cj, version_content rc bundle contract = Some (bj, cj, digest)
    ∧ parse_json bj = Some b ∧ parse_json cj = Some ct.

Section steps.
Context (rc : string → bool).

Inductive reg_step (r : RegistryTables) : RegistryTables → Prop :=
  | reg_create id owner name now :
      skillNameRE name = true → rg_skills r !! id = None →
      (∀ k s, rg_skills r !! k = Some s → sk_owner s = owner → sk_name s ≠ name) →
      reg_step r (mkReg (rg_users r) (<[id := mkSkill owner name 0 now now]> (rg_skills r))
                    (rg_versions r) (rg_grants r))
  | reg_publish sk s b ct digest author now :
      rg_skills r !! sk = Some s → (0 <= sk_latest s < 2 ^ 31 - 1)%Z →
      rg_versions r !! (sk, (sk_latest s + 1)%Z) = None → published rc b ct digest →
      reg_step r (mkReg (rg_users r)
                    (<[sk := mkSkill (sk_owner s) (sk_name s) (sk_latest s + 1) (sk_created s) now]>
                       (rg_skills r))
                    (<[(sk, (sk_latest s + 1)%Z) := mkVersion b ct digest "private" author now]>
                       (rg_versions r)) (rg_grants r))
  | reg_share sk v project by_ :
      is_Some (rg_versions r !! (sk, v)) → rg_grants r !! (sk, v, project) = None →
      reg_step r (mkReg (rg_users r) (rg_skills r) (rg_versions r)
                    (<[(sk, v, project) := by_]> (rg_grants r)))
  | reg_revoke sk v project :
      reg_step r (mkReg (rg_users r) (rg_skills r) (rg_versions r)
                    (delete (sk, v, project) (rg_grants r)))
  | reg_visibility sk v row visibility :
      rg_versions r !! (sk, v) = Some row → visibility ∈ skillVisibilityValues →
      reg_step r (mkReg (rg_users r) (rg_skills r)
                    (<[(sk, v) := mkVersion (sv_bundle row) (sv_contract row) (sv_digest row)
                                    visibility (sv_author row) (sv_created row)]> (rg_versions r))
                    (rg_grants r))
  (** users change, and a deleted project takes its grants with it *)
  | reg_outside r' :
      rg_skills r' = rg_skills r → rg_versions r' = rg_versions r →
      rg_grants r' ⊆ rg_grants r → reg_step r r'.

(** ** The invariant *)

Record reg_ok (r : RegistryTables) : Prop := mkRegOk {
  (** the versions of a skill are 1, 2, … up to its latest *)
  ok_versions : ∀ sk v, is_Some (rg_versions r !! (sk, v))
    ↔ ∃ s, rg_skills r !! sk = Some s ∧ (1 <= v <= sk_latest s)%Z;
  ok_latest : ∀ sk s, rg_skills r !! sk = Some s → (0 <= sk_latest s < 2 ^ 31)%Z;
  ok_content : ∀ kv row, rg_versions r !! kv = Some row →
    published rc (sv_bundle row) (sv_contract row) (sv_digest row)
    ∧ sv_visibility row ∈ skillVisibilityValues;
  ok_grants : ∀ sk v project, is_Some (rg_grants r !! (sk, v, project)) →
    is_Some (rg_versions r !! (sk, v));
  (** a user has one skill of a name *)
  ok_names : ∀ k1 k2 s1 s2, rg_skills r !! k1 = Some s1 → rg_skills r !! k2 = Some s2 →
    sk_owner s1 = sk_owner s2 → sk_name s1 = sk_name s2 → k1 = k2;
}.

(** What is never lost or changed. *)
Record reg_grows (r r' : RegistryTables) : Prop := mkRegGrows {
  gr_skills : ∀ sk s, rg_skills r !! sk = Some s → ∃ s', rg_skills r' !! sk = Some s'
    ∧ sk_owner s' = sk_owner s ∧ sk_name s' = sk_name s ∧ sk_created s' = sk_created s
    ∧ (sk_latest s <= sk_latest s')%Z;
  gr_versions : ∀ kv row, rg_versions r !! kv = Some row → ∃ row', rg_versions r' !! kv = Some row'
    ∧ sv_bundle row' = sv_bundle row ∧ sv_contract row' = sv_contract row
    ∧ sv_digest row' = sv_digest row ∧ sv_author row' = sv_author row
    ∧ sv_created row' = sv_created row;
}.

#[global] Instance reg_grows_preorder : PreOrder reg_grows.
Proof.
  split.
  - intros r. split; [intros sk s H; exists s|intros kv row H; exists row]; repeat split; auto; lia.
  - intros r1 r2 r3 [S1 V1] [S2 V2]. split.
    + intros sk s H. destruct (S1 sk s H) as (s' & H' & ? & ? & ? & ?).
      destruct (S2 sk s' H') as (s'' & H'' & ? & ? & ? & ?). exists s''. repeat split; try congruence; lia.
    + intros kv row H. destruct (V1 kv row H) as (w & H' & ? & ? & ? & ? & ?).
      destruct (V2 kv w H') as (x & H'' & ? & ? & ? & ? & ?). exists x. repeat split; congruence.
Qed.

Lemma reg_step_grows r r' : reg_step r r' → reg_grows r r'.
Proof.
  destruct 1 as [id owner name now Hn Hf Hu|sk s b ct digest author now Hs Hl Hv Hp
    |sk v project by_ Hv Hg|sk v project|sk v row vis Hv Hin|r' Hs Hv Hg]; simpl.
  - split; simpl; [|by intros kv row H; exists row].
    intros sk s H. exists s. rewrite lookup_insert_ne; [repeat split; auto; lia|congruence].
  - split; simpl.
    + intros k t H. destruct (decide (k = sk)) as [->|Hne].
      * rewrite lookup_insert_eq. eexists. split; [done|]. simplify_eq/=. repeat split; lia.
      * rewrite lookup_insert_ne by done. exists t. repeat split; auto; lia.
    + intros kv row H. exists row. rewrite lookup_insert_ne; [by repeat split|congruence].
  - split; simpl; [intros k t H; exists t; repeat split; auto; lia|by intros kv row H; exists row].
  - split; simpl; [intros k t H; exists t; repeat split; auto; lia|by intros kv row H; exists row].
  - split; simpl; [intros k t H; exists t; repeat split; auto; lia|].
    intros kv w H. destruct (decide (kv = (sk, v))) as [->|Hne].
    + rewrite lookup_insert_eq. eexists. split; [done|]. by simplify_eq/=.
    + rewrite lookup_insert_ne by done. by exists w.
  - split; simpl; rewrite ?Hs, ?Hv; [intros k t H; exists t; repeat split; auto; lia|by intros kv row H; exists row].
Qed.

Lemma reg_step_ok r r' : reg_step r r' → reg_ok r → reg_ok r'.
Proof.
  intros Hstep [OV OL OC OG ON].
  destruct Hstep as [id owner name now Hn Hf Hu|sk s b ct digest author now Hs Hl Hv Hp
    |sk v project by_ Hv Hg|sk v project|sk v row vis Hv Hin|r' Hs Hv Hg].
  - split; simpl; try done.
    + intros sk v. rewrite OV. split; intros (s & H & Hr); exists s.
      * rewrite lookup_insert_ne by congruence. done.
      * destruct (decide (sk = id)) as [->|]; [|by rewrite lookup_insert_ne in H].
        rewrite lookup_insert_eq in H. simplify_eq/=. lia.
    + intros sk s [[<- <-]|[_ H]]%lookup_insert_Some; [simpl; lia|by apply (OL sk)].
    + intros k1 k2 s1 s2 [[<- <-]|[? H1]]%lookup_insert_Some [[<- <-]|[? H2]]%lookup_insert_Some Ho Hm; simpl in *.
      * done.
      * exfalso. by apply (Hu k2 s2).
      * exfalso. by apply (Hu k1 s1).
      * by apply (ON k1 k2 s1 s2).
  - split; simpl.
    + intros k v. destruct (decide (k = sk)) as [->|Hne].
      * rewrite lookup_insert_eq. destruct (decide (v = (sk_latest s + 1)%Z)) as [->|Hv'].
        -- rewrite lookup_insert_eq. split; [|done]. intros _. eexists. split; [done|]. simpl. lia.
        -- rewrite lookup_insert_ne by congruence. rewrite OV. rewrite Hs. split.
           ++ intros (s' & [= <-] & Hr). eexists. split; [done|]. simpl. lia.
           ++ intros (s' & [= <-] & Hr). simpl in Hr. exists s. split; [done|lia].
      * rewrite !lookup_insert_ne by congruence. apply OV.
    + intros k t [[<- <-]|[_ H]]%lookup_insert_Some; [simpl; lia|by apply (OL k)].
    + intros kv w [[<- <-]|[_ H]]%lookup_insert_Some; [|by apply (OC kv)].
      simpl. split; [done|apply list_elem_of_here].
    + intros k v project H%OG. rewrite lookup_insert_is_Some. destruct (decide ((sk, (sk_latest s + 1)%Z) = (k, v))); auto.
    + assert (∀ k t, <[sk:=mkSkill (sk_owner s) (sk_name s) (sk_latest s + 1) (sk_created s) now]> (rg_skills r) !! k = Some t →
        ∃ t', rg_skills r !! k = Some t' ∧ sk_owner t' = sk_owner t ∧ sk_name t' = sk_name t) as Hk.
      { intros k t [[<- <-]|[_ H]]%lookup_insert_Some; [exists s|exists t]; done. }
      intros k1 k2 s1 s2 (t1 & H1 & O1 & M1)%Hk (t2 & H2 & O2 & M2)%Hk Ho Hm.
      apply (ON k1 k2 t1 t2); congruence.
  - split; simpl; try done. intros k w p. destruct (decide ((sk, v, project) = (k, w, p))) as [[= -> -> ->]|Hne]; [done|].
    rewrite lookup_insert_ne by done. apply OG.
  - split; simpl; try done. intros k w p [x [_ H]%lookup_delete_Some]. by apply (OG k w p).
  - assert (∀ kv, is_Some (<[(sk, v):=mkVersion (sv_bundle row) (sv_contract row) (sv_digest row) vis (sv_author row) (sv_created row)]>
      (rg_versions r) !! kv) ↔ is_Some (rg_versions r !! kv)) as Hsame.
    { intros kv. rewrite lookup_insert_is_Some'. split; [intros [<-|H]; [by rewrite Hv|done]|by right]. }
    split; simpl; try done.
    + intros k w. rewrite Hsame. apply OV.
    + intros kv w [[<- <-]|[_ H]]%lookup_insert_Some; [|by apply (OC kv)].
      simpl. split; [by apply (OC (sk, v))|done].
    + intros k w p H%OG. by rewrite Hsame.
  - split; rewrite ?Hs, ?Hv; try done. intros k v p [x H]. apply (OG k v p). exists x.
    by eapply lookup_weaken.
Qed.
End steps.

(** ** The statements are steps *)

Lemma found_inr {A} (o : option A) a : found o = inr a → o = Some a.
Proof. by destruct o; intros [= ->]. Qed.

Lemma as_int4_inr {A} v (r : result DbErr A) a :
  as_int4 v r = inr a → r = inr a ∧ (- 2 ^ 31 <= v < 2 ^ 31)%Z.
Proof.
  unfold as_int4, in_int32. destruct (Z.leb_spec (- 2 ^ 31) v); [|done].
  destruct (Z.ltb_spec v (2 ^ 31)); [|done]. by split.
Qed.

Section refinement.
Context (rc : string → bool).
Notation reg c := (registry c).

Lemma insert_skill_step now id owner name c c' :
  insert_skill now id owner name c = inr c' →
  reg_step rc (reg c) (reg c') ∧ is_Some (rg_users (reg c) !! owner)
  ∧ reg c' = mkReg (rg_users (reg c)) (<[id := mkSkill owner name 0 now now]> (rg_skills (reg c)))
               (rg_versions (reg c)) (rg_grants (reg c)).
Proof.
  unfold insert_skill. destruct (skillNameRE name) eqn:Hn; [|done]. simpl.
  destruct (_ || _) eqn:Hu; [done|]. apply orb_false_iff in Hu as [Hk Hx].
  apply bool_decide_eq_false in Hk. rewrite <-eq_None_not_Some in Hk.
  destruct (bool_decide _) eqn:Ho; [|done]. apply bool_decide_eq_true in Ho. simpl. intros [= <-].
  split; [|done]. apply reg_create; [done|done|]. intros k s Hs <- Hm.
  assert (existsb (λ ks : string * SkillRow, String.eqb (sk_owner ks.2) (sk_owner s)
            && String.eqb (sk_name ks.2) name) (map_to_list (rg_skills (reg c))) = true); [|congruence].
  apply existsb_exists. exists (k, s). split; [by apply list_elem_of_In, elem_of_map_to_list|].
  simpl. rewrite String.eqb_refl. by apply String.eqb_eq in Hm.
Qed.

Lemma insert_grant_step sk v project by_ c c' :
  insert_grant sk v project by_ c = inr c' →
  reg c' = reg c ∨
  reg_step rc (reg c) (reg c') ∧ is_Some (rg_versions (reg c) !! (sk, v)) ∧ is_Some (projects c !! project)
  ∧ reg c' = mkReg (rg_users (reg c)) (rg_skills (reg c)) (rg_versions (reg c))
               (<[(sk, v, project) := by_]> (rg_grants (reg c))).
Proof.
  unfold insert_grant. destruct (as_int4 v _); [done|].
  destruct (bool_decide (is_Some (rg_grants _ !! _))) eqn:Hg; [intros [= <-]; by left|].
  apply bool_decide_eq_false in Hg. rewrite <-eq_None_not_Some in Hg.
  destruct (_ || _) eqn:Hf; [done|]. apply orb_false_iff in Hf as [[Hv Hp]%orb_false_iff _].
  apply negb_false_iff, bool_decide_eq_true in Hv. apply negb_false_iff, bool_decide_eq_true in Hp.
  intros [= <-]. right. split; [by apply reg_share|done].
Qed.

Lemma delete_grant_step sk v project c c' :
  delete_grant sk v project c = inr c' →
  reg_step rc (reg c) (reg c')
  ∧ reg c' = mkReg (rg_users (reg c)) (rg_skills (reg c)) (rg_versions (reg c))
               (delete (sk, v, project) (rg_grants (reg c))).
Proof. unfold delete_grant. intros [[= <-] _]%as_int4_inr. split; [by apply reg_revoke|done]. Qed.

Definition with_visibility (visibility : string) (row : VersionRow) : VersionRow :=
  mkVersion (sv_bundle row) (sv_contract row) (sv_digest row) visibility (sv_author row) (sv_created row).

Lemma reg_same (r : RegistryTables) :
  mkReg (rg_users r) (rg_skills r) (rg_versions r) (rg_grants r) = r.
Proof. by destruct r. Qed.

Lemma update_visibility_step sk v vis c c' :
  update_visibility sk v vis c = inr c' →
  reg c' = reg c ∨
  ∃ row, rg_versions (reg c) !! (sk, v) = Some row ∧ reg_step rc (reg c) (reg c')
    ∧ reg c' = mkReg (rg_users (reg c)) (rg_skills (reg c))
                 (<[(sk, v) := with_visibility vis row]> (rg_versions (reg c))) (rg_grants (reg c)).
Proof.
  unfold update_visibility. destruct (bool_decide _) eqn:Hv; [|done].
  apply bool_decide_eq_true in Hv. simpl. intros [[= <-] _]%as_int4_inr.
  destruct (rg_versions (reg c) !! (sk, v)) as [row|] eqn:E.
  - right. exists row. split; [done|]. simpl.
    replace (alter _ (sk, v) (rg_versions (reg c)))
      with (<[(sk, v) := with_visibility vis row]> (rg_versions (reg c))).
    + split; [by apply reg_visibility|done].
    + apply map_eq. intros k. destruct (decide (k = (sk, v))) as [->|].
      * by rewrite lookup_insert_eq, lookup_alter_eq, E.
      * by rewrite lookup_insert_ne, lookup_alter_ne.
  - left. simpl. rewrite alter_id; [apply reg_same|]. intros row H. by rewrite E in H.
Qed.

(** ** Publishing *)

(** What one publication commits: [s] is the locked row, [b] and [ct] the values
    the texts have. *)
Record published_row (now : Z) (caller : UserRecord) (req : PublishSkillVersionRequest)
  (content : string * string * string) (c c' : Core) (s : SkillRow) (b ct : json) : Prop := mkPN {
  pn_locked : rg_skills (reg c) !! pq_skill req = Some s;
  pn_allowed : skillOwnerOrAdmin caller (sk_owner s) = true;
  pn_expected : pq_expected req = sk_latest s;
  pn_texts : parse_json content.1.1 = Some b ∧ parse_json content.1.2 = Some ct;
  pn_range : (1 <= wrap64 (sk_latest s + 1) < 2 ^ 31)%Z;
  pn_fresh : rg_versions (reg c) !! (pq_skill req, wrap64 (sk_latest s + 1)) = None;
  pn_after : reg c' = mkReg (rg_users (reg c))
    (<[pq_skill req := mkSkill (sk_owner s) (sk_name s) (wrap64 (sk_latest s + 1))
                         (sk_created s) now]> (rg_skills (reg c)))
    (<[(pq_skill req, wrap64 (sk_latest s + 1)) :=
         mkVersion b ct content.2 "private" (us_id caller) now]> (rg_versions (reg c)))
    (rg_grants (reg c));
  pn_frame : projects c' = projects c;
}.

Definition published_next now answered caller req content (c : Core) (out : SkillVersionSummary) (c' : Core)
  : Prop :=
  ∃ s b ct, published_row now caller req content c c' s b ct
    ∧ out = mkSummary (pq_skill req) (wrap64 (sk_latest s + 1)) "private" content.2
              (us_id caller) answered.

Lemma jsonb_in_inr text j : jsonb_in text = inr j → parse_json text = Some j.
Proof.
  unfold jsonb_in. destruct (parse_json text) as [i|]; [|done].
  by destruct (has_nul i); intros [= <-].
Qed.

Lemma insert_version_inr now sk v b ct digest author c c' :
  insert_version now sk v b ct digest author c = inr c' →
  ∃ bj cj, parse_json b = Some bj ∧ parse_json ct = Some cj ∧ (1 <= v < 2 ^ 31)%Z
    ∧ rg_versions (reg c) !! (sk, v) = None
    ∧ c' = set_versions (insert (sk, v) (mkVersion bj cj digest "private" author now)) c.
Proof.
  unfold insert_version.
  intros (bj & [Hb%jsonb_in_inr Hr]%as_int4_inr & (cj & Hc%jsonb_in_inr & H)%rbind_ok)%rbind_ok.
  destruct (Z.ltb_spec v 1); [done|].
  destruct (bool_decide _) eqn:Hv; [done|]. apply bool_decide_eq_false in Hv.
  destruct (_ || _); [done|]. injection H as <-. exists bj, cj.
  repeat split; try done; try lia. by apply eq_None_not_Some.
Qed.

#[export] Instance publish_robust now answered caller req content : Robust (publish_body now answered caller req content).
Proof. destruct content as [[b ct] digest]. unfold publish_body. solve_robust. Qed.
#[export] Instance publish_commits now answered caller req content :
  CommitsOnOk (publish_body now answered caller req content).
Proof. destruct content as [[b ct] digest]. unfold publish_body. solve_commits. Qed.

Lemma publish_body_spec now answered caller req content c :
  wp (publish_body now answered caller req content)
    (commits_to (published_next now answered caller req content c)) (VActive c).
Proof.
  destruct content as [[bt ctt] digest]. unfold publish_body.
  hstep (λ q c', c' = c ∧ ∀ s, q = inr s → rg_skills (reg c) !! pq_skill req = Some s).
  { apply triple_query; [by intros|]. intros s Hs%found_inr. split; [done|]. by intros ? [= <-]. }
  intros q c0 [-> Hq].
  hstep (λ s c', c' = c ∧ rg_skills (reg c) !! pq_skill req = Some s).
  { apply triple_or_throw. intros s ->. auto. }
  intros s c0 [-> Hs]. destruct (skillOwnerOrAdmin caller (sk_owner s)) eqn:Ha; [|apply commits_throw].
  destruct (Z.eqb_spec (pq_expected req) (sk_latest s)) as [He|]; [|apply commits_throw]. simpl.
  set (v := wrap64 (sk_latest s + 1)).
  hstep (λ q c', match q with
                 | inl _ => True
                 | inr _ => insert_version now (pq_skill req) v bt ctt digest (us_id caller) c = inr c'
                 end).
  { apply triple_exec; auto. }
  intros w c1 H1.
  hstep (λ _ c', c' = c1 ∧ insert_version now (pq_skill req) v bt ctt digest (us_id caller) c = inr c1).
  { apply triple_or_throw. by intros [] ->. }
  clear H1. intros _ c2 [-> (bj & cj & Hb & Hc & Hr & Hf & ->)%insert_version_inr].
  hstep (λ q c', match q with
                 | inl _ => True
                 | inr _ => advance_latest now (pq_skill req) v
                     (set_versions (insert (pq_skill req, v)
                        (mkVersion bj cj digest "private" (us_id caller) now)) c) = inr c'
                 end).
  { apply triple_exec; auto. }
  intros [e|[]] c3 H3.
  { eapply wp_bind. by apply wp_throw. }
  apply wp_bind, wp_ret. apply wp_commit_tail. injection H3 as <-.
  exists s, bj, cj. split; [|done]. split; try done. simpl. f_equal.
  apply map_eq. intros k. destruct (decide (k = pq_skill req)) as [->|].
  - by rewrite lookup_insert_eq, lookup_alter_eq, Hs.
  - by rewrite lookup_insert_ne, lookup_alter_ne.
Qed.

Lemma publish_row_step now caller req bundle contract content c c' s b ct :
  version_content rc bundle contract = Some content → (0 <= sk_latest s < 2 ^ 31)%Z →
  published_row now caller req content c c' s b ct → reg_step rc (reg c) (reg c').
Proof.
  intros Hc Hl [H1 H2 H3 [H4a H4b] H5 H6 -> _].
  rewrite wrap64_id in * by (unfold in_int64, max_int64; lia).
  destruct content as [[bj cj] digest]. simpl in *.
  apply reg_publish; [done|lia|done|]. by exists bundle, contract, bj, cj.
Qed.
End refinement.

(** ** Handlers *)

Lemma checked_write_spec {A} env p check f (answer : Rd A) d :
  let out := checked_write env p check f answer d in
  out.2 = d ∨
  f (core d) = inr (core out.2) ∧ ∃ a n, check p 0 = (inr a, n).
Proof.
  unfold checked_write. destruct (check p 0) as [[e|[]] n]; [by left|].
  destruct (autocommit env f d) as [r d'] eqn:E. apply autocommit_spec in E as [[[-> _]|[H _]] _].
  - by destruct r; left.
  - right. destruct r; simpl; eauto.
Qed.

(** [H]: nothing was written, or the statement took effect after its reads
    passed ([Hc]). *)
Ltac destruct_checked H Hc :=
  let u := fresh "u" in
  let n := fresh "n" in
  match goal with
  | |- context [checked_write ?e ?p ?c ?f ?a ?d] =>
      destruct (checked_write_spec e p c f a d) as [H|[H (u & n & Hc)]]
  end.

Definition regs (d : Db) : RegistryTables := registry (core d).

(** The tables after a request, in terms of the statement it runs. *)
Lemma CreateSkill_spec env p now id caller name d :
  let d' := (CreateSkill env p now id caller name d).2 in
  d' = d ∨ skillRequireWriteCaller caller = None
           ∧ insert_skill now id (us_id caller) name (core d) = inr (core d').
Proof.
  unfold CreateSkill. destruct (skillRequireWriteCaller caller); [by left|].
  destruct (skillNameRE name); [|by left]. simpl.
  destruct (autocommit env _ d) as [r d'] eqn:E. apply autocommit_spec in E as [[[-> _]|[H _]] _].
  - by destruct r; left.
  - right. by destruct r.
Qed.

Lemma publish_spec rc env now answered caller req d :
  let d' := (PublishSkillVersion rc env now answered caller req d).2 in
  core d' = core d ∨
  skillRequireWriteCaller caller = None ∧
  ∃ content out, version_content rc (pq_bundle req) (pq_contract req) = Some content
    ∧ published_next now answered caller req content (core d) out (core d').
Proof.
  unfold PublishSkillVersion. destruct (skillRequireWriteCaller caller) eqn:Hw; [by left|].
  destruct (String.eqb (pq_skill req) ""); [by left|]. destruct (Z.ltb (pq_expected req) 0); [by left|].
  destruct (version_content _ _ _) as [content|]; [|by left].
  destruct (_ && _); [by left|]. cbn zeta.
  apply (runTx_invariant (publish_body now answered caller req content)
    (published_next now answered caller req content (core d))
    (λ c, c = core d ∨ None = None ∧ ∃ content0 out, Some content = Some content0
            ∧ published_next now answered caller req content0 (core d) out c)).
  - apply publish_body_spec.
  - by left.
  - intros a c H. right. split; [done|]. by exists content, a.
Qed.

Lemma publish_success rc env now answered caller req d out :
  (PublishSkillVersion rc env now answered caller req d).1 = inr out →
  ∃ content, version_content rc (pq_bundle req) (pq_contract req) = Some content
    ∧ published_next now answered caller req content (core d) out
        (core (PublishSkillVersion rc env now answered caller req d).2).
Proof.
  unfold PublishSkillVersion. destruct (skillRequireWriteCaller caller); [done|].
  destruct (String.eqb (pq_skill req) ""); [done|]. destruct (Z.ltb (pq_expected req) 0); [done|].
  destruct (version_content _ _ _) as [content|]; [|done].
  destruct (_ && _); [done|]. intros H. exists content. split; [done|].
  apply (runTx_success (publish_body now answered caller req content)); [apply publish_body_spec|done].
Qed.

Section runs.
Context (rc : string → bool).

(** Any request, with any arguments, callers, faults and whatever its reads
    outside a transaction saw; or a change elsewhere in the database. *)
Inductive skill_request (d : Db) : Db → Prop :=
  | rq_create env p now id caller name : skill_request d (CreateSkill env p now id caller name d).2
  | rq_publish env now answered caller req : skill_request d (PublishSkillVersion rc env now answered caller req d).2
  | rq_share env p caller req : skill_request d (ShareSkillVersionWithProject env p caller req d).2
  | rq_revoke env p caller req : skill_request d (RevokeSkillVersionFromProject env p caller req d).2
  | rq_visibility env p caller sk v vis :
      skill_request d (SetSkillVersionVisibility env p caller sk v vis d).2
  | rq_elsewhere d' :
      rg_skills (regs d') = rg_skills (regs d) → rg_versions (regs d') = rg_versions (regs d) →
      rg_grants (regs d') ⊆ rg_grants (regs d) → skill_request d d'.

Definition skill_run : relation Db := rtc skill_request.

Lemma request_step d d' :
  skill_request d d' → reg_ok rc (regs d) →
  regs d' = regs d ∨ reg_step rc (regs d) (regs d').
Proof.
  intros Hr Hok. destruct Hr as [env p now id caller name|env now answered caller req|env p caller req
    |env p caller req|env p caller sk v vis|d' H1 H2 H3].
  - destruct (CreateSkill_spec env p now id caller name d) as [->|[_ H]]; [by left|].
    right. by apply (insert_skill_step rc) in H as [H _].
  - destruct (publish_spec rc env now answered caller req d) as [H|(_ & content & out & Hc & s & b & ct & H & _)].
    + left. unfold regs. by rewrite H.
    + right. eapply publish_row_step; [exact Hc| |exact H]. apply (ok_latest rc (regs d) Hok (pq_skill req)), H.
  - unfold ShareSkillVersionWithProject. destruct_checked H Hc.
    + left. by rewrite H.
    + by apply (insert_grant_step rc) in H as [H|[H _]]; [left|right].
  - unfold RevokeSkillVersionFromProject. destruct_checked H Hc.
    + left. by rewrite H.
    + right. by apply (delete_grant_step rc) in H as [H _].
  - unfold SetSkillVersionVisibility. destruct_checked H Hc.
    + left. by rewrite H.
    + by apply (update_visibility_step rc) in H as [H|(row & _ & H & _)]; [left|right].
  - right. by apply reg_outside.
Qed.

Lemma request_ok d d' :
  skill_request d d' → reg_ok rc (regs d) → reg_ok rc (regs d') ∧ reg_grows (regs d) (regs d').
Proof.
  intros Hr Hok. destruct (request_step d d' Hr Hok) as [->|Hs]; [done|].
  split; [by eapply reg_step_ok|by eapply reg_step_grows].
Qed.

Lemma run_ok d d' :
  skill_run d d' → reg_ok rc (regs d) → reg_ok rc (regs d') ∧ reg_grows (regs d) (regs d').
Proof.
  induction 1 as [d|d d1 d' H _ IH]; [done|]. intros Hok.
  destruct (request_ok d d1 H Hok) as [Hok1 Hg1]. destruct (IH Hok1) as [Hok2 Hg2].
  split; [done|]. by etransitivity.
Qed.

(** Nothing created, published or shared yet. *)
Definition no_skills (d : Db) : Prop :=
  rg_skills (regs d) = ∅ ∧ rg_versions (regs d) = ∅ ∧ rg_grants (regs d) = ∅.

Lemma empty_ok d : no_skills d → reg_ok rc (regs d).
Proof.
  intros (Hs & Hv & Hg). split; rewrite ?Hs, ?Hv, ?Hg.
  - intros sk v. rewrite lookup_empty. split; [by intros []|by intros (s & H & _)].
  - intros sk s. by rewrite lookup_empty.
  - intros kv row. by rewrite lookup_empty.
  - intros sk v project. rewrite lookup_empty. by intros [].
  - intros k1 k2 s1 s2. by rewrite lookup_empty.
Qed.
End runs.
