(* ===== verification/SkillsTheory.v ===== *)
(** * What a caller sees of the registry

    [may_read] is the rule the access predicate encodes; [sees_same] relates two
    states of the database that a caller may not tell apart, and every query of
    [Skills] answers the same on both. *)

From stdpp Require Import sorting.
From S2P Require Import Prelude GoStrings Errors Json JsonText Bundle WorkflowTables.
From S2P Require Import Store WorkflowPin Attempts Edit Dependencies Pooled Skills SkillsSpec.

Open Scope nat_scope.
Open Scope list_scope.

Abbreviation reg c := (registry c).

(** ** Sorted lists *)

Lemma strongly_sorted_ext {A} (R : relation A) `{!Irreflexive R, !Transitive R} l1 l2 :
  StronglySorted R l1 → StronglySorted R l2 → (∀ x, x ∈ l1 ↔ x ∈ l2) → l1 = l2.
Proof.
  revert l2. induction l1 as [|a l1 IH]; intros l2 H1 H2 He.
  - destruct l2 as [|b l2]; [done|]. exfalso. apply (not_elem_of_nil b). apply He. left.
  - destruct l2 as [|b l2]; [exfalso; apply (not_elem_of_nil a); apply He; left|].
    inversion_clear H1 as [|? ? S1 F1]. inversion_clear H2 as [|? ? S2 F2].
    rewrite Forall_forall in F1, F2.
    assert (a = b) as <-.
    { pose proof (proj1 (He a) (list_elem_of_here _ _)) as [|Ha]%elem_of_cons; [done|].
      pose proof (proj2 (He b) (list_elem_of_here _ _)) as [|Hb]%elem_of_cons; [done|].
      exfalso. apply (irreflexivity R a). etransitivity; [by apply F1|by apply F2]. }
    f_equal. apply IH; [done|done|]. intros x. split; intros Hx.
    + pose proof (proj1 (He x) (list_elem_of_further _ _ _ Hx)) as [->|]%elem_of_cons; [|done].
      exfalso. apply (irreflexivity R a). by apply F1.
    + pose proof (proj2 (He x) (list_elem_of_further _ _ _ Hx)) as [->|]%elem_of_cons; [|done].
      exfalso. apply (irreflexivity R a). by apply F2.
Qed.

(** A list sorted by a key that no two elements share is strictly sorted. *)
Lemma sorted_strict {A K} (le : relation K) (f : A → K) (l : list A) :
  StronglySorted (λ a b, le (f a) (f b)) l → NoDup (f <$> l) →
  StronglySorted (λ a b, le (f a) (f b) ∧ f a ≠ f b) l.
Proof.
  induction 1 as [|a l Hs IH Hf]; [constructor|]. cbn. intros [Hn Hd]%NoDup_cons.
  constructor; [by apply IH|]. rewrite Forall_forall in *. intros b Hb. split; [by apply Hf|].
  intros He. apply Hn. rewrite He. by apply list_elem_of_fmap_2.
Qed.

Lemma strict_filter {A} (R : relation A) (P : A → Prop) `{!∀ x, Decision (P x)} l :
  StronglySorted R l → StronglySorted R (filter P l).
Proof.
  induction 1 as [|a l Hs IH Hf]; [constructor|]. rewrite filter_cons. case_decide; [|done].
  constructor; [done|]. rewrite Forall_forall in *. intros b [_ Hb]%list_elem_of_filter. by apply Hf.
Qed.

#[export] Instance string_le_trans : Transitive string_le.
Proof. intros a b c. unfold string_le. change (String.le a b → String.le b c → String.le a c). by intros ->. Qed.
#[export] Instance string_le_total : Total string_le.
Proof. intros a b. unfold string_le. change (String.le a b ∨ String.le b a). apply (total String.le). Qed.
#[export] Instance string_le_antisymm : AntiSymm eq string_le.
Proof. intros a b. unfold string_le. change (String.le a b → String.le b a → a = b). apply (anti_symm String.le). Qed.

Definition string_lt (a b : string) : Prop := string_le a b ∧ a ≠ b.
#[export] Instance string_lt_irrefl : Irreflexive string_lt.
Proof. by intros a [_ H]. Qed.
#[export] Instance string_lt_trans : Transitive string_lt.
Proof.
  intros a b c [H1 N1] [H2 N2]. split; [by etransitivity|]. intros ->.
  apply N1. by apply (anti_symm string_le).
Qed.

(** ** The versions of a skill *)

Lemma elem_of_versions c sk v row :
  (v, row) ∈ versions_of c sk ↔ rg_versions (reg c) !! (sk, v) = Some row.
Proof.
  unfold versions_of. rewrite merge_sort_Permutation, list_elem_of_omap. split.
  - intros ([[k n] w] & H%elem_of_map_to_list & E). simpl in E.
    destruct (String.eqb_spec k sk) as [->|]; [|done]. by injection E as <- <-.
  - intros H. exists ((sk, v), row). split; [by apply elem_of_map_to_list|]. simpl.
    by rewrite String.eqb_refl.
Qed.

#[export] Instance version_le_trans : Transitive version_le.
Proof. intros a b c. unfold version_le. lia. Qed.
#[export] Instance version_le_total : Total version_le.
Proof. intros a b. unfold version_le. lia. Qed.

Definition version_lt (a b : Z * VersionRow) : Prop := (a.1 < b.1)%Z.
#[export] Instance version_lt_irrefl : Irreflexive version_lt.
Proof. intros a H. unfold version_lt in H. lia. Qed.
#[export] Instance version_lt_trans : Transitive version_lt.
Proof. intros a b c. unfold version_lt. lia. Qed.

Lemma versions_nodup c sk : NoDup (fst <$> versions_of c sk).
Proof.
  unfold versions_of. rewrite merge_sort_Permutation.
  pose proof (NoDup_fst_map_to_list (rg_versions (reg c))) as Hn.
  induction (map_to_list (rg_versions (reg c))) as [|[[k n] w] l IH]; [constructor|].
  cbn in Hn |- *. apply NoDup_cons in Hn as [Hk Hn]. destruct (String.eqb_spec k sk) as [->|]; [|by apply IH].
  cbn. constructor; [|by apply IH]. intros ([n' w'] & -> & ([[k2 n2] w2] & H & E)%list_elem_of_omap)%list_elem_of_fmap.
  simpl in *. destruct (String.eqb_spec k2 sk) as [->|]; [|done]. injection E as -> ->.
  apply Hk. by apply (list_elem_of_fmap_2 fst) in H.
Qed.

Lemma versions_sorted c sk : StronglySorted version_lt (versions_of c sk).
Proof.
  assert (StronglySorted (λ a b : Z * VersionRow, (a.1 <= b.1)%Z ∧ a.1 ≠ b.1) (versions_of c sk)) as H.
  { apply (sorted_strict Z.le fst); [|apply versions_nodup].
    apply (StronglySorted_merge_sort version_le). }
  induction H as [|a l Hs IH Hf]; constructor; [done|]. eapply Forall_impl; [exact Hf|].
  intros b. unfold version_lt. lia.
Qed.

(** ** Who may read a version *)

Definition insider (caller : UserRecord) (p : ProjectRow) : Prop :=
  pr_owner p = us_id caller ∨ members_name (pr_members p) (us_id caller) = true.

(** The version is shared with this project and the caller takes part in it. *)
Definition granted_in (c : Core) (caller : UserRecord) (sk : string) (v : Z) (project : string) : Prop :=
  is_Some (rg_grants (reg c) !! (sk, v, project))
  ∧ ∃ p, projects c !! project = Some p ∧ (insider caller p ∨ us_role caller = "admin").

Definition may_read (c : Core) (caller : UserRecord) (sk : string) (v : Z) (row : VersionRow) : Prop :=
  match us_scope caller with
  | Some project => granted_in c caller sk v project
  | None =>
      us_role caller = "admin" ∨ sv_visibility row = "public"
      ∨ (∃ s, rg_skills (reg c) !! sk = Some s ∧ sk_owner s = us_id caller)
      ∨ ∃ project, granted_in c caller sk v project
  end.

Lemma grant_exists_iff c caller scope sk v :
  skillGrantExists c caller scope sk v = true
  ↔ ∃ project, granted_in c caller sk v project ∧ (∀ name, scope = Some name → project = name).
Proof.
  unfold skillGrantExists. rewrite existsb_exists. split.
  - intros ([[[s n] project] by_] & Hin%list_elem_of_In%elem_of_map_to_list & H).
    apply andb_true_iff in H as [[[Hs Hn]%andb_true_iff Hp]%andb_true_iff Hsc].
    apply String.eqb_eq in Hs as ->. apply Z.eqb_eq in Hn as ->. exists project. split.
    + split; [by eexists|]. destruct (projects c !! project) as [p|]; [|done]. exists p. split; [done|].
      apply orb_true_iff in Hp as [[Ho%String.eqb_eq|Hm]%orb_true_iff|Ha%String.eqb_eq]; unfold insider; auto.
    + intros name ->. by apply String.eqb_eq in Hsc.
  - intros (project & [[by_ Hg] (p & Hp & Hr)] & Hsc). exists ((sk, v, project), by_).
    split; [by apply list_elem_of_In, elem_of_map_to_list|]. cbn [fst snd].
    rewrite String.eqb_refl, Z.eqb_refl, Hp. cbn [andb]. apply andb_true_iff. split.
    + apply orb_true_iff. destruct Hr as [[Ho|Hm]|Ha]; [left|left|right].
      * rewrite Ho. by rewrite String.eqb_refl.
      * rewrite Hm. by rewrite orb_true_r.
      * by apply String.eqb_eq.
    + destruct scope as [name|]; [|done]. rewrite (Hsc name eq_refl). apply String.eqb_refl.
Qed.

Lemma sees_all_iff caller :
  skillSeesAllVersions caller = true ↔ us_role caller = "admin" ∧ us_scope caller = None.
Proof.
  unfold skillSeesAllVersions, unscoped. rewrite andb_true_iff, String.eqb_eq.
  destruct (us_scope caller); naive_solver.
Qed.

Lemma access_iff c caller sk v row :
  skill_version_access c caller sk v row = true ↔ may_read c caller sk v row.
Proof.
  unfold skill_version_access, may_read. destruct (skillSeesAllVersions caller) eqn:Ha.
  { apply sees_all_iff in Ha as [Hr ->]. naive_solver. }
  assert (us_scope caller = None → us_role caller ≠ "admin") as Hna.
  { intros Hs Hr. assert (skillSeesAllVersions caller = true) by (by apply sees_all_iff). congruence. }
  destruct (us_scope caller) as [name|] eqn:Hs.
  - rewrite grant_exists_iff. split.
    + intros (project & H & E). by rewrite (E name eq_refl) in H.
    + intros H. exists name. split; [done|]. by intros ? [= <-].
  - rewrite !orb_true_iff, grant_exists_iff, String.eqb_eq. split.
    + intros [[H|H]|(project & H & _)]; [by right; left| |by right; right; right; exists project].
      right; right; left. destruct (rg_skills (reg c) !! sk) as [s|]; [|done]. apply String.eqb_eq in H. eauto.
    + intros [H|[H|[(s & H & Ho)|(project & H)]]]; [by apply Hna in H|by left; left| |].
      * left; right. rewrite H. by apply String.eqb_eq.
      * right. by exists project.
Qed.

(** ** Two states a caller may not tell apart *)

Definition readable (c : Core) (caller : UserRecord) (sk : string) (v : Z) (row : VersionRow) : Prop :=
  rg_versions (reg c) !! (sk, v) = Some row ∧ may_read c caller sk v row.

(** The skills a caller governs: its own, and every one for an administrator. *)
Definition governs (caller : UserRecord) (s : SkillRow) : Prop :=
  skillOwnerOrAdmin caller (sk_owner s) = true.

(** What anybody who may read some version sees of the skill. *)
Definition public_part (s : SkillRow) : string * string * Z := (sk_owner s, sk_name s, sk_created s).

Definition display_of (c : Core) (user : string) : option string :=
  ur_display <$> rg_users (reg c) !! user.

Record sees_same (caller : UserRecord) (c1 c2 : Core) : Prop := mkSees {
  ss_versions : ∀ sk v row, readable c1 caller sk v row ↔ readable c2 caller sk v row;
  ss_governed : ∀ sk s, governs caller s → rg_skills (reg c1) !! sk = Some s ↔ rg_skills (reg c2) !! sk = Some s;
  ss_public : ∀ sk v row, readable c1 caller sk v row →
    public_part <$> rg_skills (reg c1) !! sk = public_part <$> rg_skills (reg c2) !! sk;
  ss_display : ∀ sk s, rg_skills (reg c1) !! sk = Some s →
    governs caller s ∨ (∃ v row, readable c1 caller sk v row) →
    display_of c1 (sk_owner s) = display_of c2 (sk_owner s);
}.

#[export] Instance sees_same_equiv caller : Equivalence (sees_same caller).
Proof.
  split.
  - intros c. by split.
  - intros c1 c2 [V G P D]. split.
    + intros sk v row. by rewrite V.
    + intros sk s Hg. by rewrite (G sk s Hg).
    + intros sk v row H%V. symmetry. by eapply P.
    + intros sk s Hs Hv. symmetry. destruct Hv as [Hg|(v & row & Hr%V)].
      * apply (D sk); [by apply G|by left].
      * pose proof (P sk v row Hr) as Hp. rewrite Hs in Hp. apply fmap_Some in Hp as (s1 & H1 & E).
        injection E as Eo _ _. rewrite Eo. apply (D sk); [done|]. right. by exists v, row.
  - intros c1 c2 c3 [V1 G1 P1 D1] [V2 G2 P2 D2]. split.
    + intros sk v row. by rewrite V1.
    + intros sk s Hg. by rewrite (G1 sk s Hg), (G2 sk s Hg).
    + intros sk v row H. rewrite (P1 sk v row H). by eapply P2, V1.
    + intros sk s Hs Hv. rewrite (D1 sk s Hs Hv). destruct Hv as [Hg|(v & row & Hr)].
      * apply (D2 sk); [by apply G1|by left].
      * pose proof (P1 sk v row Hr) as Hp. rewrite Hs in Hp. symmetry in Hp.
        apply fmap_Some in Hp as (s2 & H2 & E). injection E as Eo _ _. rewrite Eo.
        apply (D2 sk); [done|]. right. exists v, row. by apply V1.
Qed.

Lemma governs_reads c caller sk v row s :
  rg_skills (reg c) !! sk = Some s → governs caller s →
  rg_versions (reg c) !! (sk, v) = Some row → readable c caller sk v row.
Proof.
  intros Hs Hg Hv. split; [done|]. apply access_iff. unfold skill_version_access, governs, skillOwnerOrAdmin in *.
  destruct (skillSeesAllVersions caller) eqn:Ha; [done|]. simpl in Hg.
  apply andb_true_iff in Hg as [Ho Hu]. unfold unscoped in Hu.
  destruct (us_scope caller); [done|]. rewrite Hs. apply String.eqb_eq in Ho as ->.
  by rewrite String.eqb_refl, orb_true_r.
Qed.

Lemma elem_of_accessible c caller sk v row :
  (v, row) ∈ accessible_versions c caller sk ↔ readable c caller sk v row.
Proof.
  unfold accessible_versions, readable. rewrite list_elem_of_filter, elem_of_versions. cbn [fst snd].
  rewrite <- access_iff. rewrite Is_true_true. tauto.
Qed.

Section same.
Context (caller : UserRecord) (c1 c2 : Core) (Hsame : sees_same caller c1 c2).

Lemma accessible_same sk : accessible_versions c1 caller sk = accessible_versions c2 caller sk.
Proof.
  apply (strongly_sorted_ext version_lt).
  - apply strict_filter, versions_sorted.
  - apply strict_filter, versions_sorted.
  - intros [v row]. rewrite !elem_of_accessible. apply (ss_versions _ _ _ Hsame).
Qed.

Lemma governed_versions_same sk s :
  rg_skills (reg c1) !! sk = Some s → governs caller s → versions_of c1 sk = versions_of c2 sk.
Proof.
  intros Hs Hg. apply (strongly_sorted_ext version_lt); [apply versions_sorted..|].
  intros [v row]. rewrite !elem_of_versions.
  pose proof (proj1 (ss_governed _ _ _ Hsame sk s Hg) Hs) as Hs2. split; intros H.
  - apply (ss_versions _ _ _ Hsame). by eapply governs_reads.
  - apply (ss_versions _ _ _ Hsame). by eapply governs_reads.
Qed.

Lemma last_readable c sk vr :
  last (accessible_versions c caller sk) = Some vr → readable c caller sk vr.1 vr.2.
Proof. intros H%last_Some_elem_of. destruct vr. by apply elem_of_accessible. Qed.

(** What one row of a skill query becomes. *)
Definition shown (c : Core) (sk : string) : option SkillDetail :=
  row ← skill_row c caller sk;
  match buildSkillDetail caller row with inr d => Some d | inl _ => None end.

Lemma shown_same sk : shown c1 sk = shown c2 sk.
Proof.
  unfold shown, skill_row. rewrite <- accessible_same.
  destruct (last (accessible_versions c1 caller sk)) as [[v row]|] eqn:El.
  - apply last_readable in El as Hr. cbn [fst snd] in Hr.
    pose proof (ss_public _ _ _ Hsame sk v row Hr) as Hp.
    destruct (rg_skills (reg c1) !! sk) as [s1|] eqn:E1, (rg_skills (reg c2) !! sk) as [s2|] eqn:E2;
      try done. cbn [fmap option_fmap option_map] in Hp. injection Hp as Ho Hn Hc.
    assert (governs caller s1 ∨ (∃ v row, readable c1 caller sk v row)) as Hv by eauto.
    pose proof (ss_display _ _ _ Hsame sk s1 E1 Hv) as Hd. unfold display_of in Hd. cbn [mbind option_bind]. rewrite Ho in *.
    destruct (rg_users (reg c1) !! sk_owner s2) as [u1|], (rg_users (reg c2) !! sk_owner s2) as [u2|];
      try done. cbn [fmap option_fmap option_map] in Hd. injection Hd as Hd. cbn.
    destruct (skillOwnerOrAdmin caller (sk_owner s2)) eqn:Hg.
    + assert (s1 = s2) as ->; [|by rewrite Hd].
      assert (governs caller s1) as Hg1 by (unfold governs; by rewrite Ho).
      apply (ss_governed _ _ _ Hsame sk s1 Hg1) in E1. congruence.
    + by rewrite Hd, Hn, Hc.
  - assert (∀ c c', (∀ s, governs caller s → rg_skills (reg c) !! sk = Some s → rg_skills (reg c') !! sk = Some s) →
      (∀ s, governs caller s → rg_skills (reg c) !! sk = Some s → display_of c (sk_owner s) = display_of c' (sk_owner s)) →
      ∀ d, (row ← (s ← rg_skills (reg c) !! sk; u ← rg_users (reg c) !! sk_owner s;
              Some (mkIdentity sk (sk_name s) (sk_owner s) (ur_display u) (sk_latest s) (sk_created s) (sk_updated s),
                    (λ vr, summary_of sk vr.1 vr.2) <$> @None (Z * VersionRow)));
            match buildSkillDetail caller row with inr d => Some d | inl _ => None end) = Some d →
           (row ← (s ← rg_skills (reg c') !! sk; u ← rg_users (reg c') !! sk_owner s;
              Some (mkIdentity sk (sk_name s) (sk_owner s) (ur_display u) (sk_latest s) (sk_created s) (sk_updated s),
                    (λ vr, summary_of sk vr.1 vr.2) <$> @None (Z * VersionRow)));
            match buildSkillDetail caller row with inr d => Some d | inl _ => None end) = Some d) as Hone.
    { intros c c' Hs Hd d H. destruct (rg_skills (reg c) !! sk) as [s|] eqn:E; [|done]. cbn [mbind option_bind] in H.
      destruct (rg_users (reg c) !! sk_owner s) as [u|] eqn:Eu; [|done]. cbn in H.
      destruct (skillOwnerOrAdmin caller (sk_owner s)) eqn:Hg; [|done]. injection H as <-.
      rewrite (Hs s Hg eq_refl). cbn [mbind option_bind].
      pose proof (Hd s Hg eq_refl) as Hds. unfold display_of in Hds. rewrite Eu in Hds.
      destruct (rg_users (reg c') !! sk_owner s) as [u'|]; [|done]. cbn in Hds |- *. rewrite Hg.
      by injection Hds as ->. }
    apply option_eq. intros d. split; apply Hone.
    + intros s Hg. by apply (ss_governed _ _ _ Hsame).
    + intros s Hg Hs. apply (ss_display _ _ _ Hsame sk); [done|by left].
    + intros s Hg. by apply (ss_governed _ _ _ Hsame).
    + intros s Hg Hs. symmetry. apply (ss_display _ _ _ Hsame sk); [by apply (ss_governed _ _ _ Hsame)|by left].
Qed.
End same.

(** ** The answers of the queries *)

Lemma build_error caller row e : buildSkillDetail caller row = inl e → e = notFound.
Proof. destruct row as [i [a|]]; simpl; destruct (skillOwnerOrAdmin caller (si_owner i)); by intros [= <-]. Qed.

Lemma build_keeps caller row d :
  buildSkillDetail caller row = inr d →
  si_id (sd_identity d) = si_id row.1 ∧ si_owner (sd_identity d) = si_owner row.1.
Proof. destruct row as [i [a|]]; simpl; destruct (skillOwnerOrAdmin caller (si_owner i)); by intros [= <-]. Qed.

(** A list shows exactly the rows whose detail can be built. *)
Lemma list_visible_builds caller row :
  list_visible caller row = match buildSkillDetail caller row with inr _ => true | inl _ => false end.
Proof.
  destruct row as [i acc]. unfold list_visible, buildSkillDetail, skillOwnerOrAdmin, unscoped. cbn [fst snd].
  destruct (skillSeesAllVersions caller); [by destruct acc|]. cbn [orb].
  rewrite (String.eqb_sym (us_id caller)).
  destruct (us_scope caller); [by rewrite andb_false_r; destruct acc|]. rewrite andb_true_r.
  destruct (String.eqb (si_owner i) (us_id caller)); by destruct acc.
Qed.

Lemma shown_row c caller sk d :
  shown caller c sk = Some d ↔ ∃ row, skill_row c caller sk = Some row ∧ buildSkillDetail caller row = inr d.
Proof.
  unfold shown. rewrite bind_Some. split; intros (row & Hr & H); exists row; split; try done.
  - by destruct (buildSkillDetail caller row); [|injection H as ->].
  - by rewrite H.
Qed.

Lemma skill_row_id c caller sk row : skill_row c caller sk = Some row → si_id row.1 = sk.
Proof. unfold skill_row. intros (s & _ & (u & _ & [= <-])%bind_Some)%bind_Some. done. Qed.

Lemma shown_id c caller sk d : shown caller c sk = Some d → si_id (sd_identity d) = sk.
Proof. intros (row & Hr%skill_row_id & [Hi _]%build_keeps)%shown_row. congruence. Qed.

(** What the listing shows, in its order. *)
Definition skill_ids (c : Core) : list string :=
  merge_sort string_le (map fst (map_to_list (rg_skills (reg c)))).
Definition all_shown (c : Core) (caller : UserRecord) : list SkillDetail := omap (shown caller c) (skill_ids c).

Definition wanted (req : ListSkillsRequest) (d : SkillDetail) : Prop :=
  (∀ o, lq_owner req = Some o → o ≠ "" → si_owner (sd_identity d) = o)
  ∧ (lq_cursor req ≠ "" → ¬ string_le (si_id (sd_identity d)) (lq_cursor req)).

Definition wantedb (req : ListSkillsRequest) (i : SkillIdentity) : bool :=
  match lq_owner req with Some o => String.eqb o "" || String.eqb (si_owner i) o | None => true end
  && (String.eqb (lq_cursor req) "" || negb (String.leb (si_id i) (lq_cursor req))).

Lemma wantedb_iff req d : wantedb req (sd_identity d) = true ↔ wanted req d.
Proof.
  unfold wantedb, wanted, string_le. rewrite andb_true_iff, orb_true_iff, negb_true_iff, String.eqb_eq.
  assert (∀ A A' B B', (A ↔ A') → (B ↔ B') → A ∧ B ↔ A' ∧ B') as Hand by tauto. apply Hand; clear Hand.
  - destruct (lq_owner req) as [o|]; [|naive_solver]. rewrite orb_true_iff, !String.eqb_eq.
    destruct (decide (o = "")) as [->|]; naive_solver.
  - destruct (String.leb _ _); simpl; destruct (decide (lq_cursor req = "")); naive_solver.
Qed.
#[export] Instance wanted_dec req d : Decision (wanted req d).
Proof.
  destruct (wantedb req (sd_identity d)) eqn:E; [left; by apply wantedb_iff|right].
  intros H%wantedb_iff. congruence.
Defined.

Lemma details_of_page c caller req n l :
  details_of caller (take n (filter (λ row, Is_true (
      list_visible caller row
      && (match lq_owner req with
          | Some o => String.eqb o "" || String.eqb (si_owner row.1) o
          | None => true
          end)
      && (String.eqb (lq_cursor req) "" || negb (String.leb (si_id row.1) (lq_cursor req)))))
    (omap (skill_row c caller) l)))
  = inr (take n (filter (wanted req) (omap (shown caller c) l))).
Proof.
  revert n. induction l as [|sk l IH]; intros n; [by destruct n|]. cbn [omap list_omap].
  unfold shown at 1. destruct (skill_row c caller sk) as [row|] eqn:Er; [|apply IH]. cbn [mbind option_bind].
  rewrite filter_cons, <- andb_assoc, list_visible_builds.
  destruct (buildSkillDetail caller row) as [e|d] eqn:Eb; [apply IH|]. cbn [andb].
  pose proof (build_keeps caller row d Eb) as [Hi Ho]. rewrite <- Hi, <- Ho.
  change (match lq_owner req with Some o => _ | None => _ end && _) with (wantedb req (sd_identity d)).
  rewrite filter_cons. destruct (decide (wanted req d)) as [Hw|Hw].
  - rewrite (proj2 (wantedb_iff req d) Hw). cbn [Is_true]. rewrite decide_True by done.
    destruct n as [|n]; [done|]. cbn [take details_of]. rewrite Eb. cbn [rbind]. by rewrite IH.
  - destruct (wantedb req (sd_identity d)) eqn:E; [by apply wantedb_iff in E|]. cbn [Is_true].
    rewrite decide_False by tauto. apply IH.
Qed.

Lemma skill_ids_elem c sk : sk ∈ skill_ids c ↔ is_Some (rg_skills (reg c) !! sk).
Proof.
  unfold skill_ids. rewrite merge_sort_Permutation, list_elem_of_In, in_map_iff. split.
  - intros ([k s] & <- & H%list_elem_of_In%elem_of_map_to_list). by exists s.
  - intros [s H]. exists (sk, s). split; [done|]. by apply list_elem_of_In, elem_of_map_to_list.
Qed.

Lemma skill_ids_sorted c : StronglySorted string_lt (skill_ids c).
Proof.
  apply (sorted_strict string_le id); [apply (StronglySorted_merge_sort string_le)|].
  rewrite list_fmap_id. unfold skill_ids. rewrite merge_sort_Permutation. apply NoDup_fst_map_to_list.
Qed.

Definition detail_lt (a b : SkillDetail) : Prop := string_lt (si_id (sd_identity a)) (si_id (sd_identity b)).
#[export] Instance detail_lt_irrefl : Irreflexive detail_lt.
Proof. intros a. apply (irreflexivity string_lt). Qed.
#[export] Instance detail_lt_trans : Transitive detail_lt.
Proof. intros a b c. unfold detail_lt. apply transitivity. Qed.

Lemma elem_of_shown c caller d : d ∈ all_shown c caller ↔ ∃ sk, shown caller c sk = Some d.
Proof.
  unfold all_shown. rewrite list_elem_of_omap. split; [intros (sk & _ & H); eauto|].
  intros (sk & H). exists sk. split; [|done]. apply skill_ids_elem.
  apply shown_row in H as (row & Hr & _). unfold skill_row in Hr.
  apply bind_Some in Hr as (s & Hs & _). by exists s.
Qed.

Lemma all_shown_sorted c caller : StronglySorted detail_lt (all_shown c caller).
Proof.
  unfold all_shown. pose proof (skill_ids_sorted c) as Hs. induction Hs as [|sk l _ IH Hf]; [constructor|].
  cbn [omap list_omap]. destruct (shown caller c sk) as [d|] eqn:E; [|done]. constructor; [done|].
  apply Forall_forall. intros d' (k & Hk & Hd)%list_elem_of_omap. unfold detail_lt.
  rewrite (shown_id _ _ _ _ E), (shown_id _ _ _ _ Hd). by apply (proj1 (Forall_forall _ _) Hf).
Qed.

Lemma all_shown_same caller c1 c2 : sees_same caller c1 c2 → all_shown c1 caller = all_shown c2 caller.
Proof.
  intros H. apply (strongly_sorted_ext detail_lt); [apply all_shown_sorted..|].
  intros d. rewrite !elem_of_shown. by setoid_rewrite (shown_same caller c1 c2 H).
Qed.

(** ** Pools *)

(** The queries of a request see states of one execution, in their order. *)
Definition live (p : Pool) : Prop := ∀ n, reg_grows (reg (pool_core p n)) (reg (pool_core p (S n))).

Lemma read_row_same {A} e (f : Core → result DbErr A) p1 p2 n :
  pool_fault p1 n = pool_fault p2 n → f (pool_core p1 n) = f (pool_core p2 n) →
  read_row e f p1 n = read_row e f p2 n.
Proof.
  intros Hf Hc. unfold read_row, rdbind, rread. rewrite Hf, Hc.
  destruct (pool_fault p2 n) as [[]|]; [done|done|]. by destruct (f (pool_core p2 n)) as [[]|].
Qed.

Lemma read_rows_same {A} (f : Core → list A) p1 p2 n :
  pool_fault p1 n = pool_fault p2 n → f (pool_core p1 n) = f (pool_core p2 n) →
  read_rows f p1 n = read_rows f p2 n.
Proof.
  intros Hf Hc. unfold read_rows, rdbind, rread. rewrite Hf, Hc.
  by destruct (pool_fault p2 n) as [[]|].
Qed.

Lemma rguard_same o p1 p2 n : rguard o p1 n = rguard o p2 n.
Proof. by destruct o. Qed.

(** Computations that agree, and go on agreeing from what they answer. *)
Lemma rdbind_same {A B} (m1 m2 : Rd A) (k1 k2 : A → Rd B) p1 p2 n :
  m1 p1 n = m2 p2 n → (∀ a n', m1 p1 n = (inr a, n') → k1 a p1 n' = k2 a p2 n') →
  rdbind m1 k1 p1 n = rdbind m2 k2 p2 n.
Proof.
  unfold rdbind. intros <- H. destruct (m1 p1 n) as [[e|a] n']; [done|]. by apply H.
Qed.

Section pools.
Context (caller : UserRecord) (p1 p2 : Pool).
Context (Hl1 : live p1) (Hl2 : live p2) (Hfault : ∀ n, pool_fault p1 n = pool_fault p2 n).
Context (Hsame : ∀ n, sees_same caller (pool_core p1 n) (pool_core p2 n)).

Lemma GetSkill_same sk n : GetSkill caller sk p1 n = GetSkill caller sk p2 n.
Proof.
  unfold GetSkill. apply rdbind_same; [apply rguard_same|]. intros _ n' _. destruct (String.eqb sk ""); [done|].
  unfold read_row, rdbind, rread. rewrite <- Hfault.
  destruct (pool_fault p1 n') as [f|]; [by destruct f|].
  pose proof (shown_same caller _ _ (Hsame n') sk) as Hs. unfold shown in Hs. unfold found.
  destruct (skill_row (pool_core p1 n') caller sk) as [r1|], (skill_row (pool_core p2 n') caller sk) as [r2|];
    cbn [mbind option_bind] in Hs; unfold rresult, rthrow, rret; try done;
    repeat match goal with
           | |- context [buildSkillDetail ?c ?r] =>
               destruct (buildSkillDetail c r) as [?|?] eqn:?; simplify_eq;
               repeat match goal with
                      | H : buildSkillDetail _ _ = inl _ |- _ => apply build_error in H as ->
                      end
           end; by simplify_eq.
Qed.

Lemma access_row_same sk v n :
  (row ← rg_versions (reg (pool_core p1 n)) !! (sk, v);
   if skill_version_access (pool_core p1 n) caller sk v row
   then Some (mkSkillVersion (summary_of sk v row) (sv_bundle row) (sv_contract row)) else None)
  = (row ← rg_versions (reg (pool_core p2 n)) !! (sk, v);
     if skill_version_access (pool_core p2 n) caller sk v row
     then Some (mkSkillVersion (summary_of sk v row) (sv_bundle row) (sv_contract row)) else None).
Proof.
  assert (∀ c1 c2, sees_same caller c1 c2 → ∀ x,
    (row ← rg_versions (reg c1) !! (sk, v);
     if skill_version_access c1 caller sk v row
     then Some (mkSkillVersion (summary_of sk v row) (sv_bundle row) (sv_contract row)) else None) = Some x →
    (row ← rg_versions (reg c2) !! (sk, v);
     if skill_version_access c2 caller sk v row
     then Some (mkSkillVersion (summary_of sk v row) (sv_bundle row) (sv_contract row)) else None) = Some x) as Hone.
  { intros c1 c2 H x (row & Hr & Hx)%bind_Some.
    destruct (skill_version_access c1 caller sk v row) eqn:Ha; [|done]. apply access_iff in Ha.
    destruct (proj1 (ss_versions _ _ _ H sk v row) (conj Hr Ha)) as [H2 Ha2]. rewrite H2. cbn [mbind option_bind].
    apply access_iff in Ha2. by rewrite Ha2. }
  apply option_eq. intros x. split; apply Hone; [|symmetry]; apply Hsame.
Qed.

Lemma GetSkillVersion_same sk v n : GetSkillVersion caller sk v p1 n = GetSkillVersion caller sk v p2 n.
Proof.
  unfold GetSkillVersion. apply rdbind_same; [apply rguard_same|]. intros _ n' _.
  destruct (String.eqb sk ""); [done|]. destruct (Z.ltb v 1); [done|].
  apply read_row_same; [done|]. by rewrite access_row_same.
Qed.

Lemma ListSkills_page c req limit :
  details_of caller (list_page c caller req limit)
  = inr (take (Z.to_nat limit) (filter (wanted req) (all_shown c caller))).
Proof. apply details_of_page. Qed.

Lemma ListSkills_same req n : ListSkills caller req p1 n = ListSkills caller req p2 n.
Proof.
  unfold ListSkills. apply rdbind_same; [apply rguard_same|]. intros _ n' _.
  destruct (_ || _); [done|]. unfold read_rows, rdbind, rread. rewrite <- Hfault.
  destruct (pool_fault p1 n') as [f|]; [by destruct f|].
  unfold rret. rewrite !ListSkills_page. by rewrite (all_shown_same caller _ _ (Hsame n')).
Qed.

Lemma owns_governs s : unscoped caller = true → sk_owner s = us_id caller → governs caller s.
Proof. intros Hu Ho. unfold governs, skillOwnerOrAdmin. by rewrite Hu, Ho, String.eqb_refl, orb_true_r. Qed.

Lemma sees_all_governs s : skillSeesAllVersions caller = true → governs caller s.
Proof. intros H. unfold governs, skillOwnerOrAdmin. by rewrite H. Qed.

Lemma skillOwnsSkill_same sk n :
  unscoped caller = true → skillOwnsSkill caller sk p1 n = skillOwnsSkill caller sk p2 n.
Proof.
  intros Hu. unfold skillOwnsSkill, rdbind, rread. rewrite <- Hfault.
  destruct (pool_fault p1 n) as [f|]; [by destruct f|]. unfold found.
  destruct (rg_skills (reg (pool_core p1 n)) !! sk) as [s1|] eqn:E1, (rg_skills (reg (pool_core p2 n)) !! sk) as [s2|] eqn:E2;
    cbn [fmap option_fmap option_map]; unfold rret; [| | |done].
  - destruct (String.eqb_spec (sk_owner s1) (us_id caller)) as [H1|H1].
    + apply (ss_governed _ _ _ (Hsame n) sk s1 (owns_governs s1 Hu H1)) in E1.
      rewrite E2 in E1. injection E1 as ->. by rewrite H1, String.eqb_refl.
    + destruct (String.eqb_spec (sk_owner s2) (us_id caller)) as [H2|H2]; [|done].
      apply (ss_governed _ _ _ (Hsame n) sk s2 (owns_governs s2 Hu H2)) in E2. congruence.
  - destruct (String.eqb_spec (sk_owner s1) (us_id caller)) as [H1|H1]; [|done].
    apply (ss_governed _ _ _ (Hsame n) sk s1 (owns_governs s1 Hu H1)) in E1. congruence.
  - destruct (String.eqb_spec (sk_owner s2) (us_id caller)) as [H2|H2]; [|done].
    apply (ss_governed _ _ _ (Hsame n) sk s2 (owns_governs s2 Hu H2)) in E2. congruence.
Qed.

(** A skill the caller was found to own stays its own. *)
Lemma owned_later p sk n n' :
  live p → skillOwnsSkill caller sk p n = (inr true, n') →
  n' = S n ∧ ∀ k, n <= k → ∃ s, rg_skills (reg (pool_core p k)) !! sk = Some s ∧ sk_owner s = us_id caller.
Proof.
  intros Hl. unfold skillOwnsSkill, rdbind, rread. destruct (pool_fault p n) as [f|]; [by destruct f|].
  unfold found. destruct (rg_skills (reg (pool_core p n)) !! sk) as [s|] eqn:E;
    cbn [fmap option_fmap option_map]; unfold rret; [|done].
  destruct (String.eqb_spec (sk_owner s) (us_id caller)) as [H|H]; [|done]. intros [= <-].
  split; [done|]. intros k Hk. induction Hk as [|k Hk (t & Ht & Ho)]; [by exists s|].
  destruct (gr_skills _ _ (Hl k) sk t Ht) as (t' & Ht' & Ho' & _). exists t'. split; [done|congruence].
Qed.

Lemma ListSkillVersions_same sk n : ListSkillVersions caller sk p1 n = ListSkillVersions caller sk p2 n.
Proof.
  unfold ListSkillVersions. apply rdbind_same; [apply rguard_same|]. intros _ n' _.
  destruct (String.eqb sk ""); [done|].
  set (priv := if skillSeesAllVersions caller then rret true
               else if unscoped caller then skillOwnsSkill caller sk else rret false).
  assert (priv p1 n' = priv p2 n') as Hpriv.
  { unfold priv. destruct (skillSeesAllVersions caller); [done|].
    destruct (unscoped caller) eqn:Hu; [by apply skillOwnsSkill_same|done]. }
  apply rdbind_same; [exact Hpriv|]. intros privileged m Hm.
  assert (privileged = true → ∀ k s, m <= k → rg_skills (reg (pool_core p1 k)) !! sk = Some s → governs caller s) as Hg1.
  { intros -> k s Hk Hs. unfold priv in Hm. destruct (skillSeesAllVersions caller) eqn:Ha; [by apply sees_all_governs|].
    destruct (unscoped caller) eqn:Hu; [|done]. apply (owned_later p1 sk n' m Hl1) in Hm as [-> Hm].
    destruct (Hm k) as (s' & Hs' & Ho); [lia|]. rewrite Hs in Hs'. injection Hs' as <-. by apply owns_governs. }
  assert (privileged = true → ∀ k s, m <= k → rg_skills (reg (pool_core p2 k)) !! sk = Some s → governs caller s) as Hg2.
  { intros -> k s Hk Hs. rewrite Hpriv in Hm. unfold priv in Hm.
    destruct (skillSeesAllVersions caller) eqn:Ha; [by apply sees_all_governs|].
    destruct (unscoped caller) eqn:Hu; [|done]. apply (owned_later p2 sk n' m Hl2) in Hm as [-> Hm].
    destruct (Hm k) as (s' & Hs' & Ho); [lia|]. rewrite Hs in Hs'. injection Hs' as <-. by apply owns_governs. }
  clear Hpriv Hm priv. apply rdbind_same.
  { destruct privileged; [|done]. apply read_row_same; [done|]. f_equal.
    destruct (rg_skills (reg (pool_core p1 m)) !! sk) as [s|] eqn:E1.
    - pose proof (Hg1 eq_refl m s (le_n m) E1) as Hg. by rewrite (proj1 (ss_governed _ _ _ (Hsame m) sk s Hg) E1).
    - destruct (rg_skills (reg (pool_core p2 m)) !! sk) as [s|] eqn:E2; [|done].
      pose proof (Hg2 eq_refl m s (le_n m) E2) as Hg. apply (ss_governed _ _ _ (Hsame m) sk s Hg) in E2. congruence. }
  intros u k Hk. apply rdbind_same; [|by intros out ? _; destruct (_ && _)].
  apply read_rows_same; [done|]. f_equal. destruct privileged; [|by apply accessible_same].
  unfold read_row, rdbind, rread in Hk. destruct (pool_fault p1 m) as [f|]; [by destruct f|].
  unfold found in Hk. destruct (rg_skills (reg (pool_core p1 m)) !! sk) as [s|] eqn:E; [|done].
  injection Hk as <- <-. destruct (gr_skills _ _ (Hl1 m) sk s E) as (s' & Hs' & _).
  eapply governed_versions_same; [apply Hsame|exact Hs'|]. apply (Hg1 eq_refl (S m) s'); [lia|done].
Qed.
End pools.
