(* ===== verification/Dedup.v ===== *)
(** * Is a new work item like one that is open already?

    [checkDedup] of [internal/domain/work_items.go]: the candidates the query
    selects, the similarity of each in float64 arithmetic, and the two
    thresholds.  IEEE 754 arithmetic is that of [SpecFloat], rounded after every
    operation (no fused multiply-add, as on amd64). *)

From Stdlib Require Import Ascii SpecFloat.
From stdpp Require Import sorting.
From Stdlib Require Import SpecFloat.
From S2P Require Import Prelude GoStrings Errors Json Crypto Declared Store Attempts Claim.
From S2P Require Import Takeover.

Open Scope nat_scope.
Open Scope list_scope.

(** ** Float64 *)

Definition float_of (n : Z) : spec_float := binary_normalize 53 1024 n 0 false.
Definition fadd : spec_float → spec_float → spec_float := SFadd 53 1024.
Definition fmul : spec_float → spec_float → spec_float := SFmul 53 1024.
Definition fdiv : spec_float → spec_float → spec_float := SFdiv 53 1024.

(** The double nearest to [n/10^k], as the compiler rounds a literal. *)
Definition literal (n d : Z) : spec_float := fdiv (float_of n) (float_of d).

Definition goalWeight : spec_float := literal 6 10.
Definition partWeight : spec_float := literal 2 10.
Definition duplicateScore : spec_float := literal 90 100.
Definition candidateThreshold : spec_float := literal 65 100.
Definition fzero : spec_float := S754_zero false.
Definition fone : spec_float := float_of 1.

Definition ratio (a b : nat) : spec_float := fdiv (float_of (Z.of_nat a)) (float_of (Z.of_nat b)).

(** ** Sets of strings *)

(** The runes of a text, each as its UTF-8 bytes. *)
Fixpoint runes_fuel (fuel : nat) (s : string) : list string :=
  match fuel, s with
  | S fuel, String _ _ =>
      let n := rune_width s in
      String.substring 0 n s :: runes_fuel fuel (sdrop n s)
  | _, _ => []
  end.
Definition runes (s : string) : list string := runes_fuel (String.length s) s.

Section dedup.
(** [unicode.ToLower] on the runes that are not ASCII. *)
Variable lower_rune : string → string.
(** PostgreSQL's [jsonb @> jsonb]. *)
Variable jsonb_contains : RawMessage → RawMessage → bool.

Definition ascii_lower (c : ascii) : ascii :=
  if in_range 65 90 c then ascii_of_nat (nat_of_ascii c + 32) else c.
Definition lower_one (r : string) : string :=
  match r with
  | String c "" => if in_range 0 127 c then String (ascii_lower c) "" else lower_rune r
  | _ => lower_rune r
  end.
(** [[]rune(strings.ToLower(s))] *)
Definition lowered (s : string) : list string := runes s ≫= λ r, runes (lower_one r).

Fixpoint sconcat (l : list string) : string :=
  match l with [] => "" | x :: l => x +:+ sconcat l end.

Definition ngrams (s : string) (n : nat) : gset string :=
  let rs := lowered s in
  list_to_set ((λ i, sconcat (take n (drop i rs))) <$> seq 0 (S (length rs) - n)).

(** |A∩B| / |A∪B| on counts. *)
Definition jaccard (a b : gset string) : spec_float :=
  let intersection := size (a ∩ b) in
  let union := size a + size b - intersection in
  if Nat.eqb union 0 then fzero else ratio intersection union.

Definition jaccardNGram (a b : string) (n : nat) : spec_float :=
  let setA := ngrams a n in
  let setB := ngrams b n in
  if Nat.eqb (size setA) 0 && Nat.eqb (size setB) 0 then fone else jaccard setA setB.

Definition setOverlap (a b : list string) : spec_float :=
  let setA : gset string := list_to_set a in
  let setB : gset string := list_to_set b in
  if Nat.eqb (size setA) 0 && Nat.eqb (size setB) 0 then fzero else jaccard setA setB.

(** The score and the weight that applies. *)
Definition weightedComponent (a b : list string) (weight : spec_float)
  : spec_float * spec_float :=
  if Nat.eqb (length a) 0 && Nat.eqb (length b) 0 then (fzero, fzero)
  else (setOverlap a b, weight).

Definition resource_key (item : jobj) : list string :=
  let typ := jstr item "type" in
  if String.eqb typ "" then []
  else if negb (String.eqb (jstr item "uri") "") then [typ +:+ ":" +:+ jstr item "uri"]
  else if negb (String.eqb (jstr item "value") "") then [typ +:+ ":" +:+ jstr item "value"]
  else [].

(** [None]: the payload does not decode. *)
Definition declaredResourceKeys (raw : RawMessage) : option (list string) :=
  if raw_absent raw then Some []
  else (λ items, items ≫= resource_key) <$> unmarshal_objects raw.

(** ** Scores *)

(** What of a request [checkDedup] reads. *)
Record DedupKey : Type := mkDedup {
  dd_project : string; dd_goal : string; dd_labels : list string; dd_resources : RawMessage;
}.

Definition resource_component (a b : RawMessage) : spec_float * spec_float :=
  match declaredResourceKeys a, declaredResourceKeys b with
  | Some x, Some y => weightedComponent x y partWeight
  | _, _ => (fzero, partWeight)
  end.

(** The score and whether it is valid. *)
Definition candidateScore (req : DedupKey) (goal : string) (labels : list string)
  (resources : RawMessage) : spec_float * bool :=
  let sim := jaccardNGram (dd_goal req) goal 3 in
  let l := weightedComponent (dd_labels req) labels partWeight in
  let r := resource_component (dd_resources req) resources in
  let total := fadd (fadd goalWeight l.2) r.2 in
  if SFleb total fzero then (fzero, false)
  else
    let score := fdiv (fadd (fadd (fmul goalWeight sim) (fmul l.2 l.1)) (fmul r.2 r.1)) total in
    (score, negb (SFltb score fzero || SFltb fone score)).

(** ** Candidates *)

Definition overlap_count (a b : list string) : nat :=
  size ((list_to_set a : gset string) ∩ list_to_set b).

Definition dedup_live (st : WiStatus) : bool := negb (wi_terminal st).

Definition is_candidate (req : DedupKey) (w : WorkItem) : bool :=
  String.eqb (wi_project w) (dd_project req) && dedup_live (wi_status w)
  && (bool_decide (dd_labels req = [])
      || Nat.ltb 0 (overlap_count (doc_labels (wi_doc w)) (dd_labels req))
      || jsonb_contains (wi_declared w) (dd_resources req)).

(** The sort key: label overlap and containment (with labels only), [seq]. *)
Definition candidate_rank (req : DedupKey) (w : WorkItem) : nat * bool * Z :=
  if bool_decide (dd_labels req = []) then (0, false, doc_seq (wi_doc w))
  else (overlap_count (doc_labels (wi_doc w)) (dd_labels req),
        jsonb_contains (wi_declared w) (dd_resources req), doc_seq (wi_doc w)).

(** [a] comes no later than [b]: every key descending. *)
Definition rank_before (a b : nat * bool * Z) : bool :=
  Nat.ltb b.1.1 a.1.1
  || Nat.eqb a.1.1 b.1.1
     && (a.1.2 && negb b.1.2 || Bool.eqb a.1.2 b.1.2 && Z.leb b.2 a.2).
Definition candidate_le (req : DedupKey) (a b : WorkItem) : Prop :=
  Is_true (rank_before (candidate_rank req a) (candidate_rank req b)).
#[export] Instance candidate_le_dec req : RelDecision (candidate_le req).
Proof. intros a b. unfold candidate_le. apply _. Defined.

Definition candidates (req : DedupKey) (c : Core) : list WorkItem :=
  take 50 (merge_sort (candidate_le req)
             (filter (λ w, is_candidate req w = true) (map_to_list (work_items c)).*2)).

(** ** The check *)

Definition Partial : Type := WorkItem * spec_float.

(** The loop: the first row that is a duplicate, or the similar ones. *)
Fixpoint scan_candidates (req : DedupKey) (rows : list WorkItem)
  : result WorkItem (list Partial) :=
  match rows with
  | [] => Ok []
  | w :: rows =>
      let s := candidateScore req (wi_goal w) (doc_labels (wi_doc w)) (wi_declared w) in
      if negb s.2 then scan_candidates req rows
      else if SFleb duplicateScore s.1 then Err w
      else rbind (scan_candidates req rows) (λ ps,
             Ok (if SFleb candidateThreshold s.1 then (w, s.1) :: ps else ps))
  end.

(** [sort.SliceStable] by descending similarity. *)
Fixpoint put_partial (p : Partial) (ps : list Partial) : list Partial :=
  match ps with
  | [] => [p]
  | q :: qs => if SFltb p.2 q.2 then q :: put_partial p qs else p :: ps
  end.
Definition most_similar (ps : list Partial) : list Partial := foldr put_partial [] ps.

Definition similar_verdict (ps : list Partial) : option AihubError :=
  match ps with
  | [] => None
  | ps => Some (NewErrDetails ErrConflictCandidates (DCandidates
            ((λ p : Partial, (wi_id p.1, wi_slug p.1, wi_goal p.1, p.2))
               <$> most_similar ps)))
  end.

(** A row that does not scan ends the loop: only a duplicate found before it is
    reported. *)
Definition dedup_verdict (scan : option nat) (req : DedupKey) (rows : list WorkItem)
  : option AihubError :=
  let '(seen, complete) := drain scan rows in
  match scan_candidates req seen with
  | inl w => Some (NewErrDetails ErrConflictDuplicate
               (DExisting (wi_id w) (wi_slug w) (wi_goal w) (wi_status_text (wi_status w))))
  | inr ps => if complete then similar_verdict ps else None
  end.

(** The query may see the tables of an earlier moment, [d0]; its failure lets
    the creation pass, unless the transaction lost a race. *)
Definition checkDedup (scan : option nat) (req : DedupKey) (d0 : Db) : Tx unit :=
  tbind (query (λ _, inr (candidates req (core d0)))) (λ q,
  match q with
  | inl e => throw_opt (retryConflictErr e)
  | inr rows => throw_opt (dedup_verdict scan req rows)
  end).

#[export] Instance checkDedup_robust scan req d0 : Robust (checkDedup scan req d0).
Proof. solve_robust. Qed.
End dedup.

Example literals_are_doubles :
  goalWeight = S754_finite false 5404319552844595 (-53)
  ∧ candidateThreshold = S754_finite false 5854679515581645 (-53).
Proof. by vm_compute. Qed.

(** * The search for duplicates finds what it should

    The quotient of a count by itself is exactly one in float64, so the score
    of an item against itself is one, and the scan refuses it. *)

Open Scope Z_scope.

(** ** Rounding *)

Lemma digits_shift k m : digits2_pos (shift_pos k m) = (digits2_pos m + k)%positive.
Proof.
  unfold shift_pos. induction k as [|k IH] using Pos.peano_ind.
  - simpl. lia.
  - rewrite Pos.iter_succ. simpl. rewrite IH. lia.
Qed.

Lemma digits_lower m : 2 ^ (Z.pos (digits2_pos m) - 1) <= Z.pos m.
Proof.
  induction m as [m IH|m IH|]; simpl digits2_pos; [| |done];
    rewrite Pos2Z.inj_succ;
    replace (Z.succ (Z.pos (digits2_pos m)) - 1) with (Z.succ (Z.pos (digits2_pos m) - 1)) by lia;
    rewrite Z.pow_succ_r by lia; lia.
Qed.

Lemma digits_bound m : Z.pos m < 2 ^ 53 → Z.pos (digits2_pos m) <= 53.
Proof.
  intros H. pose proof (digits_lower m) as Hl.
  destruct (Z.le_gt_cases (Z.pos (digits2_pos m)) 53) as [|Hgt]; [done|].
  pose proof (Z.pow_le_mono_r 2 53 (Z.pos (digits2_pos m) - 1)). lia.
Qed.

(** A significand of 53 digits needs no rounding. *)
Lemma round_exact m e :
  Z.pos (digits2_pos m) = 53 → -1074 <= e <= 971 →
  binary_round_aux 53 1024 false (Z.pos m) e loc_Exact = S754_finite false m e.
Proof.
  intros Hm He. unfold binary_round_aux.
  assert (shr_fexp 53 1024 (Z.pos m) e loc_Exact = (Build_shr_record (Z.pos m) false false, e))
    as Hs.
  { unfold shr_fexp, fexp, emin. simpl Zdigits2. rewrite Hm.
    replace (Z.max (53 + e - 53) (3 - 1024 - 53) - e) with 0 by lia. done. }
  rewrite Hs. cbn [shr_m loc_of_shr_record round_nearest_even]. rewrite Hs. cbn [shr_m].
  replace (e <=? 1024 - 53) with true by (symmetry; apply Z.leb_le; lia). done.
Qed.

(** Small integers are doubles. *)
Lemma float_of_finite m :
  Z.pos m < 2 ^ 53 → ∃ m' e, float_of (Z.pos m) = S754_finite false m' e.
Proof.
  intros Hm. apply digits_bound in Hm. unfold float_of, binary_normalize, binary_round.
  set (d := Z.pos (digits2_pos m)) in *.
  assert (fexp 53 1024 (d + 0) = d - 53) as -> by (unfold fexp, emin; lia).
  unfold shl_align. destruct (d - 53 - 0) as [|k|k] eqn:E; [|lia|].
  - eexists _, _. apply round_exact; lia.
  - eexists _, _. apply round_exact; [|lia].
    pose proof (digits_shift k m) as Hk. unfold shift_pos in Hk. rewrite Hk. lia.
Qed.

Lemma fdiv_self m e : fdiv (S754_finite false m e) (S754_finite false m e) = fone.
Proof.
  unfold fdiv, SFdiv.
  assert (SFdiv_core_binary 53 1024 (Z.pos m) e (Z.pos m) e = (2 ^ 53, -53, loc_Exact)) as ->.
  { unfold SFdiv_core_binary. rewrite Z.sub_diag.
    replace (Zdigits2 (Z.pos m) + e - (Zdigits2 (Z.pos m) + e)) with 0 by lia.
    change (Z.min (fexp 53 1024 0) 0) with (-53). cbn [Z.sub Z.opp Z.add].
    rewrite Z.shiftl_mul_pow2 by lia.
    pose proof (Z.div_eucl_eq (Z.pos m * 2 ^ 53) (Z.pos m) ltac:(lia)) as Hq.
    pose proof (Z.mod_mul (2 ^ 53) (Z.pos m) ltac:(lia)) as Hr.
    pose proof (Z.div_mul (2 ^ 53) (Z.pos m) ltac:(lia)) as Hd.
    rewrite (Z.mul_comm (2 ^ 53)) in Hr, Hd. unfold Z.modulo, Z.div in Hr, Hd.
    change (0 - -53) with 53. cbv iota.
    destruct (Z.div_eucl _ _) as [q r]. subst. f_equal.
    unfold new_location. by destruct (Z.even _). }
  by vm_compute.
Qed.

Lemma ratio_self n : (0 < n)%nat → Z.of_nat n < 2 ^ 53 → ratio n n = fone.
Proof.
  intros H0 Hn. unfold ratio. destruct n as [|n]; [lia|].
  destruct (float_of_finite (Pos.of_succ_nat n)) as (m & e & E); [lia|].
  change (Z.of_nat (S n)) with (Z.pos (Pos.of_succ_nat n)). rewrite E. apply fdiv_self.
Qed.

(** ** An item against itself *)

Section scores.
Context (lower_rune : string → string).

Lemma jaccard_self (a : gset string) :
  Z.of_nat (size a) < 2 ^ 53 → jaccard a a = if (size a =? 0)%nat then fzero else fone.
Proof.
  intros Ha. unfold jaccard. replace (a ∩ a) with a by set_solver.
  replace (size a + size a - size a)%nat with (size a) by lia.
  destruct (Nat.eqb_spec (size a) 0); [done|]. apply ratio_self; lia.
Qed.

Lemma jaccardNGram_self s n :
  Z.of_nat (size (ngrams lower_rune s n)) < 2 ^ 53 → jaccardNGram lower_rune s s n = fone.
Proof.
  intros H. unfold jaccardNGram. rewrite andb_diag.
  destruct (size (ngrams lower_rune s n) =? 0)%nat eqn:E; [done|].
  by rewrite jaccard_self, E.
Qed.

Lemma weightedComponent_self l weight :
  Z.of_nat (length l) < 2 ^ 53 →
  weightedComponent l l weight = if (length l =? 0)%nat then (fzero, fzero) else (fone, weight).
Proof.
  intros H. unfold weightedComponent. rewrite andb_diag.
  destruct l as [|x l]; [done|]. cbn [length Nat.eqb]. f_equal.
  unfold setOverlap. set (a := list_to_set (x :: l) : gset string).
  assert (size a ≤ length (x :: l))%nat as Hs.
  { subst a. generalize (x :: l). clear. induction l as [|y l IH]; [done|].
    simpl. rewrite size_union_alt. pose proof (size_singleton (C := gset string) y) as Hy.
    pose proof (subseteq_size (list_to_set l ∖ {[y]} : gset string) (list_to_set l)) as Hd.
    specialize (Hd ltac:(set_solver)). lia. }
  assert (size a ≠ 0)%nat as Hne.
  { intros E%size_empty_inv. apply (not_elem_of_empty (C := gset string) x).
    rewrite <- E. subst a. set_solver. }
  rewrite andb_diag. destruct (Nat.eqb_spec (size a) 0) as [|_]; [done|].
  rewrite jaccard_self by lia. by destruct (Nat.eqb_spec (size a) 0).
Qed.

(** Counts that a float64 holds exactly. *)
Definition small_request (req : DedupKey) : Prop :=
  Z.of_nat (size (ngrams lower_rune (dd_goal req) 3)) < 2 ^ 53
  ∧ Z.of_nat (length (dd_labels req)) < 2 ^ 53
  ∧ ∀ keys, declaredResourceKeys (dd_resources req) = Some keys → Z.of_nat (length keys) < 2 ^ 53.

(** An item with the goal, labels and resources of a request. *)
Definition same_work (req : DedupKey) (w : WorkItem) : Prop :=
  wi_goal w = dd_goal req ∧ doc_labels (wi_doc w) = dd_labels req
  ∧ ∃ keys, declaredResourceKeys (dd_resources req) = Some keys
            ∧ declaredResourceKeys (wi_declared w) = Some keys.

Lemma candidateScore_self req w :
  small_request req → same_work req w →
  ∃ s, candidateScore lower_rune req (wi_goal w) (doc_labels (wi_doc w)) (wi_declared w)
         = (s, true)
       ∧ SFleb duplicateScore s = true.
Proof.
  intros (H1 & H2 & H3) (-> & -> & keys & Hk & Hk'). unfold candidateScore, resource_component.
  specialize (H3 _ Hk). rewrite Hk, Hk', jaccardNGram_self, !weightedComponent_self by done.
  destruct (length (dd_labels req) =? 0)%nat, (length keys =? 0)%nat;
    cbn [fst snd]; eexists; split; vm_compute; reflexivity.
Qed.

(** ** The scan *)

Lemma scan_refuses req rows w s :
  w ∈ rows →
  candidateScore lower_rune req (wi_goal w) (doc_labels (wi_doc w)) (wi_declared w) = (s, true) →
  SFleb duplicateScore s = true →
  ∃ v, scan_candidates lower_rune req rows = inl v ∧ v ∈ rows.
Proof.
  intros Hin Hs Hd. induction rows as [|x rows IH]; [by apply not_elem_of_nil in Hin|].
  cbn [scan_candidates].
  set (sx := candidateScore _ _ (wi_goal x) _ _). apply elem_of_cons in Hin as [<-|Hin].
  - subst sx. rewrite Hs. cbn [fst snd negb]. rewrite Hd. exists w. split; [done|left].
  - destruct (IH Hin) as (v & Hv & Hvin). destruct (negb sx.2).
    { exists v. split; [done|by right]. }
    destruct (SFleb duplicateScore sx.1).
    { exists x. split; [done|]. apply elem_of_cons. by left. }
    rewrite Hv. exists v. split; [done|by right].
Qed.

Lemma drain_sub {A} scan (rows : list A) : (drain scan rows).1 ⊆ rows.
Proof.
  unfold drain. destruct scan as [n|]; [|done]. destruct (Nat.ltb _ _); [|done].
  apply subseteq_take.
Qed.

(** Such an item among the candidates read makes the request a duplicate. *)
Lemma verdict_refuses contains scan req c w :
  small_request req → w ∈ (drain scan (candidates contains req c)).1 → same_work req w →
  ∃ v, v ∈ candidates contains req c
    ∧ dedup_verdict lower_rune scan req (candidates contains req c) =
        Some (NewErrDetails ErrConflictDuplicate
          (DExisting (wi_id v) (wi_slug v) (wi_goal v) (wi_status_text (wi_status v)))).
Proof.
  intros Hsmall Hin Hw. destruct (candidateScore_self req w Hsmall Hw) as (s & Hs & Hle).
  destruct (scan_refuses req (drain scan (candidates contains req c)).1 w s)
    as (v & Hv & Hvin); [done..|].
  exists v. split; [by eapply drain_sub|]. unfold dedup_verdict.
  destruct (drain _ _) as [seen ok]. simpl in *. by rewrite Hv.
Qed.

(** Every candidate is an open item of the project. *)
Lemma candidates_sound contains req c w :
  w ∈ candidates contains req c →
  ∃ id, work_items c !! id = Some w ∧ wi_project w = dd_project req
        ∧ wi_terminal (wi_status w) = false.
Proof.
  unfold candidates. intros Hin. apply subseteq_take in Hin.
  rewrite (merge_sort_Permutation (candidate_le contains req)) in Hin.
  apply list_elem_of_filter in Hin as [Hc Hin].
  apply list_elem_of_fmap in Hin as ([id v] & -> & Hv%elem_of_map_to_list).
  exists id. split; [done|]. unfold is_candidate, dedup_live in Hc. simpl in *.
  rewrite !andb_true_iff, negb_true_iff in Hc. destruct Hc as [[Hp Hl] _].
  by apply String.eqb_eq in Hp.
Qed.
End scores.
