(* ===== verification/Create.v ===== *)
(** * Creating a work item

    [CreateWorkItem] of [internal/domain/work_items.go]: the request checks, the
    search for duplicates, the parent, the next number of the project, the row,
    its first workflow generation, and its blockers.

    The transaction runs at READ COMMITTED.  From the UPDATE of its project's
    row it is modelled as running alone; the search for duplicates comes before
    that lock and may see the tables of an earlier moment ([d0]). *)

From stdpp Require Import pretty.
From S2P Require Import Prelude GoStrings Errors Json Crypto Declared Flow Policy.
From S2P Require Import WorkflowTables WorkflowPin Store ResourceEvents Attempts Claim.
From S2P Require Import Takeover Edit WorkflowStart WorkflowRevise Dependencies Dedup.

Open Scope nat_scope.
Open Scope list_scope.
Open Scope tx_scope.

(** ** The request *)

Record CreateWorkItemRequest : Type := mkCreate {
  cq_project : string;
  cq_goal : string;
  cq_scenario : string;
  cq_priority : string;
  cq_type : option string;
  cq_rhs : option bool;
  cq_milestone : option string;
  cq_labels : list string;
  cq_declared : RawMessage;
  cq_parent : option string;
  cq_blocked_by : list string;
  cq_source : string;
  cq_attrs : RawMessage;
  cq_content : option string;
  cq_force : bool;
  cq_force_reason : string;
  cq_steps : option (list WorkflowStepSpec);
  cq_mode : string;
  cq_caller : option UserRecord;   (* RegistryCaller *)
}.

Definition workItemSources : list string :=
  ["human"; "auto_execute"; "auto_debug"; "auto_review"; "sync_jira"; "sync_github"; "admin"].

Definition validateWorkItemSource (source : string) : result AihubError unit :=
  if bool_decide (source ∈ workItemSources) then Ok tt
  else Err (vocabularyErr "source" source workItemSources).

Definition or_default (default s : string) : string :=
  if String.eqb s "" then default else s.

(** The defaults of the request; [len(raw) == 0]. *)
Definition with_defaults (q : CreateWorkItemRequest) : CreateWorkItemRequest :=
  mkCreate (cq_project q) (cq_goal q) (or_default "coding" (cq_scenario q))
    (or_default "normal" (cq_priority q)) (cq_type q) (cq_rhs q) (cq_milestone q)
    (cq_labels q) (match cq_declared q with RawEmpty => RawJSON (JArr []) | r => r end)
    (cq_parent q) (cq_blocked_by q) (or_default "human" (cq_source q))
    (match cq_attrs q with RawEmpty => RawJSON (JObj []) | r => r end) (cq_content q)
    (cq_force q) (cq_force_reason q) (cq_steps q) (cq_mode q) (cq_caller q).

(** [BAD_REQUEST] and [NOT_FOUND] of the pin become [COMPOSE_FAILED]; the
    reason is the text of the message. *)
Definition composeFailedFromPin (e : AihubError) : AihubError :=
  match err_code e with
  | ErrBadRequest | ErrNotFound => NewErr ErrComposeFailed
  | _ => e
  end.

Section create.
Variable url_parse : string → option (string * string * string).
Variable lower_rune : string → string.
Variable jsonb_contains : RawMessage → RawMessage → bool.

(** The checks before the transaction: the request with its defaults and the
    workflow mode. *)
Definition create_checks (q : CreateWorkItemRequest)
  : result AihubError (CreateWorkItemRequest * string) :=
  rbind (validateWorkItemGoalPresent (cq_goal q)) (λ _,
  rbind (validateWorkItemGoalShape (cq_goal q)) (λ _,
  if String.eqb (cq_project q) "" then Err (NewErr ErrBadRequest)
  else
    let q := with_defaults q in
    rbind (ValidateDeclaredResources url_parse (cq_declared q)) (λ _,
    rbind (validateWorkItemPriority (cq_priority q)) (λ _,
    rbind (validateWorkItemSource (cq_source q)) (λ _,
    rbind (validateWorkItemLabels (cq_labels q)) (λ _,
    rbind (validateWorkItemContent (cq_content q)) (λ _,
    rbind (validateJSONObjectParam "attrs" (Some (cq_attrs q))) (λ _,
    rbind (resolveCreateWorkflowMode (cq_mode q) (bool_decide (is_Some (cq_steps q)))) (λ mode,
    if bool_decide (is_Some (cq_steps q)) && bool_decide (cq_rhs q = None)
    then Err (composeFailed "requires_human_session_missing")
    else if negb (String.eqb (cq_scenario q) "coding") then Err (NewErr ErrNotImplemented)
    else Ok (q, mode)))))))))).

(** ** The statements *)

(** [UPDATE projects SET wi_seq = wi_seq + 1 ... RETURNING wi_seq] *)
Definition next_seq (project : string) (c : Core) : result DbErr (Z * Core) :=
  match projects c !! project with
  | None => inl NoRows
  | Some p =>
      let n := (pr_seq p + 1)%Z in
      if Z.ltb n (2 ^ 63) then inr (n, set_projects (alter (pr_with_seq n) project) c)
      else inl (PgError pgNumericOutOfRange)
  end.

(** The generated column [slug]. *)
Definition slug_of (project : string) (seq : Z) : string := project +:+ "#" +:+ pretty seq.

(** The CHECKs of a row of [work_items] beyond those of [work_item_checks]. *)
Definition insert_checks (goal mode : string) (doc : WorkItemDoc) : bool :=
  work_item_checks goal doc
  && bool_decide (doc_scenario doc ∈ ["coding"; "writing"; "data"])
  && bool_decide (doc_source doc ∈ workItemSources)
  && bool_decide (mode ∈ WorkflowModeValues).

(** The INSERT: primary key, UNIQUE (project, seq), the foreign keys to the
    project and to the parent; [steps] NULL and [steps_version] 0. *)
Definition insert_work_item (w : WorkItem) (c : Core) : result DbErr Core :=
  let doc := wi_doc w in
  if bool_decide (is_Some (work_items c !! wi_id w))
     || existsb (λ kv : string * WorkItem, String.eqb (wi_project kv.2) (wi_project w)
                   && Z.eqb (doc_seq (wi_doc kv.2)) (doc_seq doc))
          (map_to_list (work_items c))
  then inl (PgError pgUniqueViolation)
  else if negb (insert_checks (wi_goal w) (wi_mode w) doc) then inl (PgError pgCheckViolation)
  else if negb (bool_decide (is_Some (projects c !! wi_project w)))
          || match doc_parent doc with
             | Some p => negb (bool_decide (is_Some (work_items c !! p)))
             | None => false
             end
  then inl (PgError pgForeignKeyViolation)
  else inr (set_workflow (λ t, mkWf (delete (wi_id w) (wf_pointers t)) (wf_generations t)
              (wf_invocations t) (wf_results t) (wf_approvals t) (wf_repairs t))
             (set_work_items <[wi_id w := w]> c)).

Definition created_row (id user display mode : string) (parent : option string) (seq : Z)
  (declared attrs : json) (q : CreateWorkItemRequest) : WorkItem :=
  mkWI id (slug_of (cq_project q) seq) (cq_project q) (cq_goal q) (cq_type q) (cq_rhs q)
    WQueued (RawJSON declared) 0 user None 0 mode None
    (mkDoc (cq_priority q) (cq_milestone q) (cq_labels q) (cq_content q) attrs seq
       (cq_scenario q) (cq_source q) display parent).

(** The text parameters taken from the request. *)
Definition created_texts (q : CreateWorkItemRequest) : list string :=
  let texts (o : option string) := match o with Some s => [s] | None => [] end in
  [cq_project q; cq_goal q; cq_priority q; cq_scenario q; cq_source q] ++ texts (cq_type q)
  ++ texts (cq_milestone q) ++ texts (cq_content q) ++ cq_labels q.

Definition insert_created (id user display mode : string) (parent : option string) (seq : Z)
  (q : CreateWorkItemRequest) (c : Core) : result DbErr Core :=
  rbind (texts_in (created_texts q)) (λ _,
  rbind (jsonb (cq_declared q)) (λ declared,
  rbind (jsonb (cq_attrs q)) (λ attrs,
    insert_work_item (created_row id user display mode parent seq declared attrs q) c))).

(** [INSERT INTO wi_dependencies], without ON CONFLICT. *)
Definition insert_blocker (id blocker : string) (c : Core) : result DbErr Core :=
  rbind (insert_dep (id, blocker, "blocks") None c) (λ r,
    if r.1 : bool then inr r.2 else inl (PgError pgUniqueViolation)).

(** ** The transaction *)

Definition resolve_parent (q : CreateWorkItemRequest) (roles : gmap string string)
  (role : string) : Tx (option string) :=
  match cq_parent q with
  | None => tret None
  | Some p =>
      let trimmed := trimSpace p in
      if String.eqb trimmed "" then tret None
      else
        id <- resolveVisibleRefOnTx trimmed (cq_project q) roles role ;;
        tret (Some id)
  end.

Definition dedup_key (q : CreateWorkItemRequest) : DedupKey :=
  mkDedup (cq_project q) (cq_goal q) (cq_labels q) (cq_declared q).

Definition create_gate (cx : Ctx) (q : CreateWorkItemRequest) (d0 : Db) : Tx unit :=
  if negb (cq_force q) then checkDedup lower_rune jsonb_contains (cx_scan cx) (dedup_key q) d0
  else if Nat.ltb (String.length (cq_force_reason q)) 10 then tthrow (NewErr ErrBadRequest)
  else tret tt.

Definition take_seq (project : string) : Tx Z :=
  s <- stmt (next_seq project) ;;
  match s with
  | inr seq => tret seq
  | inl NoRows => tthrow (NewErr ErrProjectNotFound)
  | inl (PgError code) =>
      if String.eqb code pgForeignKeyViolation then tthrow (NewErr ErrProjectNotFound)
      else tthrow (dbErrCause (PgError code))
  | inl e => tthrow (dbErrCause e)
  end.

(** [f] on the error. *)
Definition map_err {A} (f : AihubError → AihubError) (m : Tx A) : Tx A := λ s,
  match m s with
  | (inl e, s') => (inl (f e), s')
  | r => r
  end.

Definition create_pin (o : Outside) (cx : Ctx) (id user : string) (q : CreateWorkItemRequest)
  : Tx unit :=
  match cq_steps q with
  | None => tret tt
  | Some steps =>
      match cq_caller q with
      | None => tthrow (NewErr ErrInternalError)
      | Some caller =>
          map_err composeFailedFromPin
            (pinFirstWorkflowGenerationInTx o cx id (cq_project q) user caller
               (default false (cq_rhs q)) steps)
      end
  end.

(** One entry of [blocked_by], the ids already seen before it. *)
Definition create_blocker (id user display : string) (q : CreateWorkItemRequest)
  (roles : gmap string string) (role : string) (seen : gset string) (ref : string)
  : Tx (gset string) :=
  blocker <- resolveVisibleRefOnTx ref (cq_project q) roles role ;;
  if String.eqb blocker id then tthrow (NewErr ErrBadRequest)
  else if bool_decide (blocker ∈ seen) then tret seen
  else
    r <- exec (insert_blocker id blocker) ;;
    or_throw dbErrCause r ;;;
    e <- emitDependencyCreatedEvent (mkDepReq id blocker "blocks" None) "blocks"
           (cq_project q) user display "create_work_item.blocked_by" ;;
    or_throw dbErrCause e ;;;
    tret ({[blocker]} ∪ seen).

Fixpoint create_blockers (id user display : string) (q : CreateWorkItemRequest)
  (roles : gmap string string) (role : string) (seen : gset string) (refs : list string)
  : Tx unit :=
  match refs with
  | [] => tret tt
  | ref :: refs =>
      seen <- create_blocker id user display q roles role seen ref ;;
      create_blockers id user display q roles role seen refs
  end.

Definition create_body (o : Outside) (cx : Ctx) (id user display : string)
  (roles : gmap string string) (role : string) (q : CreateWorkItemRequest) (mode : string)
  (d0 : Db) : Tx unit :=
  create_gate cx q d0 ;;;
  parent <- resolve_parent q roles role ;;
  seq <- take_seq (cq_project q) ;;
  r <- exec (insert_created id user display mode parent seq q) ;;
  or_throw dbErrCause r ;;;
  e <- exec (insert_event (mkEvent "work_item_filed" id None (Some user) display
         [("source", JStr (cq_source q)); ("project", JStr (cq_project q));
          ("work_item_id", JStr id); ("goal", JStr (cq_goal q))] (Some (cq_project q)))) ;;
  or_throw dbErr e ;;;
  create_pin o cx id user q ;;;
  create_blockers id user display q roles role ∅ (cq_blocked_by q) ;;;
  (if bool_decide (cq_blocked_by q = []) then tret tt
   else
     u <- exec (update_wi id (wi_with_status (cx_now cx) WBlocked)) ;;
     or_throw dbErr u) ;;;
  commit_tail tt.

(** The answer is read back after the commit, from what other requests made of
    the database meanwhile ([later]). *)
Definition CreateWorkItem (o : Outside) (env : Env) (f : option Fault) (cx : Ctx)
  (id user display : string) (roles : gmap string string) (role : string)
  (req : CreateWorkItemRequest) (later : Db → Db) (d0 d : Db)
  : result AihubError WorkItem * Db :=
  match create_checks req with
  | inl e => (inl e, d)
  | inr (q, mode) =>
      match runTx env (create_body o cx id user display roles role q mode d0) d with
      | (inl e, d') => (inl e, d')
      | (inr _, d') => (GetWorkItem f id (later d'), d')
      end
  end.

(** ** Instances *)

#[export] Instance map_err_robust {A} f (m : Tx A) : Robust m → Robust (map_err f m).
Proof.
  intros Hm. split.
  - intros s Hs. pose proof (robust_sticky (m:=m) s Hs) as H. unfold map_err.
    by destruct (m s) as [[e|a] s'].
  - intros s i Hs. pose proof (robust_sim (m:=m) s i Hs) as H. revert H.
    unfold map_err, outcome. destruct (m s) as [[e|a] s'], (m i) as [[e'|a'] i']; simpl;
      intros [?|[?|[[= ?] ?]]]; subst; auto.
Qed.

#[export] Instance create_blockers_robust id user display q roles role seen refs :
  Robust (create_blockers id user display q roles role seen refs).
Proof.
  revert seen. induction refs as [|ref refs IH]; intros seen; [apply _|].
  simpl. apply tbind_robust; [unfold create_blocker; solve_robust|done].
Qed.
#[export] Instance create_body_robust o cx id user display roles role q mode d0 :
  Robust (create_body o cx id user display roles role q mode d0).
Proof. solve_robust. Qed.
#[export] Instance create_body_commits o cx id user display roles role q mode d0 :
  CommitsOnOk (create_body o cx id user display roles role q mode d0).
Proof. solve_commits. Qed.
End create.
