(* ===== verification/StepUpdate.v ===== *)
(** * Step transitions of a running work item

    The state machine behind [PATCH /v1/work_items/:id/step]
    ([internal/server/routes_step.go]): argument checks, the compare-and-set
    start, completion records, escalation. *)

From S2P Require Import Prelude GoStrings Errors Json Store TxLogic LifecycleSpec.
From S2P Require Import ResourceEvents Attempts Claim Takeover.

Open Scope tx_scope.

Definition maxArtifactSummaryChars : nat := Z.to_nat 4096.

Record UpdateStepRequest : Type := mkStepReq {
  us_auth : AttemptRequest;              (* attempt_id, claim_epoch, session_secret *)
  us_status : string;                    (* "in_progress" | "completed" | "failed" *)
  us_step : option string;
  us_step_attempt : option string;
  us_heartbeat : bool;
  us_artifact : option string;           (* artifact_summary *)
  us_error_type : option string;
  us_escalated : bool;
  us_next : option string;               (* next_step *)
  us_next_attempt : option string;       (* next_step_attempt_id *)
}.

Definition derefStr (o : option string) : string :=
  match o with Some s => s | None => "" end.

(** ** Argument checks *)

Definition validateNextStepArgs (next nextAttempt status : string) (heartbeat : bool)
  : result AihubError unit :=
  if negb (String.eqb next "") then
    if heartbeat then Err (NewErr ErrBadRequest)
    else if negb (String.eqb status "completed") then Err (NewErr ErrBadRequest)
    else Ok tt
  else if negb (String.eqb nextAttempt "") then Err (NewErr ErrBadRequest)
  else Ok tt.

Definition ends_step (status : string) : bool :=
  String.eqb status "completed" || String.eqb status "failed".

Definition validateTerminalStepArgs (status : string) (stepAttempt : option string)
  (heartbeat : bool) : result AihubError unit :=
  if heartbeat || negb (ends_step status) then Ok tt
  else match stepAttempt with
       | None => Err (NewErr ErrBadRequest)
       | Some sa => if blank sa then Err (NewErr ErrBadRequest) else Ok tt
       end.

Definition validateStepIdentity (status : string) (heartbeat : bool)
  (reqStep storedStep : option string) : result AihubError unit :=
  if heartbeat || negb (ends_step status) then Ok tt
  else match storedStep with
       | None => Ok tt
       | Some stored =>
           if String.eqb (derefStr reqStep) stored then Ok tt
           else Err (NewErr ErrConflictCASFailed)
       end.

Definition artifact_check (req : UpdateStepRequest) : result AihubError unit :=
  match us_artifact req with
  | Some a =>
      if ends_step (us_status req)
         && (maxArtifactSummaryChars <? RuneCountInString a)%nat
      then Err (NewErr ErrPayloadTooLarge) else Ok tt
  | None => Ok tt
  end.

(** ** Statements *)

(** [INSERT ... ON CONFLICT DO UPDATE ... WHERE current_step_status = 'idle']:
    [true] when a row was written. *)
Definition start_step_sql (now : Z) (wi : string) (step stepAttempt : option string)
  (c : Core) : result DbErr (bool * Core) :=
  match wi_step_state c !! wi with
  | None =>
      inr (true, set_steps (<[wi := mkStep None step StepInProgress stepAttempt
                                       (Some now) 1 None]>) c)
  | Some s =>
      if decide (ss_status s = StepIdle) then
        inr (true, set_steps (<[wi := mkStep (ss_type s) step StepInProgress stepAttempt
                                         (Some now) (ss_version s + 1)
                                         (ss_scenario_ref s)]>) c)
      else inr (false, c)
  end.

Definition startStep (cx : Ctx) (wi : string) (step stepAttempt : option string)
  : Tx (result DbErr bool) :=
  stmt (start_step_sql (cx_now cx) wi step stepAttempt).

(** UNIQUE (step_attempt_id) and the foreign key on the run attempt. *)
Definition insert_step_completion (sa : string) (sc : StepCompletion) (c : Core)
  : result DbErr Core :=
  match wi_step_completions c !! sa with
  | Some _ => inl (PgError pgUniqueViolation)
  | None =>
      match run_attempts c !! sc_run_attempt sc with
      | None => inl (PgError pgForeignKeyViolation)
      | Some _ => inr (set_completions (<[sa := sc]> (wi_step_completions c)) c)
      end
  end.

Definition completion_error (e : DbErr) : AihubError :=
  match e with
  | PgError code =>
      if String.eqb code pgUniqueViolation then NewErr ErrConflictDuplicate
      else if String.eqb code pgForeignKeyViolation then NewErr ErrBadRequest
      else NewErr ErrInternalError
  | _ => NewErr ErrInternalError
  end.

Definition insertStepCompletion (cx : Ctx) (wi runAttempt sa step status : string)
  (artifact err : option string) (escalated : bool) : Tx unit :=
  r <- exec (insert_step_completion sa
               (mkComp (cx_sc cx) wi step runAttempt status artifact err escalated)) ;;
  or_throw completion_error r.

Record stepEvent : Type := mkSEvent {
  se_type : string; se_step : string; se_artifact : option string;
}.

(** The event row's foreign key on the run attempt. *)
Definition insert_step_event (e : Event) (c : Core) : result DbErr Core :=
  match ev_attempt e with
  | Some a => match run_attempts c !! a with
              | None => inl (PgError pgForeignKeyViolation)
              | Some _ => insert_event e c
              end
  | None => insert_event e c
  end.

Definition step_event_error (e : DbErr) : AihubError :=
  match e with
  | PgError code =>
      if bool_decide (code ∈ [pgForeignKeyViolation; "22P05"; "22021"])
      then NewErr ErrBadRequest else NewErr ErrInternalError
  | _ => NewErr ErrInternalError
  end.

Definition insertStepEvent (wi runAttempt user : string) (ev : stepEvent) : Tx unit :=
  r <- exec (λ c, insert_step_event
         (mkEvent (se_type ev) wi (nilIfEmpty runAttempt) (Some user) ""
            (("step", JStr (se_step ev)) ::
             if String.eqb (se_type ev) "step_completed"
             then match se_artifact ev with
                  | Some a => [("artifact_summary", JStr a)] | None => [] end
             else []) (wi_project_of c wi)) c) ;;
  or_throw step_event_error r.

(** ** The three transitions *)

Definition internal {A} (r : result DbErr A) : Tx A :=
  or_throw (λ _, NewErr ErrInternalError) r.

Definition step_start (cx : Ctx) (wi : string) (req : UpdateStepRequest)
  : Tx (list stepEvent) :=
  r <- startStep cx wi (us_step req) (us_step_attempt req) ;;
  started <- internal r ;;
  if (started : bool) then tret [mkSEvent "step_started" (derefStr (us_step req)) None]
  else tthrow (NewErr ErrConflictCASFailed).

(** Steps "spec" and "plan" need their methodology artifact. *)
Definition has_methodology (wi typ : string) (c : Core) : bool :=
  existsb (λ m, String.eqb (mem_wi m) wi && String.eqb (mem_type m) typ
                && String.eqb (mem_status m) "active") (map_to_list (memories c)).*2.

Definition methodology_gate (wi : string) (step : option string) : Tx unit :=
  match step with
  | Some s =>
      if String.eqb s "spec" || String.eqb s "plan" then
        r <- query (λ c, inr (has_methodology wi ("methodology." +:+ s) c)) ;;
        exists_ <- internal r ;;
        if (exists_ : bool) then tret tt else tthrow (NewErr ErrBadRequest)
      else tret tt
  | None => tret tt
  end.

Definition step_set_completed (step : option string) (s : StepState) : StepState :=
  mkStep (ss_type s) step StepIdle None None (ss_version s + 1) (ss_scenario_ref s).

Definition step_complete (cx : Ctx) (wi : string) (req : UpdateStepRequest)
  : Tx (list stepEvent) :=
  methodology_gate wi (us_step req) ;;;
  r <- exec (λ c, inr (set_steps (alter (step_set_completed (us_step req)) wi) c)) ;;
  internal r ;;;
  insertStepCompletion cx wi (at_attempt (us_auth req)) (derefStr (us_step_attempt req))
    (derefStr (us_step req)) "completed" (us_artifact req) None false ;;;
  let done := mkSEvent "step_completed" (derefStr (us_step req)) (us_artifact req) in
  if negb (String.eqb (derefStr (us_next req)) "") then
    r2 <- startStep cx wi (us_next req) (us_next_attempt req) ;;
    started <- internal r2 ;;
    if (started : bool) then
      tret [done; mkSEvent "step_started" (derefStr (us_next req)) None]
    else tthrow (NewErr ErrConflictCASFailed)
  else tret [done].

(** The escalation, under a savepoint: the status change and its event are
    kept together or dropped together; only a failure of the savepoint
    commands aborts the transaction. *)
Definition escalate (cx : Ctx) (wi runAttempt user : string) (req : UpdateStepRequest)
  : Tx unit := λ s,
  match tx_phase s with
  | Active =>
      let c := core (tx_db s) in
      let '(f1, fs1) := next_fault (tx_faults s) in
      let '(f2, fs2) := next_fault fs1 in
      let '(f3, fs3) := next_fault fs2 in
      let '(f4, fs4) := next_fault fs3 in
      let change :=
        rbind (update_wi wi (wi_with_status (cx_now cx) WBlocked) c) (λ c1,
          insert_step_event
            (mkEvent "wi_stalled" wi (Some runAttempt) (Some user) ""
               [("step", JStr (derefStr (us_step req)));
                ("error_type", match us_error_type req with
                               | Some e => JStr e | None => JNull end);
                ("stall_reason", JStr (derefStr (us_error_type req)))]
               (wi_project_of c wi)) c1) in
      match f1, f2, f3, f4, change with
      | Some _, _, _, _, _ | None, _, _, Some _, _ =>
          (inr tt, mkTx (tx_db s) Aborted fs4 (tx_commit s))
      | None, None, None, None, inr c1 =>
          (inr tt, mkTx (mkDb c1 (savepoint_events (tx_db s))) Active fs4 (tx_commit s))
      | None, _, _, None, _ =>
          (inr tt, mkTx (tx_db s) Active fs4 (tx_commit s))
      end
  | _ => (inr tt, s)
  end.

Definition step_fail (cx : Ctx) (wi user : string) (req : UpdateStepRequest)
  : Tx (list stepEvent) :=
  r <- exec (λ c, inr (set_steps (alter step_reset wi) c)) ;;
  internal r ;;;
  insertStepCompletion cx wi (at_attempt (us_auth req)) (derefStr (us_step_attempt req))
    (derefStr (us_step req)) "failed" (us_artifact req) (us_error_type req)
    (us_escalated req) ;;;
  (if us_escalated req
   then escalate cx wi (at_attempt (us_auth req)) user req else tret tt) ;;;
  tret [mkSEvent "step_failed" (derefStr (us_step req)) None].

(** ** The transaction *)

(** The read of the current step ignores its error. *)
Definition update_step_body (cx : Ctx) (wi user : string) (req : UpdateStepRequest)
  : Tx unit :=
  r <- query (select_step wi) ;;
  let current := match r with inr s => ss_step s | inl _ => None end in
  match validateStepIdentity (us_status req) (us_heartbeat req) (us_step req) current with
  | inl e => tthrow e
  | inr _ =>
      events <- (if String.eqb (us_status req) "in_progress" then step_start cx wi req
                 else if String.eqb (us_status req) "completed" then step_complete cx wi req
                 else if String.eqb (us_status req) "failed" then step_fail cx wi user req
                 else tthrow (NewErr ErrBadRequest)) ;;
      tforeach events (insertStepEvent wi (at_attempt (us_auth req)) user) ;;;
      c <- commit ;;
      match c with inl _ => tthrow (NewErr ErrInternalError) | inr _ => tret tt end
  end.

(** What precedes the transaction once the caller's project access is
    established: the credential, when attempt and secret are both sent, and
    the argument checks, up to the heartbeat. *)
Definition step_credential (env : Env) (f : option Fault) (cx : Ctx) (wi : string)
  (req : UpdateStepRequest) (d0 d : Db) : result AihubError unit * Db :=
  if negb (String.eqb (at_attempt (us_auth req)) "")
     && negb (String.eqb (at_secret (us_auth req)) "")
  then VerifyAttemptCredentialPool env f cx wi (us_auth req) d0 d
  else (inr tt, d).

Definition step_heartbeat (now : Z) (s : StepState) : StepState :=
  mkStep (ss_type s) (ss_step s) (ss_status s) (ss_attempt s) (Some now)
    (ss_version s) (ss_scenario_ref s).

(** A heartbeat is one statement outside any transaction. *)
Definition heartbeat_update (fault : option Fault) (now : Z) (wi : string) (d : Db)
  : result AihubError unit * Db :=
  match fault with
  | Some _ => (inl (NewErr ErrInternalError), d)
  | None => (inr tt, mkDb (set_steps (alter (step_heartbeat now) wi) (core d))
                          (savepoint_events d))
  end.

Definition handleUpdateStep (env1 env2 : Env) (f1 f2 : option Fault) (cx : Ctx)
  (wi user : string) (req : UpdateStepRequest) (d0 d : Db)
  : result AihubError unit * Db :=
  match step_credential env1 f1 cx wi req d0 d with
  | (inl e, d1) => (inl e, d1)
  | (inr _, d1) =>
      match validateNextStepArgs (derefStr (us_next req)) (derefStr (us_next_attempt req))
              (us_status req) (us_heartbeat req) with
      | inl e => (inl e, d1)
      | inr _ =>
          if us_heartbeat req then heartbeat_update f2 (cx_now cx) wi d1
          else match rbind (artifact_check req) (λ _,
                       validateTerminalStepArgs (us_status req) (us_step_attempt req)
                         (us_heartbeat req)) with
               | inl e => (inl e, d1)
               | inr _ => runTx env2 (update_step_body cx wi user req) d1
               end
      end
  end.
