(* ===== verification/Lifecycle.v ===== *)
(** * The handlers refine the lifecycle specification

    For every handler of the attempt lifecycle: whatever its arguments, its
    caller and the faults it meets, the tables it leaves are reached from the
    tables it found by transitions of [LifecycleSpec.astep]. *)

From S2P Require Import Prelude GoStrings Errors Json Crypto Declared Locks Store.
From S2P Require Import TxLogic LifecycleSpec ResourceEvents Attempts Claim Complete.
From S2P Require Import Takeover.
From stdpp Require Import relations.

Open Scope list_scope.

(** ** Abstraction *)

Definition abs_wi (w : WorkItem) : AWi :=
  mkAWi (wi_status w) (wi_current w) (wi_epoch w).
Definition abs_att (a : RunAttempt) : AAtt :=
  mkAAtt (ra_wi a) (ra_status a) (ra_epoch a).
Definition abs (c : Core) : AState :=
  mkA (abs_wi <$> work_items c) (abs_att <$> run_attempts c) (resource_locks c).

(** Rows are stored under their id. *)
Definition keyed (c : Core) : Prop :=
  ∀ id w, work_items c !! id = Some w → wi_id w = id.

(** Every epoch still has a successor in an [int64]. *)
Definition epoch_room (c : Core) : Prop :=
  ∀ id w, work_items c !! id = Some w → (wi_epoch w < max_int64)%Z.

Record Wf (c : Core) : Prop := { wf_keyed : keyed c; wf_inv : Inv (abs c) }.

(** Reached by transitions of the specification. *)
Record refines_with (m : Mode) (c c' : Core) : Prop := {
  rf_keyed : keyed c';
  rf_steps : asteps m (abs c) (abs c');
}.
Abbreviation refines := (refines_with calm).

Lemma refines_mono m m' c c' :
  mode_le m m' → refines_with m c c' → refines_with m' c c'.
Proof. intros ? [? ?]. split; [done|]. by eapply asteps_mono. Qed.

Lemma refines_weaken m c c' : refines c c' → refines_with m c c'.
Proof. by apply refines_mono. Qed.

Lemma refines_refl m c : keyed c → refines_with m c c.
Proof. intros. by split; [|apply rtc_refl]. Qed.

Lemma refines_wf m c c' : Wf c → refines_with m c c' → Wf c'.
Proof. intros [_ HI] [Hk Hs]. split; [done|]. by eapply asteps_inv. Qed.

(** Tables the specification sees. *)
Record same_tables (c c' : Core) : Prop := {
  st_wi : work_items c' = work_items c;
  st_att : run_attempts c' = run_attempts c;
  st_locks : resource_locks c' = resource_locks c;
  st_deps : wi_dependencies c' = wi_dependencies c;
}.

#[export] Instance same_tables_preorder : PreOrder same_tables.
Proof. split; [by split|]. intros ??? [] []. split; congruence. Qed.

(** Equal lifecycle tables are a silent step. *)
Lemma refines_same c c' :
  keyed c → work_items c' = work_items c ∧ run_attempts c' = run_attempts c
            ∧ resource_locks c' = resource_locks c → refines c c'.
Proof.
  intros Hk (Hw & Ha & Hl). split; [intros i v; rewrite Hw; apply Hk|].
  assert (abs c' = abs c) as -> by (unfold abs; congruence). apply rtc_refl.
Qed.

Lemma abs_lookup_wi c id v :
  a_wis (abs c) !! id = Some v ↔ ∃ w, work_items c !! id = Some w ∧ v = abs_wi w.
Proof. unfold abs. simpl. rewrite lookup_fmap_Some. naive_solver. Qed.

Lemma abs_lookup_att c id v :
  a_atts (abs c) !! id = Some v ↔ ∃ a, run_attempts c !! id = Some a ∧ v = abs_att a.
Proof. unfold abs. simpl. rewrite lookup_fmap_Some. naive_solver. Qed.

(** An attempt column the specification does not see may change freely. *)
Lemma abs_alter_att f att (A : gmap string RunAttempt) :
  (∀ a, abs_att (f a) = abs_att a) → abs_att <$> alter f att A = abs_att <$> A.
Proof.
  intros Hf. apply map_eq. intros i. rewrite !lookup_fmap.
  destruct (decide (att = i)) as [->|Hne].
  - rewrite lookup_alter_eq. destruct (A !! i); simpl; [by rewrite Hf|done].
  - by rewrite lookup_alter_ne.
Qed.

Lemma abs_alter_status now st att (A : gmap string RunAttempt) :
  abs_att <$> alter (ra_with_status now st) att A
  = alter (with_astatus st) att (abs_att <$> A).
Proof. by apply fmap_alter. Qed.

(** ** Steps that leave those tables alone *)

Lemma triple_insert_event e (Q : unit → Core → Prop) c :
  (∀ c', same_tables c c' → Q tt c') → triple (bestEffortExec (insert_event e)) Q c.
Proof.
  intros H. apply triple_bestEffort; [by intros ?%insert_event_some|].
  intros c' ->%insert_event_inr. by apply H.
Qed.

Lemma probe_spec wi locks probes c :
  triple (probeForeignLockHolders wi locks probes) (λ _ c', c' = c ∧
    ∀ i l p, locks !! i = Some l → probes !! i = Some p →
      ∀ kv, kv ∈ map_to_list (resource_locks c) →
        collides c (req_resource_type l) p (Some wi) kv = false) c.
Proof.
  revert probes. induction locks as [|l locks IH]; intros probes.
  - apply triple_ret. split; [done|]. intros i l p H. by rewrite lookup_nil in H.
  - destruct probes as [|p probes]; [apply triple_throw|]. simpl.
    tstep (λ r c', c' = c ∧ match r with
      | inl NoRows => ∀ kv, kv ∈ map_to_list (resource_locks c) →
          collides c (req_resource_type l) p (Some wi) kv = false
      | _ => True end).
    + apply triple_query; unfold select_collision.
      * destruct (List.find _ _) as [[]|] eqn:E; [done|]. intros _. split; [done|].
        intros kv Hkv. by apply (find_none _ _ E), list_elem_of_In.
      * intros a _. done.
    + intros r c' [-> Hr]. destruct r as [[]|[[]]]; try apply triple_throw.
      eapply triple_mono; [apply IH|]. intros _ c' [-> Hrest]. split; [done|].
      intros [|i] l' p' Hl Hp; simpl in *; simplify_eq; [done|]. by eapply Hrest.
Qed.

(** ** Acquiring a list of locks *)

Record acquired_locks (c : Core) (wi att : string) (epoch : Z)
  (ks : list (string * string)) (c' : Core) : Prop := {
  al_frame : ∃ L, c' = set_locks L c;
  al_got k : k ∈ ks → resource_locks c' !! k = Some (mkLock att epoch);
  al_other k : k ∉ ks → resource_locks c' !! k = resource_locks c !! k;
  al_free k l : k ∈ ks → resource_locks c !! k = Some l → foreign_live c wi l = false;
  al_type k : k ∈ ks → resourceLockTypes k.1 = true;
}.

Definition key_of (l : ResourceLockReq) : string * string :=
  (req_resource_type l, req_resource_key l).

Lemma acquired_locks_nil c wi att e : acquired_locks c wi att e [] c.
Proof.
  split.
  - exists (resource_locks c). by destruct c.
  - by intros ? ?%elem_of_nil.
  - done.
  - by intros ? ? ?%elem_of_nil.
  - by intros ? ?%elem_of_nil.
Qed.

Lemma set_locks_twice L L' c : set_locks L (set_locks L' c) = set_locks L c.
Proof. done. Qed.

Lemma acquired_locks_snoc c wi att e ks k c1 c2 :
  acquired_locks c wi att e ks c1 →
  c2 = set_locks (<[k := mkLock att e]> (resource_locks c1)) c1 →
  (∀ l, resource_locks c1 !! k = Some l → foreign_live c1 wi l = false) →
  resourceLockTypes k.1 = true →
  acquired_locks c wi att e (ks ++ [k]) c2.
Proof.
  intros [[L ->] Hgot Hother Hfree Htype] -> Hl Ht. simpl in *.
  split; simpl.
  - eexists. by rewrite set_locks_twice.
  - intros k' Hk'. destruct (decide (k = k')) as [->|Hne];
      [by rewrite lookup_insert_eq|]. rewrite lookup_insert_ne by done.
    apply Hgot. set_solver.
  - intros k' Hk'. rewrite lookup_insert_ne by set_solver. apply Hother. set_solver.
  - intros k' l Hk' Hkl. destruct (decide (k' ∈ ks)) as [Hin|Hin]; [eauto|].
    assert (k' = k) as -> by set_solver. apply (Hl l).
    by rewrite Hother.
  - intros k' Hk'. destruct (decide (k = k')) as [->|]; [done|]. apply Htype. set_solver.
Qed.

Lemma claim_acquire_spec cx caller w e takeover locks c :
  triple (claim_acquire cx caller w e takeover locks) (λ got c',
    acquired_locks c (wi_id w) (cx_attempt cx) e (key_of <$> locks) c'
    ∧ got = (λ l, mkRLock (req_resource_type l) (req_resource_key l)
                          (cx_attempt cx) e) <$> locks) c.
Proof.
  apply (triple_tmap _ _ (λ ls got c',
    acquired_locks c (wi_id w) (cx_attempt cx) e (key_of <$> ls) c'
    ∧ got = (λ l, mkRLock (req_resource_type l) (req_resource_key l)
                          (cx_attempt cx) e) <$> ls)).
  - intros. solve_robust.
  - intros don l todo bs c1 _ [Hacq ->]. unfold claim_acquire_one.
    eapply triple_bind; [robust|apply acquireLockUpsert_spec|].
    intros r c2 Hr. destruct r as [[]|row]; [|done|]; simpl; [apply triple_throw|].
    destruct Hr as (-> & -> & Ht & _ & Hfree). apply triple_ret.
    rewrite !fmap_app. split; [|done]. by eapply acquired_locks_snoc.
  - split; [apply acquired_locks_nil|done].
Qed.

(** ** Claim *)

Definition supersede_rows (now : Z) (prior : option string)
  (A : gmap string RunAttempt) : gmap string RunAttempt :=
  match prior with Some p => alter (ra_with_status now RSuperseded) p A | None => A end.

Lemma abs_supersede now prior A :
  abs_att <$> supersede_rows now prior A = supersede prior (abs_att <$> A).
Proof. destruct prior; [apply abs_alter_status|done]. Qed.

(** What releasing the superseded attempt's locks leaves. *)
Definition unowned_locks (prior : option string) (c : Core)
  : gmap (string * string) LockRow :=
  match prior with Some p => kept_locks (lockDeleteByAttempt p) c
                 | None => resource_locks c end.

Lemma unowned_locks_lookup prior c k l :
  unowned_locks prior c !! k = Some l ↔
  resource_locks c !! k = Some l ∧ Some (lk_owner l) ≠ prior.
Proof.
  destruct prior as [p|]; simpl.
  - unfold kept_locks, lockDeleteByAttempt. rewrite map_lookup_filter_Some. simpl.
    rewrite String.eqb_neq. naive_solver.
  - naive_solver.
Qed.

Lemma claim_supersede_spec cx caller takeover c :
  triple (claim_supersede_prior cx caller takeover) (λ _ c',
    c' = set_locks (unowned_locks (prior_of takeover) c)
           (set_run_attempts (supersede_rows (cx_now cx) (prior_of takeover)) c)) c.
Proof.
  unfold claim_supersede_prior. destruct (prior_of takeover) as [p|]; simpl.
  - unfold claim_supersede. tstep (λ r c', r = inr tt ∧ c' =
      set_run_attempts (alter (ra_with_status (cx_now cx) RSuperseded) p) c).
    { apply triple_exec; [done|]. by intros c' [= <-]. }
    intros r c1 [-> ->]. tstep (λ _ c', c' =
      set_run_attempts (alter (ra_with_status (cx_now cx) RSuperseded) p) c).
    { by apply triple_ret. }
    intros _ c1 ->. tstep (λ r c', (∃ rows, r = inr rows) ∧ c' =
      set_locks (kept_locks (lockDeleteByAttempt p) c)
        (set_run_attempts (alter (ra_with_status (cx_now cx) RSuperseded) p) c)).
    { apply releaseLocks_spec. eauto. }
    intros r c2 [[rows ->] ->]. by apply triple_ret_bind, triple_ret.
  - apply triple_ret. by destruct c.
Qed.

Lemma alter_as_insert {A} (f : A → A) i (m : gmap string A) x :
  m !! i = Some x → alter f i m = <[i := f x]> m.
Proof.
  intros Hx. apply map_eq. intros j. destruct (decide (i = j)) as [->|Hne].
  - by rewrite lookup_alter_eq, lookup_insert_eq, Hx.
  - by rewrite lookup_alter_ne, lookup_insert_ne.
Qed.

(** One item's status changes by a step of the specification. *)
Lemma status_refines m now st id w c :
  keyed c → work_items c !! id = Some w →
  astep m (abs c) (mkA (<[id := with_wstatus st (abs_wi w)]> (a_wis (abs c)))
                     (a_atts (abs c)) (a_locks (abs c))) →
  refines_with m c (set_work_items (alter (wi_with_status now st) id) c).
Proof.
  intros Hk Hw Hs. split.
  - intros i v. simpl. rewrite (alter_as_insert _ _ _ w) by done.
    intros [[<- <-]|[_ Hv]]%lookup_insert_Some; [apply (Hk id w Hw)|eauto].
  - apply rtc_once. unfold abs at 2. simpl. rewrite (alter_as_insert _ _ _ w) by done.
    by rewrite fmap_insert.
Qed.

(** No row of the attempts table violates a constraint for the new row. *)
Definition no_clash (id : string) (a : RunAttempt) (A : gmap string RunAttempt) : Prop :=
  A !! id = None ∧
  ∀ b rb, A !! b = Some rb → ra_wi rb = ra_wi a →
          ra_idem rb ≠ ra_idem a ∧ ra_epoch rb ≠ ra_epoch a.

Lemma insert_attempt_ok id a c c' :
  insert_attempt id a c = inr c' →
  c' = set_run_attempts (<[id := a]>) c ∧ no_clash id a (run_attempts c)
  ∧ is_Some (work_items c !! ra_wi a).
Proof.
  unfold insert_attempt. destruct (existsb _ _) eqn:E; [done|].
  destruct (work_items c !! ra_wi a) eqn:Ew; [|done].
  destruct (match ra_parent a with Some _ => _ | None => _ end); [|done].
  intros [= <-]. split; [done|]. split; [|done].
  assert (∀ b rb, run_attempts c !! b = Some rb → attempt_clash id a (b, rb) = false)
    as Hno.
  { intros b rb Hb. destruct (attempt_clash id a (b, rb)) eqn:Ec; [|done].
    exfalso. apply not_true_iff_false in E. apply E. apply existsb_exists.
    exists (b, rb). split; [|done]. by apply list_elem_of_In, elem_of_map_to_list. }
  split.
  - destruct (run_attempts c !! id) as [rb|] eqn:Hid; [|done].
    apply Hno in Hid. unfold attempt_clash in Hid. simpl in Hid.
    by rewrite String.eqb_refl in Hid.
  - intros b rb Hb Hwi. apply Hno in Hb. unfold attempt_clash in Hb. simpl in Hb.
    rewrite Hwi, String.eqb_refl in Hb. simpl in Hb. by reflect_bools.
Qed.

(** The tables between the insertion of the attempt and the locks. *)
Definition claim_mid (cx : Ctx) (prior : option string) (a : RunAttempt) (c : Core)
  : Core :=
  set_locks (unowned_locks prior c)
    (set_run_attempts (λ A, <[cx_attempt cx := a]>
                              (supersede_rows (cx_now cx) prior A)) c).

(** What a committed claim did. *)
Record claim_post (c : Core) (cx : Ctx) (w : WorkItem) (prior : option string)
  (a : RunAttempt) (locks : list ResourceLockReq) (probes : list lockConflictProbe)
  (c' : Core) : Prop := {
  cp_wi : ∃ w', work_items c' = <[wi_id w := w']> (work_items c)
    ∧ wi_id w' = wi_id w ∧ wi_current w' = Some (cx_attempt cx)
    ∧ wi_epoch w' = ra_epoch a ∧ wi_status w' = WRunning
    ∧ wi_slug w' = wi_slug w ∧ wi_mode w' = wi_mode w;
  cp_att : run_attempts c'
           = <[cx_attempt cx := a]> (supersede_rows (cx_now cx) prior (run_attempts c));
  cp_clash : no_clash (cx_attempt cx) a
               (supersede_rows (cx_now cx) prior (run_attempts c));
  cp_locks : ∃ c2, acquired_locks (claim_mid cx prior a c) (wi_id w) (cx_attempt cx)
                     (ra_epoch a) (key_of <$> locks) c2
                   ∧ resource_locks c' = resource_locks c2;
  cp_probe i l p : locks !! i = Some l → probes !! i = Some p →
    ∀ kv, kv ∈ map_to_list (resource_locks c) →
          collides c (req_resource_type l) p (Some (wi_id w)) kv = false;
  cp_deps : wi_dependencies c' = wi_dependencies c;
}.

(** The tail of a claim, from the work item's update on. *)
Lemma claim_set_running_spec cx w e c :
  work_items c !! wi_id w = Some w →
  triple (claim_set_running cx w e) (λ _ c', c' = set_work_items
    (<[wi_id w := wi_claimed (cx_now cx) (cx_attempt cx) e w]>) c) c.
Proof.
  intros Hw. apply triple_exec_throw. intros c' [= <-].
  unfold set_work_items. by rewrite (alter_as_insert _ _ _ w).
Qed.

Lemma claim_steps_spec w ref c :
  triple (claim_steps w ref) (λ _ c', same_tables c c') c.
Proof.
  unfold claim_steps. tstep (λ _ c', c' = c); [by apply triple_query|].
  intros r c1 ->. tstep (λ _ c', c' = c); [by apply triple_throw_opt|].
  intros _ c1 ->. tstep (λ _ c', same_tables c c').
  { apply triple_exec; [by intros|]. by intros c' [= <-]. }
  intros r' c1 Hs. tstep (λ _ c', same_tables c c'); [by apply triple_throw_opt|].
  intros _ c2 Hs'. by apply triple_ret.
Qed.

Lemma claim_classify_spec caller w c v :
  work_items c !! wi_id w = Some v →
  triple (claim_classify caller w) (λ _ c',
    (∃ v', work_items c' = <[wi_id w := v']> (work_items c) ∧ wi_id v' = wi_id v
       ∧ wi_current v' = wi_current v ∧ wi_epoch v' = wi_epoch v
       ∧ wi_status v' = wi_status v ∧ wi_slug v' = wi_slug v ∧ wi_mode v' = wi_mode v)
    ∧ run_attempts c' = run_attempts c ∧ resource_locks c' = resource_locks c
    ∧ wi_dependencies c' = wi_dependencies c) c.
Proof.
  intros Hv. unfold claim_classify. destruct (wi_rhs w) as [b|].
  - apply triple_ret. split; [|done]. exists v. by rewrite insert_id.
  - apply triple_exec_or_throw; [robust|]. intros c1 [= <-].
    tstep (λ _ c', same_tables (set_work_items
      (<[wi_id w := wi_with_rhs defaultRequiresHumanSession v]>) c) c').
    { apply triple_insert_event. unfold set_work_items. simpl.
      by rewrite (alter_as_insert _ _ _ v). }
    intros _ c2 [Hw2 Ha Hl Hd]. apply triple_ret. simpl in *.
    rewrite Hw2, Ha, Hl, Hd. split; [|done]. eexists. split; [done|]. done.
Qed.

Definition claim_row (cx : Ctx) (req : ClaimRequest) (caller : Caller) (w : WorkItem)
  (takeover : option string) : RunAttempt :=
  new_attempt cx (wi_id w) (wrap64 (wi_epoch w + 1)) (cr_idem req) caller
    (cr_machine req) (cr_secret req) (prior_of takeover).

Lemma supersede_rows_id now prior A a : A !! a = None → supersede_rows now prior A !! a = None.
Proof.
  intros H. destruct prior as [p|]; simpl; [|done]. by rewrite lookup_alter_None.
Qed.

Lemma claim_take_spec cx req caller w takeover c :
  work_items c !! wi_id w = Some w →
  wp (claim_take cx req caller w takeover)
    (commits_to (λ resp c',
       let '(locks, probes) :=
         deriveClaimLocks (cr_locks req) (wi_declared w) (wi_project w) in
       claim_post c cx w (prior_of takeover) (claim_row cx req caller w takeover)
         locks probes c'
       ∧ cl_attempt resp = cx_attempt cx ∧ cl_epoch resp = wrap64 (wi_epoch w + 1)
       ∧ cl_locks resp = (λ l, mkRLock (req_resource_type l) (req_resource_key l)
                            (cx_attempt cx) (wrap64 (wi_epoch w + 1))) <$> locks))
    (VActive c).
Proof.
  intros Hw. unfold claim_take.
  destruct (ValidateRequestedLocks _); [apply commits_throw|].
  destruct (deriveClaimLocks _ _ _) as [locks probes].
  eapply wp_bind_triple; [robust|apply probe_spec|].
  intros _ c0 [-> Hprobe].
  eapply wp_bind_triple; [robust|apply claim_supersede_spec|].
  intros _ c1 ->. set (prior := prior_of takeover). set (c1 := set_locks _ _).
  set (a := claim_row cx req caller w takeover).
  hstep (λ _ c', c' = claim_mid cx prior a c ∧ no_clash (cx_attempt cx) a
           (supersede_rows (cx_now cx) prior (run_attempts c))).
  { apply triple_exec_throw. intros c' (-> & Hclash & _)%insert_attempt_ok. done. }
  intros _ c2 [-> Hclash].
  hstep (λ _ c', same_tables (claim_mid cx prior a c) c').
  { unfold claim_superseded_event. fold prior. destruct prior;
      [by apply triple_insert_event|by apply triple_ret]. }
  intros _ c2 [Hs1 Hs2 Hs3 Hs4].
  eapply wp_bind_triple; [robust|apply claim_acquire_spec|].
  intros got c3 [Hacq ->].
  assert (work_items c3 = work_items c ∧ run_attempts c3
    = <[cx_attempt cx := a]> (supersede_rows (cx_now cx) prior (run_attempts c))
    ∧ wi_dependencies c3 = wi_dependencies c) as (Hw3 & Ha3 & Hd3).
  { destruct (al_frame _ _ _ _ _ _ Hacq) as [L ->]. simpl. by rewrite Hs1, Hs2, Hs4. }
  eapply wp_bind_triple; [robust|apply claim_set_running_spec; by rewrite Hw3|].
  intros _ c4 ->.
  eapply wp_bind_triple; [robust|apply claim_steps_spec|].
  intros prior_step c5 [Hw5 Ha5 Hl5 Hd5]. simpl in Hw5, Ha5, Hl5, Hd5.
  eapply wp_bind_triple; [robust|eapply claim_classify_spec;
    rewrite Hw5; by rewrite lookup_insert_eq|].
  intros rhs c6 ((v & Hw6 & Hv1 & Hv2 & Hv3 & Hv4 & Hv5 & Hv6) & Ha6 & Hl6 & Hd6).
  hstep (λ _ c', same_tables c6 c'); [by apply triple_insert_event|].
  intros _ c7 [Hw7 Ha7 Hl7 Hd7].
  apply wp_commit_tail. split; [|done]. split.
  - exists v. rewrite Hw7, Hw6, Hw5, Hw3, insert_insert_eq. done.
  - by rewrite Ha7, Ha6, Ha5, Ha3.
  - done.
  - exists (set_locks (resource_locks c3) (claim_mid cx prior a c)).
    rewrite Hl7, Hl6, Hl5. split; [|done].
    destruct Hacq as [[L ->] Hg Ho Hf Ht]. unfold foreign_live in *. simpl in *.
    rewrite Hs2, Hs3 in *. split; simpl; eauto.
  - done.
  - by rewrite Hd7, Hd6, Hd5, Hd3.
Qed.

Lemma mid_attempt cx prior a c o ra :
  run_attempts c !! cx_attempt cx = None → prior ≠ Some o →
  run_attempts c !! o = Some ra →
  run_attempts (claim_mid cx prior a c) !! o = Some ra.
Proof.
  intros Hnew Hp Ho. simpl. rewrite lookup_insert_ne by congruence.
  destruct prior as [p|]; simpl; [|done]. by rewrite lookup_alter_ne by congruence.
Qed.

Lemma acquired_locks_change cx prior a c id ks c2 :
  run_attempts c !! cx_attempt cx = None →
  (∀ p x, prior = Some p → run_attempts c !! p = Some x → ra_wi x = id) →
  acquired_locks (claim_mid cx prior a c) id (cx_attempt cx) (ra_epoch a) ks c2 →
  locks_change (abs_att <$> run_attempts c) id (cx_attempt cx) (ra_epoch a) prior
    (resource_locks c) (resource_locks c2).
Proof.
  intros Hnew Hp [_ Hg Ho Hf _]. split.
  - intros k l Hl. destruct (decide (k ∈ ks)) as [Hin|Hin].
    + left. specialize (Hg k Hin). congruence.
    + right. rewrite Ho in Hl by done. by apply unowned_locks_lookup in Hl.
  - intros k l Hl (x & Hx & Hlive & Hwi).
    apply lookup_fmap_Some in Hx as (ra & <- & Hra). simpl in *.
    assert (prior ≠ Some (lk_owner l)) as Hne by (intros ->; eauto).
    assert (unowned_locks prior c !! k = Some l) as Hu
      by (apply unowned_locks_lookup; auto).
    destruct (decide (k ∈ ks)) as [Hin|Hin].
    + specialize (Hf k l Hin Hu). unfold foreign_live in Hf.
      rewrite (mid_attempt cx prior a c _ ra) in Hf by done.
      unfold aa_live in Hlive. simpl in Hlive. rewrite Hlive in Hf. simpl in Hf.
      reflect_bools. done.
    + by rewrite Ho.
Qed.

Lemma no_clash_abs id a now prior A :
  no_clash id a (supersede_rows now prior A) →
  (abs_att <$> A) !! id = None ∧ A !! id = None
  ∧ epoch_free (abs_att <$> A) (ra_wi a) (ra_epoch a).
Proof.
  intros [Hid Hun].
  assert (A !! id = None) as HA.
  { destruct prior as [p|]; simpl in Hid; [|done]. by apply lookup_alter_None in Hid. }
  split; [by rewrite lookup_fmap, HA|]. split; [done|].
  intros b x (rb & <- & Hb)%lookup_fmap_Some Hwi He. simpl in *.
  destruct prior as [p|]; simpl in *; [|by destruct (Hun b rb Hb Hwi)].
  destruct (decide (p = b)) as [->|Hne].
  - apply (Hun b (ra_with_status now RSuperseded rb)); [|done..].
    by rewrite lookup_alter_eq, Hb.
  - apply (Hun b rb); [by rewrite lookup_alter_ne|done..].
Qed.

(** Both ways to start a new attempt end in tables of this form. *)
Lemma claim_post_abs c cx w prior a locks probes c' :
  keyed c → claim_post c cx w prior a locks probes c' →
  ra_wi a = wi_id w → ra_status a = RRunning →
  keyed c' ∧ abs c' =
    mkA (<[wi_id w := mkAWi WRunning (Some (cx_attempt cx)) (ra_epoch a)]>
           (a_wis (abs c)))
        (<[cx_attempt cx := mkAAtt (wi_id w) RRunning (ra_epoch a)]>
           (supersede prior (a_atts (abs c)))) (resource_locks c').
Proof.
  intros Hk [(w' & Hw' & Hid & Hcur & Hep & Hst & _) Ha _ _ _ _] Hwi Hr. split.
  - intros i v. rewrite Hw'. intros [[<- <-]|[_ Hv]]%lookup_insert_Some; [done|eauto].
  - unfold abs. rewrite Hw', Ha, !fmap_insert, abs_supersede. simpl.
    unfold abs_wi, abs_att at 1. by rewrite Hcur, Hep, Hst, Hwi, Hr.
Qed.

Lemma abs_of c W A : abs c = mkA W A (resource_locks c) →
  abs_wi <$> work_items c = W ∧ abs_att <$> run_attempts c = A.
Proof. unfold abs. by intros [= -> ->]. Qed.

Lemma claim_post_refines c cx w prior a locks probes c' :
  Wf c → work_items c !! wi_id w = Some w →
  claim_post c cx w prior a locks probes c' → cx_attempt cx ≠ "" →
  ra_wi a = wi_id w → ra_status a = RRunning → ra_epoch a = (wi_epoch w + 1)%Z →
  (wi_status w = WQueued ∨ wi_status w = WPaused) ∧ prior = None
  ∨ wi_status w = WRunning ∧ prior = wi_current w →
  refines c c'.
Proof.
  intros [Hk HI] Hw Hpost Hne Hwi Hr He Hst.
  destruct (claim_post_abs _ _ _ _ _ _ _ _ Hk Hpost Hwi Hr) as [Hk' Habs].
  destruct (no_clash_abs _ _ _ _ _ (cp_clash _ _ _ _ _ _ _ _ Hpost)) as (Hfa & Hfr & Hef).
  destruct (cp_locks _ _ _ _ _ _ _ _ Hpost) as (c2 & Hacq & HL).
  split; [done|]. apply rtc_once. rewrite Habs, He.
  apply (a_claim _ (a_wis (abs c)) (a_atts (abs c)) (resource_locks c)
           (resource_locks c') (wi_id w) (abs_wi w)); try done.
  - apply abs_lookup_wi. eauto.
  - rewrite Hwi, He in Hef. done.
  - change (aw_epoch (abs_wi w)) with (wi_epoch w). rewrite HL, <- He.
    eapply acquired_locks_change; [done| |done].
    intros p x -> Hx. destruct Hst as [[_ [=]]|[_ Hcur]].
    destruct (inv_current _ HI (wi_id w) (abs_wi w) p) as (y & Hy & Hyi & _).
    { apply abs_lookup_wi. eauto. }
    { done. }
    apply abs_lookup_att in Hy as (z & Hz & ->). by simplify_eq.
Qed.

Lemma select_wi_Some key c w :
  keyed c → select_wi key c = inr w →
  work_items c !! wi_id w = Some w ∧ (wi_id w = key ∨ wi_slug w = key).
Proof.
  intros Hk. unfold select_wi. destruct (List.find _ _) as [[id v]|] eqn:E; [|done].
  intros [= <-]. apply List.find_some in E as [Hin Hm].
  apply list_elem_of_In, elem_of_map_to_list in Hin. rewrite (Hk _ _ Hin).
  split; [done|]. unfold wi_matches in Hm. simpl in Hm.
  apply orb_true_iff in Hm as [?%String.eqb_eq|?%String.eqb_eq]; auto.
Qed.

Lemma select_idempotent_Some wi idem c att a :
  select_idempotent wi idem c = inr (att, a) →
  run_attempts c !! att = Some a ∧ ra_wi a = wi ∧ ra_idem a = idem.
Proof.
  unfold select_idempotent. destruct (List.find _ _) as [[id v]|] eqn:E; [|done].
  intros [= <- <-]. apply List.find_some in E as [Hin Hm].
  apply list_elem_of_In, elem_of_map_to_list in Hin. simpl in Hm.
  by reflect_bools.
Qed.

(** What the gate's answer means. *)
Definition gate_ok (c : Core) (w : WorkItem) (caller : Caller) (force : bool)
  (takeover : option string) : Prop :=
  match takeover with
  | Some p => wi_status w = WRunning ∧ wi_current w = Some p
      ∧ ∃ a, run_attempts c !! p = Some a ∧ (ra_actor a = ca_user caller ∨ force = true)
  | None => wi_status w = WQueued ∨ wi_status w = WPaused
      ∨ wi_status w = WRunning
        ∧ ∀ p, wi_current w = Some p → run_attempts c !! p = None
  end.

Lemma claim_gate_spec w caller force c :
  triple (claim_gate w caller force) (λ t c', c' = c ∧ gate_ok c w caller force t) c.
Proof.
  unfold claim_gate, gate_ok.
  destruct (wi_status w) eqn:Est, (wi_current w) as [cur|] eqn:Ec;
    try apply triple_throw; try (apply triple_ret; split; [done|]; naive_solver).
  tstep (λ r c', c' = c ∧ r = select_attempt cur c).
  { by apply triple_query; intros; rewrite H || idtac. }
  intros r c1 [-> ->]. unfold select_attempt.
  destruct (run_attempts c !! cur) as [a|] eqn:Ea.
  - destruct (String.eqb_spec (ra_actor a) (ca_user caller)).
    + apply triple_ret. naive_solver.
    + destruct force; [apply triple_ret; naive_solver|apply triple_throw].
  - apply triple_ret. naive_solver.
Qed.

(** The answer and the tables of a committed claim. *)
Definition claim_result (c : Core) (cx : Ctx) (wiID : string) (req : ClaimRequest)
  (caller : Caller) (resp : ClaimResponse) (c' : Core) : Prop :=
  ∃ w, select_wi wiID c = inr w ∧ wi_mode w ≠ "pending" ∧
    match select_idempotent (wi_id w) (cr_idem req) c with
    | inr (att, a) =>
        c' = c ∧ cl_attempt resp = att ∧ cl_epoch resp = ra_epoch a
    | inl _ =>
        ∃ takeover, gate_ok c w caller (cr_force req) takeover ∧
          let '(locks, probes) :=
            deriveClaimLocks (cr_locks req) (wi_declared w) (wi_project w) in
          claim_post c cx w (prior_of takeover) (claim_row cx req caller w takeover)
            locks probes c'
          ∧ cl_attempt resp = cx_attempt cx ∧ cl_epoch resp = wrap64 (wi_epoch w + 1)
          ∧ cl_locks resp = (λ l, mkRLock (req_resource_type l) (req_resource_key l)
                               (cx_attempt cx) (wrap64 (wi_epoch w + 1))) <$> locks
    end.

Lemma claim_body_spec cx wiID req caller c :
  keyed c →
  wp (claim_body cx wiID req caller) (commits_to (claim_result c cx wiID req caller))
    (VActive c).
Proof.
  intros Hk. unfold claim_body.
  hstep (λ w c', c' = c ∧ select_wi wiID c = inr w).
  { unfold claim_lock_wi. tstep (λ r c', c' = c ∧ ∀ w, r = inr w → select_wi wiID c = inr w).
    - apply triple_query; naive_solver.
    - intros r c1 [-> Hr]. apply triple_or_throw. auto. }
  intros w c1 [-> Hsel]. destruct (String.eqb_spec (wi_mode w) "pending") as [|Hm];
    [apply commits_throw|].
  pose proof (select_wi_Some _ _ _ Hk Hsel) as [Hw _].
  hstep (λ r c', c' = c ∧ match r with
     | inr x => select_idempotent (wi_id w) (cr_idem req) c = inr x
     | inl e => e = NoRows → select_idempotent (wi_id w) (cr_idem req) c = inl NoRows
     end).
  { apply triple_query; naive_solver. }
  intros [e|[att a]] c1 [-> Hidem].
  - destruct e; try apply commits_throw. specialize (Hidem eq_refl).
    destruct (match wi_type w with Some _ => _ | None => _ end); [apply commits_throw|].
    eapply wp_bind_triple; [robust|apply claim_gate_spec|].
    intros t c1 [-> Hgate]. eapply wp_mono; [by apply claim_take_spec|].
    intros [e|resp] [c'| |c']; try done. simpl. intros Hpost.
    exists w. rewrite Hidem. split; [done|]. split; [done|]. by exists t.
  - unfold claim_replay.
    hstep (λ r c', c' = c); [by apply triple_query|]. intros r c1 ->.
    hstep (λ _ c', c' = c); [by apply triple_or_throw|]. intros locks c1 ->.
    hstep (λ _ c', c' = c); [by apply triple_query|]. intros rs c1 ->.
    hstep (λ _ c', c' = c); [by apply triple_throw_opt|]. intros _ c1 ->.
    apply wp_commit_tail. exists w. by rewrite Hidem.
Qed.

Lemma claim_result_refines cx wiID req caller c resp c' :
  Wf c → epoch_room c → cx_attempt cx ≠ "" →
  claim_result c cx wiID req caller resp c' → refines c c'.
Proof.
  intros HW Hroom Hne (w & Hsel & _ & Hres). pose proof HW as [Hk HI].
  destruct (select_idempotent _ _ _) as [e|[att a]].
  - destruct Hres as (t & Hgate & Hpost).
    destruct (deriveClaimLocks _ _ _) as [locks probes]. destruct Hpost as [Hpost _].
    pose proof (select_wi_Some _ _ _ Hk Hsel) as [Hw _].
    assert (a_wis (abs c) !! wi_id w = Some (abs_wi w)) as Haw
      by (apply abs_lookup_wi; eauto).
    eapply claim_post_refines; try done.
    + simpl. apply wrap64_id. specialize (Hroom _ _ Hw).
      pose proof (inv_epoch_nonneg _ HI _ _ Haw). unfold in_int64, max_int64 in *.
      simpl in *. lia.
    + destruct t as [p|]; simpl in *.
      * destruct Hgate as (Hst & Hcur & a & Ha & _). right. split; [done|].
        rewrite Hcur. destruct (String.eqb_spec p "") as [->|]; [|done].
        pose proof (inv_noname _ HI) as Hno. unfold abs in Hno. simpl in Hno.
        by rewrite lookup_fmap, Ha in Hno.
      * destruct Hgate as [?|[?|[Hst Hcur]]]; [auto..|]. exfalso.
        destruct (inv_running_wi _ HI _ _ Haw Hst) as (p & x & Hp & Hx & _).
        apply abs_lookup_att in Hx as (a & Ha & _).
        by rewrite (Hcur p Hp) in Ha.
  - destruct Hres as (-> & _). by apply refines_refl.
Qed.

(** Every execution of a claim, whatever happens to it. *)
Lemma FnClaimWorkItem_refines env cx wiID req caller d :
  Wf (core d) → epoch_room (core d) → cx_attempt cx ≠ "" →
  refines (core d) (core (FnClaimWorkItem env cx wiID req caller d).2).
Proof.
  intros HW Hroom Hne. pose proof HW as [Hk _]. unfold FnClaimWorkItem.
  destruct (claim_args req); [by apply refines_refl|].
  eapply runTx_invariant;
    [apply _|apply _|by apply claim_body_spec|by apply refines_refl|].
  intros resp c'. by apply claim_result_refines.
Qed.

(** ** The credential check *)

Record credential_ok (c : Core) (w : WorkItem) (att : string) (epoch : Z)
  (secret : string) (a : RunAttempt) : Prop := {
  co_is_current : wi_current w = Some att;
  co_row : run_attempts c !! att = Some a;
  co_epoch_eq : ra_epoch a = epoch;
  co_secret_ok : DecodeString (ra_secret_hash a) = Some (Sum256 (bytes_of secret));
  co_running : ra_status a = RRunning;
}.

Definition heartbeat (now : Z) (att : string) (c : Core) : Core :=
  set_run_attempts (alter (ra_with_heartbeat now) att) c.

Lemma credential_verdict_ok a epoch secret u :
  credential_verdict a epoch secret = inr u ↔
  ra_epoch a = epoch ∧ DecodeString (ra_secret_hash a) = Some (Sum256 (bytes_of secret))
  ∧ ra_status a = RRunning.
Proof.
  unfold credential_verdict. rewrite HashSecret_decodes. destruct u.
  destruct (Z.eqb_spec (ra_epoch a) epoch); simpl; [|split; [done|naive_solver]].
  destruct (DecodeString (ra_secret_hash a)) as [st|]; [|split; [done|naive_solver]].
  unfold ConstantTimeCompare.
  destruct (bool_decide_reflect (st = Sum256 (bytes_of secret))); simpl;
    [|split; [done|naive_solver]].
  destruct (ra_status a); split; naive_solver.
Qed.

Lemma verify_spec cx w att epoch secret c :
  triple (verifyAttemptCredential cx w att epoch secret) (λ _ c',
    c' = heartbeat (cx_now cx) att c ∧ ∃ a, credential_ok c w att epoch secret a) c.
Proof.
  unfold verifyAttemptCredential. destruct (bool_decide_reflect (wi_current w = Some att));
    simpl.
  - tstep (λ r c', c' = c ∧ match r with
      | inr a => run_attempts c !! att = Some a | inl _ => True end).
    { apply triple_query; unfold select_attempt; [naive_solver|].
      destruct (run_attempts c !! att) eqn:E; naive_solver. }
    intros [[]|a] c1 [-> Ha]; try apply triple_throw.
    destruct (credential_verdict a epoch secret) as [er|u] eqn:Ev; [apply triple_throw|].
    apply credential_verdict_ok in Ev as (He & Hs & Hr).
    apply triple_bestEffort; [done|]. intros c' [= <-]. split; [done|]. by exists a.
  - tstep (λ _ _, True); [|intros; apply triple_throw].
    unfold supersededByDetails. tstep (λ _ _, True); [by apply triple_query|].
    intros [e|a] c1 _; [by apply triple_ret|].
    destruct (decide _); [|by apply triple_ret].
    destruct (wi_current w); [|by apply triple_ret].
    tstep (λ _ _, True); [by apply triple_query|]. intros. by apply triple_ret.
Qed.

Lemma heartbeat_abs now att c : abs (heartbeat now att c) = abs c.
Proof. unfold abs, heartbeat. simpl. by rewrite abs_alter_att. Qed.

(** ** Forced step termination and references *)

Definition same_but_steps (wi : string) (c c' : Core) : Prop :=
  same_tables c c' ∧ has_code_event wi c' = has_code_event wi c.

Lemma fnForceTerminateStep_keeps cx wi att sa c :
  keeps (same_but_steps wi c) (fnForceTerminateStep cx wi att sa).
Proof.
  unfold fnForceTerminateStep. apply keeps_bind; [robust|apply keeps_query|].
  intros [e|s]; [apply keeps_throw_opt|].
  destruct (ss_step s) as [step|]; [|apply keeps_ret].
  apply keeps_bind; [robust| |intros r1].
  { apply keeps_exec. unfold insert_completion. intros c1 c2 [H1 H2] [= <-].
    destruct (wi_step_completions c1 !! _); split; try done; by rewrite H1. }
  apply keeps_bind; [robust|apply keeps_or_throw|intros _].
  apply keeps_bind; [robust| |intros _].
  { apply keeps_bestEffort. intros c1 c2 [H1 H2] ->%insert_event_inr.
    split; [by rewrite H1|]. unfold has_code_event in *. simpl. rewrite existsb_app. simpl.
    by rewrite andb_false_r, !orb_false_r. }
  apply keeps_bind; [robust| |intros r2; apply keeps_or_throw].
  apply keeps_exec. intros c1 c2 [H1 H2] [= <-]. split; [by rewrite H1|done].
Qed.

(** The version of the step state, [0] when no step was ever opened. *)
Definition step_version (wi : string) (c : Core) : Z :=
  match wi_step_state c !! wi with Some s => ss_version s | None => 0%Z end.

Lemma complete_step_spec cx wiID req o c :
  triple (complete_step cx wiID req o)
    (λ v c', same_but_steps wiID c c' ∧ v = step_version wiID c) c.
Proof.
  unfold complete_step. tstep (λ r c', c' = c ∧ r = select_step wiID c).
  { apply triple_query; naive_solver. }
  intros r c1 [-> ->]. tstep (λ _ c', c' = c); [by apply triple_throw_opt|].
  intros _ c1 ->. unfold select_step, step_version.
  destruct (wi_step_state c !! wiID) as [s|]; [|by apply triple_ret].
  destruct (decide _); [|by apply triple_ret].
  destruct (_ || _); [|apply triple_throw].
  tstep (λ _ c', same_but_steps wiID c c'); 
    [by apply keeps_triple; [apply fnForceTerminateStep_keeps|]|].
  intros _ c1 H. by apply triple_ret.
Qed.

Lemma complete_filed_refs_spec req o project roles role c :
  triple (complete_filed_refs req o project roles role) (λ _ c', c' = c) c.
Proof.
  unfold complete_filed_refs. destruct (decide _); [|by apply triple_ret].
  apply (triple_tforeach_done _ _ (λ _ c', c' = c)); [intros; solve_robust| |done].
  intros _ ref _ c1 _ ->. tstep (λ _ c', c' = c); [|intros; by apply triple_ret].
  unfold resolveVisibleRefOnTx. tstep (λ _ c', c' = c); [by apply triple_query|].
  intros r c1 ->. destruct r as [[]|]; first [apply triple_throw|by apply triple_ret].
Qed.

Lemma complete_no_steps_gate_spec wi req o v c :
  triple (complete_no_steps_gate wi req o v) (λ _ c', c' = c ∧
    (o = OWrapped → v = 0%Z → has_code_event wi c = true →
     nonblank (co_no_steps_reason req) = true)) c.
Proof.
  unfold complete_no_steps_gate.
  destruct (bool_decide_reflect (o = OWrapped)), (Z.eqb_spec v 0); simpl;
    try (by apply triple_ret).
  tstep (λ r c', c' = c ∧ r = inr (has_code_event wi c)); [by apply triple_query; naive_solver|].
  intros r c1 [-> ->]. apply triple_ret_bind.
  destruct (has_code_event wi c), (nonblank (co_no_steps_reason req)); simpl;
    first [apply triple_throw|by apply triple_ret].
Qed.

(** ** Requeueing dependents *)

Definition requeueable (c : Core) (id exclude : string) (w : WorkItem) : bool :=
  bool_decide (wi_status w = WBlocked) && negb (open_blocker c id exclude).

Definition requeue_rows (now : Z) (exclude : string) (c : Core) (ids : list string)
  : gmap string WorkItem :=
  map_imap (λ id w, Some (
    if bool_decide (id ∈ ids) && requeueable c id exclude w
    then wi_with_status now WQueued w else w)) (work_items c).

Lemma requeue_rows_lookup now ex c ids id :
  requeue_rows now ex c ids !! id =
  (λ w, if bool_decide (id ∈ ids) && requeueable c id ex w
        then wi_with_status now WQueued w else w) <$> work_items c !! id.
Proof. unfold requeue_rows. rewrite map_lookup_imap. by destruct (work_items c !! id). Qed.

(** Openness only depends on the edges and on which items are terminal. *)
Lemma open_blocker_ext c c' id ex :
  wi_dependencies c' = wi_dependencies c →
  (∀ i, (λ w, wi_terminal (wi_status w)) <$> work_items c' !! i
        = (λ w, wi_terminal (wi_status w)) <$> work_items c !! i) →
  open_blocker c' id ex = open_blocker c id ex.
Proof.
  intros Hd Hw. unfold open_blocker, dep_rows. rewrite Hd.
  induction (map_to_list (wi_dependencies c)).*1 as [|d ds IH]; [done|]. simpl.
  rewrite IH. do 2 f_equal. specialize (Hw d.1.2).
  destruct (work_items c' !! d.1.2), (work_items c !! d.1.2); simpl in *; congruence.
Qed.

Lemma requeue_open_blocker now ex c ids c' id ex' :
  wi_dependencies c' = wi_dependencies c → work_items c' = requeue_rows now ex c ids →
  open_blocker c' id ex' = open_blocker c id ex'.
Proof.
  intros Hd Hw. apply open_blocker_ext; [done|]. intros i.
  rewrite Hw, requeue_rows_lookup. destruct (work_items c !! i) as [w|]; [|done]. simpl.
  unfold requeueable. destruct (bool_decide (i ∈ ids)); [|done].
  destruct (bool_decide_reflect (wi_status w = WBlocked)) as [E|],
    (open_blocker c i ex); simpl; by rewrite ?E.
Qed.

Lemma requeue_rows_nil now ex c : requeue_rows now ex c [] = work_items c.
Proof.
  apply map_eq. intros i. rewrite requeue_rows_lookup.
  by destruct (work_items c !! i).
Qed.

(** The effect of one requeue statement. *)
Lemma requeueIfUnblocked_eq now id ex c :
  requeueIfUnblocked now id ex c = inr
    match work_items c !! id with
    | Some w => (requeueable c id ex w,
                 if requeueable c id ex w
                 then set_work_items (alter (wi_with_status now WQueued) id) c else c)
    | None => (false, c)
    end.
Proof.
  unfold requeueIfUnblocked, requeueable. destruct (work_items c !! id); [|done].
  by destruct (_ && _).
Qed.

Record requeued (now : Z) (ex : string) (c : Core) (ids : list string) (c' : Core)
  : Prop := {
  rq_wi : work_items c' = requeue_rows now ex c ids;
  rq_att : run_attempts c' = run_attempts c;
  rq_locks : resource_locks c' = resource_locks c;
  rq_deps : wi_dependencies c' = wi_dependencies c;
  rq_refines : keyed c → refines c c';
}.

Lemma requeued_nil now ex c : requeued now ex c [] c.
Proof. split; try done; try apply refines_refl. by rewrite requeue_rows_nil. Qed.

Lemma requeue_rows_snoc now ex c don id c1 :
  requeued now ex c don c1 →
  (if match work_items c1 !! id with Some w => requeueable c1 id ex w | None => false end
   then alter (wi_with_status now WQueued) id (work_items c1) else work_items c1)
  = requeue_rows now ex c (don ++ [id]).
Proof.
  intros [Hw _ _ Hd _]. apply map_eq. intros i.
  assert (∀ w, requeueable c1 id ex w = requeueable c id ex w) as Hreq.
  { intros w. unfold requeueable. by rewrite (requeue_open_blocker now ex c don c1). }
  rewrite requeue_rows_lookup.
  destruct (decide (i = id)) as [->|Hne].
  - rewrite (bool_decide_eq_true_2 (id ∈ don ++ [id])) by set_solver.
    rewrite Hw, requeue_rows_lookup. destruct (work_items c !! id) as [w|] eqn:Ew; simpl;
      [|by rewrite requeue_rows_lookup, Ew].
    rewrite Hreq. destruct (requeueable c id ex w) eqn:Er.
    + destruct (bool_decide (id ∈ don)) eqn:Ed; simpl.
      * by rewrite requeue_rows_lookup, Ew, Ed; simpl; rewrite Er.
      * rewrite Er, lookup_alter_eq, requeue_rows_lookup, Ew. simpl. by rewrite Ed.
    + rewrite !andb_false_r, Er, requeue_rows_lookup, Ew. simpl.
      by rewrite Er, andb_false_r.
  - assert (bool_decide (i ∈ don ++ [id]) = bool_decide (i ∈ don)) as ->
      by (apply bool_decide_ext; set_solver).
    rewrite Hw.
    destruct (match requeue_rows now ex c don !! id with Some _ => _ | None => _ end);
      [rewrite lookup_alter_ne by done|]; apply requeue_rows_lookup.
Qed.

(** The tables after one requeue statement. *)
Definition requeue_next (now : Z) (ex id : string) (c1 : Core) : bool * Core :=
  match work_items c1 !! id with
  | Some w => (requeueable c1 id ex w,
               if requeueable c1 id ex w
               then set_work_items (alter (wi_with_status now WQueued) id) c1 else c1)
  | None => (false, c1)
  end.

Lemma requeued_next now ex c don id c1 :
  requeued now ex c don c1 →
  requeued now ex c (don ++ [id]) (requeue_next now ex id c1).2.
Proof.
  intros HI. pose proof (requeue_rows_snoc now ex c don id c1 HI) as Hrows.
  destruct HI as [Hw Ha Hl Hd Hr]. unfold requeue_next in *.
  destruct (work_items c1 !! id) as [w|] eqn:Ew; simpl; [|by split].
  destruct (requeueable c1 id ex w) eqn:Eb; [|by split].
  split; try done. intros [Hk1 Hs]%Hr. unfold requeueable in Eb. reflect_bools. split.
  - intros i v. simpl. rewrite (alter_as_insert _ _ _ w) by done.
    intros [[<- <-]|[_ Hv]]%lookup_insert_Some; [apply (Hk1 id w Ew)|eauto].
  - eapply rtc_r; [exact Hs|]. unfold abs at 2. simpl.
    rewrite (alter_as_insert _ _ _ w) by done. rewrite fmap_insert.
    apply (a_requeue _ (abs_wi <$> work_items c1) (abs_att <$> run_attempts c1)
             (resource_locks c1) id (abs_wi w)); [by rewrite lookup_fmap, Ew|done].
Qed.

Lemma requeued_all now ex c ids : ∃ c', requeued now ex c ids c'.
Proof.
  induction ids as [|id ids [c1 H1]] using rev_ind.
  - exists c. apply requeued_nil.
  - eexists. by apply requeued_next.
Qed.

Lemma requeue_rows_refines now ex c ids :
  keyed c → refines c (set_work_items (λ _, requeue_rows now ex c ids) c).
Proof.
  intros Hk. destruct (requeued_all now ex c ids) as (c' & [Hw Ha Hl _ Hr]).
  destruct (Hr Hk) as [Hk' Hs]. split.
  - intros i v. simpl. rewrite <- Hw. apply Hk'.
  - assert (abs (set_work_items (λ _, requeue_rows now ex c ids) c) = abs c') as ->
      by (unfold abs; simpl; congruence). done.
Qed.

Lemma requeue_one_step now wi project id c don c1 :
  requeued now wi c don c1 →
  triple (unblock_one now wi project id) (λ _, requeued now wi c (don ++ [id])) c1.
Proof.
  intros HI. pose proof (requeued_next now wi c don id c1 HI) as Hc2.
  unfold unblock_one. tstep (λ r c', r = inr (requeue_next now wi id c1).1
                                     ∧ c' = (requeue_next now wi id c1).2).
  { apply triple_stmt; rewrite requeueIfUnblocked_eq; [done|].
    intros a c'. unfold requeue_next. by destruct (work_items c1 !! id); intros [= <- <-]. }
  intros r c' [-> ->].
  destruct (requeue_next now wi id c1).1; [by apply triple_emit|by apply triple_ret].
Qed.

(** The dependents an ending considers. *)
Definition drained_dependents (cx : Ctx) (wi : string) (c : Core) : list string :=
  let d := drain (cx_scan cx) (blocked_dependents wi c) in if d.2 then d.1 else [].

Lemma unblockDependentWI_spec cx wi project c :
  triple (unblockDependentWI cx wi project)
    (λ _, requeued (cx_now cx) wi c (drained_dependents cx wi c)) c.
Proof.
  unfold unblockDependentWI, drained_dependents.
  tstep (λ r c', c' = c ∧ r = inr (blocked_dependents wi c)).
  { apply triple_query; [done|]. by intros a [= <-]. }
  intros r c' [-> ->]. destruct (drain _ _) as [ids []]; simpl;
    [|by apply triple_ret, requeued_nil].
  apply (triple_tforeach_done _ _ (requeued (cx_now cx) wi c)).
  - intros. solve_robust.
  - intros don id _ c' _. apply requeue_one_step.
  - apply requeued_nil.
Qed.

(** ** Complete *)

Definition end_sel (att : string) (o : Outcome) : LockSel :=
  if decide (o = OPaused) then acquireLocksReleasePaused att else lockDeleteByAttempt att.

Lemma end_sel_kept att o c k l :
  kept_locks (end_sel att o) c !! k = Some l ↔
  resource_locks c !! k = Some l
  ∧ (lk_owner l = att → o = OPaused ∧ k.1 ≠ "file_scope").
Proof.
  unfold kept_locks, end_sel. rewrite map_lookup_filter_Some. simpl.
  destruct (decide (o = OPaused)) as [->|Ho];
    unfold acquireLocksReleasePaused, lockDeleteByAttempt; simpl.
  - rewrite andb_false_iff, !String.eqb_neq. destruct (decide (lk_owner l = att)); naive_solver.
  - rewrite String.eqb_neq. naive_solver.
Qed.

Lemma kept_end_ext att o c c' :
  resource_locks c = resource_locks c' →
  kept_locks (end_sel att o) c = kept_locks (end_sel att o) c'.
Proof.
  intros H. apply map_eq. intros k. apply option_eq. intros l.
  by rewrite !end_sel_kept, H.
Qed.

(** The work items after the status change, before dependents are requeued. *)
Definition ended (now : Z) (w : WorkItem) (o : Outcome) (c : Core) : Core :=
  set_work_items (<[wi_id w := wi_with_status now (outcome_wi o) w]>) c.

Record complete_post (c : Core) (cx : Ctx) (w : WorkItem)
  (req : CompleteAttemptRequest) (o : Outcome) (c' : Core) : Prop := {
  ct_wi : work_items c' =
    if decide (o = OPaused) then work_items (ended (cx_now cx) w o c)
    else requeue_rows (cx_now cx) (wi_id w) (ended (cx_now cx) w o c)
           (drained_dependents cx (wi_id w) (ended (cx_now cx) w o c));
  ct_att : run_attempts c' =
    alter (attempt_completed (cx_now cx) req o) (co_attempt req)
      (alter (ra_with_heartbeat (cx_now cx)) (co_attempt req) (run_attempts c));
  ct_locks : resource_locks c' = kept_locks (end_sel (co_attempt req) o) c;
  ct_deps : wi_dependencies c' = wi_dependencies c;
  ct_refines : keyed (ended (cx_now cx) w o c) →
    asteps calm (mkA (a_wis (abs (ended (cx_now cx) w o c))) (a_atts (abs c'))
                (resource_locks c')) (abs c') ∧ keyed c';
}.

Lemma complete_release_spec cx req o c :
  triple (complete_release cx req o)
    (λ _ c', c' = set_locks (kept_locks (end_sel (co_attempt req) o) c) c) c.
Proof.
  unfold complete_release, end_sel.
  tstep (λ r c', (∃ rows, r = inr rows) ∧
    c' = set_locks (kept_locks (end_sel (co_attempt req) o) c) c).
  { unfold end_sel. destruct (decide (o = OPaused)); apply releaseLocks_spec; eauto. }
  intros r c1 [[rows ->] ->]. by apply triple_ret_bind, triple_ret.
Qed.

Lemma blocked_dependents_ext wi c c' :
  work_items c' = work_items c → wi_dependencies c' = wi_dependencies c →
  blocked_dependents wi c' = blocked_dependents wi c.
Proof. intros Hw Hd. unfold blocked_dependents, dep_rows. by rewrite Hw, Hd. Qed.

Lemma requeue_rows_ext now ex c c' ids :
  work_items c' = work_items c → wi_dependencies c' = wi_dependencies c →
  requeue_rows now ex c' ids = requeue_rows now ex c ids.
Proof.
  intros Hw Hd. apply map_eq. intros i. rewrite !requeue_rows_lookup, Hw.
  destruct (work_items c !! i); [|done]. simpl. unfold requeueable.
  rewrite (open_blocker_ext c c') by (done || by rewrite Hw). done.
Qed.

(** From the attempt's update on. *)
Lemma complete_writes_spec cx req o w c :
  work_items c !! wi_id w = Some w →
  wp (complete_writes cx req o w) (commits_to (λ _ c', ∀ c0,
       run_attempts c = alter (ra_with_heartbeat (cx_now cx)) (co_attempt req)
                          (run_attempts c0) →
       work_items c = work_items c0 → resource_locks c = resource_locks c0 →
       wi_dependencies c = wi_dependencies c0 → complete_post c0 cx w req o c'))
    (VActive c).
Proof.
  intros Hw. unfold complete_writes.
  hstep (λ _ c', c' = set_run_attempts
    (alter (attempt_completed (cx_now cx) req o) (co_attempt req)) c).
  { apply triple_exec_throw. by intros c' [= <-]. }
  intros _ c1 ->. eapply wp_bind_triple; [robust|apply complete_release_spec|].
  intros _ c2 ->. set (c2 := set_locks _ _).
  hstep (λ _ c', c' = ended (cx_now cx) w o c2).
  { apply triple_exec_throw. intros c' [= <-]. unfold ended, set_work_items.
    by rewrite (alter_as_insert _ _ _ w) by done. }
  intros _ c3 ->. hstep (λ _ c', same_tables (ended (cx_now cx) w o c2) c').
  { by apply triple_insert_event. }
  intros _ c4 [Hw4 Ha4 Hl4 Hd4].
  hstep (λ _ c', if decide (o = OPaused) then c' = c4 else
    ∃ c5, requeued (cx_now cx) (wi_id w) c4 (drained_dependents cx (wi_id w) c4) c5
          ∧ same_tables c5 c').
  { unfold complete_dependents. destruct (decide (o = OPaused)); [by apply triple_ret|].
    eapply triple_bind; [robust|apply unblockDependentWI_spec|].
    intros [] c5 H5. apply triple_bestEffort; [done|]. intros c' [= <-]. by exists c5. }
  intros _ c6 H6. apply wp_commit_tail. intros c0 Ha0 Hw0 Hl0 Hd0.
  simpl in Hw4, Ha4, Hl4, Hd4.
  rewrite (kept_end_ext _ _ _ c0) in Hl4 by done.
  assert (abs c4 = mkA (a_wis (abs (ended (cx_now cx) w o c0))) (a_atts (abs c4))
                       (resource_locks c4)) as Habs.
  { unfold abs. by rewrite Hw4, Hw0. }
  destruct (decide (o = OPaused)) as [Ho|Ho].
  - subst c6. split.
    + rewrite decide_True by done. by rewrite Hw4, Hw0.
    + by rewrite Ha4, Ha0.
    + by rewrite Hl4.
    + by rewrite Hd4.
    + intros Hk. rewrite <- Habs. split; [apply rtc_refl|].
      intros i v. rewrite Hw4, Hw0. apply Hk.
  - destruct H6 as (c5 & [Hr1 Hr2 Hr3 Hr4 Hr5] & [Hs1 Hs2 Hs3 Hs4]).
    split.
    + rewrite decide_False by done. rewrite Hs1, Hr1.
      rewrite (requeue_rows_ext _ _ (ended (cx_now cx) w o c0) c4)
        by (simpl; congruence).
      unfold drained_dependents.
      by rewrite (blocked_dependents_ext _ (ended (cx_now cx) w o c0) c4)
        by (simpl; congruence).
    + by rewrite Hs2, Hr2, Ha4, Ha0.
    + by rewrite Hs3, Hr3, Hl4.
    + by rewrite Hs4, Hr4, Hd4.
    + intros Hk. destruct Hr5 as [Hk5 Hst].
      { intros i v. rewrite Hw4, Hw0. apply Hk. }
      assert (abs c6 = abs c5) as -> by (unfold abs; congruence).
      split; [|by intros i v; rewrite Hs1; apply Hk5].
      rewrite Habs in Hst. unfold abs in Hst |- *. simpl in *.
      rewrite Hs3, Hr3, Hr2 in *. exact Hst.
Qed.

(** What a committed completion found and did. *)
Definition complete_result (c : Core) (cx : Ctx) (wiID : string)
  (req : CompleteAttemptRequest) (o : Outcome) (c' : Core) : Prop :=
  ∃ w a, work_items c !! wiID = Some w ∧ wi_terminal (wi_status w) = false
    ∧ credential_ok c w (co_attempt req) (co_epoch req) (co_secret req) a
    ∧ (o = OWrapped → step_version wiID c = 0%Z → has_code_event wiID c = true →
       nonblank (co_no_steps_reason req) = true)
    ∧ complete_post c cx w req o c'.

Lemma complete_body_spec cx wiID req o roles role c :
  keyed c →
  wp (complete_body cx wiID req o roles role)
    (commits_to (λ _, complete_result c cx wiID req o)) (VActive c).
Proof.
  intros Hk. unfold complete_body.
  hstep (λ w c', c' = c ∧ work_items c !! wiID = Some w).
  { unfold complete_lock_wi.
    tstep (λ r c', c' = c ∧ ∀ w, r = inr w → work_items c !! wiID = Some w).
    - apply triple_query; unfold select_wi_by_id; [naive_solver|].
      destruct (work_items c !! wiID); naive_solver.
    - intros r c1 [-> Hr]. apply triple_or_throw. auto. }
  intros w c1 [-> Hw]. destruct (wi_terminal (wi_status w)) eqn:Et;
    [apply commits_throw|].
  pose proof (Hk _ _ Hw) as Hid.
  eapply wp_bind_triple; [robust|apply verify_spec|].
  intros _ c1 [-> [a Hcred]].
  eapply wp_bind_triple; [robust|apply complete_filed_refs_spec|]. intros _ c1 ->.
  eapply wp_bind_triple; [robust|apply complete_step_spec|].
  intros v c1 [[[Hw1 Ha1 Hl1 Hd1] Hcode] ->].
  eapply wp_bind_triple; [robust|apply complete_no_steps_gate_spec|].
  intros _ c2 [-> Hgate].
  eapply wp_mono; [apply complete_writes_spec; by rewrite Hid, Hw1|].
  intros [e|u] [c'| |c']; try done. simpl. intros Hpost.
  exists w, a. split; [done|]. split; [done|]. split; [done|]. split.
  - intros Ho Hv Hc. apply Hgate; [done..|]. rewrite Hid, Hcode. done.
  - by apply Hpost.
Qed.

Lemma complete_result_refines cx wiID req o c c' :
  Wf c → complete_result c cx wiID req o c' → refines c c'.
Proof.
  intros [Hk HI] (w & a & Hw & _ & [Hcur Ha He _ Hr] & _ & [_ Hatt Hlocks _ Href]).
  pose proof (Hk _ _ Hw) as Hid.
  destruct Href as [Hst Hk'].
  { intros i v. simpl. rewrite Hid.
    intros [[<- <-]|[_ Hv]]%lookup_insert_Some; [done|eauto]. }
  split; [done|]. eapply rtc_l; [|exact Hst].
  assert (a_atts (abs c') = <[co_attempt req := with_astatus (outcome_ra o) (abs_att a)]>
                             (a_atts (abs c))) as ->.
  { unfold abs. simpl. rewrite Hatt.
    rewrite (alter_as_insert _ _ _ (ra_with_heartbeat (cx_now cx) a))
      by (by rewrite lookup_alter_eq, Ha).
    rewrite fmap_insert, abs_alter_att by done. done. }
  assert (a_wis (abs (ended (cx_now cx) w o c)) =
          <[wiID := with_wstatus (outcome_wi o) (abs_wi w)]> (a_wis (abs c))) as ->.
  { unfold abs. simpl. by rewrite fmap_insert, Hid. }
  rewrite Hlocks.
  apply (a_end _ (a_wis (abs c)) (a_atts (abs c)) (resource_locks c) _ wiID (abs_wi w)
           (co_attempt req) (abs_att a) (outcome_wi o) (outcome_ra o)).
  - apply abs_lookup_wi. eauto.
  - done.
  - apply abs_lookup_att. eauto.
  - done.
  - destruct o; set_solver.
  - intros k l. rewrite end_sel_kept. destruct o; naive_solver.
Qed.

Lemma FnCompleteAttempt_refines env cx wiID req roles role d :
  Wf (core d) →
  refines (core d) (core (FnCompleteAttempt env cx wiID req roles role d).2).
Proof.
  intros HW. pose proof HW as [Hk _]. unfold FnCompleteAttempt.
  destruct (complete_args req) as [|o]; [by apply refines_refl|].
  eapply runTx_invariant;
    [apply _|apply _|by apply complete_body_spec|by apply refines_refl|].
  intros [] c'. by apply complete_result_refines.
Qed.
