(* ===== verification/Handover.v ===== *)
(** * The remaining lifecycle handlers refine the specification

    Force takeover (with its snapshot), lock acquisition, repository pins, the
    pool credential check and cancellation. *)

From S2P Require Import Prelude GoStrings Errors Json Crypto Declared Locks Store.
From S2P Require Import TxLogic LifecycleSpec ResourceEvents Attempts Claim Complete.
From S2P Require Import Takeover Lifecycle.
From stdpp Require Import relations.

Open Scope list_scope.

(** ** Force takeover *)

Lemma swallow_keeps I m : keeps I m → keeps I (swallow_internal m).
Proof.
  intros H c Hc s Hs. destruct (H c Hc s Hs) as (v & Hv & HP).
  exists v. unfold swallow_internal. destruct (m s) as [[e|[]] s']; simpl in *;
    [by destruct (decide _)|done].
Qed.

Lemma takeover_step_spec cx wi prior c :
  triple (takeover_step cx wi prior) (λ _, same_but_steps wi c) c.
Proof.
  apply keeps_triple; [|done]. unfold takeover_step.
  apply keeps_bind; [robust|apply keeps_query|intros r].
  apply keeps_bind; [robust|apply keeps_throw_opt|intros _].
  destruct r as [e|s]; [apply keeps_ret|]. destruct (decide _); [|apply keeps_ret].
  apply swallow_keeps, fnForceTerminateStep_keeps.
Qed.

Lemma takeover_supersede_spec cx user display req w prior pa c :
  triple (takeover_supersede cx user display req w prior pa) (λ _ c', same_tables
    (set_locks (unowned_locks (Some prior) c)
       (set_run_attempts (supersede_rows (cx_now cx) (Some prior)) c)) c') c.
Proof.
  unfold takeover_supersede. apply triple_exec_or_throw; [robust|]. intros c1 [= <-].
  tstep (λ r c', (∃ rows, r = inr rows) ∧ c' =
    set_locks (unowned_locks (Some prior) c)
      (set_run_attempts (supersede_rows (cx_now cx) (Some prior)) c)).
  { apply releaseLocks_spec. eauto. }
  intros r c1 [[rows ->] ->]. apply triple_ret_bind.
  by apply triple_insert_event.
Qed.

Lemma takeover_acquire_spec cx user display prior req w e locks c :
  triple (takeover_acquire cx user display prior req w e locks) (λ _ c',
    acquired_locks c (wi_id w) (cx_attempt cx) e (key_of <$> locks) c') c.
Proof.
  apply (triple_tforeach_done _ _ (λ ls c',
    acquired_locks c (wi_id w) (cx_attempt cx) e (key_of <$> ls) c')).
  - intros. solve_robust.
  - intros don l todo c1 _ Hacq.
    eapply triple_bind; [robust|apply acquireLockUpsert_spec|].
    intros r c2 Hr. destruct r as [[]|row]; [|done|]; simpl.
    + apply triple_throw.
    + destruct Hr as (-> & -> & Ht & _ & Hfree). apply triple_ret.
      rewrite fmap_app. by eapply acquired_locks_snoc.
  - apply acquired_locks_nil.
Qed.

Definition takeover_row (cx : Ctx) (user display secret : string)
  (req : ForceTakeoverRequest) (w : WorkItem) (prior : string) : RunAttempt :=
  new_attempt cx (wi_id w) (wrap64 (wi_epoch w + 1))
    ("force-takeover-" +:+ cx_attempt cx) (mkCaller user display)
    (takeover_machine req) secret (Some prior).

(** [w] is the row of the snapshot, [v] the row the transaction meets. *)
Lemma takeover_body_spec cx user display secret req w v prior pa c :
  work_items c !! wi_id w = Some v → wi_id v = wi_id w →
  wp (takeover_body cx user display secret req w prior pa)
    (commits_to (λ resp c',
       claim_post c cx v (Some prior) (takeover_row cx user display secret req w prior)
         (takeover_locks w).1 (takeover_locks w).2 c'
       ∧ ft_attempt resp = cx_attempt cx ∧ ft_epoch resp = wrap64 (wi_epoch w + 1)))
    (VActive c).
Proof.
  intros Hv Hid. unfold takeover_body.
  destruct (takeover_locks w) as [locks probes] eqn:El.
  eapply wp_bind_triple; [robust|apply probe_spec|]. intros _ c0 [-> Hprobe].
  eapply wp_bind_triple; [robust|apply takeover_step_spec|].
  intros _ c1 [[Hw1 Ha1 Hl1 Hd1] _].
  eapply wp_bind_triple; [robust|apply takeover_supersede_spec|].
  intros _ c2 [Hw2 Ha2 Hl2 Hd2]. simpl in Hw2, Ha2, Hl2, Hd2.
  set (a := takeover_row cx user display secret req w prior).
  hstep (λ _ c', c' = set_run_attempts (<[cx_attempt cx := a]>) c2
           ∧ no_clash (cx_attempt cx) a (run_attempts c2)).
  { apply triple_exec_throw. intros c' (-> & Hclash & _)%insert_attempt_ok. done. }
  intros _ c3 [-> Hclash].
  eapply wp_bind_triple; [robust|apply takeover_acquire_spec|].
  intros [] c4 Hacq.
  assert (work_items c4 = work_items c ∧ run_attempts c4
    = <[cx_attempt cx := a]> (supersede_rows (cx_now cx) (Some prior) (run_attempts c))
    ∧ wi_dependencies c4 = wi_dependencies c) as (Hw4 & Ha4 & Hd4).
  { destruct (al_frame _ _ _ _ _ _ Hacq) as [L ->]. simpl.
    by rewrite Hw2, Ha2, Hd2, Hw1, Ha1, Hd1. }
  hstep (λ _ c', c' = set_work_items
    (<[wi_id w := wi_claimed (cx_now cx) (cx_attempt cx) (wrap64 (wi_epoch w + 1)) v]>) c4).
  { apply triple_exec_throw. intros c' [= <-]. unfold set_work_items.
    by rewrite (alter_as_insert _ _ _ v) by (by rewrite Hw4). }
  intros _ c5 ->. apply wp_commit_tail. split; [|done]. split; simpl.
  - eexists. rewrite Hw4, Hid. split; [done|]. done.
  - done.
  - by rewrite Ha2, Ha1 in Hclash.
  - exists (set_locks (resource_locks c4) (claim_mid cx (Some prior) a c)).
    split; [|done].
    assert (kept_locks (lockDeleteByAttempt prior) c1
            = kept_locks (lockDeleteByAttempt prior) c) as Hkept.
    { apply map_eq. intros k. apply option_eq. intros l.
      pose proof (unowned_locks_lookup (Some prior) c1 k l) as H1.
      pose proof (unowned_locks_lookup (Some prior) c k l) as H2. simpl in *.
      by rewrite H1, H2, Hl1. }
    destruct Hacq as [_ Hg Ho Hf Ht]. unfold foreign_live in *. simpl in *.
    rewrite Hl2, Hkept, Ha2, Ha1 in *. split; simpl; rewrite ?Hid; eauto.
  - by rewrite Hid.
  - done.
Qed.

(** What the checks on the snapshot established. *)
Lemma takeover_gate_ok f1 f2 wiID user role roles req d0 w prior pa :
  keyed (core d0) →
  takeover_gate f1 f2 wiID user role roles req d0 = inr (w, prior, pa) →
  work_items (core d0) !! wi_id w = Some w ∧ wi_status w = WRunning
  ∧ wi_current w = Some prior
  ∧ ∃ a, run_attempts (core d0) !! prior = Some a
         ∧ (ra_actor a = user ∨ roles !! wi_project w = Some "maintainer"
            ∨ role = "admin").
Proof.
  intros Hk. unfold takeover_gate, GetWorkItem, pool_query.
  destruct (String.eqb (fo_reason req) ""); [done|].
  destruct f1; [done|]. destruct (select_wi wiID (core d0)) as [|v] eqn:Es; [done|].
  simpl. destruct (bool_decide_reflect (wi_status v = WRunning)); [|done]. simpl.
  destruct (wi_current v) as [cur|] eqn:Ec; [|done]. destruct f2; [done|].
  unfold select_attempt. destruct (run_attempts (core d0) !! cur) as [a|] eqn:Ea; [|done].
  destruct (_ && _) eqn:Ep; [done|]. intros [= <- <- <-].
  destruct (select_wi_Some _ _ _ Hk Es) as [Hv _].
  repeat split; try done. exists a. split; [done|].
  apply andb_false_iff in Ep as [Ep|Ep]; apply negb_false_iff in Ep.
  - apply String.eqb_eq in Ep. auto.
  - apply orb_true_iff in Ep as [Ep|Ep]; reflect_bools; auto.
Qed.

(** The snapshot [d0] is an earlier state of the database [d]. *)
Definition earlier (c0 c : Core) : Prop := Wf c0 ∧ grows (abs c0) (abs c).

Lemma takeover_refines_aux c0 c cx w v prior a locks probes c' :
  Wf c → earlier c0 c →
  work_items c0 !! wi_id w = Some w → wi_current w = Some prior →
  work_items c !! wi_id w = Some v → cx_attempt cx ≠ "" →
  ra_wi a = wi_id w → ra_status a = RRunning → ra_epoch a = (wi_epoch w + 1)%Z →
  claim_post c cx v (Some prior) a locks probes c' → refines_with takeovers c c'.
Proof.
  intros [Hk HI] [[Hk0 HI0] [Hgr _]] Hw Hcur Hv Hne Hwi Hr He Hpost.
  pose proof (Hk _ _ Hv) as Hid. rewrite <- Hid in *.
  destruct (claim_post_abs _ _ _ _ _ _ _ _ Hk Hpost Hwi Hr) as [Hk' Habs].
  destruct (no_clash_abs _ _ _ _ _ (cp_clash _ _ _ _ _ _ _ _ Hpost)) as (Hfa & Hfr & Hef).
  destruct (cp_locks _ _ _ _ _ _ _ _ Hpost) as (c2 & Hacq & HL).
  destruct (inv_current _ HI0 (wi_id v) (abs_wi w) prior) as (x0 & Hx0 & Hxi0 & Hxe0);
    [apply abs_lookup_wi; eauto|done|].
  destruct (Hgr _ _ Hx0) as (x & Hx & Hxi & Hxe).
  rewrite Hxi0 in Hxi. rewrite Hxe0 in Hxe. simpl in Hxe.
  split; [done|]. apply rtc_once. rewrite Habs, He, <- Hxe.
  apply (a_takeover _ (a_wis (abs c)) (a_atts (abs c)) (resource_locks c)
           (resource_locks c') (wi_id v) (abs_wi v)); try done.
  - apply abs_lookup_wi. eauto.
  - by rewrite Hwi, He, <- Hxe in Hef.
  - rewrite HL, Hxe, <- He. eapply acquired_locks_change; [done| |done].
    intros p y [= <-] Hy. apply abs_lookup_att in Hx as (z & Hz & ->).
    by simplify_eq/=.
Qed.

Lemma FnForceTakeover_refines env f1 f2 cx wiID user display role roles req gen d0 d :
  Wf (core d) → earlier (core d0) (core d) → epoch_room (core d0) →
  cx_attempt cx ≠ "" →
  refines_with takeovers (core d)
    (core (FnForceTakeover env f1 f2 cx wiID user display role roles req gen d0 d).2).
Proof.
  intros HW He Hroom Hne. pose proof HW as [Hk _]. unfold FnForceTakeover.
  destruct (takeover_gate _ _ _ _ _ _ _ _) as [e|[[w prior] pa]] eqn:Eg;
    [by apply refines_refl|].
  pose proof He as [[Hk0 HI0] [_ Hgw]].
  destruct (takeover_gate_ok _ _ _ _ _ _ _ _ _ _ _ Hk0 Eg) as (Hw & _ & Hcur & _).
  assert (a_wis (abs (core d0)) !! wi_id w = Some (abs_wi w)) as Haw
    by (apply abs_lookup_wi; eauto).
  destruct (Hgw _ _ Haw) as (x & Hx & _). apply abs_lookup_wi in Hx as (v & Hv & _).
  eapply runTx_invariant; [apply _|apply _| |by apply refines_refl|].
  - apply (takeover_body_spec _ _ _ _ _ _ v); [done|by apply Hk].
  - intros resp c' [Hpost _].
    eapply (takeover_refines_aux (core d0)); last exact Hpost; try done.
    simpl. apply wrap64_id. specialize (Hroom _ _ Hw).
    pose proof (inv_epoch_nonneg _ HI0 _ _ Haw). unfold in_int64, max_int64 in *.
    simpl in *. lia.
Qed.

(** ** Acquiring the locks of new declarations *)

Lemma derived_probe_covers_key res project typ key p :
  derivedLockProbe res project = Some (typ, key, p) → sql_key_conflicts p key = true.
Proof.
  unfold derivedLockProbe, derivedLock, resourceToLock.
  destruct (bool_decide _); [|done]. destruct (blank _); [done|].
  destruct (_ && _); [done|]. simpl. intros [= <- <- <-].
  unfold sql_key_conflicts, fileScopeConflictProbe, fileScopeLockKey.
  destruct (String.eqb (normalizeRepo (Repo res)) ""); simpl;
    by rewrite String.eqb_refl.
Qed.

Lemma acquire_targets_cover declared project t :
  t ∈ acquire_targets declared project →
  tl_type t = "file_scope" ∧ sql_key_conflicts (tl_probe t) (tl_key t) = true.
Proof.
  unfold acquire_targets. rewrite list_elem_of_omap. intros (res & _ & Hres).
  destruct (derivedLockProbe res project) as [[[typ key] p]|] eqn:E; [|done].
  destruct (String.eqb_spec typ "file_scope"); [|done]. simpl in Hres.
  destruct (String.eqb key ""); [done|]. simplify_eq/=.
  split; [done|]. by eapply derived_probe_covers_key.
Qed.

(** One lock row replaced, whose owner was not working elsewhere. *)
Definition lock_taken (id att : string) (e : Z) (c c' : Core) : Prop :=
  c' = c ∨ ∃ k, c' = set_locks (<[k := mkLock att e]> (resource_locks c)) c
    ∧ ∀ l, resource_locks c !! k = Some l →
           ¬ held_elsewhere (abs_att <$> run_attempts c) id l.

Definition owners_exist (c : Core) : Prop :=
  ∀ a ra, run_attempts c !! a = Some ra → is_Some (work_items c !! ra_wi ra).

Lemma no_collision_not_held c t id l :
  owners_exist c → sql_key_conflicts (tl_probe t) (tl_key t) = true →
  select_collision (tl_type t) (tl_probe t) None c = inl NoRows →
  resource_locks c !! (tl_type t, tl_key t) = Some l →
  ¬ held_elsewhere (abs_att <$> run_attempts c) id l.
Proof.
  intros Hex Hcov Hsel Hl (x & Hx & Hlive & _).
  apply lookup_fmap_Some in Hx as (ra & <- & Hra).
  unfold select_collision in Hsel. destruct (List.find _ _) as [[]|] eqn:E; [done|].
  assert (collides c (tl_type t) (tl_probe t) None ((tl_type t, tl_key t), l) = false)
    as Hno by (apply (find_none _ _ E), list_elem_of_In, elem_of_map_to_list, Hl).
  unfold collides in Hno. simpl in Hno. rewrite String.eqb_refl, Hcov, Hra in Hno.
  unfold aa_live in Hlive. simpl in Hno, Hlive.
  rewrite Hlive, bool_decide_eq_true_2 in Hno by eauto. done.
Qed.

Lemma reclaim_rows typ key l c :
  <[(typ, key) := l]> (kept_locks (lockDeleteByKey typ key) c)
  = <[(typ, key) := l]> (resource_locks c).
Proof.
  apply map_eq. intros [t k]. destruct (decide ((typ, key) = (t, k))) as [[= <- <-]|Hne].
  - by rewrite !lookup_insert_eq.
  - rewrite !lookup_insert_ne by done. apply option_eq. intros r.
    unfold kept_locks, lockDeleteByKey. rewrite map_lookup_filter_Some. simpl.
    rewrite andb_false_iff, !String.eqb_neq.
    split; [by intros [? _]|]. intros Hr. split; [done|].
    destruct (decide (t = typ)) as [->|]; [right|by left]. intros ->. by apply Hne.
Qed.

Lemma reclaim_key_spec op att epoch w typ key c :
  triple (reclaim_key op att epoch w typ key) (λ _ c', c' = set_locks
    (<[(typ, key) := mkLock att epoch]> (resource_locks c)) c) c.
Proof.
  unfold reclaim_key. tstep (λ r c', (∃ rows, r = inr rows) ∧
    c' = set_locks (kept_locks (lockDeleteByKey typ key) c) c).
  { apply releaseLocks_spec. eauto. }
  intros r c1 [[rows ->] ->]. apply triple_ret_bind.
  eapply triple_bind; [robust|apply acquireLockIfFree_spec|].
  intros [e|[]] c2 H; [done|..]; apply triple_ret_bind, triple_ret.
  - destruct H as (-> & _ & _). simpl. by rewrite reclaim_rows.
  - destruct H as [_ [l Hl]]. simpl in Hl. unfold kept_locks, lockDeleteByKey in Hl.
    rewrite map_lookup_filter_Some in Hl. simpl in Hl.
    by rewrite !String.eqb_refl in Hl; destruct Hl.
Qed.

Lemma acquire_one_spec cx req w t id c :
  owners_exist c → sql_key_conflicts (tl_probe t) (tl_key t) = true →
  triple (acquire_one cx req w t)
    (λ _, lock_taken id (at_attempt req) (at_epoch req) c) c.
Proof.
  intros Hex Hcov. unfold acquire_one.
  tstep (λ r c', c' = c ∧ match r with inl NoRows =>
     select_collision (tl_type t) (tl_probe t) None c = inl NoRows | _ => True end).
  { apply triple_query; [done|]. by intros a _. }
  intros [e|o] c1 [-> Hsel].
  - destruct e; try apply triple_throw.
    eapply triple_bind; [robust|apply acquireLockIfFree_spec|].
    intros [e|[]] c1 H; [done|..].
    + destruct H as (-> & Hnone & _). apply triple_ret. right. eexists.
      split; [done|]. intros l. by rewrite Hnone.
    + destruct H as (-> & _). tstep (λ _ c', c' = c); [by apply triple_query|].
      intros r c1 ->. destruct r as [[]|o]; try apply triple_throw.
      * eapply triple_bind; [robust|apply reclaim_key_spec|].
        intros _ c1 ->. apply triple_ret. right. eexists. split; [done|].
        intros l Hl. by eapply no_collision_not_held.
      * destruct (String.eqb _ _); [apply triple_ret; by left|apply triple_throw].
  - destruct (negb _); [apply triple_throw|apply triple_ret; by left].
Qed.

Record taken_locks (id att : string) (e : Z) (c c' : Core) : Prop := {
  tk_frame : ∃ L, c' = set_locks L c;
  tk_change : locks_change (abs_att <$> run_attempts c) id att e None
                (resource_locks c) (resource_locks c');
}.

Lemma taken_locks_step id att e c c1 c2 :
  taken_locks id att e c c1 → lock_taken id att e c1 c2 → taken_locks id att e c c2.
Proof.
  intros [[L ->] [Hfrom Hfor]] [->|(k & -> & Hk)]; [by split; eauto|]. simpl in *.
  split; [by eexists|]. simpl. split.
  - intros k' l. rewrite lookup_insert_Some. intros [[_ <-]|[_ Hl]]; eauto.
  - intros k' l Hl Hheld. destruct (decide (k = k')) as [<-|Hne].
    + exfalso. by eapply Hk; [apply Hfor|].
    + rewrite lookup_insert_ne by done. eauto.
Qed.

(** What a committed acquisition found and did. *)
Definition acquire_result (c : Core) (cx : Ctx) (wiID : string) (req : AttemptRequest)
  (c' : Core) : Prop :=
  ∃ w a, select_wi wiID c = inr w ∧ wi_status w = WRunning
    ∧ credential_ok c w (at_attempt req) (at_epoch req) (at_secret req) a
    ∧ taken_locks (wi_id w) (at_attempt req) (at_epoch req)
        (heartbeat (cx_now cx) (at_attempt req) c) c'.

Lemma claim_lock_wi_spec wiID c :
  triple (claim_lock_wi wiID) (λ w c', c' = c ∧ select_wi wiID c = inr w) c.
Proof.
  unfold claim_lock_wi. tstep (λ r c', c' = c ∧ ∀ w, r = inr w → select_wi wiID c = inr w).
  - apply triple_query; naive_solver.
  - intros r c1 [-> Hr]. apply triple_or_throw. auto.
Qed.

Lemma acquire_body_spec cx wiID req c :
  Wf c →
  wp (acquire_body cx wiID req) (commits_to (λ _, acquire_result c cx wiID req))
    (VActive c).
Proof.
  intros [Hk HI]. unfold acquire_body.
  eapply wp_bind_triple; [robust|apply claim_lock_wi_spec|]. intros w c1 [-> Hsel].
  destruct (bool_decide_reflect (wi_status w = WRunning)); [|apply commits_throw]. simpl.
  eapply wp_bind_triple; [robust|apply verify_spec|]. intros _ c1 [-> [a Hcred]].
  destruct (decodeDeclaredResources _) as [declared|]; [|apply commits_throw].
  set (c1 := heartbeat _ _ _).
  assert (owners_exist c1) as Hex.
  { intros b rb Hb. assert (a_atts (abs c1) !! b = Some (abs_att rb)) as Hx
      by (apply abs_lookup_att; eauto).
    unfold c1 in Hx. rewrite heartbeat_abs in Hx.
    destruct (inv_owner _ HI _ _ Hx) as (v & Hv & _).
    apply abs_lookup_wi in Hv as (u & Hu & _). eauto. }
  hstep (λ _ c', taken_locks (wi_id w) (at_attempt req) (at_epoch req) c1 c').
  { apply (triple_tmap _ _ (λ _ _ c', taken_locks (wi_id w) (at_attempt req)
                                       (at_epoch req) c1 c')).
    - intros. solve_robust.
    - intros don t todo bs c2 Hts Htk. eapply triple_mono; [apply acquire_one_spec|].
      + destruct Htk as [[L ->] _]. apply Hex.
      + apply (acquire_targets_cover declared (wi_project w)). rewrite Hts. set_solver.
      + intros b c3. by apply taken_locks_step.
    - split; [exists (resource_locks c1); by destruct c1|]. by split; auto. }
  intros took c2 Htk. hstep (λ _ c', c' = c2).
  { unfold acquire_held. tstep (λ _ c', c' = c2); [by apply triple_query|].
    intros r c3 ->. tstep (λ _ c', c' = c2); [by apply triple_or_throw|].
    intros held c3 ->. by apply triple_ret. }
  intros held c3 ->. apply wp_commit_tail. by exists w, a.
Qed.

Lemma acquire_result_refines cx wiID req c c' :
  Wf c → acquire_result c cx wiID req c' → refines c c'.
Proof.
  intros [Hk HI] (w & a & Hsel & _ & [Hcur Ha He _ Hr] & [[L ->] Hch]).
  pose proof (select_wi_Some _ _ _ Hk Hsel) as [Hw _].
  split; [done|]. apply rtc_once.
  unfold abs, heartbeat in *. simpl in *. rewrite abs_alter_att in * by done.
  apply (a_acquire _ (abs_wi <$> work_items c) (abs_att <$> run_attempts c)
           (resource_locks c) L (wi_id w) (abs_wi w) (at_attempt req) (abs_att a)).
  - by rewrite lookup_fmap, Hw.
  - done.
  - by rewrite lookup_fmap, Ha.
  - done.
  - simpl. by rewrite He.
Qed.

Lemma FnAcquireLocks_refines env cx wiID req d :
  Wf (core d) → refines (core d) (core (FnAcquireLocks env cx wiID req d).2).
Proof.
  intros HW. pose proof HW as [Hk _]. unfold FnAcquireLocks.
  eapply runTx_invariant;
    [apply _|apply _|by apply acquire_body_spec|by apply refines_refl|].
  intros resp c'. by apply acquire_result_refines.
Qed.

(** ** Repository pins and the pool check: no transition at all *)

Definition silent (c c' : Core) : Prop := abs c' = abs c ∧ keyed c'.

Lemma silent_refines c c' : silent c c' → refines c c'.
Proof. intros [Ha Hk]. split; [done|]. rewrite Ha. apply rtc_refl. Qed.

Lemma heartbeat_silent now att c : keyed c → silent c (heartbeat now att c).
Proof. intros Hk. split; [apply heartbeat_abs|apply Hk]. Qed.

Definition pins_result (c : Core) (cx : Ctx) (wiID : string) (req : AttemptRequest)
  (pins : gmap string string) (c' : Core) : Prop :=
  ∃ w a, work_items c !! wiID = Some w
    ∧ credential_ok c w (at_attempt req) (at_epoch req) (at_secret req) a
    ∧ c' = (if decide (pins = ∅) then heartbeat (cx_now cx) (at_attempt req) c
            else set_run_attempts (alter (ra_with_pins pins) (at_attempt req))
                   (heartbeat (cx_now cx) (at_attempt req) c)).

Lemma record_pins_spec cx wiID req pins c :
  wp (record_pins_body cx wiID req pins)
    (commits_to (λ _, pins_result c cx wiID req pins)) (VActive c).
Proof.
  unfold record_pins_body.
  hstep (λ r c', c' = c ∧ ∀ w, r = inr w → work_items c !! wiID = Some w).
  { apply triple_query; unfold select_wi_by_id; [naive_solver|].
    destruct (work_items c !! wiID); naive_solver. }
  intros r c1 [-> Hr].
  hstep (λ w c', c' = c ∧ work_items c !! wiID = Some w).
  { apply triple_or_throw. auto. }
  intros w c1 [-> Hw].
  eapply wp_bind_triple; [robust|apply verify_spec|]. intros _ c1 [-> [a Hcred]].
  hstep (λ _ c', pins_result c cx wiID req pins c').
  { destruct (decide (pins = ∅)) as [E|E] eqn:Ed.
    - apply triple_ret. exists w, a. by rewrite Ed.
    - apply triple_exec_throw. intros c' [= <-]. exists w, a. by rewrite Ed. }
  intros [] c1 H1. by apply wp_commit_tail.
Qed.

Lemma FnRecordRepoPins_refines env cx wiID req pins d :
  Wf (core d) → refines (core d) (core (FnRecordRepoPins env cx wiID req pins d).2).
Proof.
  intros [Hk _]. unfold FnRecordRepoPins.
  eapply runTx_invariant; [apply _|apply _|apply record_pins_spec|by apply refines_refl|].
  intros [] c' (w & a & _ & _ & ->). apply silent_refines.
  pose proof (heartbeat_silent (cx_now cx) (at_attempt req) (core d) Hk) as Hs.
  destruct (decide (pins = ∅)); [done|]. split; [|apply Hk].
  unfold abs. simpl. rewrite !abs_alter_att by done. done.
Qed.

#[export] Instance verify_pool_robust cx w req : Robust (verify_pool_body cx w req).
Proof. solve_robust. Qed.

(** This handler may answer success when its COMMIT failed (see
    [verify_pool_body]), so it is not an instance of [CommitsOnOk]. *)
Lemma VerifyAttemptCredentialPool_refines env f cx wiID req d0 d :
  Wf (core d) →
  refines (core d) (core (VerifyAttemptCredentialPool env f cx wiID req d0 d).2).
Proof.
  intros [Hk _]. unfold VerifyAttemptCredentialPool.
  destruct (GetWorkItem _ _ _) as [e|w]; [by apply refines_refl|].
  apply (runTx_preserves_any (verify_pool_body cx w req)); [|by apply refines_refl].
  intros _. destruct (runTx_ideal (verify_pool_body cx w req)
    (commits_to (λ _, silent (core d))) d) as (v & -> & HP).
  { unfold verify_pool_body. eapply wp_bind_triple; [robust|apply verify_spec|].
    intros _ c1 [-> _]. apply wp_bind, wp_commit, wp_ret.
    exact (heartbeat_silent (cx_now cx) (at_attempt req) (core d) Hk). }
  destruct v; simpl; try by apply refines_refl.
  destruct (runTx ideal_env _ d).1; [done|]. by apply silent_refines.
Qed.

(** ** Cancellation *)

Record cancel_result (c : Core) (cx : Ctx) (wi : string) (isReporter : bool)
  (role prole : string) (c' : Core) : Prop := {
  cn_open : ∃ w, work_items c !! wi = Some w
    ∧ cancelGate (wi_status w) isReporter role prole = None
    ∧ work_items c' = <[wi := wi_with_status (cx_now cx) WCancelled w]> (work_items c);
  cn_att : run_attempts c' = (λ a, if String.eqb (ra_wi a) wi && ra_live (ra_status a)
             then ra_with_status (cx_now cx) RCancelled a else a) <$> run_attempts c;
  cn_locks k l : resource_locks c' !! k = Some l ↔
    resource_locks c !! k = Some l
    ∧ ∀ a, run_attempts c !! lk_owner l = Some a → ra_wi a ≠ wi;
  cn_deps : wi_dependencies c' = wi_dependencies c;
}.

Lemma cancel_body_spec cx wi user rep role prole c :
  wp (cancel_body cx wi user rep role prole)
    (commits_to (λ _, cancel_result c cx wi rep role prole)) (VActive c).
Proof.
  unfold cancel_body.
  hstep (λ r c', c' = c ∧ ∀ w, r = inr w → work_items c !! wi = Some w).
  { apply triple_query; unfold select_wi_by_id; [naive_solver|].
    destruct (work_items c !! wi); naive_solver. }
  intros r c1 [-> Hr]. hstep (λ w c', c' = c ∧ work_items c !! wi = Some w).
  { apply triple_or_throw. auto. }
  intros w c1 [-> Hw].
  hstep (λ _ c', c' = c ∧ cancelGate (wi_status w) rep role prole = None).
  { by apply triple_throw_opt. }
  intros _ c1 [-> Hgate].
  hstep (λ r c', r = inr tt ∧ c' = set_work_items
    (<[wi := wi_with_status (cx_now cx) WCancelled w]>) c).
  { apply triple_exec; [done|]. intros c' [= <-]. unfold set_work_items.
    by rewrite (alter_as_insert _ _ _ w). }
  intros r1 c1 [-> ->]. set (c1 := set_work_items _ c).
  set (can := λ a, if String.eqb (ra_wi a) wi && ra_live (ra_status a)
                   then ra_with_status (cx_now cx) RCancelled a else a).
  hstep (λ _ c', c' = c1); [by apply triple_ret|]. intros _ c2 ->.
  hstep (λ r c', r = inr tt ∧ c' = set_run_attempts (fmap can) c1).
  { apply triple_exec; [done|]. by intros c' [= <-]. }
  intros r2 c2 [-> ->]. hstep (λ _ c', c' = set_run_attempts (fmap can) c1);
    [by apply triple_ret|]. intros _ c2 ->. set (c2 := set_run_attempts _ c1).
  hstep (λ r c', (∃ rows, r = inr rows)
    ∧ c' = set_locks (kept_locks (releaseCancelledWILocks wi) c2) c2).
  { apply releaseLocks_spec. eauto. }
  intros r3 c3 [[rows ->] ->].
  hstep (λ _ c', c' = set_locks (kept_locks (releaseCancelledWILocks wi) c2) c2);
    [by apply triple_ret|]. intros _ c3 ->.
  apply wp_commit_tail. split; simpl; [eauto|done| |done].
  intros k l. unfold kept_locks, releaseCancelledWILocks.
  rewrite map_lookup_filter_Some. simpl. rewrite lookup_fmap.
  destruct (run_attempts c !! lk_owner l) as [a|] eqn:Ea; simpl; [|naive_solver].
  assert (ra_wi (can a) = ra_wi a) as ->
    by (unfold can; by destruct (_ && _)).
  rewrite String.eqb_neq. naive_solver.
Qed.

Lemma cancel_result_refines cx wi rep role prole c c' :
  Wf c → cancel_result c cx wi rep role prole c' → refines c c'.
Proof.
  intros [Hk HI] [(w & Hw & Hgate & Hwi) Hatt Hlocks _]. split.
  { intros i v. rewrite Hwi. intros [[<- <-]|[_ Hv]]%lookup_insert_Some; eauto.
    by apply (Hk _ _ Hw). }
  apply rtc_once.
  assert (abs c' = mkA (<[wi := with_wstatus WCancelled (abs_wi w)]> (a_wis (abs c)))
                       (cancel_att wi <$> a_atts (abs c)) (resource_locks c')) as ->.
  { unfold abs. simpl. rewrite Hwi, Hatt, fmap_insert. f_equal.
    rewrite <- !map_fmap_compose. apply map_fmap_ext. intros i a _. simpl.
    unfold cancel_att, aa_live. simpl. by destruct (_ && _). }
  apply (a_cancel _ (a_wis (abs c)) (a_atts (abs c)) (resource_locks c)
           (resource_locks c') wi (abs_wi w)).
  - apply abs_lookup_wi. eauto.
  - simpl. destruct (wi_status w); try done; set_solver.
  - intros k l. rewrite Hlocks. apply and_iff_compat_l. unfold abs. simpl.
    setoid_rewrite lookup_fmap_Some. naive_solver.
Qed.

Lemma CancelWorkItem_refines env f cx key user role roles d0 d :
  Wf (core d) →
  refines (core d) (core (CancelWorkItem env f cx key user role roles d0 d).2).
Proof.
  intros HW. pose proof HW as [Hk _]. unfold CancelWorkItem.
  destruct (GetWorkItem _ _ _) as [e|w0]; [by apply refines_refl|].
  destruct (cancelGate _ _ _ _); [by apply refines_refl|].
  eapply runTx_invariant; [apply _|apply _|apply cancel_body_spec|by apply refines_refl|].
  intros [] c'. by apply cancel_result_refines.
Qed.
