(* ===== verification/WorkflowReads.v ===== *)
(** * What the checks of a workflow request establish

    [reads m c P]: from tables [c] the computation [m] only reads; when it
    answers, its answer satisfies [P].  Each check of [WorkflowStart] and
    [WorkflowRun] is proved against a description in terms of the tables. *)

From stdpp Require Import sorting.
From S2P Require Import Prelude GoStrings Errors Json Crypto Declared Flow Policy.
From S2P Require Import WorkflowTables WorkflowPin Store TxLogic ResourceEvents Attempts Claim.
From S2P Require Import Lifecycle Takeover Edit WorkflowStart WorkflowRun WorkflowRepair.

Open Scope nat_scope.
Open Scope list_scope.

(** ** Read-only computations *)

Definition reads {A} (m : Tx A) (c : Core) (P : A → Prop) : Prop :=
  triple m (λ a c', c' = c ∧ P a) c.

Section reads.
Context {A B : Type}.

Lemma reads_mono (m : Tx A) c (P Q : A → Prop) :
  reads m c P → (∀ a, P a → Q a) → reads m c Q.
Proof. intros H HPQ. eapply triple_mono; [exact H|]. intros a c' [-> ?]. auto. Qed.

Lemma reads_ret (a : A) c (P : A → Prop) : P a → reads (tret a) c P.
Proof. intros. by apply triple_ret. Qed.

Lemma reads_throw e c (P : A → Prop) : reads (tthrow e) c P.
Proof. apply triple_throw. Qed.

Lemma reads_bind (m : Tx A) (k : A → Tx B) c (P : A → Prop) (Q : B → Prop) :
  (∀ a, Robust (k a)) → reads m c P → (∀ a, P a → reads (k a) c Q) →
  reads (tbind m k) c Q.
Proof.
  intros HR Hm Hk. eapply triple_bind; [done|exact Hm|]. intros a c' [-> Ha]. by apply Hk.
Qed.

Lemma reads_query (f : Core → result DbErr A) c : reads (query f) c (λ r, r = f c).
Proof. apply triple_query; by intros. Qed.

Lemma reads_or_throw f (r : result DbErr A) c : reads (or_throw f r) c (λ a, r = inr a).
Proof. apply triple_or_throw. by intros. Qed.

Lemma reads_throw_result (r : result AihubError A) c : reads (throw_result r) c (λ a, r = inr a).
Proof. destruct r; [apply reads_throw|by apply reads_ret]. Qed.

(** A read-only part of a handler. *)
Lemma wp_bind_reads (m : Tx A) (k : A → Tx B) (P : A → Prop) (Q : B → Core → Prop) c :
  (∀ a, Robust (k a)) → reads m c P →
  (∀ a, P a → wp (k a) (commits_to Q) (VActive c)) →
  wp (tbind m k) (commits_to Q) (VActive c).
Proof.
  intros HR Hm Hk. eapply wp_bind_triple; [done|exact Hm|]. intros a c' [-> Ha]. by apply Hk.
Qed.
End reads.

(** [q <- query f ;; a <- or_throw g q ;; k a] *)
Lemma reads_row {A B} (f : Core → result DbErr A) g (k : A → Tx B) c (Q : B → Prop) :
  (∀ a, Robust (k a)) → (∀ a, f c = inr a → reads (k a) c Q) →
  reads (tbind (query f) (λ q, tbind (or_throw g q) k)) c Q.
Proof.
  intros HR Hk. eapply reads_bind; [robust|apply reads_query|]. intros r ->.
  eapply reads_bind; [done|apply reads_or_throw|]. auto.
Qed.

(** A loop of checks establishes what each of them does. *)
Lemma reads_foreach {A} (l : list A) (f : A → Tx unit) c (P : A → Prop) :
  (∀ x, Robust (f x)) → (∀ x, x ∈ l → reads (f x) c (λ _, P x)) →
  reads (tforeach l f) c (λ _, Forall P l).
Proof.
  intros HR. induction l as [|x l IH]; intros Hf; [by apply reads_ret|].
  eapply reads_bind; [robust|apply Hf; left|]. intros [] Hx.
  eapply reads_mono; [apply IH; intros; apply Hf; by right|]. intros [] H. by constructor.
Qed.

(** The next part of a check, resp. of a handler. *)
Tactic Notation "rstep" uconstr(H) := eapply reads_bind; [robust|apply H|].
Tactic Notation "hread" uconstr(H) := eapply wp_bind_reads; [robust|apply H|].

Lemma throw_opt_reads o c : reads (throw_opt o) c (λ _, o = None).
Proof. destruct o; [apply reads_throw|by apply reads_ret]. Qed.

(** A guard, [if !ok { return err }]. *)
Lemma guard_reads (b : bool) e c : reads (if b then tret tt else tthrow e) c (λ _, b = true).
Proof. destruct b; [by apply reads_ret|apply reads_throw]. Qed.

(** ** Work item and actor *)

(** The item a request is about, with its pointer. *)
Definition workflow_item (c : Core) (key : string) (w : WorkItem) (p : option (Flow * Z)) : Prop :=
  select_wi key c = inr w ∧ wf_pointers (workflow c) !! wi_id w = p.

Lemma getWorkflowWI_reads key c :
  reads (getWorkflowWI key) c (λ wp, workflow_item c key wp.1 wp.2).
Proof.
  unfold getWorkflowWI. rstep reads_query. intros r ->.
  eapply reads_mono; [apply reads_or_throw|]. intros [w p]. rewrite rbind_ok.
  by intros (v & Hv & [= -> <-]).
Qed.

Lemma attemptActor_reads att c :
  reads (attemptActor att) c
    (λ p, ∃ a, run_attempts c !! att = Some a ∧ p = (ra_actor a, ra_display a)).
Proof.
  unfold attemptActor. apply reads_row; [robust|]. intros a Ha. apply reads_ret.
  exists a. split; [|done]. unfold select_attempt in Ha. by case_match; simplify_eq.
Qed.

Lemma throw_true {A} (b : bool) e (m : Tx A) c (P : A → Prop) :
  (b = false → reads m c P) → reads (if b then tthrow e else m) c P.
Proof. intros H. destruct b; [apply reads_throw|by apply H]. Qed.

(** ** Repair authorizations *)

(** Some rows answer the roles of the episode, and no loop of overlays. *)
Definition episode_roles (flow : Flow) (grants : gmap string StepGrant)
  (meta : gmap string wiStepMeta) (failed episode : string) (w : WorkflowTables)
  (roles : episodeRoles) : Prop :=
  roles_of flow grants meta failed (episode_rows episode w)
    (loadEpisodeRetryReplacements episode w) = Some roles.

(** The work an authorization asks for is recorded. *)
Definition settled (wi : string) (v : Z) (w : WorkflowTables) (id : string) (r : Repair) : Prop :=
  (rpr_kind r = "retry" ∧ count_bound id InvOpen w = 0 ∧ 0 < count_bound id InvRecorded w)
  ∨ (rpr_kind r = "episode" ∧ ∃ g kr roles,
       wf_generations w !! (wi, v) = Some g
       ∧ List.find (λ kr : string * WfResult, String.eqb (wr_attempt kr.2) (rpr_attempt r))
           (generation_results wi v w) = Some kr
       ∧ wr_verdict kr.2 = ReviewFail
       ∧ stepHasCapability (gn_meta g) (rpr_step r) CapReview = true
       ∧ episode_roles (gn_steps g) (gn_grants g) (gn_meta g) (rpr_step r) id w roles
       ∧ role_set_complete (result_stamp kr) roles = true).

Lemma loadEpisodeRoleRows_reads flow grants meta failed episode c :
  reads (loadEpisodeRoleRows flow grants meta failed episode) c
    (episode_roles flow grants meta failed episode (workflow c)).
Proof.
  unfold loadEpisodeRoleRows. apply reads_row; [robust|]. intros rows [= <-].
  apply reads_row; [robust|]. intros repl [= <-].
  destruct (roles_of _ _ _ _ _ _) eqn:E; [by apply reads_ret|apply reads_throw].
Qed.

Lemma retry_recorded_reads id c :
  reads (retry_recorded id) c (λ b, b = true →
    count_bound id InvOpen (workflow c) = 0 ∧ 0 < count_bound id InvRecorded (workflow c)).
Proof.
  unfold retry_recorded. apply reads_row; [robust|]. intros n [= <-]. apply reads_ret.
  cbn [fst snd]. by intros [->%Nat.eqb_eq ?%Nat.ltb_lt]%andb_true_iff.
Qed.

Lemma select_generation_Some wi v c g :
  select_generation wi v c = inr g ↔ wf_generations (workflow c) !! (wi, v) = Some g.
Proof. unfold select_generation. case_match; naive_solver. Qed.

Lemma episodeRoleSetComplete_reads id wi v r c :
  rpr_kind r = "episode" →
  reads (episodeRoleSetComplete id wi v (rpr_step r) (rpr_attempt r)) c
    (λ b, b = true → settled wi v (workflow c) id r).
Proof.
  intros Hk. unfold episodeRoleSetComplete. apply reads_row; [robust|].
  intros g Hg%select_generation_Some.
  rstep reads_query. intros q ->. unfold select_result_of.
  destruct (List.find _ _) as [kr|] eqn:Hf; [|by apply reads_ret].
  destruct (_ || _) eqn:Ho; [by apply reads_ret|].
  apply orb_false_iff in Ho as [Hv%negb_false_iff Hc%negb_false_iff].
  rstep loadEpisodeRoleRows_reads. intros roles Hr. apply reads_ret. intros Hok. right.
  split; [done|]. exists g, kr, roles. apply String.eqb_eq in Hv. eauto 10.
Qed.

Lemma authorization_done_reads wi v kr c :
  reads (authorization_done wi v kr) c (λ _, settled wi v (workflow c) kr.1 kr.2).
Proof.
  unfold authorization_done. destruct (String.eqb_spec (rpr_kind kr.2) "retry") as [Hk|_].
  { rstep retry_recorded_reads. intros [] H; [|apply reads_throw].
    apply reads_ret. left. split; [done|]. by apply H. }
  destruct (String.eqb_spec (rpr_kind kr.2) "episode") as [Hk|_]; [|apply reads_throw].
  rstep episodeRoleSetComplete_reads; [done|].
  intros [] H; [apply reads_ret; by apply H|apply reads_throw].
Qed.

(** ** Approvals *)

Lemma check_approval_reads wi v step c :
  reads (check_approval wi v step) c (λ _, ∀ d,
    latest_decision wi v step (workflow c) = Some d → d = Some ApprovalGranted).
Proof.
  unfold check_approval. rstep reads_query. intros q ->.
  destruct (latest_decision _ _ _ _) as [[d|]|] eqn:E; [| |by apply reads_ret].
  - destruct (String.eqb_spec d ApprovalGranted) as [->|]; [|apply reads_throw].
    apply reads_ret. by intros d [= <-].
  - apply reads_row; [robust|]. intros. apply reads_throw.
Qed.

(** Every human-gated step other than the two named is approved on exactly the
    artifact of its latest result. *)
Definition approvals_hold (wi : string) (v : Z) (flow : Flow) (wiRHS : bool)
  (target exclude : string) (w : WorkflowTables) : Prop :=
  wiRHS = true → ∀ s d, s ∈ fl_steps flow → gates_start target exclude s = true →
  latest_decision wi v (st_id s) w = Some d → d = Some ApprovalGranted.

Lemma checkWorkflowStartApprovals_reads wi v flow wiRHS target exclude c :
  reads (checkWorkflowStartApprovals wi v flow wiRHS target exclude) c
    (λ _, approvals_hold wi v flow wiRHS target exclude (workflow c)).
Proof.
  unfold checkWorkflowStartApprovals, approvals_hold. destruct wiRHS; [|by apply reads_ret].
  eapply reads_mono.
  { apply (reads_foreach _ _ _ (λ s, ∀ d,
      latest_decision wi v (st_id s) (workflow c) = Some d → d = Some ApprovalGranted));
      [robust|]. intros. apply check_approval_reads. }
  intros [] H _ s d Hs Hg. rewrite Forall_forall in H. apply H.
  by apply list_elem_of_In, filter_In; split; [apply list_elem_of_In|].
Qed.

Lemma targetStepRejectsLatest_reads wi v s c :
  reads (targetStepRejectsLatest wi v s) c (λ b, b = true →
    step_rhs s = true ∧ latest_decision wi v (st_id s) (workflow c) = Some (Some ApprovalDenied)).
Proof.
  unfold targetStepRejectsLatest. destruct (step_rhs s); simpl; [|by apply reads_ret].
  rstep reads_query. intros r ->. apply reads_ret.
  destruct (latest_decision _ _ _ _) as [[d|]|]; try done. intros ->%String.eqb_eq. done.
Qed.

(** ** The order of starts *)

(** What an ordinary start requires of the recorded history. *)
Record in_order (wi : string) (v : Z) (flow : Flow) (s : Step) (index : nat) (wiRHS : bool)
  (w : WorkflowTables) : Prop := {
  (** no result yet, or a human rejected the latest one *)
  io_once : latest_result wi v (st_id s) w = None
    ∨ wiRHS = true ∧ step_rhs s = true
      ∧ latest_decision wi v (st_id s) w = Some (Some ApprovalDenied);
  (** every open authorization of the generation is settled *)
  io_settled id r : wf_repairs w !! id = Some r → rpr_wi r = wi → rpr_version r = v →
    rpr_open r = true → settled wi v w id r;
  (** the steps before are completed, and no failed reviews *)
  io_before p : p ∈ take index (fl_steps flow) → ∃ kr,
    latest_result wi v (st_id p) w = Some kr
    ∧ wr_status kr.2 = StatusCompleted ∧ wr_verdict kr.2 ≠ ReviewFail;
  io_approved : approvals_hold wi v flow wiRHS (st_id s) "" w;
}.

Definition latest_of (wi : string) (v : Z) (w : WorkflowTables) (step : string)
  : option WfResult := snd <$> latest_result wi v step w.

Lemma open_repairs_in wi v w id r :
  wf_repairs w !! id = Some r → rpr_wi r = wi → rpr_version r = v → rpr_open r = true →
  (id, r) ∈ open_repairs wi v w.
Proof.
  intros Hr Hw Hv Ho. unfold open_repairs. rewrite merge_sort_Permutation.
  apply list_elem_of_filter. split; [done|]. by apply elem_of_map_to_list.
Qed.

Lemma open_repairs_out wi v w kr :
  kr ∈ open_repairs wi v w →
  wf_repairs w !! kr.1 = Some kr.2 ∧ rpr_wi kr.2 = wi ∧ rpr_version kr.2 = v
  ∧ rpr_open kr.2 = true.
Proof.
  unfold open_repairs. rewrite merge_sort_Permutation.
  intros ((?&?&?) & Hin)%list_elem_of_filter. destruct kr.
  by apply elem_of_map_to_list in Hin.
Qed.

Lemma start_ordinary_reads wi v flow s index wiRHS c :
  reads (start_ordinary wi v flow s index wiRHS (latest_of wi v (workflow c))) c
    (λ _, in_order wi v flow s index wiRHS (workflow c)).
Proof.
  unfold start_ordinary.
  eapply (reads_bind _ _ _ (λ _, latest_result wi v (st_id s) (workflow c) = None
    ∨ wiRHS = true ∧ step_rhs s = true
      ∧ latest_decision wi v (st_id s) (workflow c) = Some (Some ApprovalDenied)));
    [robust| |].
  { unfold latest_of. destruct (latest_result _ _ _ _) as [kr|]; [|apply reads_ret; by left].
    simpl. eapply (reads_bind _ _ _ (λ b, b = true → wiRHS = true ∧ step_rhs s = true
      ∧ latest_decision wi v (st_id s) (workflow c) = Some (Some ApprovalDenied))); [robust| |].
    - destruct wiRHS; [|by apply reads_ret].
      eapply reads_mono; [apply targetStepRejectsLatest_reads|]. intros b H Hb.
      split; [done|by apply H].
    - intros [] H; [|apply reads_throw]. apply reads_ret. right. by apply H. }
  intros [] Honce. apply reads_row; [robust|]. intros authz [= <-].
  eapply (reads_bind _ _ _ (λ _, Forall (λ kr, settled wi v (workflow c) kr.1 kr.2)
    (open_repairs wi v (workflow c)))); [robust| |].
  { apply reads_foreach; [robust|]. intros. apply authorization_done_reads. }
  intros [] Hset. rstep guard_reads. intros [] Hbefore.
  eapply reads_mono; [apply checkWorkflowStartApprovals_reads|]. intros [] Happ.
  rewrite Forall_forall in Hset. split; [done| |  |done].
  - intros id r Hr Hw Hv Ho. by apply (Hset (id, r)), open_repairs_in.
  - intros p Hp. rewrite forallb_forall in Hbefore.
    specialize (Hbefore p (proj1 (list_elem_of_In _ _) Hp)).
    unfold predecessor_done, latest_of in Hbefore. cbv beta in Hbefore.
    destruct (latest_result wi v (st_id p) _) as [kr|]; simpl in Hbefore; [|done].
    exists kr. split; [done|]. apply andb_true_iff in Hbefore as [H1%String.eqb_eq H2%negb_true_iff%String.eqb_neq].
    done.
Qed.

(** Rows of a role: some, all completed. *)
Definition role_done (rows : list episodeResultRow) : Prop :=
  rows ≠ [] ∧ Forall (λ r, er_status r = StatusCompleted) rows.

Lemma episodeRoleRowsCompleted_true rows :
  episodeRoleRowsCompleted rows = true → role_done rows.
Proof.
  unfold episodeRoleRowsCompleted. intros [Hn Hf]%andb_true_iff.
  apply negb_true_iff, bool_decide_eq_false in Hn. split; [done|].
  rewrite forallb_forall in Hf. apply Forall_forall. intros r Hr.
  apply String.eqb_eq, Hf. by apply list_elem_of_In.
Qed.

(** The order of the roles: repair, then verification, then fresh review. *)
Definition role_ready (flow : Flow) (grants : gmap string StepGrant)
  (meta : gmap string wiStepMeta) (failed target : string) (roles : episodeRoles) : Prop :=
  (target ≠ failed ∧ shared_writer grants target = true ∧ upstream flow failed target = true)
  ∨ role_done (ro_repair roles)
    ∧ ((target ≠ failed ∧ isolated_reader grants target = true
        ∧ stepHasCapability meta target CapVerification = true)
       ∨ role_done (ro_verify roles)).

Lemma checkEpisodeRolePrerequisites_reads flow grants meta failed episode target c :
  reads (checkEpisodeRolePrerequisites flow grants meta failed episode target) c
    (λ _, ∃ roles, episode_roles flow grants meta failed episode (workflow c) roles
          ∧ role_ready flow grants meta failed target roles).
Proof.
  unfold checkEpisodeRolePrerequisites. rstep loadEpisodeRoleRows_reads.
  intros roles Hr. cbv zeta. unfold role_ready.
  destruct (String.eqb_spec target failed) as [Ht|Ht]; cbn [negb andb];
    [|destruct (shared_writer _ _), (upstream _ _ _); cbn [andb]; [apply reads_ret; eauto 10|..];
      (destruct (isolated_reader grants target), (stepHasCapability meta target _);
         cbn [andb]; [destruct (episodeRoleRowsCompleted (ro_repair roles)) eqn:E1;
           [apply reads_ret; eauto 12 using episodeRoleRowsCompleted_true
           |apply reads_throw]|..])].
  all: destruct (episodeRoleRowsCompleted (ro_repair roles)) eqn:E1,
         (episodeRoleRowsCompleted (ro_verify roles)) eqn:E2;
       first [apply reads_throw | apply reads_ret; eauto 12 using episodeRoleRowsCompleted_true].
Qed.

(** What a start under the authorization [id] requires. *)
Record repair_order (wi : string) (v : Z) (flow : Flow) (grants : gmap string StepGrant)
  (meta : gmap string wiStepMeta) (s : Step) (index : nat) (wiRHS : bool) (id : string)
  (r : Repair) (w : WorkflowTables) : Prop := {
  po_row : wf_repairs w !! id = Some r;
  po_open : rpr_open r = true;
  po_wi : rpr_wi r = wi;
  po_version : rpr_version r = v;
  (** the failure it was granted for is still the latest result *)
  po_failed kr : latest_result wi v (rpr_step r) w = Some kr → wr_attempt kr.2 = rpr_attempt r;
  po_has : is_Some (latest_result wi v (rpr_step r) w);
  (** a retry repeats the failed step, once *)
  po_retry : rpr_kind r = "retry" → st_id s = rpr_step r ∧ bound_invocations id w = [];
  (** an episode runs each of its roles once, in order *)
  po_episode : rpr_kind r = "episode" →
    bound_to_step id (st_id s) w = false
    ∧ episode_role flow grants meta s index (rpr_step r) = true
    ∧ ∃ roles, episode_roles flow grants meta (rpr_step r) id w roles
      ∧ role_ready flow grants meta (rpr_step r) (st_id s) roles;
  po_kind : rpr_kind r = "retry" ∨ rpr_kind r = "episode";
  po_approved : approvals_hold wi v flow wiRHS (st_id s) (rpr_step r) w;
}.

Lemma start_under_retry_reads s id r c :
  reads (start_under_retry s id r) c
    (λ _, st_id s = rpr_step r ∧ bound_invocations id (workflow c) = []).
Proof.
  unfold start_under_retry. apply throw_true.
  intros Hs%negb_false_iff%String.eqb_eq. apply reads_row; [robust|]. intros n [= <-].
  apply throw_true. intros Hn%Nat.ltb_ge. apply reads_ret. split; [done|].
  apply nil_length_inv. lia.
Qed.

Lemma start_in_episode_reads flow grants meta s index id r failed c :
  reads (start_in_episode flow grants meta s index id r failed) c (λ _,
    bound_to_step id (st_id s) (workflow c) = false
    ∧ episode_role flow grants meta s index (rpr_step r) = true
    ∧ ∃ roles, episode_roles flow grants meta (rpr_step r) id (workflow c) roles
      ∧ role_ready flow grants meta (rpr_step r) (st_id s) roles).
Proof.
  unfold start_in_episode. apply throw_true. intros _. apply throw_true. intros _.
  apply reads_row; [robust|]. intros b [= <-].
  apply throw_true. intros Hb. apply throw_true. intros Hr%negb_false_iff.
  eapply reads_mono; [apply checkEpisodeRolePrerequisites_reads|]. auto.
Qed.

(** The order a start obeys: that of the flow, or that of an authorization. *)
Definition start_order (wi : string) (v : Z) (flow : Flow) (grants : gmap string StepGrant)
  (meta : gmap string wiStepMeta) (s : Step) (index : nat) (wiRHS : bool) (repairID : string)
  (w : WorkflowTables) : Prop :=
  if String.eqb repairID "" then in_order wi v flow s index wiRHS w
  else ∃ r, repair_order wi v flow grants meta s index wiRHS repairID r w.

Lemma select_own_repair_Some wi id c r :
  select_own_repair wi id c = inr r → wf_repairs (workflow c) !! id = Some r ∧ rpr_wi r = wi.
Proof.
  unfold select_own_repair. rewrite rbind_ok. intros (r' & Hr & H).
  destruct (String.eqb_spec (rpr_wi r') wi); simplify_eq. unfold select_repair in Hr.
  by case_match; simplify_eq.
Qed.

Lemma start_repair_reads wi v flow grants meta s index wiRHS id c :
  reads (start_repair wi v flow grants meta s index wiRHS (latest_of wi v (workflow c)) id) c
    (λ _, ∃ r, repair_order wi v flow grants meta s index wiRHS id r (workflow c)).
Proof.
  unfold start_repair. apply reads_row; [robust|].
  intros r [Hr Hw]%select_own_repair_Some.
  apply throw_true. intros Ho%negb_false_iff. apply throw_true.
  intros Hv%negb_false_iff%Z.eqb_eq. unfold latest_of.
  destruct (latest_result wi v (rpr_step r) _) as [kr|] eqn:El; simpl; [|apply reads_throw].
  apply throw_true. intros Ha%negb_false_iff%String.eqb_eq.
  eapply (reads_bind _ _ _ (λ _,
    (rpr_kind r = "retry" ∧ st_id s = rpr_step r ∧ bound_invocations id (workflow c) = [])
    ∨ (rpr_kind r = "episode" ∧ bound_to_step id (st_id s) (workflow c) = false
       ∧ episode_role flow grants meta s index (rpr_step r) = true
       ∧ ∃ roles, episode_roles flow grants meta (rpr_step r) id (workflow c) roles
         ∧ role_ready flow grants meta (rpr_step r) (st_id s) roles))); [robust| |].
  { destruct (String.eqb_spec (rpr_kind r) "retry").
    { eapply reads_mono; [apply start_under_retry_reads|]. auto. }
    destruct (String.eqb_spec (rpr_kind r) "episode"); [|apply reads_throw].
    eapply reads_mono; [apply start_in_episode_reads|]. auto. }
  intros [] Hk. eapply reads_mono; [apply checkWorkflowStartApprovals_reads|].
  intros [] Happ. exists r. split; try done.
  - intros kr' Hkr. by replace kr' with kr by congruence.
  - intros Hret. destruct Hk as [[_ Hk]|[Hep _]]; [done|congruence].
  - intros Hep. destruct Hk as [[Hret _]|[_ Hk]]; [congruence|done].
  - by destruct Hk as [[]|[]]; [left|right].
Qed.

Lemma checkWorkflowStartOrdering_reads wi v flow grants meta s index wiRHS id c :
  reads (checkWorkflowStartOrdering wi v flow grants meta s index wiRHS id) c
    (λ _, start_order wi v flow grants meta s index wiRHS id (workflow c)).
Proof.
  unfold checkWorkflowStartOrdering, start_order.
  eapply (reads_bind _ _ _ (λ l, l = latest_of wi v (workflow c))); [robust| |].
  { unfold latestWorkflowResults. rstep reads_query. intros r ->.
    eapply reads_mono; [apply reads_or_throw|]. by intros l [= <-]. }
  intros l ->. destruct (String.eqb id ""); cbn [negb].
  - apply start_ordinary_reads.
  - apply start_repair_reads.
Qed.

(** ** Starting *)

Lemma find_key_None {A} (f : string * A → bool) (m : gmap string A) :
  List.find f (map_to_list m) = None → ∀ k x, m !! k = Some x → f (k, x) = false.
Proof.
  intros H k x Hx. apply (find_none _ _ H), list_elem_of_In.
  by apply elem_of_map_to_list.
Qed.

Lemma find_key_Some {A} (f : string * A → bool) (m : gmap string A) kx :
  List.find f (map_to_list m) = Some kx → m !! kx.1 = Some kx.2 ∧ f kx = true.
Proof.
  intros [Hin Hf]%find_some. split; [|done]. destruct kx.
  by apply list_elem_of_In, elem_of_map_to_list in Hin.
Qed.

(** No invocation of the step is open. *)
Definition step_idle (wi : string) (v : Z) (step : string) (w : WorkflowTables) : Prop :=
  ∀ id i, wf_invocations w !! id = Some i → iv_wi i = wi → iv_version i = v →
  iv_step i = step → iv_status i ≠ InvOpen.

Lemma no_open_invocation_reads wi v step c :
  reads (no_open_invocation wi v step) c (λ _, step_idle wi v step (workflow c)).
Proof.
  unfold no_open_invocation. rstep reads_query. intros r ->. unfold open_invocation.
  destruct (List.find _ _) eqn:E; [apply reads_throw|]. apply reads_ret.
  intros id i Hi <- <- <- Ho. pose proof (find_key_None _ _ E id i Hi) as H.
  cbn [snd] in H. by rewrite !String.eqb_refl, Z.eqb_refl, bool_decide_eq_true_2 in H.
Qed.

(** The pinned flow and what revalidating it now gives. *)
Record revalidated (o : Outside) (c : Core) (v : Z) (attempt : string) (rhs : bool)
  (flow : Flow) (grants : gmap string StepGrant) (meta : gmap string wiStepMeta) : Prop := {
  rv_flow : ∃ a v', run_attempts c !! attempt = Some a
    ∧ wf_pointers (workflow c) !! ra_wi a = Some (flow, v');
  rv_pin : ∃ u pin, ou_user o attempt = inr u
    ∧ pinWorkflowGeneration o v u rhs (spec_of_step <$> fl_steps flow) = inr pin
    ∧ pn_grants pin = grants ∧ pn_meta pin = meta;
}.

Lemma revalidate_reads o v attempt rhs c :
  keyed c →
  reads (revalidateWorkflowGeneration o v attempt rhs) c
    (λ g, revalidated o c v attempt rhs g.1.1 g.1.2 g.2).
Proof.
  intros Hk. unfold revalidateWorkflowGeneration. apply reads_row; [robust|].
  intros stored Hs. unfold select_attempt_flow in Hs.
  destruct (run_attempts c !! attempt) as [a|] eqn:Ha; [|done].
  destruct (work_items c !! ra_wi a) as [w|] eqn:Hw; [|done].
  pose proof (Hk _ _ Hw) as Hid. rewrite Hid in Hs.
  destruct (wf_pointers (workflow c) !! ra_wi a) as [[flow v']|] eqn:Hp;
    simplify_eq/=; [|apply reads_throw].
  eapply (reads_bind _ _ _ (λ u, ou_user o attempt = inr u)); [robust| |].
  { unfold userRecordForAttempt. rstep reads_query. intros r ->.
    eapply reads_mono; [apply reads_or_throw|]. intros u. rewrite rbind_ok.
    by intros (? & _ & ?). }
  intros u Hu. rstep reads_throw_result. intros pin Hpin. apply reads_ret.
  split; [by exists a, v'|by exists u, pin].
Qed.
