(* ===== verification/WorkflowSpec.v ===== *)
(** * What the workflow handlers commit

    For each handler that writes: the tables it found and the tables it leaves
    when it commits. *)

From stdpp Require Import sorting.
From S2P Require Import Prelude GoStrings Errors Json Crypto GoJson Declared Flow Policy.
From S2P Require Import WorkflowTables WorkflowPin Store TxLogic LifecycleSpec ResourceEvents Attempts.
From S2P Require Import Claim Lifecycle Takeover Handover Edit WorkflowStart WorkflowRun.
From S2P Require Import WorkflowRepair WorkflowRevise WorkflowReads.

Open Scope nat_scope.
Open Scope list_scope.

(** ** Statements *)

(** Nothing but events (and rows no handler of workflows reads) changed. *)
Record same_state (c c' : Core) : Prop := {
  ss_tables : same_tables c c';
  ss_workflow : workflow c' = workflow c;
}.

#[export] Instance same_state_preorder : PreOrder same_state.
Proof. split; [by split|]. intros ??? [] []. split; [by etransitivity|congruence]. Qed.

Lemma workflow_event_spec wi project user display typ payload c :
  triple (insertWorkflowEvent wi project user display typ payload)
    (λ _ c', same_state c c') c.
Proof. apply triple_exec_throw. by intros c' ->%insert_event_inr. Qed.

(** The row of an attempt whose heartbeat was just written. *)
Lemma heartbeat_lookup now att c a :
  run_attempts c !! att = Some a →
  run_attempts (heartbeat now att c) !! att = Some (ra_with_heartbeat now a).
Proof. intros H. simpl. by rewrite lookup_alter_eq, H. Qed.

(** Only [workflow] differs. *)
Lemma set_workflow_tables f c : same_tables c (set_workflow f c).
Proof. done. Qed.

(** A step of the handler that is followed by events. *)
Lemma attemptActor_triple att c :
  triple (attemptActor att) (λ _ c', c' = c) c.
Proof. eapply triple_mono; [apply attemptActor_reads|]. by intros a c' [-> _]. Qed.

(** ** Starting *)

Record started (o : Outside) (cx : Ctx) (ids : WfIds) (key : string)
  (req : StartWorkflowStepRequest) (c : Core) (w : WorkItem) (a : RunAttempt) (v : Z)
  (flow : Flow) (grants : gmap string StepGrant) (meta : gmap string wiStepMeta) (s : Step)
  (c' : Core) : Prop := {
  sd_item : ∃ f, workflow_item c key w (Some (f, v));
  sd_version : v ≠ 0%Z;
  sd_credential : credential_ok c w (sw_attempt req) (sw_epoch req) (sw_secret req) a;
  sd_running : wi_status w = WRunning;
  sd_valid : revalidated o c v (sw_attempt req) (wi_human w) flow grants meta;
  sd_step : find_step flow (sw_step req) = Some s;
  sd_idle : step_idle (wi_id w) v (st_id s) (workflow c);
  sd_order : start_order (wi_id w) v flow grants meta s
               (workflowStepIndex flow (sw_step req)) (wi_human w) (sw_repair req) (workflow c);
  sd_fresh : wf_invocations (workflow c) !! new_inv ids = None;
  sd_attempt_fresh id i : wf_invocations (workflow c) !! id = Some i → iv_attempt i ≠ new_sa ids;
  sd_generation : is_Some (wf_generations (workflow c) !! (wi_id w, v));
  sd_tables : same_tables (heartbeat (cx_now cx) (sw_attempt req) c) c';
  sd_workflow : workflow c' = set_invocations
    (<[new_inv ids := new_invocation cx ids (wi_id w) v s (grant_of grants (st_id s)) req]>)
    (workflow c);
}.

Definition start_response (ids : WfIds) (w : WorkItem) (v : Z)
  (grants : gmap string StepGrant) (s : Step) : StartWorkflowStepResponse :=
  mkStarted (new_inv ids) v (new_sa ids) (new_producer ids) (grant_of grants (st_id s)) s
    (wi_human w && step_rhs s).

Lemma existsb_key_false {A} (f : string * A → bool) (m : gmap string A) :
  existsb f (map_to_list m) = false → ∀ k x, m !! k = Some x → f (k, x) = false.
Proof.
  intros H k x Hx. destruct (f (k, x)) eqn:E; [|done]. rewrite <- H. symmetry.
  apply existsb_exists. exists (k, x). split; [|done].
  by apply list_elem_of_In, elem_of_map_to_list.
Qed.

Lemma insert_invocation_ok id i c c' :
  insert_invocation id i c = inr c' →
  wf_invocations (workflow c) !! id = None
  ∧ (∀ k j, wf_invocations (workflow c) !! k = Some j → iv_attempt j ≠ iv_attempt i)
  ∧ is_Some (wf_generations (workflow c) !! (iv_wi i, iv_version i))
  ∧ c' = set_workflow (set_invocations (<[id := i]>)) c.
Proof.
  unfold insert_invocation. destruct (_ || _) eqn:E; [done|].
  apply orb_false_iff in E as [E1%bool_decide_eq_false E2].
  destruct (negb _ || _) eqn:E3; [done|]. intros [= <-].
  apply orb_false_iff in E3 as [_ E3%negb_false_iff%bool_decide_eq_true].
  split; [by apply eq_None_not_Some|]. split; [|done].
  intros k j Hj Heq. pose proof (existsb_key_false _ _ E2 k j Hj) as H.
  cbn [snd] in H. by rewrite Heq, String.eqb_refl in H.
Qed.

(** The credential of the current attempt, seen after its heartbeat. *)
Lemma heartbeat_keyed now att c : keyed c → keyed (heartbeat now att c).
Proof. done. Qed.

Lemma revalidated_heartbeat o now att c v attempt rhs flow grants meta :
  revalidated o (heartbeat now att c) v attempt rhs flow grants meta →
  revalidated o c v attempt rhs flow grants meta.
Proof.
  intros [(a & v' & Ha & Hp) Hpin]. split; [|done].
  simpl in Ha. destruct (decide (att = attempt)) as [->|Hne].
  - rewrite lookup_alter_eq, fmap_Some in Ha. destruct Ha as (b & Hb & ->).
    by exists b, v'.
  - rewrite lookup_alter_ne in Ha by done. by exists a, v'.
Qed.

Lemma steps_version_Some p : steps_version p ≠ 0%Z → ∃ f, p = Some (f, steps_version p).
Proof. destruct p as [[f v]|]; [by exists f|done]. Qed.

Lemma start_body_spec o cx ids key req c :
  keyed c →
  wp (start_body o cx ids key req) (commits_to (λ resp c', ∃ w a v flow grants meta s,
    started o cx ids key req c w a v flow grants meta s c'
    ∧ resp = start_response ids w v grants s)) (VActive c).
Proof.
  intros Hk. unfold start_body. hread getWorkflowWI_reads. intros [w p] Hwi. cbn [fst snd] in *.
  eapply wp_bind_triple; [robust|apply verify_spec|]. intros [] c1 [-> [a Hcred]].
  destruct (Z.eqb_spec (steps_version p) 0) as [|Hv]; [apply commits_throw|].
  destruct (steps_version_Some p Hv) as [f Hf]. rewrite Hf in Hwi.
  set (v := steps_version p) in *.
  destruct (bool_decide_reflect (wi_status w = WRunning)) as [Hrun|];
    cbn [negb]; [|apply commits_throw].
  hread revalidate_reads; [by apply heartbeat_keyed|]. intros [[flow grants] meta] Hval.
  cbn [fst snd] in Hval.
  destruct (find_step flow (sw_step req)) as [s|] eqn:Hs; [|apply commits_throw].
  hread no_open_invocation_reads. intros [] Hidle.
  hread checkWorkflowStartOrdering_reads. intros [] Hord.
  hstep (λ r c2, match r with inl _ => True | inr _ =>
    insert_invocation (new_inv ids) (new_invocation cx ids (wi_id w) v s
      (grant_of grants (st_id s)) req) (heartbeat (cx_now cx) (sw_attempt req) c) = inr c2 end).
  { by apply triple_exec. }
  intros [e|[]] c2 H2; [apply wp_bind, wp_throw; done|]. apply wp_bind, wp_ret.
  apply insert_invocation_ok in H2 as (Hfr & Haf & Hg & ->).
  eapply wp_bind_triple; [robust|apply attemptActor_triple|]. intros act c2 ->.
  eapply wp_bind_triple; [robust|apply workflow_event_spec|].
  intros [] c3 [Ht3 Hw3]. apply wp_commit_tail.
  exists w, a, v, flow, grants, meta, s. split; [|done].
  split; try done; [by exists f| |by etransitivity; [apply set_workflow_tables|]].
  by eapply revalidated_heartbeat.
Qed.

(** ** Approving *)

Record approved (cx : Ctx) (ids : WfIds) (key : string) (u : UserRecord) (display : string)
  (req : ApproveWorkflowRequest) (c : Core) (w : WorkItem) (flow : Flow) (s : Step)
  (kr : string * WfResult) (c' : Core) : Prop := {
  ap_item : workflow_item c key w (Some (flow, aq_version req));
  ap_step : find_step flow (aq_step req) = Some s;
  ap_human : wi_human w = true ∧ step_rhs s = true;
  ap_latest : latest_result (wi_id w) (aq_version req) (aq_step req) (workflow c) = Some kr;
  ap_artifact : wr_artifact kr.2 = aq_artifact req;
  ap_undecided : approval_of (wi_id w) (aq_version req) (aq_step req) (aq_artifact req)
                   (workflow c) = None;
  ap_fresh : wf_approvals (workflow c) !! new_approval ids = None;
  ap_tables : same_tables c c';
  ap_workflow : workflow c' = set_approvals
    (<[new_approval ids := mkAppr (wi_id w) (aq_version req) (aq_step req) (aq_artifact req)
         (aq_decision req) (us_id u) display (cx_now cx)]>) (workflow c);
}.

(** The answer of an approval that finds its decision recorded. *)
Definition approval_recorded (key : string) (req : ApproveWorkflowRequest) (c : Core)
  (ka : string * Approval) : Prop :=
  ∃ w p kr, workflow_item c key w p
  ∧ latest_result (wi_id w) (aq_version req) (aq_step req) (workflow c) = Some kr
  ∧ wr_artifact kr.2 = aq_artifact req
  ∧ approval_of (wi_id w) (aq_version req) (aq_step req) (aq_artifact req) (workflow c) = Some ka
  ∧ wa_decision ka.2 = aq_decision req.

Definition approve_post (cx : Ctx) (ids : WfIds) (key : string) (u : UserRecord)
  (display : string) (req : ApproveWorkflowRequest) (c : Core)
  : post (result (string * Approval) unit) := λ r v,
  match r, v with
  | inr (inr _), VCommitted c' => ∃ w flow s kr,
      approved cx ids key u display req c w flow s kr c'
  | inr (inl ka), VActive c' => c' = c ∧ approval_recorded key req c ka
  | inl _, VCommitted _ | inr (inl _), VCommitted _ | inr (inr _), VActive _ => False
  | _, _ => True
  end.

(** A read-only part, whatever is proved of the handler. *)
Lemma wp_reads {A B} (m : Tx A) (k : A → Tx B) (P : A → Prop) (Post : post B) c :
  (∀ a, Robust (k a)) → (∀ e v, (∀ c, v ≠ VCommitted c) → Post (inl e) v) →
  (∀ r, Post r VAborted) → reads m c P →
  (∀ a, P a → wp (k a) Post (VActive c)) → wp (tbind m k) Post (VActive c).
Proof.
  intros HR He Ha Hm Hk. apply wp_bind. eapply wp_mono; [exact Hm|].
  intros [e|a] [c'| |c']; simpl; intros H; try done.
  - by apply He.
  - by destruct H as [-> ?]; apply Hk.
  - by apply (wp_aborted (k a)).
Qed.

Lemma approve_gate_ok w p req :
  approve_gate w p req = inr tt →
  ∃ flow s, p = Some (flow, aq_version req) ∧ find_step flow (aq_step req) = Some s
    ∧ wi_human w = true ∧ step_rhs s = true.
Proof.
  unfold approve_gate. destruct p as [[flow v]|]; [|done].
  destruct (Z.eqb_spec (aq_version req) v) as [<-|]; [|done]. simpl.
  destruct (find_step flow (aq_step req)) as [s|] eqn:Hs; [|done].
  destruct (negb _ || _) eqn:E; [done|]. intros _.
  apply orb_false_iff in E as [?%negb_false_iff ?%negb_false_iff].
  exists flow, s. eauto.
Qed.

Lemma insert_approval_ok id a c c' :
  insert_approval id a c = inr c' →
  wf_approvals (workflow c) !! id = None
  ∧ approval_of (wa_wi a) (wa_version a) (wa_step a) (wa_artifact a) (workflow c) = None
  ∧ c' = set_workflow (set_approvals (<[id := a]>)) c.
Proof.
  unfold insert_approval. destruct (_ || _) eqn:E; [done|].
  apply orb_false_iff in E as [E1%bool_decide_eq_false E2%bool_decide_eq_false].
  destruct (_ || _) eqn:E3; [done|]. intros [= <-].
  by rewrite !eq_None_not_Some.
Qed.

Lemma approve_post_error cx ids key u display req c e v :
  (∀ c', v ≠ VCommitted c') → approve_post cx ids key u display req c (inl e) v.
Proof. destruct v; [done..|]. intros H. by eapply H. Qed.
Lemma approve_post_aborted cx ids key u display req c r :
  approve_post cx ids key u display req c r VAborted.
Proof. by destruct r as [|[]]. Qed.

Ltac approve_read H :=
  eapply wp_reads; [robust|apply approve_post_error|apply approve_post_aborted|apply H|].

Lemma approve_body_spec cx ids key u display req c :
  wp (approve_body cx ids key u display req)
    (approve_post cx ids key u display req c) (VActive c).
Proof.
  unfold approve_body. approve_read getWorkflowWI_reads.
  intros [w p] Hwi. cbn [fst snd] in *.
  approve_read @reads_throw_result.
  intros [] (flow & s & -> & Hs & Hwh & Hsh)%approve_gate_ok.
  approve_read @reads_query. intros q ->.
  destruct (latest_result _ _ _ _) as [kr|] eqn:El; [|by apply wp_throw].
  destruct (bool_decide_reflect (wr_artifact kr.2 = aq_artifact req)) as [Ha|];
    cbn [negb]; [|by apply wp_throw].
  approve_read @reads_query. intros q ->.
  destruct (approval_of _ _ _ _ _) as [ka|] eqn:Eo.
  - destruct (String.eqb_spec (wa_decision ka.2) (aq_decision req)) as [Hd|];
      cbn [negb]; [|by apply wp_throw].
    approve_read @reads_query. intros q Hq.
    approve_read @reads_or_throw. intros a ->. apply wp_ret. split; [done|].
    exists w, (Some (flow, aq_version req)), kr.
    unfold select_approval in Hq. case_match; simplify_eq.
    unfold approval_of in Eo. pose proof (find_key_Some _ _ _ Eo) as [Hk _].
    destruct ka. simpl in *. simplify_eq. eauto 10.
  - apply wp_bind, wp_exec.
    match goal with |- context [insert_approval ?i ?a c] =>
      destruct (insert_approval i a c) as [e|c'] eqn:Ei end.
    { destruct e; apply wp_bind, wp_throw; done. }
    apply insert_approval_ok in Ei as (Hfr & _ & ->). apply wp_bind, wp_ret.
    apply wp_bind. eapply wp_mono; [apply workflow_event_spec|].
    intros [e|[]] [c1| |c1]; try done.
    + intros [Ht Hw]. apply wp_bind, wp_commit, wp_ret.
      exists w, flow, s, kr. split; try done.
      by etransitivity; [apply set_workflow_tables|].
    + intros _. apply wp_aborted; [robust|]. intros r. apply approve_post_aborted.
Qed.

(** ** Authorizing a repair *)

(** The walk from a failed attempt to the root of its retries. *)
Inductive lineage (wi : string) (w : WorkflowTables) (out : retryLineage) (cur : string)
  : retryLineage → Prop :=
  | ln_root id i :
      wf_invocations w !! id = Some i → iv_wi i = wi → iv_attempt i = cur →
      default "" (iv_episode i) = "" → lineage wi w out cur out
  | ln_in_episode id i e r :
      wf_invocations w !! id = Some i → iv_wi i = wi → iv_attempt i = cur →
      iv_episode i = Some e → wf_repairs w !! e = Some r → rpr_wi r = wi →
      rpr_kind r = "episode" → lineage wi w out cur (mkLineage e (ln_depth out))
  | ln_under_retry id i e r res :
      wf_invocations w !! id = Some i → iv_wi i = wi → iv_attempt i = cur →
      iv_episode i = Some e → wf_repairs w !! e = Some r → rpr_wi r = wi →
      rpr_kind r = "retry" →
      lineage wi w (mkLineage (match rpr_parent r with
                               | Some p => if String.eqb p "" then ln_parent out else p
                               | None => ln_parent out end) (S (ln_depth out)))
        (rpr_attempt r) res → lineage wi w out cur res.

Lemma select_binding_Some wi cur c b :
  select_binding wi cur c = inr b →
  ∃ id i, wf_invocations (workflow c) !! id = Some i ∧ iv_wi i = wi ∧ iv_attempt i = cur
    ∧ iv_episode i = b.
Proof.
  unfold select_binding. destruct (List.find _ _) as [ki|] eqn:E; [|done]. intros [= <-].
  apply find_key_Some in E as [H [?%String.eqb_eq ?%String.eqb_eq]%andb_true_iff].
  eauto 10.
Qed.

Lemma lineage_walk_reads wi fuel out cur c :
  reads (lineage_walk wi fuel out cur) c (lineage wi (workflow c) out cur).
Proof.
  revert out cur. induction fuel as [|fuel IH]; intros out cur; [apply reads_throw|].
  simpl. apply reads_row; [robust|]. intros b (id & i & Hi & Hw & Ha & Hb)%select_binding_Some.
  destruct b as [e|]; [|apply reads_ret; by eapply ln_root; [..|rewrite Hb]].
  destruct (String.eqb_spec e "") as [->|He];
    [apply reads_ret; by eapply ln_root; [..|rewrite Hb]|].
  apply reads_row; [robust|]. intros r [Hr Hrw]%select_own_repair_Some.
  destruct (String.eqb_spec (rpr_kind r) "episode") as [Hk|Hk].
  { apply reads_ret. by eapply ln_in_episode. }
  destruct (String.eqb_spec (rpr_kind r) "retry") as [Hk'|Hk']; [|apply reads_throw].
  eapply reads_mono; [apply IH|]. intros res Hres. by eapply ln_under_retry.
Qed.

(** The failure that justifies the kind asked for, and the parent recorded. *)
Definition repair_justified (wi : string) (req : AuthorizeWorkflowRepairRequest)
  (m : wiStepMeta) (failed : WfResult) (parent : string) (w : WorkflowTables) : Prop :=
  (au_kind req = "episode" ∧ wr_verdict failed = ReviewFail ∧ stepMetaIsReview m = true
   ∧ parent = "")
  ∨ (au_kind req ≠ "episode" ∧ wr_status failed = StatusProviderError
     ∧ wr_verdict failed ≠ ReviewFail
     ∧ ∃ ln, lineage wi w (mkLineage "" 0) (au_failed req) ln
       ∧ ln_depth ln < maxRetryChainDepth ∧ parent = ln_parent ln).

Lemma authorize_kind_reads wi req m failed c :
  reads (authorize_kind wi req m failed) c
    (λ parent, repair_justified wi req m failed parent (workflow c)).
Proof.
  unfold authorize_kind, repair_justified.
  destruct (String.eqb_spec (au_kind req) "episode") as [Hk|Hk].
  - apply throw_true. intros Hv%negb_false_iff%String.eqb_eq. apply throw_true.
    intros Hm%negb_false_iff. apply reads_ret. by left.
  - apply throw_true. intros [Hs%negb_false_iff%String.eqb_eq Hv%String.eqb_neq]%orb_false_iff.
    rstep lineage_walk_reads. intros ln Hln. apply throw_true. intros Hd%Nat.leb_gt.
    apply reads_ret. right. eauto 10.
Qed.

Record authorized (cx : Ctx) (ids : WfIds) (key : string) (req : AuthorizeWorkflowRepairRequest)
  (reason : string) (c : Core) (w : WorkItem) (a : RunAttempt) (v : Z)
  (kr : string * WfResult) (parent by_ : string) (c' : Core) : Prop := {
  au_item : ∃ f, workflow_item c key w (Some (f, v));
  au_credential : credential_ok c w (au_attempt req) (au_epoch req) (au_secret req) a;
  au_failure : wf_results (workflow c) !! kr.1 = Some kr.2;
  au_failure_of : wr_wi kr.2 = wi_id w ∧ wr_version kr.2 = v ∧ wr_attempt kr.2 = au_failed req;
  au_justified : ∃ g m, wf_generations (workflow c) !! (wi_id w, v) = Some g
    ∧ gn_meta g !! wr_step kr.2 = Some m
    ∧ repair_justified (wi_id w) req m kr.2 parent (workflow c);
  au_bounded : open_repair_count (wi_id w) (workflow c) < maxOpenRepairAuthorizations;
  au_fresh : wf_repairs (workflow c) !! new_repair ids = None;
  au_once id r : wf_repairs (workflow c) !! id = Some r →
    rpr_kind r = au_kind req → rpr_attempt r ≠ au_failed req;
  au_kinds : au_kind req = "retry" ∨ au_kind req = "episode";
  au_tables : same_tables (heartbeat (cx_now cx) (au_attempt req) c) c';
  au_workflow : workflow c' = set_repairs
    (<[new_repair ids := mkRep (wi_id w) (au_kind req) v (wr_step kr.2) (au_failed req) reason
         (au_attempt req) (au_epoch req) by_ true (cx_now cx) (optional parent)]>) (workflow c);
}.

Lemma insert_repair_ok id r c c' :
  insert_repair id r c = inr c' →
  wf_repairs (workflow c) !! id = None
  ∧ (∀ k q, wf_repairs (workflow c) !! k = Some q → rpr_kind q = rpr_kind r →
       rpr_attempt q ≠ rpr_attempt r)
  ∧ (rpr_kind r = "retry" ∨ rpr_kind r = "episode")
  ∧ c' = set_workflow (set_repairs (<[id := r]>)) c.
Proof.
  unfold insert_repair. destruct (_ || _) eqn:E; [done|].
  apply orb_false_iff in E as [E1%bool_decide_eq_false E2].
  destruct (negb _) eqn:E3; [done|].
  destruct (_ || _) eqn:E4; [done|]. intros [= <-].
  split; [by apply eq_None_not_Some|]. split; [|split; [|done]].
  - intros k q Hq Hk Ha. pose proof (existsb_key_false _ _ E2 k q Hq) as H.
    cbn [snd] in H. by rewrite Hk, Ha, !String.eqb_refl in H.
  - apply orb_false_iff in E4 as [E4 _]. apply orb_false_iff in E4 as [E4 _].
    apply orb_false_iff in E4 as [E4%negb_false_iff%bool_decide_eq_true _].
    rewrite !elem_of_cons, elem_of_nil in E4. naive_solver.
Qed.

Lemma workflowStepMetaFor_reads wi v step c :
  reads (workflowStepMetaFor wi v step) c (λ m, ∃ g,
    wf_generations (workflow c) !! (wi, v) = Some g ∧ gn_meta g !! step = Some m).
Proof.
  unfold workflowStepMetaFor. apply reads_row; [robust|].
  intros g Hg%select_generation_Some.
  destruct (gn_meta g !! step) as [m|] eqn:E; [|apply reads_throw].
  apply reads_ret. by exists g.
Qed.

Lemma select_result_by_attempt_Some wi att c kr :
  select_result_by_attempt wi att c = inr kr →
  wf_results (workflow c) !! kr.1 = Some kr.2 ∧ wr_wi kr.2 = wi ∧ wr_attempt kr.2 = att.
Proof.
  unfold select_result_by_attempt. destruct (List.find _ _) as [x|] eqn:E; [|done].
  intros [= <-].
  by apply find_key_Some in E as [H [?%String.eqb_eq ?%String.eqb_eq]%andb_true_iff].
Qed.

Lemma authorize_body_spec cx ids key req reason c :
  wp (authorize_body cx ids key req reason) (commits_to (λ _ c', ∃ w a v kr parent by_,
    authorized cx ids key req reason c w a v kr parent by_ c')) (VActive c).
Proof.
  unfold authorize_body. hread getWorkflowWI_reads. intros [w p] Hwi. cbn [fst snd] in *.
  eapply wp_bind_triple; [robust|apply verify_spec|]. intros [] c1 [-> [a Hcred]].
  destruct (Z.eqb_spec (steps_version p) 0) as [|Hv]; [apply commits_throw|].
  destruct (steps_version_Some p Hv) as [f Hf]. rewrite Hf in Hwi.
  set (v := steps_version p) in *.
  hread @reads_query. intros q Hq.
  destruct q as [[]|kr]; try apply commits_throw.
  symmetry in Hq. apply select_result_by_attempt_Some in Hq as (Hkr & Hkw & Hka).
  destruct (Z.eqb_spec (wr_version kr.2) v) as [Hkv|]; cbn [negb]; [|apply commits_throw].
  hread workflowStepMetaFor_reads. intros m (g & Hg & Hm).
  hread authorize_kind_reads. intros parent Hj.
  hread @reads_query. intros q ->. hread @reads_or_throw. intros n [= <-].
  destruct (Nat.leb _ _) eqn:Hb; [apply commits_throw|]. apply Nat.leb_gt in Hb.
  hread attemptActor_reads. intros act _.
  apply wp_bind, wp_exec.
  match goal with |- context [insert_repair ?i ?r ?c1] =>
    destruct (insert_repair i r c1) as [e|c2] eqn:Ei end.
  { destruct e; apply wp_bind, wp_throw; done. }
  apply insert_repair_ok in Ei as (Hfr & Honce & Hkind & ->). apply wp_bind, wp_ret.
  eapply wp_bind_triple; [robust|apply workflow_event_spec|].
  intros [] c3 [Ht Hw]. apply wp_commit_tail.
  exists w, a, v, kr, parent, act.1. split; try done;
    [by exists f|by exists g, m|by etransitivity; [apply set_workflow_tables|]].
Qed.

(** ** Reconciling *)

Record superseded (cx : Ctx) (key : string) (req : ReconcileWorkflowInvocationsRequest)
  (c : Core) (w : WorkItem) (a named : RunAttempt) (c' : Core) : Prop := {
  su_item : ∃ p, workflow_item c key w p;
  su_credential : credential_ok c w (ri_attempt req) (ri_epoch req) (ri_secret req) a;
  su_named : run_attempts c !! ri_supersede req = Some named;
  su_owner : ra_wi named = wi_id w;
  su_dead : wi_current w ≠ Some (ri_supersede req) ∧ ra_status named ≠ RRunning;
  su_tables : same_tables (heartbeat (cx_now cx) (ri_attempt req) c) c';
  su_workflow : workflow c' = set_invocations (fmap (λ i,
      if supersedes (wi_id w) (ri_supersede req) i then iv_with_status InvSuperseded i else i))
    (workflow c);
}.

Definition reconcile_response (w : WorkItem) (req : ReconcileWorkflowInvocationsRequest)
  (c : Core) : WorkflowInvocationReconcile :=
  let rows := filter (λ ki : string * Invocation,
      supersedes (wi_id w) (ri_supersede req) ki.2 = true)
    (map_to_list (wf_invocations (workflow c))) in
  mkReconciled (wi_id w) (ri_supersede req) (Z.of_nat (length rows)) rows.*1.

Lemma reconcile_target_ok w named a :
  reconcile_target w named a = inr tt →
  ra_wi a = wi_id w ∧ wi_current w ≠ Some named ∧ ra_status a ≠ RRunning.
Proof.
  unfold reconcile_target. destruct (String.eqb_spec (ra_wi a) (wi_id w)); [|done]. simpl.
  destruct (bool_decide_reflect (wi_current w = Some named)); [done|].
  by destruct (bool_decide_reflect (ra_status a = RRunning)).
Qed.

Lemma reconcile_inv_body_spec cx key req c :
  wp (reconcile_inv_body cx key req) (commits_to (λ resp c', ∃ w a named,
    superseded cx key req c w a named c' ∧ resp = reconcile_response w req c)) (VActive c).
Proof.
  unfold reconcile_inv_body. hread getWorkflowWI_reads. intros [w p] Hwi. cbn [fst snd] in *.
  eapply wp_bind_triple; [robust|apply verify_spec|]. intros [] c1 [-> [a Hcred]].
  destruct (Z.eqb_spec (steps_version p) 0) as [|Hv]; [apply commits_throw|].
  hread @reads_query. intros q ->. hread @reads_or_throw. intros named Hn.
  hread @reads_throw_result. intros [] (Ho & Hc & Hs)%reconcile_target_ok.
  apply wp_bind, wp_stmt. simpl. apply wp_bind, wp_ret.
  hread attemptActor_reads. intros act _.
  set (c1 := set_workflow _ _).
  eapply wp_bind_triple; [robust| |].
  { apply (triple_tforeach _ _ (same_state c1)); [|done].
    intros ki c2 _ H. eapply triple_mono; [apply workflow_event_spec|].
    intros [] c3 ?. by etransitivity. }
  intros [] c2 [Ht Hw]. apply wp_commit_tail.
  assert (∃ n, run_attempts c !! ri_supersede req = Some n ∧ ra_wi n = ra_wi named
    ∧ ra_status n = ra_status named) as (n & Hn1 & Hn2 & Hn3).
  { unfold select_attempt in Hn. simpl in Hn.
    destruct (decide (ri_attempt req = ri_supersede req)) as [E|Hne].
    - rewrite E, lookup_alter_eq in Hn.
      destruct (run_attempts c !! ri_supersede req) as [n|]; simpl in Hn; simplify_eq.
      by exists n.
    - rewrite lookup_alter_ne in Hn by done. exists named. by case_match; simplify_eq. }
  exists w, a, n. split; [|done]. split; try done; [by exists p|congruence|by rewrite Hn3|].
  by etransitivity; [apply set_workflow_tables|].
Qed.

(** ** Revising *)

Definition new_generation (cx : Ctx) (pin : workflowPinOutcome) (rhs : bool) (user : string)
  : Generation :=
  mkGen (pn_flow pin) (pn_grants pin) (pn_meta pin) (pn_digest pin) rhs user (cx_now cx).

Record revised (o : Outside) (cx : Ctx) (key : string) (caller : UserRecord)
  (user role : string) (roles : gmap string string) (rhs : bool)
  (req : UpdateWorkItemWorkflowRequest) (c : Core) (w : WorkItem) (v : Z)
  (pin : workflowPinOutcome) (c' : Core) : Prop := {
  re_item : ∃ p, workflow_item c key w p ∧ steps_version p = v;
  re_gate : updateGate (wi_status_text (wi_status w)) wiTierContract
    (String.eqb (wi_reporter w) user) role
    (match roles !! wi_project w with Some r => r | None => "" end) = None;
  re_legacy s : wi_step_state c !! wi_id w = Some s → (ss_version s <= 0)%Z;
  re_cas : rv_expected req = v;
  re_pinned : pinWorkflowGeneration o (v + 1) caller rhs (rv_steps req) = inr pin;
  re_fresh : wf_generations (workflow c) !! (wi_id w, (v + 1)%Z) = None;
  re_version : (1 <= v + 1)%Z ∧ in_int32 (v + 1) = true;
  re_items : work_items c' = alter (wi_with_workflow rhs) (wi_id w) (work_items c);
  re_attempts : run_attempts c' = run_attempts c;
  re_locks : resource_locks c' = resource_locks c;
  re_deps : wi_dependencies c' = wi_dependencies c;
  re_workflow : workflow c' =
    set_generation (wi_id w) (v + 1) (new_generation cx pin rhs user) (workflow c);
}.

Lemma insert_generation_ok wi v g c c' :
  insert_generation wi v g c = inr c' →
  in_int32 v = true ∧ wf_generations (workflow c) !! (wi, v) = None ∧ (1 <= v)%Z
  ∧ c' = set_workflow (λ w, mkWf (wf_pointers w) (<[(wi, v) := g]> (wf_generations w))
              (wf_invocations w) (wf_results w) (wf_approvals w) (wf_repairs w)) c.
Proof.
  unfold insert_generation. destruct (in_int32 v) eqn:E; [|done]. simpl.
  destruct (bool_decide_reflect (is_Some (wf_generations (workflow c) !! (wi, v)))) as [|Hn];
    [done|].
  destruct (_ || _) eqn:E2; [done|]. intros [= <-].
  apply orb_false_iff in E2 as [?%Z.ltb_ge _]. by rewrite eq_None_not_Some.
Qed.

Lemma revise_body_spec o cx key caller user role roles rhs req c :
  keyed c →
  wp (revise_body o cx key caller user role roles rhs req) (commits_to (λ id c', ∃ w v pin,
    revised o cx key caller user role roles rhs req c w v pin c' ∧ id = wi_id w))
    (VActive c).
Proof.
  intros Hk. unfold revise_body. hread getWorkflowWI_reads. intros [w p] [Hw Hp].
  cbn [fst snd] in *. hread throw_opt_reads. intros [] Hgate.
  hread @reads_query. intros q Hq.
  eapply (wp_bind_reads _ _ (λ n, ∀ s, wi_step_state c !! wi_id w = Some s → n = ss_version s));
    [robust| |].
  { unfold select_step in Hq. destruct (wi_step_state c !! wi_id w); subst q;
      apply reads_ret; [by intros ? [= <-]|done]. }
  intros legacy Hleg. destruct (Z.ltb_spec 0 legacy) as [|Hle]; [apply commits_throw|].
  destruct (Z.eqb_spec (rv_expected req) (steps_version p)) as [Hcas|];
    cbn [negb]; [|apply commits_throw].
  set (v := steps_version p) in *.
  hread @reads_throw_result. intros pin Hpin.
  apply wp_bind, wp_exec.
  match goal with |- context [insert_generation ?i ?n ?g c] =>
    destruct (insert_generation i n g c) as [e|c1] eqn:Ei end.
  { destruct e; apply wp_bind, wp_throw; done. }
  apply insert_generation_ok in Ei as (Hint & Hfr & Hv1 & ->). apply wp_bind, wp_ret.
  apply wp_bind, wp_exec. unfold move_pointer. cbn [work_items set_workflow].
  destruct (select_wi_Some _ _ _ Hk Hw) as [Hrow _].
  rewrite Hrow. apply wp_bind, wp_ret.
  eapply wp_bind_triple; [robust|apply workflow_event_spec|].
  intros [] c2 [[H1 H2 H3 H4] Hwf]. apply wp_commit_tail. exists w, v, pin. split; [|done].
  split; try done; [by exists p|]. intros s Hs. by rewrite <- (Hleg s Hs).
Qed.

(** ** Recording: the artifact *)

(** The artifact of a completed result: a stored, visible output of this very
    item, whose content hashes to the digest claimed and fits the schema. *)
Record artifact_resolved (o : Outside) (w : WorkItem) (flow : option Flow) (attempt : string)
  (r : StepResult) (c : Core) : Prop := {
  ar_row : ∃ u m p, ou_user o attempt = inr u
    ∧ memories c !! af_id (sr_artifact r) = Some m
    ∧ mem_wi m = wi_id w ∧ hasPrefix (mem_type m) "methodology." = true
    ∧ mem_status m ≠ "redacted"
    ∧ memory_visible (us_role u) (us_id u) m = true
    ∧ structured_payload (mem_attrs m) = Some p
    ∧ workflowArtifactDigest p = af_hash (sr_artifact r)
    ∧ artifact_schema o flow (sr_step r) p = inr tt;
  ar_version : af_version (sr_artifact r) = 1%Z;
}.

Lemma artifact_row_error_None wi a m :
  artifact_row_error wi a m = None →
  mem_wi m = wi ∧ hasPrefix (mem_type m) "methodology." = true ∧ mem_status m ≠ "redacted"
  ∧ af_version a = 1%Z.
Proof.
  unfold artifact_row_error. destruct (String.eqb_spec (mem_wi m) wi); [|done]. simpl.
  destruct (hasPrefix _ _); [|done]. simpl.
  destruct (String.eqb_spec (mem_status m) "redacted"); [done|].
  by destruct (Z.eqb_spec (af_version a) 1).
Qed.

Lemma artifact_payload_ok a m p :
  artifact_payload a m = inr p →
  structured_payload (mem_attrs m) = Some p ∧ workflowArtifactDigest p = af_hash a.
Proof.
  unfold artifact_payload. destruct (negb _); [done|].
  destruct (structured_payload _) as [q|]; [|done].
  destruct (String.eqb_spec (workflowArtifactDigest q) (af_hash a)); [|done].
  by intros [= <-].
Qed.

Lemma select_memory_Some id c m :
  select_memory id c = inr m → memories c !! id = Some m.
Proof. unfold select_memory. case_match; naive_solver. Qed.

Lemma resolve_artifact_reads o w flow attempt r c :
  reads (resolveCompletedResultArtifact o w flow attempt r) c
    (λ _, artifact_resolved o w flow attempt r c).
Proof.
  unfold resolveCompletedResultArtifact.
  eapply (reads_bind _ _ _ (λ u, ou_user o attempt = inr u)); [robust| |].
  { unfold userRecordForAttempt. eapply reads_bind; [robust|apply reads_query|]. intros q ->.
    eapply reads_mono; [apply reads_or_throw|]. intros u. rewrite rbind_ok.
    by intros (? & _ & ?). }
  intros u Hu. eapply reads_bind; [robust|apply reads_query|]. intros q Hq.
  destruct q as [[]|m]; try apply reads_throw. symmetry in Hq.
  eapply reads_bind; [robust|apply throw_opt_reads|]. intros [] Herr.
  eapply reads_bind; [robust|apply reads_query|]. intros q2 Hq2.
  destruct q2 as [[]|[]]; try apply reads_throw. symmetry in Hq2.
  apply rbind_ok in Hq2 as (m' & Hm' & Hvis). rewrite Hq in Hm'. injection Hm' as <-.
  destruct (memory_visible _ _ _) eqn:Hv; [|done]. clear Hvis.
  eapply reads_bind; [robust|apply reads_throw_result|]. intros p Hp.
  eapply reads_mono; [apply reads_throw_result|]. intros [] Hs.
  apply artifact_row_error_None in Herr as (H1 & H2 & H3 & H4).
  apply artifact_payload_ok in Hp as [H5 H6]. apply select_memory_Some in Hq.
  split; [|done]. exists u, m, p. eauto 15.
Qed.

(** ** Recording: the pause and the closing of authorizations *)

Record review_paused (cx : Ctx) (w : WorkItem) (attempt : string) (r : StepResult)
  (c c' : Core) : Prop := {
  rp_items : work_items c' = alter (wi_with_status (cx_now cx) WPaused) (wi_id w) (work_items c);
  rp_attempts : run_attempts c' =
    alter (ra_paused_for (cx_now cx) (review_fail_reason r)) attempt (run_attempts c);
  rp_locks : resource_locks c' = kept_locks (acquireLocksReleasePaused attempt) c;
  rp_deps : wi_dependencies c' = wi_dependencies c;
  rp_workflow : workflow c' = workflow c;
}.

Lemma pause_spec cx w attempt r c :
  triple (pauseAttemptForReviewFail cx w attempt r)
    (λ _ c', review_paused cx w attempt r c c') c.
Proof.
  unfold pauseAttemptForReviewFail. cbv zeta.
  apply triple_exec_or_throw; [robust|]. intros c1 [= <-].
  set (c1 := set_run_attempts _ _). tstep (λ q c2,
    (∃ rows, q = inr rows) ∧ c2 = set_locks (kept_locks (acquireLocksReleasePaused attempt) c1) c1).
  { apply releaseLocks_spec. eauto. }
  intros q c2 [[rows ->] ->]. apply triple_ret_bind.
  apply triple_exec_or_throw; [robust|]. intros c3 [= <-].
  eapply triple_mono; [apply workflow_event_spec|]. intros [] c4 [[H1 H2 H3 H4] H5].
  by split.
Qed.

(** The authorization [id] closes when its work is recorded, or nothing happens. *)
Inductive closing (id : string) (w : WorkflowTables) : WorkflowTables → Prop :=
  | closing_none : closing id w w
  | closing_done r :
      wf_repairs w !! id = Some r → rpr_open r = true →
      settled (rpr_wi r) (rpr_version r) w id r →
      closing id w (set_repairs (alter rpr_closed id) w).

Lemma closeRepairEpisode_spec id c :
  triple (closeRepairEpisodeIfComplete id)
    (λ _ c', same_tables c c' ∧ closing id (workflow c) (workflow c')) c.
Proof.
  unfold closeRepairEpisodeIfComplete.
  assert (same_tables c c ∧ closing id (workflow c) (workflow c)) as Hnone
    by (split; [done|constructor]).
  eapply (triple_bind _ _ (λ q c', c' = c ∧ q = select_repair id c)); [robust| |].
  { apply reads_query. }
  intros q c1 [-> ->].
  eapply (triple_bind _ _ (λ r c', c' = c ∧ wf_repairs (workflow c) !! id = Some r));
    [robust| |].
  { apply triple_or_throw. intros r Hr. split; [done|]. unfold select_repair in Hr.
    by case_match; simplify_eq. }
  intros r c1 [-> Hr]. destruct (rpr_open r) eqn:Ho; [|by apply triple_ret]. simpl.
  eapply (triple_bind _ _ (λ b c', c' = c ∧ (b = true →
    settled (rpr_wi r) (rpr_version r) (workflow c) id r))); [robust| |].
  { destruct (String.eqb_spec (rpr_kind r) "retry") as [Hk|_].
    { eapply reads_mono; [apply retry_recorded_reads|]. intros b H Hb. left. auto. }
    destruct (String.eqb_spec (rpr_kind r) "episode") as [Hk|_]; [|apply triple_throw].
    by apply episodeRoleSetComplete_reads. }
  intros [] c1 [-> Hset]; simpl; [|by apply triple_ret].
  apply triple_exec_throw. intros c2 [= <-]. split; [apply set_workflow_tables|].
  apply closing_done with r; auto.
Qed.

(** Up to two authorizations close: the one of the invocation and its parent. *)
Definition closings (w w' : WorkflowTables) : Prop :=
  ∃ e p w1, closing e w w1 ∧ closing p w1 w'.

Lemma closings_refl w : closings w w.
Proof. exists "", "", w. split; constructor. Qed.

Lemma close_bound_spec episode c :
  triple (close_bound episode)
    (λ _ c', same_tables c c' ∧ closings (workflow c) (workflow c')
       ∧ (default "" episode = "" → c' = c)) c.
Proof.
  assert (same_tables c c ∧ closings (workflow c) (workflow c)
    ∧ (default "" episode = "" → c = c)) as Hnone by (split; [done|by split; [apply closings_refl|]]).
  unfold close_bound. destruct episode as [e|]; [|by apply triple_ret].
  destruct (String.eqb_spec e "") as [|Hne]; [by apply triple_ret|].
  eapply triple_bind; [robust|apply closeRepairEpisode_spec|].
  intros [] c1 [Ht1 Hc1]. unfold closeParentEpisodeAfterRetry.
  assert (same_tables c c1 ∧ closings (workflow c) (workflow c1)
    ∧ (default "" (Some e) = "" → c1 = c)) as Hone.
  { split; [done|]. split; [|done]. exists e, "", (workflow c1). split; [done|constructor]. }
  eapply (triple_bind _ _ (λ q c', c' = c1 ∧ q = select_repair e c1)); [robust| |].
  { apply reads_query. }
  intros q c2 [-> ->]. destruct (select_repair e c1) as [[]|r]; try apply triple_throw;
    [by apply triple_ret|].
  destruct (rpr_parent r) as [p|]; [|by apply triple_ret].
  destruct (String.eqb p ""); [by apply triple_ret|].
  eapply triple_mono; [apply closeRepairEpisode_spec|]. intros [] c2 [Ht2 Hc2].
  split; [by etransitivity|]. split; [|done]. exists e, p, (workflow c1). by split.
Qed.

(** ** Recording *)

(** A result that answers the open invocation [inv] of the current attempt. *)
Record answers_invocation (req : RecordWorkflowResultRequest) (r : StepResult) (w : WorkItem)
  (v : Z) (i : Invocation) : Prop := {
  an_wi : iv_wi i = wi_id w ∧ sr_wi r = wi_id w;
  an_version : iv_version i = v ∧ sr_flow_version r = v;
  an_step : iv_step i = sr_step r;
  an_attempt : iv_attempt i = sr_attempt r;
  an_open : iv_status i = InvOpen;
  an_run : iv_run i = rq_attempt req;
  an_epoch : iv_epoch i = rq_epoch req ∧ sr_epoch r = rq_epoch req;
  an_producer : sr_producer r = iv_producer i;
}.

(** The tables of workflows when the result is stored and the invocation closed. *)
Definition result_stored (id : string) (inv : string) (res : WfResult) (w : WorkflowTables)
  : WorkflowTables :=
  set_invocations (alter (iv_with_status InvRecorded) inv) (set_results (<[id := res]>) w).

(** The lifecycle tables: paused after a failed review, otherwise untouched. *)
Definition record_lifecycle (cx : Ctx) (w : WorkItem) (attempt : string) (r : StepResult)
  (c c' : Core) : Prop :=
  if String.eqb (sr_verdict r) ReviewFail then
    ∃ c1, review_paused cx w attempt r c c1 ∧ same_tables c1 c'
  else same_tables c c'.

Record recorded (o : Outside) (cx : Ctx) (ids : WfIds) (key : string)
  (req : RecordWorkflowResultRequest) (r : StepResult) (c : Core) (w : WorkItem)
  (a : RunAttempt) (v : Z) (inv : string) (i : Invocation) (m : wiStepMeta) (c' : Core)
  : Prop := {
  rc_item : ∃ f, workflow_item c key w (Some (f, v))
    ∧ (sr_status r = StatusCompleted → artifact_resolved o w (Some f) (rq_attempt req) r c);
  rc_credential : credential_ok c w (rq_attempt req) (rq_epoch req) (rq_secret req) a;
  rc_invocation : wf_invocations (workflow c) !! inv = Some i;
  rc_answers : answers_invocation req r w v i;
  rc_meta : ∃ g, wf_generations (workflow c) !! (wi_id w, v) = Some g
    ∧ gn_meta g !! sr_step r = Some m;
  rc_shape : validateWorkflowResultShape r m = true;
  rc_fresh : wf_results (workflow c) !! new_result ids = None;
  rc_once k q : wf_results (workflow c) !! k = Some q →
    wr_inv q ≠ inv ∧ wr_attempt q ≠ sr_attempt r;
  rc_lifecycle : record_lifecycle cx w (rq_attempt req) r
    (heartbeat (cx_now cx) (rq_attempt req) c) c';
  rc_workflow : closings
    (result_stored (new_result ids) inv (new_wf_result cx inv (wi_id w) v req r) (workflow c))
    (workflow c');
  rc_unbound : default "" (iv_episode i) = "" → workflow c' =
    result_stored (new_result ids) inv (new_wf_result cx inv (wi_id w) v req r) (workflow c);
}.

Definition record_response (w : WorkItem) (v : Z) (r : StepResult) : WorkflowResultRecorded :=
  mkRecorded (wi_id w) v (sr_step r) (sr_attempt r) (sr_status r) (sr_verdict r)
    (String.eqb (sr_verdict r) ReviewFail).

Lemma result_identity_ok w v r :
  result_identity w v r = inr tt → v ≠ 0%Z ∧ sr_wi r = wi_id w ∧ sr_flow_version r = v.
Proof.
  unfold result_identity. destruct (Z.eqb_spec v 0); [done|].
  destruct (String.eqb_spec (sr_wi r) (wi_id w)); [|done]. simpl.
  by destruct (Z.eqb_spec (sr_flow_version r) v).
Qed.

Lemma invocation_identity_ok i req r :
  invocation_identity i req r = inr tt →
  iv_run i = rq_attempt req ∧ iv_epoch i = rq_epoch req ∧ sr_epoch r = rq_epoch req
  ∧ sr_producer r = iv_producer i.
Proof.
  unfold invocation_identity. destruct (String.eqb_spec (iv_run i) (rq_attempt req)); [|done].
  destruct (Z.eqb_spec (iv_epoch i) (rq_epoch req)); [|done].
  destruct (Z.eqb_spec (sr_epoch r) (rq_epoch req)); [|done]. simpl.
  by destruct (String.eqb_spec (sr_producer r) (iv_producer i)).
Qed.

Lemma loadOpenInvocation_reads wi v step attempt c :
  reads (loadOpenInvocation wi v step attempt) c (λ ki,
    wf_invocations (workflow c) !! ki.1 = Some ki.2 ∧ iv_wi ki.2 = wi ∧ iv_version ki.2 = v
    ∧ iv_attempt ki.2 = attempt ∧ iv_step ki.2 = step ∧ iv_status ki.2 = InvOpen).
Proof.
  unfold loadOpenInvocation. eapply reads_bind; [robust|apply reads_query|]. intros q ->.
  unfold select_invocation. destruct (List.find _ _) as [ki|] eqn:E; [|apply reads_throw].
  apply find_key_Some in E as [Hk [[?%String.eqb_eq ?%Z.eqb_eq]%andb_true_iff
    ?%String.eqb_eq]%andb_true_iff].
  destruct (String.eqb_spec (iv_step ki.2) step); [|apply reads_throw]. simpl.
  destruct (bool_decide_reflect (iv_status ki.2 = InvOpen)); [|apply reads_throw].
  apply reads_ret. auto 10.
Qed.

Lemma insert_result_ok id r c c' :
  insert_result id r c = inr c' →
  wf_results (workflow c) !! id = None
  ∧ (∀ k q, wf_results (workflow c) !! k = Some q →
       wr_inv q ≠ wr_inv r ∧ wr_attempt q ≠ wr_attempt r)
  ∧ c' = set_workflow (set_results (<[id := r]>)) c.
Proof.
  unfold insert_result. destruct (_ || _) eqn:E; [done|].
  apply orb_false_iff in E as [E1%bool_decide_eq_false E2].
  destruct (negb _ || _); [done|]. destruct (negb _ || _); [done|]. intros [= <-].
  split; [by apply eq_None_not_Some|]. split; [|done].
  intros k q Hq. pose proof (existsb_key_false _ _ E2 k q Hq) as H. cbn [snd] in H.
  by apply orb_false_iff in H as [?%String.eqb_neq ?%String.eqb_neq].
Qed.

(** From the insertion of the result on. *)
Lemma record_event_spec w v attempt r c :
  triple (record_event w v attempt r) (λ _ c', same_state c c') c.
Proof.
  unfold record_event. eapply triple_bind; [robust|apply attemptActor_triple|].
  intros a c' ->. apply workflow_event_spec.
Qed.

Lemma record_pause_spec cx w attempt r c :
  triple (if String.eqb (sr_verdict r) ReviewFail
          then pauseAttemptForReviewFail cx w attempt r else tret tt)
    (λ _ c', record_lifecycle cx w attempt r c c' ∧ workflow c' = workflow c) c.
Proof.
  unfold record_lifecycle. destruct (String.eqb _ _); [|by apply triple_ret].
  eapply triple_mono; [apply pause_spec|]. intros [] c' H. split; [|apply H]. by exists c'.
Qed.

(** The pause reads nothing the statements before it wrote. *)
Lemma review_paused_ext cx w attempt r c0 c c' :
  same_tables c0 c → review_paused cx w attempt r c c' →
  ∃ c1, review_paused cx w attempt r c0 c1 ∧ same_tables c1 c'.
Proof.
  intros [H1 H2 H3 H4] [P1 P2 P3 P4 _].
  exists (set_work_items (λ _, work_items c') (set_run_attempts (λ _, run_attempts c')
    (set_locks (resource_locks c') c0))).
  split; [|by split; simpl; congruence]. split; simpl; try congruence.
  rewrite P3. unfold kept_locks. rewrite H3. done.
Qed.

Lemma record_lifecycle_ext cx w attempt r c0 c c' c'' :
  same_tables c0 c → record_lifecycle cx w attempt r c c' → same_tables c' c'' →
  record_lifecycle cx w attempt r c0 c''.
Proof.
  intros H0 H H''. unfold record_lifecycle in *. destruct (String.eqb _ _).
  - destruct H as (c1 & Hp & Hs).
    destruct (review_paused_ext _ _ _ _ _ _ _ H0 Hp) as (c2 & Hp2 & Hs2).
    exists c2. split; [done|]. by do 2 (etransitivity; [done|]).
  - by do 2 (etransitivity; [done|]).
Qed.

Lemma record_body_spec o cx ids key req r c :
  wp (record_body o cx ids key req r) (commits_to (λ resp c', ∃ w a v inv i m,
    recorded o cx ids key req r c w a v inv i m c' ∧ resp = record_response w v r)) (VActive c).
Proof.
  unfold record_body. hread getWorkflowWI_reads. intros [w p] Hwi. cbn [fst snd] in *.
  eapply wp_bind_triple; [robust|apply verify_spec|]. intros [] c1 [-> [a Hcred]].
  set (c1 := heartbeat _ _ _).
  hread @reads_throw_result. intros [] (Hv & Hrw & Hrv)%result_identity_ok.
  destruct (steps_version_Some p Hv) as [f Hf]. rewrite Hf in Hwi.
  set (v := steps_version p) in *.
  hread loadOpenInvocation_reads. intros ki (Hi & Hiw & Hiv & Hia & His & Hio).
  hread @reads_throw_result. intros [] (Hrun & Hep & Hep' & Hprod)%invocation_identity_ok.
  hread workflowStepMetaFor_reads. intros m Hm.
  hread guard_reads. intros [] Hshape.
  eapply (wp_bind_reads _ _ (λ _, sr_status r = StatusCompleted →
    artifact_resolved o w (Some f) (rq_attempt req) r c)); [robust| |].
  { destruct (String.eqb_spec (sr_status r) StatusCompleted); [|by apply reads_ret].
    eapply reads_mono; [apply resolve_artifact_reads|]. intros [] H _. rewrite Hf in H.
    destruct H as [Hrow ?]. by split. }
  intros [] Hart.
  apply wp_bind, wp_exec.
  match goal with |- context [insert_result ?i ?x c1] =>
    destruct (insert_result i x c1) as [e|c2] eqn:Ei end.
  { destruct e; apply wp_bind, wp_throw; done. }
  apply insert_result_ok in Ei as (Hfr & Honce & ->). apply wp_bind, wp_ret.
  apply wp_bind, wp_exec. unfold close_invocation. apply wp_bind, wp_ret.
  set (c2 := set_workflow _ (set_workflow _ c1)).
  eapply wp_bind_triple; [robust|apply record_event_spec|]. intros [] c3 [Ht3 Hw3].
  cbv zeta. eapply wp_bind_triple; [robust|apply record_pause_spec|].
  intros [] c4 [Hl4 Hw4].
  eapply wp_bind_triple; [robust|apply close_bound_spec|]. intros [] c5 (Ht5 & Hc5 & Hn5).
  apply wp_commit_tail. exists w, a, v, ki.1, ki.2, m. split; [|done].
  rewrite Hw4, Hw3 in Hc5.
  split; try done.
  - exists f. by split.
  - eapply (record_lifecycle_ext _ _ _ _ _ c3); [|exact Hl4|done].
    by etransitivity; [|exact Ht3].
  - intros Hd. rewrite (Hn5 Hd), Hw4, Hw3. done.
Qed.
