(* ===== verification/WorkflowLifecycle.v ===== *)
(** * The workflow handlers refine the lifecycle specification

    Starting, approving, authorizing, reconciling and revising take no
    transition of [LifecycleSpec]; recording a failed review takes the one
    that pauses the attempt, and no other result takes any. *)

From S2P Require Import Prelude GoStrings Errors Json Crypto Declared Flow Policy.
From S2P Require Import WorkflowTables WorkflowPin Store TxLogic LifecycleSpec ResourceEvents.
From S2P Require Import Attempts Claim Complete Lifecycle Takeover Handover Edit WorkflowStart.
From S2P Require Import WorkflowRun WorkflowRepair WorkflowRevise WorkflowReads WorkflowSpec.
From stdpp Require Import relations.

Open Scope list_scope.

Lemma same_tables_silent c c' : keyed c → same_tables c c' → silent c c'.
Proof.
  intros Hk [Hw Ha Hl _]. split; [unfold abs; congruence|]. intros i v. rewrite Hw. apply Hk.
Qed.

Lemma heartbeat_tables_silent now att c c' :
  keyed c → same_tables (heartbeat now att c) c' → silent c c'.
Proof.
  intros Hk H. destruct (same_tables_silent (heartbeat now att c) c') as [Ha Hk']; [done..|].
  split; [|done]. by rewrite Ha, heartbeat_abs.
Qed.

(** The item a handler found, in its table. *)
Lemma workflow_item_row c key w p :
  keyed c → workflow_item c key w p → work_items c !! wi_id w = Some w.
Proof. intros Hk [Hs _]. by apply (select_wi_Some key). Qed.

Lemma revised_silent o cx key caller user role roles rhs req c w v pin c' :
  keyed c → revised o cx key caller user role roles rhs req c w v pin c' → silent c c'.
Proof.
  intros Hk [(p & Hwi & _) _ _ _ _ _ _ Hi Ha Hl _ _]. split.
  - unfold abs. rewrite Hi, Ha, Hl. f_equal. apply map_eq. intros i. rewrite !lookup_fmap.
    destruct (decide (wi_id w = i)) as [<-|Hne].
    + rewrite lookup_alter_eq. by destruct (work_items c !! wi_id w).
    + by rewrite lookup_alter_ne.
  - intros i x. rewrite Hi. destruct (decide (wi_id w = i)) as [<-|Hne].
    + rewrite lookup_alter_eq, fmap_Some. intros (y & Hy & ->). exact (Hk _ _ Hy).
    + rewrite lookup_alter_ne by done. apply Hk.
Qed.

(** A review that failed ends the current attempt in a pause. *)
Lemma review_paused_refines cx w att r epoch secret a c c1 c' :
  Wf c → work_items c !! wi_id w = Some w → credential_ok c w att epoch secret a →
  review_paused cx w att r (heartbeat (cx_now cx) att c) c1 → same_tables c1 c' →
  refines c c'.
Proof.
  intros [Hk HI] Hw [Hcur Ha _ _ Hrun] [P1 P2 P3 _ _] [S1 S2 S3 _].
  split.
  { intros i x. rewrite S1, P1. simpl. destruct (decide (wi_id w = i)) as [<-|Hne].
    - rewrite lookup_alter_eq, Hw. simpl. by intros [= <-].
    - rewrite lookup_alter_ne by done. apply Hk. }
  apply rtc_once.
  assert (a_atts (abs c') = <[att := with_astatus RPaused (abs_att a)]> (a_atts (abs c))) as HA.
  { unfold abs. simpl. rewrite S2, P2. simpl.
    rewrite (alter_as_insert _ _ _ (ra_with_heartbeat (cx_now cx) a))
      by (by rewrite lookup_alter_eq, Ha).
    rewrite fmap_insert, abs_alter_att by done. done. }
  assert (a_wis (abs c') = <[wi_id w := with_wstatus WPaused (abs_wi w)]> (a_wis (abs c))) as HW.
  { unfold abs. simpl. rewrite S1, P1. simpl.
    rewrite (alter_as_insert _ _ _ w) by done. by rewrite fmap_insert. }
  replace (abs c') with (mkA (a_wis (abs c')) (a_atts (abs c')) (resource_locks c')) by done.
  rewrite HA, HW.
  apply (a_end _ (a_wis (abs c)) (a_atts (abs c)) (resource_locks c) _ (wi_id w) (abs_wi w)
           att (abs_att a) WPaused RPaused).
  - apply abs_lookup_wi. eauto.
  - done.
  - apply abs_lookup_att. eauto.
  - done.
  - set_solver.
  - intros k l. rewrite S3, P3. simpl.
    assert (kept_locks (acquireLocksReleasePaused att) (heartbeat (cx_now cx) att c)
      = kept_locks (end_sel att OPaused) c) as -> by done.
    rewrite end_sel_kept. naive_solver.
Qed.

Lemma recorded_refines o cx ids key req r c w a v inv i m c' :
  Wf c → recorded o cx ids key req r c w a v inv i m c' → refines c c'.
Proof.
  intros HW [(f & Hwi & _) Hcred _ _ _ _ _ _ Hlife _ _]. pose proof HW as [Hk _].
  unfold record_lifecycle in Hlife. destruct (String.eqb _ _).
  - destruct Hlife as (c1 & Hp & Hs).
    eapply review_paused_refines; eauto using workflow_item_row.
  - by eapply silent_refines, heartbeat_tables_silent.
Qed.

(** ** The handlers *)

(** A commit of one of the six handlers. *)
Inductive workflow_commit (c c' : Core) : Prop :=
  | wc_start o cx ids key req w a v flow grants meta s :
      started o cx ids key req c w a v flow grants meta s c' → workflow_commit c c'
  | wc_record o cx ids key req r w a v inv i m :
      recorded o cx ids key req r c w a v inv i m c' → workflow_commit c c'
  | wc_approve cx ids key u display req w flow s kr :
      approved cx ids key u display req c w flow s kr c' → workflow_commit c c'
  | wc_authorize cx ids key req reason w a v kr parent by_ :
      authorized cx ids key req reason c w a v kr parent by_ c' → workflow_commit c c'
  | wc_supersede cx key req w a named :
      superseded cx key req c w a named c' → workflow_commit c c'
  | wc_revise o cx key caller user role roles rhs req w v pin :
      revised o cx key caller user role roles rhs req c w v pin c' → workflow_commit c c'.

(** Whatever the faults: nothing, or one commit. *)
Definition workflow_outcome (c c' : Core) : Prop := c' = c ∨ workflow_commit c c'.

Lemma workflow_outcome_refines c c' : Wf c → workflow_outcome c c' → refines c c'.
Proof.
  intros HW [->|H]; [by apply refines_refl, HW|]. pose proof HW as [Hk _].
  destruct H as [????????????[]|????????????? H|??????????[]|???????????[]
                |??????[]|????????????? H].
  all: try by eapply silent_refines, heartbeat_tables_silent.
  - by eapply recorded_refines.
  - by apply silent_refines, same_tables_silent.
  - by eapply silent_refines, revised_silent.
Qed.

Section handlers.
Context (o : Outside) (env : Env) (cx : Ctx) (ids : WfIds) (key : string) (d : Db).
Hypothesis Hk : keyed (core d).

(** A transaction whose commits are commits of workflows. *)
Lemma runTx_outcome {A} (m : Tx A) `{!Robust m, !CommitsOnOk m} (Q : A → Core → Prop) :
  wp m (commits_to Q) (VActive (core d)) → (∀ a c, Q a c → workflow_commit (core d) c) →
  workflow_outcome (core d) (core (runTx env m d).2).
Proof.
  intros Hm HQ.
  apply (runTx_invariant m Q (workflow_outcome (core d))); [done|by left|].
  intros a c Ha. right. by eapply HQ.
Qed.

Lemma StartWorkflowStep_outcome req :
  workflow_outcome (core d) (core (StartWorkflowStep o env cx ids key req d).2).
Proof.
  unfold StartWorkflowStep. destruct (String.eqb _ _); [by left|].
  eapply runTx_outcome; [apply _|apply _|by apply start_body_spec|].
  intros resp c' (w & a & v & flow & grants & meta & s & H & _). by eapply wc_start.
Qed.

Lemma RecordWorkflowResult_outcome req :
  workflow_outcome (core d) (core (RecordWorkflowResult o env cx ids key req d).2).
Proof.
  unfold RecordWorkflowResult. destruct (rq_result req) as [r|]; [|by left].
  eapply runTx_outcome; [apply _|apply _|by apply record_body_spec|].
  intros resp c' (w & a & v & inv & i & m & H & _). by eapply wc_record.
Qed.

Lemma approve_tx_outcome u display req :
  workflow_outcome (core d) (core (runTx env (approve_body cx ids key u display req) d).2).
Proof.
  apply (runTx_preserves_any (approve_body cx ids key u display req)); [|by left].
  intros _. destruct (runTx_ideal _ _ d (approve_body_spec cx ids key u display req (core d)))
    as (v & -> & HP).
  destruct v as [c1| |c1]; [by left..|].
  destruct (runTx ideal_env _ d).1 as [|[|]]; try done.
  destruct HP as (w & flow & s & kr & H). right. by eapply wc_approve.
Qed.

Lemma ApproveWorkflowStep_outcome f actor display typ req later :
  workflow_outcome (core d)
    (core (ApproveWorkflowStep env f cx ids key actor display typ req later d).2).
Proof.
  unfold ApproveWorkflowStep. destruct (approve_args _ _ _) as [e|u]; [by left|].
  pose proof (approve_tx_outcome u display req) as H.
  by destruct (runTx env _ d) as [[|[|]] d'].
Qed.

Lemma AuthorizeWorkflowRepair_outcome f req later :
  workflow_outcome (core d) (core (AuthorizeWorkflowRepair env f cx ids key req later d).2).
Proof.
  unfold AuthorizeWorkflowRepair. destruct (authorize_args req) as [e|reason]; [by left|].
  assert (workflow_outcome (core d)
    (core (runTx env (authorize_body cx ids key req reason) d).2)) as H.
  { eapply runTx_outcome; [apply _|apply _|by apply authorize_body_spec|].
    intros [] c' (w & a & v & kr & parent & by_ & H). by eapply wc_authorize. }
  by destruct (runTx env _ d) as [[|] d'].
Qed.

Lemma ReconcileWorkflowInvocations_outcome req :
  workflow_outcome (core d) (core (ReconcileWorkflowInvocations env cx key req d).2).
Proof.
  unfold ReconcileWorkflowInvocations. destruct (String.eqb _ _); [by left|].
  eapply runTx_outcome; [apply _|apply _|by apply reconcile_inv_body_spec|].
  intros resp c' (w & a & named & H & _). by eapply wc_supersede.
Qed.

Lemma UpdateWorkItemWorkflow_outcome caller user role roles req later :
  workflow_outcome (core d)
    (core (UpdateWorkItemWorkflow o env cx key caller user role roles req later d).2).
Proof.
  unfold UpdateWorkItemWorkflow. destruct (rv_rhs req) as [rhs|]; [|by left].
  destruct (bool_decide _); [by left|].
  assert (workflow_outcome (core d)
    (core (runTx env (revise_body o cx key caller user role roles rhs req) d).2)) as H.
  { eapply runTx_outcome; [apply _|apply _|by apply revise_body_spec|].
    intros id c' (w & v & pin & H & _). by eapply wc_revise. }
  by destruct (runTx env _ d) as [[|] d'].
Qed.
End handlers.
