(* ===== verification/CommitSpec.v ===== *)
(** * The commit gate refines the specification

    What the gate of [CommitLocks] answers and leaves in the tables, as a
    function of the tables it found, and the lifecycle transition it makes. *)

From S2P Require Import Prelude GoStrings Errors Json Crypto Declared Locks Store.
From S2P Require Import TxLogic LifecycleSpec ResourceEvents Attempts Claim Complete.
From S2P Require Import Takeover CommitLocks Lifecycle Handover.

Open Scope nat_scope.
Open Scope list_scope.

(** ** The key and the probe of a path *)

Definition path_key (project repo p : string) : string :=
  fileScopeLockKey project repo ("file:" +:+ p).
Definition path_probe (project repo p : string) : lockConflictProbe :=
  fileScopeConflictProbe project repo ("file:" +:+ p).

Lemma file_uri_path p : fileURIToLockKey ("file:" +:+ p) = p.
Proof. reflexivity. Qed.

Lemma derived_commit_item repo project p :
  derivedLockProbe (commit_item repo p) project
  = if blank p then None
    else Some ("file_scope", path_key project repo p, path_probe project repo p).
Proof.
  unfold derivedLockProbe, derivedLock, resourceToLock. simpl Type_. simpl URI.
  rewrite bool_decide_eq_true_2 by set_solver. rewrite file_uri_path.
  by destruct (blank p).
Qed.

Lemma path_key_nonempty project repo p : path_key project repo p ≠ "".
Proof.
  unfold path_key, fileScopeLockKey. destruct (String.eqb _ _); by destruct project.
Qed.

#[export] Instance path_key_inj project repo : Inj (=) (=) (path_key project repo).
Proof.
  intros p q. unfold path_key, fileScopeLockKey. rewrite !file_uri_path.
  destruct (String.eqb _ _); intros H; repeat apply sapp_inj_l in H; exact H.
Qed.

Lemma path_probe_matches project repo p k :
  Matches (path_probe project repo p) k = sql_key_conflicts (path_probe project repo p) k.
Proof. symmetry. apply file_probe_sql_go. Qed.

Lemma path_probe_own project repo p :
  blank p = false → sql_key_conflicts (path_probe project repo p) (path_key project repo p) = true.
Proof.
  intros Hb. apply (derived_probe_covers_key (commit_item repo p) project "file_scope").
  by rewrite derived_commit_item, Hb.
Qed.

(** ** The lock table as coverage and collisions see it *)

Section paths.
Context (project repo att : string).

Abbreviation probe := (path_probe project repo).
Abbreviation key := (path_key project repo).

(** [att] holds a file lock whose key the probe of [p] accepts. *)
Definition protected (c : Core) (p : string) : Prop :=
  ∃ k l, resource_locks c !! ("file_scope", k) = Some l ∧ lk_owner l = att
         ∧ sql_key_conflicts (probe p) k = true.

(** A live attempt other than [att], of an existing item, holds one: [o] is
    what the collision query answers for it. *)
Definition blocked_by (c : Core) (p : string) (o : string * string * string) : Prop :=
  ∃ k l a w, resource_locks c !! ("file_scope", k) = Some l ∧ lk_owner l = o.1.1
    ∧ sql_key_conflicts (probe p) k = true ∧ o.1.1 ≠ att
    ∧ run_attempts c !! o.1.1 = Some a ∧ ra_live (ra_status a) = true
    ∧ work_items c !! ra_wi a = Some w ∧ o.1.2 = ra_display a ∧ o.2 = wi_slug w.

(** The paths a request asks about: the code skips blank ones. *)
Definition asked (ps : list string) (p : string) : Prop := p ∈ ps ∧ blank p = false.

Lemma held_keys_elem c ks k :
  select_held_keys att c = inr ks →
  k ∈ ks ↔ ∃ l, resource_locks c !! ("file_scope", k) = Some l ∧ lk_owner l = att.
Proof.
  intros [= <-]. rewrite list_elem_of_fmap. split.
  - intros ([[t k'] l] & -> & Hin%elem_of_map_to_list).
    apply map_lookup_filter_Some in Hin as [Hl [Ho Ht]]. simpl in *. subst t. eauto.
  - intros (l & Hl & Ho). exists ("file_scope", k, l). split; [done|].
    by apply elem_of_map_to_list, map_lookup_filter_Some.
Qed.

Lemma anyMatches_protected c ks p :
  select_held_keys att c = inr ks → anyMatches (probe p) ks = true ↔ protected c p.
Proof.
  intros Hks. unfold anyMatches, protected. rewrite existsb_exists. split.
  - intros (k & Hk%list_elem_of_In & Hm). rewrite (held_keys_elem _ _ _ Hks) in Hk.
    destruct Hk as (l & Hl & Ho). exists k, l. by rewrite path_probe_matches in Hm.
  - intros (k & l & Hl & Ho & Hs). exists k. rewrite path_probe_matches.
    split; [|done]. apply list_elem_of_In, (held_keys_elem _ _ _ Hks). eauto.
Qed.

#[export] Instance protected_dec c p : Decision (protected c p).
Proof.
  destruct (select_held_keys att c) as [e|ks] eqn:Hks; [done|].
  refine (cast_if (decide (anyMatches (probe p) ks = true)));
    by rewrite <- (anyMatches_protected c ks p Hks).
Defined.

(** ** Splitting covered from missing *)

Record split_of (held ps : list string) (s : SplitState) : Prop := {
  so_seen p : p ∈ sp_seen s ↔ p ∈ ps ∧ p ≠ "";
  so_covered p : p ∈ sp_covered s ↔ asked ps p ∧ anyMatches (probe p) held = true;
  so_missing m : m ∈ sp_missing s → mp_key m = key (mp_path m) ∧ mp_probe m = probe (mp_path m);
  so_paths p : p ∈ mp_path <$> sp_missing s ↔ asked ps p ∧ anyMatches (probe p) held = false;
  so_nodup : NoDup (mp_path <$> sp_missing s);
}.

Lemma asked_snoc ps p q : asked (ps ++ [p]) q ↔ asked ps q ∨ (q = p ∧ blank p = false).
Proof. unfold asked. rewrite elem_of_app, list_elem_of_singleton. naive_solver. Qed.

(** An entry that changes nothing but the set of paths seen. *)
Lemma split_of_skip held ps s p seen :
  split_of held ps s → (p ∈ ps ∨ blank p = true) →
  (∀ q, q ∈ seen ↔ q ∈ ps ++ [p] ∧ q ≠ "") →
  split_of held (ps ++ [p]) (mkSplit seen (sp_covered s) (sp_missing s)).
Proof.
  intros [_ Hc Hm Hp Hn] Hskip Hseen.
  assert (∀ q, asked (ps ++ [p]) q ↔ asked ps q) as Ha.
  { intros q. rewrite asked_snoc. split; [|by left].
    intros [?|[-> Hb]]; [done|]. destruct Hskip as [Hin|]; [by split|congruence]. }
  split; simpl; try done; intros q; by rewrite Ha.
Qed.

Lemma split_one_spec held ps s p :
  split_of held ps s → split_of held (ps ++ [p]) (split_one project repo held s p).
Proof.
  intros Hso. pose proof Hso as [Hs Hc Hm Hp Hn]. unfold split_one.
  destruct (String.eqb p "" || bool_decide (p ∈ sp_seen s)) eqn:Hskip.
  { destruct s as [seen cov miss]. apply (split_of_skip held ps _ p seen Hso).
    - apply orb_true_iff in Hskip as [->%String.eqb_eq|Hin%bool_decide_eq_true];
        [by right|left]. by apply Hs.
    - intros q. simpl in Hs. rewrite Hs, elem_of_app, list_elem_of_singleton.
      apply orb_true_iff in Hskip as [->%String.eqb_eq|[Hin ?]%bool_decide_eq_true%Hs];
        naive_solver. }
  apply orb_false_split in Hskip as [Hne%String.eqb_neq Hout%bool_decide_eq_false].
  assert (p ∉ ps) as Hnew by (rewrite Hs in Hout; tauto).
  assert (∀ q, q ∈ {[p]} ∪ sp_seen s ↔ q ∈ ps ++ [p] ∧ q ≠ "") as Hseen.
  { intros q. rewrite elem_of_union, elem_of_singleton, Hs, elem_of_app,
      list_elem_of_singleton. split; [|tauto]. intros [->|[? ?]]; auto. }
  rewrite derived_commit_item. destruct (blank p) eqn:Hb;
    [by apply split_of_skip; [| right|]|].
  assert (¬ asked ps p) as Hna by (by intros [? _]).
  rewrite (proj2 (String.eqb_neq _ _) (path_key_nonempty project repo p)). simpl.
  destruct (anyMatches (probe p) held) eqn:Ha; split; simpl; try done; try intros q;
    rewrite ?fmap_app; simpl;
    rewrite ?asked_snoc, ?elem_of_app, ?list_elem_of_singleton, ?Hc, ?Hp.
  - split; [intros [?| ->]; tauto|]. intros [[?|[-> ?]] ?]; auto.
  - split; [tauto|]. intros [[?|[-> ?]] ?]; [done|congruence].
  - split; [tauto|]. intros [[?|[-> ?]] ?]; [done|congruence].
  - intros [Hq| ->]; [by apply Hm|done].
  - split; [intros [?| ->]; tauto|]. intros [[?|[-> ?]] ?]; auto.
  - apply NoDup_app. split; [done|]. split; [|apply NoDup_singleton].
    intros x Hx ->%list_elem_of_singleton. by apply Hp in Hx as [? _].
Qed.

Lemma split_paths_spec held ps : split_of held ps (split_paths project repo held ps).
Proof.
  induction ps as [|p ps IH] using rev_ind.
  - unfold split_paths. split; simpl; unfold asked; [set_solver..|apply NoDup_nil_2].
  - unfold split_paths. rewrite fold_left_app. by apply split_one_spec.
Qed.

(** ** Phase 1 *)

Definition probe_outcome (c : Core) (m : missingPath) : ProbeOutcome :=
  match select_collision "file_scope" (mp_probe m) None c with
  | inr o => if String.eqb o.1.1 att then PathOurs else PathConflict (conflict_at m o)
  | inl _ => PathFree
  end.

Lemma probe_missing_total c m (Post : post ProbeOutcome) :
  Post (inr (probe_outcome c m)) (VActive c) → wp (probe_missing att m) Post (VActive c).
Proof.
  intros HP. apply wp_bind, wp_query. unfold probe_outcome, select_collision in *.
  destruct (List.find _ _) as [[]|]; by apply wp_ret.
Qed.

Lemma collides_file c p k l :
  collides c "file_scope" (probe p) None (("file_scope", k), l) = true ↔
  sql_key_conflicts (probe p) k = true ∧ ∃ a w, run_attempts c !! lk_owner l = Some a
    ∧ ra_live (ra_status a) = true ∧ work_items c !! ra_wi a = Some w.
Proof.
  unfold collides. simpl. rewrite andb_true_iff.
  destruct (run_attempts c !! lk_owner l) as [a|]; [|naive_solver].
  rewrite andb_true_r, andb_true_iff, bool_decide_eq_true. unfold is_Some. naive_solver.
Qed.

(** What a probe answers: somebody's lock conflicts, or no live lock does. *)
Lemma select_collision_file c p :
  match select_collision "file_scope" (probe p) None c with
  | inr o => if String.eqb o.1.1 att then protected c p else blocked_by c p o
  | inl e => e = NoRows ∧ ∀ k l a w, resource_locks c !! ("file_scope", k) = Some l →
      sql_key_conflicts (probe p) k = true → run_attempts c !! lk_owner l = Some a →
      ra_live (ra_status a) = true → work_items c !! ra_wi a = Some w → False
  end.
Proof.
  unfold select_collision. destruct (List.find _ _) as [[[t k] l]|] eqn:E.
  - apply find_some in E as [Hin Hc]. apply list_elem_of_In, elem_of_map_to_list in Hin.
    assert (t = "file_scope") as ->.
    { unfold collides in Hc. simpl in Hc. reflect_bools. done. }
    apply collides_file in Hc as (Hs & a & w & Ha & Hlive & Hw). simpl.
    destruct (String.eqb_spec (lk_owner l) att); [by exists k, l|].
    exists k, l, a, w. unfold attempt_wi. simpl. rewrite Ha, Hw. auto 10.
  - split; [done|]. intros k l a w Hl Hs Ha Hlive Hw.
    assert (collides c "file_scope" (probe p) None (("file_scope", k), l) = false) as Hno
      by (apply (find_none _ _ E), list_elem_of_In, elem_of_map_to_list, Hl).
    enough (collides c "file_scope" (probe p) None (("file_scope", k), l) = true) by congruence.
    apply collides_file. eauto 10.
Qed.

(** The missing paths of a split, as the probes see them. *)
Definition missing_of (c : Core) (m : missingPath) : Prop :=
  mp_key m = key (mp_path m) ∧ mp_probe m = probe (mp_path m)
  ∧ blank (mp_path m) = false ∧ ¬ protected c (mp_path m).

(** A path that is not covered is never ours: the case the code calls
    unreachable is. *)
Lemma probe_outcome_missing c m :
  missing_of c m →
  match probe_outcome c m with
  | PathOurs => False
  | PathConflict cf => ∃ o, cf = conflict_at m o ∧ blocked_by c (mp_path m) o
  | PathFree => ∀ o, ¬ blocked_by c (mp_path m) o
  end.
Proof.
  intros (_ & Hp & _ & Hno). unfold probe_outcome. rewrite Hp.
  pose proof (select_collision_file c (mp_path m)) as H.
  destruct (select_collision _ _ _ _) as [e|o].
  - intros o (k & l & a & w & Hl & Ho & Hs & _ & Ha & Hlive & Hw & _).
    rewrite <- Ho in Ha. destruct H as [_ H]. by eapply H.
  - destruct (String.eqb o.1.1 att); [done|eauto].
Qed.

Definition conflicts (c : Core) (ms : list missingPath) : list commitLockConflict :=
  conflicts_of (zip ms (probe_outcome c <$> ms)).

Lemma conflicts_elem c ms cf :
  cf ∈ conflicts c ms ↔ ∃ m, m ∈ ms ∧ probe_outcome c m = PathConflict cf.
Proof.
  unfold conflicts, conflicts_of. rewrite list_elem_of_omap.
  induction ms as [|m ms IH]; simpl; [set_solver|].
  setoid_rewrite elem_of_cons. split.
  - intros ([m' o] & [[= -> ->]|Hin] & Ho).
    + exists m. simpl in Ho. by destruct (probe_outcome c m); simplify_eq; auto.
    + destruct (proj1 IH) as (x & ? & ?); eauto.
  - intros (m' & [->|Hin] & Ho).
    + exists (m, probe_outcome c m). simpl. rewrite Ho. auto.
    + destruct (proj2 IH) as (x & ? & ?); eauto.
Qed.

(** No conflict: every outcome is free. *)
Lemma no_conflicts c ms :
  Forall (missing_of c) ms → conflicts c ms = [] →
  ours_of (zip ms (probe_outcome c <$> ms)) = []
  ∧ free_of (zip ms (probe_outcome c <$> ms)) = ms
  ∧ Forall (λ m, probe_outcome c m = PathFree) ms.
Proof.
  unfold conflicts, ours_of, free_of. induction 1 as [|m ms Hm _ IH]; [done|]. simpl.
  pose proof (probe_outcome_missing c m Hm) as Ho.
  destruct (probe_outcome c m) eqn:E; simpl; [done..|]. intros Hnil.
  destruct (IH Hnil) as (E1 & E2 & ?). split; [exact E1|]. split; [|by constructor].
  f_equal. exact E2.
Qed.

(** ** Phase 2 *)

(** The table with some file locks of [att] added. *)
Definition put_locks (epoch : Z) (ks : list string) (L : gmap (string * string) LockRow)
  : gmap (string * string) LockRow :=
  fold_left (λ L k, <[("file_scope", k) := mkLock att epoch]> L) ks L.

Lemma put_locks_lookup epoch ks L k l :
  put_locks epoch ks L !! k = Some l ↔
  (k.1 = "file_scope" ∧ k.2 ∈ ks ∧ l = mkLock att epoch)
  ∨ (¬ (k.1 = "file_scope" ∧ k.2 ∈ ks) ∧ L !! k = Some l).
Proof.
  revert L. induction ks as [|x ks IH]; intros L; simpl; [set_solver|].
  rewrite IH, lookup_insert_Some, elem_of_cons. destruct k as [t k]; simpl.
  destruct (decide (t = "file_scope" ∧ k = x)) as [[-> ->]|Hne].
  - destruct (decide (x ∈ ks)); naive_solver.
  - naive_solver.
Qed.

Lemma take_path_total cx req w m (Post : post bool) c :
  is_Some (run_attempts c !! rc_attempt req) →
  resource_locks c !! ("file_scope", mp_key m) = None →
  Post (inr true) (VActive (set_locks
    (<[("file_scope", mp_key m) := mkLock (rc_attempt req) (rc_epoch req)]>
       (resource_locks c)) c)) →
  wp (take_path cx req w m) Post (VActive c).
Proof.
  intros Ha Hk HP. apply wp_bind, acquireLockIfFree_total; [done..|]. by apply wp_ret.
Qed.

Lemma tmap_take_total cx req w ms (Post : post (list bool)) c :
  rc_attempt req = att →
  is_Some (run_attempts c !! att) → NoDup (mp_key <$> ms) →
  Forall (λ m, resource_locks c !! ("file_scope", mp_key m) = None) ms →
  Post (inr (replicate (length ms) true)) (VActive (set_locks
    (put_locks (rc_epoch req) (mp_key <$> ms) (resource_locks c)) c)) →
  wp (tmap (take_path cx req w) ms) Post (VActive c).
Proof.
  intros Hatt. revert Post c. induction ms as [|m ms IH]; intros Post c Ha Hnd Hfree HP.
  { apply wp_ret. by destruct c. }
  apply Forall_cons in Hfree as [Hm Hfree]. apply NoDup_cons in Hnd as [Hni Hnd].
  simpl. rewrite <- Hatt in Ha. apply wp_bind, take_path_total; [done..|].
  rewrite Hatt in *. apply wp_bind, IH; [done|done| |].
  - rewrite Forall_forall in Hfree |- *. intros x Hx. simpl.
    rewrite lookup_insert_ne; [by apply Hfree|]. intros [= E]. apply Hni. rewrite E.
    by apply list_elem_of_fmap_2.
  - by apply wp_ret.
Qed.

Lemma taken_all ms :
  taken_of (zip ms (replicate (length ms) true)) = ms
  ∧ raced_of (zip ms (replicate (length ms) true)) = [].
Proof.
  unfold taken_of, raced_of. induction ms as [|m ms [E1 E2]]; [done|]. simpl.
  split; [f_equal; exact E1|exact E2].
Qed.

(** The two phases together: the conflicts, or the missing locks taken. *)
Lemma reconcile_take_total cx req w s (Post : post ReconcileCommitLocksResponse) c :
  rc_attempt req = att → is_Some (run_attempts c !! att) →
  Forall (missing_of c) (sp_missing s) → NoDup (mp_key <$> sp_missing s) →
  (∀ m, m ∈ sp_missing s → probe_outcome c m = PathFree →
     resource_locks c !! ("file_scope", mp_key m) = None) →
  match conflicts c (sp_missing s) with
  | first :: rest =>
      Post (inl (commitLockConflictErr first rest (rc_merge req))) (VActive c)
  | [] =>
      Post (inr (mkReconciled (size (sp_seen s)) (sp_covered s) (length (sp_missing s))
                   (mp_path <$> sp_missing s) (commit_lock_row req <$> sp_missing s)))
        (VCommitted (set_locks (put_locks (rc_epoch req) (mp_key <$> sp_missing s)
                                  (resource_locks c)) c))
  end →
  wp (reconcile_take cx req w s) Post (VActive c).
Proof.
  intros Hatt Ha Hms Hnd Hfree HP. unfold reconcile_take.
  apply wp_bind, (wp_tmap_pure _ (probe_outcome c)).
  { intros m Q HQ. rewrite Hatt. by apply probe_missing_total. }
  unfold conflicts in HP. destruct (conflicts_of _) as [|first rest] eqn:Ec;
    [|by apply wp_throw].
  destruct (no_conflicts c (sp_missing s) Hms Ec) as (-> & -> & Hall).
  apply wp_bind, tmap_take_total; [done..| |].
  - rewrite Forall_forall in Hall |- *. auto.
  - destruct (taken_all (sp_missing s)) as [-> ->]. simpl. rewrite app_nil_r.
    by apply wp_bind, wp_commit, wp_ret.
Qed.
End paths.

(** ** The gate as a function of the tables *)

Definition held_keys (att : string) (c : Core) : list string :=
  match select_held_keys att c with inr ks => ks | inl _ => [] end.

Definition gate_split (c : Core) (w : WorkItem) (req : ReconcileCommitLocksRequest)
  : SplitState :=
  split_paths (wi_project w) (rc_repo req) (held_keys (rc_attempt req) c) (rc_paths req).

Definition gate_answer (c : Core) (w : WorkItem) (req : ReconcileCommitLocksRequest)
  : result AihubError (ReconcileCommitLocksResponse * Core) :=
  let s := gate_split c w req in
  let ms := sp_missing s in
  match conflicts (rc_attempt req) c ms with
  | first :: rest => inl (commitLockConflictErr first rest (rc_merge req))
  | [] =>
      inr (mkReconciled (size (sp_seen s)) (sp_covered s) (length ms)
             (mp_path <$> ms) (commit_lock_row req <$> ms),
           set_locks (put_locks (rc_attempt req) (rc_epoch req) (mp_key <$> ms)
                        (resource_locks c)) c)
  end.

(** Every lock has a live owner whose item exists. *)
Lemma lock_has_owner c k l :
  Wf c → resource_locks c !! k = Some l →
  ∃ a w, run_attempts c !! lk_owner l = Some a ∧ ra_live (ra_status a) = true
         ∧ work_items c !! ra_wi a = Some w.
Proof.
  intros [_ HI] Hl. destruct (inv_locks _ HI _ _ Hl) as (x & Hx & Hlive & _).
  destruct (inv_owner _ HI _ _ Hx) as (v & Hv & _).
  apply abs_lookup_att in Hx as (a & Ha & ->). apply abs_lookup_wi in Hv as (w & Hw & _).
  by exists a, w.
Qed.

Section gate.
Context (c : Core) (w : WorkItem) (req : ReconcileCommitLocksRequest).
Context (Hwf : Wf c).

Abbreviation att := (rc_attempt req).
Abbreviation project := (wi_project w).
Abbreviation repo := (rc_repo req).
Abbreviation gs := (gate_split c w req).

Lemma gate_split_of : split_of project repo (held_keys att c) (rc_paths req) gs.
Proof. apply split_paths_spec. Qed.

Lemma gate_covered p :
  p ∈ sp_covered gs ↔ asked (rc_paths req) p ∧ protected project repo att c p.
Proof.
  rewrite (so_covered _ _ _ _ _ gate_split_of). by rewrite anyMatches_protected.
Qed.

Lemma gate_missing_path p :
  p ∈ mp_path <$> sp_missing gs ↔
  asked (rc_paths req) p ∧ ¬ protected project repo att c p.
Proof.
  rewrite (so_paths _ _ _ _ _ gate_split_of), <- not_true_iff_false.
  by rewrite anyMatches_protected.
Qed.

Lemma gate_missing m : m ∈ sp_missing gs → missing_of project repo att c m.
Proof.
  intros Hm. destruct (so_missing _ _ _ _ _ gate_split_of _ Hm).
  destruct (proj1 (gate_missing_path (mp_path m))) as [[_ ?] ?];
    [by apply list_elem_of_fmap_2|]. done.
Qed.

Lemma gate_keys : mp_key <$> sp_missing gs = path_key project repo <$> (mp_path <$> sp_missing gs).
Proof.
  rewrite <- list_fmap_compose. apply list_fmap_ext. intros i m Hm.
  apply list_elem_of_lookup_2 in Hm. by destruct (gate_missing m Hm).
Qed.

(** A path nobody live protects has no row under its key. *)
Lemma gate_free m :
  m ∈ sp_missing gs → probe_outcome att c m = PathFree →
  resource_locks c !! ("file_scope", mp_key m) = None.
Proof.
  intros Hm Hfree. pose proof (gate_missing m Hm) as Hmo.
  pose proof (probe_outcome_missing _ _ _ _ _ Hmo) as Hno. rewrite Hfree in Hno.
  destruct Hmo as (Hk & _ & Hb & Hp).
  destruct (resource_locks c !! _) as [l|] eqn:Hl; [|done]. exfalso.
  destruct (lock_has_owner _ _ _ Hwf Hl) as (a & v & Ha & Hlive & Hv).
  assert (sql_key_conflicts (path_probe project repo (mp_path m)) (mp_key m) = true) as Hs
    by (rewrite Hk; by apply path_probe_own).
  destruct (decide (lk_owner l = att)) as [Ho|Ho].
  - apply Hp. by exists (mp_key m), l.
  - apply (Hno (lk_owner l, ra_display a, wi_slug v)).
    by exists (mp_key m), l, a, v.
Qed.

Lemma gate_total cx (Post : post ReconcileCommitLocksResponse) :
  is_Some (run_attempts c !! att) →
  match gate_answer c w req with
  | inl e => Post (inl e) (VActive c)
  | inr (resp, c') => Post (inr resp) (VCommitted c')
  end →
  wp (reconcile_gate cx req w) Post (VActive c).
Proof.
  intros Ha HP. apply wp_bind. apply wp_bind, wp_query. simpl. apply wp_ret.
  change (split_paths _ _ _ _) with gs. unfold gate_answer in HP. destruct (sp_missing gs) eqn:Hnil.
  - simpl in HP. destruct c. by apply wp_bind, wp_commit, wp_ret.
  - rewrite <- Hnil in HP. apply (reconcile_take_total project repo att); try done.
    + apply Forall_forall. apply gate_missing.
    + rewrite gate_keys. apply (NoDup_fmap_2 _), gate_split_of.
    + apply gate_free.
    + destruct (conflicts _ _ _); exact HP.
Qed.
End gate.

(** ** The whole handler *)

Lemma verify_total cx w att epoch secret a (Post : post unit) c :
  credential_ok c w att epoch secret a →
  Post (inr tt) (VActive (heartbeat (cx_now cx) att c)) →
  wp (verifyAttemptCredential cx w att epoch secret) Post (VActive c).
Proof.
  intros [Hcur Ha He Hs Hr] HP. unfold verifyAttemptCredential.
  rewrite bool_decide_eq_true_2 by done. simpl. apply wp_bind, wp_query.
  unfold select_attempt. rewrite Ha.
  rewrite (proj2 (credential_verdict_ok a epoch secret tt)) by done.
  apply wp_bind, wp_exec. simpl. by apply wp_ret.
Qed.

Lemma heartbeat_wf now att c : Wf c → Wf (heartbeat now att c).
Proof.
  intros HW. eapply (refines_wf calm); [exact HW|].
  apply silent_refines, heartbeat_silent, HW.
Qed.

Lemma heartbeat_row now att c a :
  run_attempts c !! att = Some a → is_Some (run_attempts (heartbeat now att c) !! att).
Proof. intros Ha. unfold heartbeat. simpl. rewrite lookup_alter_eq, Ha. by eexists. Qed.

(** What a successful reconciliation found and did. *)
Definition reconcile_result (c : Core) (cx : Ctx) (wiID : string)
  (req : ReconcileCommitLocksRequest) (resp : ReconcileCommitLocksResponse) (c' : Core)
  : Prop :=
  ∃ w a, select_wi wiID c = inr w ∧ wi_status w = WRunning
    ∧ credential_ok c w (rc_attempt req) (rc_epoch req) (rc_secret req) a
    ∧ gate_answer (heartbeat (cx_now cx) (rc_attempt req) c) w req = inr (resp, c').

Lemma reconcile_body_spec cx wiID req c :
  Wf c → wp (reconcile_body cx wiID req) (commits_to (reconcile_result c cx wiID req)) (VActive c).
Proof.
  intros HW. unfold reconcile_body.
  eapply wp_bind_triple; [robust|apply claim_lock_wi_spec|]. intros w c1 [-> Hsel].
  destruct (bool_decide_reflect (wi_status w = WRunning)); [|apply commits_throw]. simpl.
  eapply wp_bind_triple; [robust|apply verify_spec|]. intros _ c1 [-> [a Hcred]].
  apply gate_total; [by apply heartbeat_wf|by eapply heartbeat_row, Hcred|].
  destruct (gate_answer _ _ _) as [er|[resp c']] eqn:Eg; [done|]. by exists w, a.
Qed.

(** Without faults, a caller with a valid credential gets the gate's answer. *)
Lemma reconcile_body_total cx wiID req w a c (Post : post ReconcileCommitLocksResponse) :
  Wf c → select_wi wiID c = inr w → wi_status w = WRunning →
  credential_ok c w (rc_attempt req) (rc_epoch req) (rc_secret req) a →
  (let c1 := heartbeat (cx_now cx) (rc_attempt req) c in
   match gate_answer c1 w req with
   | inl e => Post (inl e) (VActive c1)
   | inr (resp, c') => Post (inr resp) (VCommitted c')
   end) →
  wp (reconcile_body cx wiID req) Post (VActive c).
Proof.
  intros HW Hsel Hrun Hcred HP. unfold reconcile_body.
  apply wp_bind. apply wp_bind, wp_query. rewrite Hsel. apply wp_ret.
  rewrite bool_decide_eq_true_2 by done. simpl.
  eapply wp_bind, verify_total; [done|].
  apply gate_total; [by apply heartbeat_wf|by eapply heartbeat_row, Hcred|exact HP].
Qed.

(** The rows the gate adds were free. *)
Lemma gate_answer_locks c w req resp c' :
  Wf c → gate_answer c w req = inr (resp, c') →
  c' = set_locks (resource_locks c') c
  ∧ (∀ k l, resource_locks c !! k = Some l → resource_locks c' !! k = Some l)
  ∧ ∀ k l, resource_locks c' !! k = Some l → resource_locks c !! k = Some l ∨
      ∃ m, m ∈ sp_missing (gate_split c w req) ∧ k = ("file_scope", mp_key m)
           ∧ l = mkLock (rc_attempt req) (rc_epoch req).
Proof.
  intros HW. unfold gate_answer. set (ms := sp_missing _).
  destruct (conflicts _ _ _) eqn:Ec; [|done]. intros [= _ <-].
  destruct (no_conflicts (wi_project w) (rc_repo req) (rc_attempt req) c ms)
    as (_ & _ & Hall); [by apply Forall_forall, gate_missing|done|].
  rewrite Forall_forall in Hall. split; [by destruct c|]. simpl. split.
  - intros k l Hl. apply put_locks_lookup. right. split; [|done].
    intros [Ht (m & Hk & Hm)%list_elem_of_fmap]. destruct k as [t k]; simpl in *. subst.
    pose proof (gate_free c w req HW m Hm (Hall _ Hm)). congruence.
  - intros k l [(Ht & (m & Hk & Hm)%list_elem_of_fmap & ->)|[_ Hl]]%put_locks_lookup; [|by left].
    right. exists m. destruct k; simpl in *; by subst.
Qed.

(** The transition is the one of [FnAcquireLocks]. *)
Lemma reconcile_result_acquire c cx wiID req resp c' :
  Wf c → reconcile_result c cx wiID req resp c' →
  acquire_result c cx wiID (mkAttReq (rc_attempt req) (rc_epoch req) (rc_secret req)) c'.
Proof.
  intros HW (w & a & Hsel & Hrun & Hcred & Hans). exists w, a. repeat (split; [done|]).
  destruct (gate_answer_locks _ _ _ _ _ (heartbeat_wf _ _ _ HW) Hans) as (Hfr & Hk & Hf).
  split; simpl; [by eexists|]. split.
  - intros k l Hl. destruct (Hf k l Hl) as [?|(m & _ & _ & ->)]; [right|by left]. by split.
  - intros k l Hl _. by apply Hk.
Qed.

Lemma FnReconcileCommitLocks_refines env cx wiID req d :
  Wf (core d) → refines (core d) (core (FnReconcileCommitLocks env cx wiID req d).2).
Proof.
  intros HW. pose proof HW as [Hk _]. unfold FnReconcileCommitLocks.
  destruct (String.eqb _ _); [by apply refines_refl|].
  eapply runTx_invariant;
    [apply _|apply _|by apply reconcile_body_spec|by apply refines_refl|].
  intros resp c' H. eapply acquire_result_refines; [done|]. by eapply reconcile_result_acquire.
Qed.
