(* ===== verification/EditSpec.v ===== *)
(** * An edit refines the specification

    The postcondition of [UpdateWorkItem] and the lifecycle transition it
    makes: none but the release of the locks a narrowing gives up. *)

From S2P Require Import Prelude GoStrings Errors Json Crypto Declared Locks Store.
From S2P Require Import TxLogic LifecycleSpec ResourceEvents Attempts Claim Complete.
From S2P Require Import Takeover Edit Lifecycle Handover.
From stdpp Require Import relations.

Open Scope nat_scope.
Open Scope list_scope.

(** ** Postcondition *)

(** The locks that remain when [prior] is replaced by [next]. *)
Definition narrowed (c : Core) (w : WorkItem) (prior next : RawMessage)
  : gmap (string * string) LockRow :=
  match derivedFileScopeLocks prior (wi_project w),
        derivedFileScopeLocks next (wi_project w) with
  | Some p, Some n =>
      let ps := removed_paths p n in
      kept_locks (releaseUndeclaredLocks (wi_id w) (removed_keys (wi_project w) ps)
                    (removed_patterns (wi_project w) ps)) c
  | _, _ => resource_locks c
  end.

Record edit_post (c : Core) (w : WorkItem) (r : UpdateWorkItemRequest)
  (v v' : WorkItem) (c' : Core) : Prop := {
  ep_row : work_items c !! wi_id w = Some v;
  ep_cas n : ResourcesVersion r = Some n → n = wi_resources_version v;
  ep_new : updated_row r v = inr v';
  ep_wi : work_items c' = <[wi_id w := v']> (work_items c);
  ep_att : run_attempts c' = run_attempts c;
  ep_deps : wi_dependencies c' = wi_dependencies c;
  ep_locks : resource_locks c' =
    match DeclaredResources r with
    | Some next => narrowed c w (wi_declared v) next
    | None => resource_locks c
    end;
}.

(** An edit whose row vanished after the snapshot writes audit rows only. *)
Definition edit_result (c : Core) (w : WorkItem) (r : UpdateWorkItemRequest) (c' : Core)
  : Prop :=
  (∃ v v', edit_post c w r v v' c') ∨ (work_items c !! wi_id w = None ∧ same_tables c c').

Lemma kept_locks_none wi c :
  kept_locks (releaseUndeclaredLocks wi [] []) c = resource_locks c.
Proof.
  apply map_eq. intros k. apply option_eq. intros l. unfold kept_locks.
  rewrite map_lookup_filter_Some. split; [by intros [? _]|]. intros Hl. split; [done|].
  unfold releaseUndeclaredLocks. simpl. destruct (run_attempts c !! _); [|done].
  by rewrite andb_false_r.
Qed.

Lemma release_narrowing_spec w prior next op c :
  triple (releaseUndeclaredFileScopeLocks (wi_id w) (wi_project w) prior next op)
    (λ _ c', c' = set_locks (narrowed c w prior next) c) c.
Proof.
  assert (set_locks (resource_locks c) c = c) as Hid by by destruct c.
  unfold releaseUndeclaredFileScopeLocks, narrowed.
  destruct (derivedFileScopeLocks prior _) as [p|]; [|by apply triple_ret].
  destruct (derivedFileScopeLocks next _) as [n|]; [|by apply triple_ret].
  destruct (decide _) as [Hnil|_].
  - apply triple_ret. rewrite Hnil. simpl. by rewrite kept_locks_none.
  - tstep (λ r c', (∃ rows, r = inr rows) ∧ c' = set_locks (kept_locks (releaseUndeclaredLocks
      (wi_id w) (removed_keys (wi_project w) (removed_paths p n))
      (removed_patterns (wi_project w) (removed_paths p n))) c) c).
    { apply releaseLocks_spec. eauto. }
    intros r c1 [[rows ->] ->]. apply triple_ret_bind. by apply triple_ret.
Qed.

Lemma audit_keeps c0 user w typ p : keeps (same_tables c0) (audit user w typ p).
Proof.
  apply keeps_bind; [robust|apply keeps_exec|intros r; apply keeps_or_throw].
  intros c c' Hc. intros ->%insert_event_inr. by rewrite Hc.
Qed.

Lemma audits_keep c0 user w r :
  keeps (same_tables c0) (audit_goal user w r)
  ∧ keeps (same_tables c0) (audit_type user w r)
  ∧ keeps (same_tables c0) (audit_content user w r).
Proof.
  unfold audit_goal, audit_type, audit_content.
  split; [|split]; repeat case_match; try apply keeps_ret; apply audit_keeps.
Qed.

Lemma buildWorkItemUpdate_ok r id c b c' :
  buildWorkItemUpdate r id c = inr (b, c') →
  if b : bool then
    ∃ v v', work_items c !! id = Some v
      ∧ (∀ n, ResourcesVersion r = Some n → n = wi_resources_version v)
      ∧ updated_row r v = inr v' ∧ c' = set_work_items <[id := v']> c
  else c' = c ∧ (ResourcesVersion r = None → work_items c !! id = None).
Proof.
  unfold buildWorkItemUpdate. rewrite rbind_ok. intros (_ & _ & H).
  destruct (work_items c !! id) as [v|]; [|by simplify_eq].
  destruct (ResourcesVersion r) as [n|].
  - destruct (Z.eqb_spec n (wi_resources_version v)) as [Hn|]; simpl in H; [|by simplify_eq].
    apply rbind_ok in H as (v' & Hv' & [= <- <-]). exists v, v'.
    repeat split; try done. by intros ? [= <-].
  - apply rbind_ok in H as (v' & Hv' & [= <- <-]). by exists v, v'.
Qed.

Lemma edit_update_spec w r c :
  triple (edit_update w r) (λ _ c',
    (∃ v v', work_items c !! wi_id w = Some v
      ∧ (∀ n, ResourcesVersion r = Some n → n = wi_resources_version v)
      ∧ updated_row r v = inr v' ∧ c' = set_work_items <[wi_id w := v']> c)
    ∨ (work_items c !! wi_id w = None ∧ c' = c)) c.
Proof.
  unfold edit_update.
  tstep (λ u c', ∀ b, u = inr b → buildWorkItemUpdate r (wi_id w) c = inr (b, c')).
  { apply triple_stmt; [done|]. by intros b c' H b' [= <-]. }
  intros u c1 Hu. destruct u as [e|rows]; [apply triple_throw|]. apply triple_ret_bind.
  specialize (buildWorkItemUpdate_ok _ _ _ _ _ (Hu rows eq_refl)) as H.
  destruct (ResourcesVersion r) as [n|] eqn:Ev.
  - destruct rows; [apply triple_ret; by left|]. simpl. unfold edit_cas_failed.
    tstep (λ _ _, True); [by apply triple_query|].
    intros [[]|] c2 _; apply triple_throw.
  - apply triple_ret. destruct rows; [by left|right]. destruct H. auto.
Qed.

Lemma derivedFileScopeLocks_empty project : derivedFileScopeLocks RawEmpty project = Some ∅.
Proof. done. Qed.

(** The narrowing depends on the attempts and the locks only. *)
Lemma narrowed_same c c' w prior next :
  run_attempts c' = run_attempts c → resource_locks c' = resource_locks c →
  narrowed c' w prior next = narrowed c w prior next.
Proof.
  intros Ha Hl. unfold narrowed. destruct (derivedFileScopeLocks prior _); [|done].
  destruct (derivedFileScopeLocks next _); [|done].
  unfold kept_locks, releaseUndeclaredLocks. by rewrite Ha, Hl.
Qed.

Lemma edit_narrow_spec cx user w prior r c :
  triple (edit_narrow cx user w prior r) (λ _ c', c' = set_locks
    (match DeclaredResources r with
     | Some next => narrowed c w prior.1 next | None => resource_locks c end) c) c.
Proof.
  unfold edit_narrow. destruct (DeclaredResources r) as [next|];
    [|apply triple_ret; by destruct c].
  eapply triple_bind; [robust|apply release_narrowing_spec|]. intros rel c1 ->.
  tstep (λ _ c', c' = set_locks (narrowed c w prior.1 next) c); [by apply triple_query|].
  intros q c1 ->. tstep (λ _ c', c' = set_locks (narrowed c w prior.1 next) c);
    [by apply triple_or_throw|].
  intros v c1 ->. by apply triple_emit_batches.
Qed.

Lemma edit_read_prior_spec w r c :
  triple (edit_read_prior w r) (λ prior c', c' = c ∧
    (is_Some (DeclaredResources r) →
     ∃ v, work_items c !! wi_id w = Some v ∧ prior.1 = wi_declared v)) c.
Proof.
  unfold edit_read_prior. destruct (DeclaredResources r);
    [|apply triple_ret; split; [done|]; by intros [? [=]]].
  tstep (λ q c', c' = c ∧ ∀ v, q = inr v → work_items c !! wi_id w = Some v).
  { apply triple_query; unfold select_wi_by_id; [naive_solver|].
    destruct (work_items c !! wi_id w); naive_solver. }
  intros q c1 [-> Hq]. tstep (λ v c', c' = c ∧ work_items c !! wi_id w = Some v).
  { apply triple_or_throw. auto. }
  intros v c1 [-> Hv]. apply triple_ret. split; [done|]. intros _. by exists v.
Qed.

Lemma edit_body_spec cx user w r c :
  wp (edit_body cx user w r) (commits_to (λ _, edit_result c w r)) (VActive c).
Proof.
  unfold edit_body.
  eapply wp_bind_triple; [robust|apply edit_read_prior_spec|]. intros prior c0 [-> Hprior].
  eapply wp_bind_triple; [robust|apply edit_update_spec|]. intros [] c1 Hupd.
  eapply wp_bind_triple; [robust|apply edit_narrow_spec|]. intros [] c2 Hc2.
  destruct (audits_keep c2 user w r) as (Hg & Ht & Hc).
  hstep (λ _, same_tables c2); [by apply keeps_triple|]. intros _ c3 H3.
  hstep (λ _, same_tables c2); [by apply keeps_triple|]. clear c3 H3. intros _ c3 H3.
  hstep (λ _, same_tables c2); [by apply keeps_triple|].
  clear c3 H3. intros _ c3 [Hw3 Ha3 Hl3 Hd3]. apply wp_commit_tail.
  destruct Hupd as [(v & v' & Hv & Hcas & Hnew & ->)|[Hnone ->]]; subst c2; simpl in *.
  - left. exists v, v'. split; try done.
    rewrite Hl3. destruct (DeclaredResources r) as [next|] eqn:Ed; [|done].
    destruct Hprior as (u & Hu & ->); [done|]. simplify_eq. by apply narrowed_same.
  - right. split; [done|]. destruct (DeclaredResources r) eqn:Ed; [|by split].
    destruct Hprior as (u & Hu & _); [done|]. congruence.
Qed.

(** ** Refinement *)

Lemma updated_row_abs r v v' :
  updated_row r v = inr v' → abs_wi v' = abs_wi v ∧ wi_id v' = wi_id v.
Proof.
  unfold updated_row. rewrite rbind_ok. intros ([] & _ & H). revert H.
  rewrite rbind_ok. intros (attrs & _ & H).
  apply rbind_ok in H as (dv & _ & H). cbv zeta in H. by case_match; simplify_eq.
Qed.

Lemma narrowed_lookup c w prior next k l :
  narrowed c w prior next !! k = Some l → resource_locks c !! k = Some l.
Proof.
  unfold narrowed, kept_locks. repeat case_match; try done.
  by rewrite map_lookup_filter_Some; intros [? _].
Qed.

Lemma narrowed_dropped c w prior next k l :
  resource_locks c !! k = Some l → narrowed c w prior next !! k = None →
  k.1 = "file_scope" ∧ ∃ a, run_attempts c !! lk_owner l = Some a ∧ ra_wi a = wi_id w.
Proof.
  intros Hl. unfold narrowed, kept_locks. repeat case_match; try congruence.
  rewrite map_lookup_filter_None. intros [Hn|Hn]; [congruence|].
  specialize (Hn l Hl). simpl in Hn. apply not_false_iff_true in Hn.
  unfold releaseUndeclaredLocks in Hn.
  destruct (run_attempts c !! lk_owner l) as [a|]; [|done].
  apply andb_true_iff in Hn as [[Hi%String.eqb_eq Ht%String.eqb_eq]%andb_true_iff _].
  split; [done|]. by exists a.
Qed.

Lemma edit_result_refines c w r c' : Wf c → edit_result c w r c' → refines c c'.
Proof.
  intros [Hk _] [(v & v' & [Hv Hcas Hnew Hw Ha Hd Hl])|[_ Hsame]].
  - destruct (updated_row_abs _ _ _ Hnew) as [Habs Hid].
    assert (abs_wi <$> work_items c' = abs_wi <$> work_items c) as HW.
    { rewrite Hw, fmap_insert, Habs. apply insert_id. by rewrite lookup_fmap, Hv. }
    split.
    + intros i u. rewrite Hw. intros [[<- <-]|[_ Hu]]%lookup_insert_Some; [|by apply Hk].
      rewrite Hid. by apply Hk.
    + apply rtc_once. unfold abs. rewrite HW, Ha, Hl.
      apply (a_narrow _ _ _ _ _ (wi_id w) (abs_wi v)); [by rewrite lookup_fmap, Hv|..];
        destruct (DeclaredResources r); try congruence; intros k l.
      * apply narrowed_lookup.
      * intros Hkl Hn. destruct (narrowed_dropped _ _ _ _ _ _ Hkl Hn) as (Ht & a & Hra & Hi).
        split; [done|]. exists (abs_att a). by rewrite lookup_fmap, Hra.
  - apply refines_same; [exact Hk|by destruct Hsame].
Qed.

Lemma UpdateWorkItem_refines url env f1 f2 cx key user role roles req later d0 d :
  Wf (core d) →
  refines (core d)
    (core (UpdateWorkItem url env f1 f2 cx key user role roles req later d0 d).2).
Proof.
  intros HW. pose proof HW as [Hk _]. unfold UpdateWorkItem.
  destruct (GetWorkItem f1 key d0) as [|w]; [by apply refines_refl|].
  destruct (edit_checks _ _ _ _ _ _) as [|r]; [by apply refines_refl|].
  assert (refines (core d) (core (runTx env (edit_body cx user w r) d).2)) as H.
  { eapply runTx_invariant;
      [apply _|apply _|by apply edit_body_spec|by apply refines_refl|].
    intros u c' H. exact (edit_result_refines _ _ _ _ HW H). }
  by destruct (runTx env _ d) as [[]].
Qed.
