(* ===== verification/DepGraph.v ===== *)
(** * The dependency graph: cycle detection, requeueing, listing

    What [Dependencies.v] computes: [detectCycle] decides reachability, adding
    a checked edge keeps each kind's graph acyclic, the handlers refine the
    lifecycle specification, and the sweep leaves no item blocked for
    nothing. *)

From S2P Require Import Prelude GoStrings Errors Json Store TxLogic LifecycleSpec.
From S2P Require Import ResourceEvents Attempts Claim Complete Takeover Dependencies.
From S2P Require Import Pooled Lifecycle.
From stdpp Require Import gmap sets fin_sets relations.

Open Scope list_scope.

(** [x] is blocked by [y]. *)
Definition edge (c : Core) (kind : string) : relation string :=
  λ x y, is_Some (wi_dependencies c !! (x, y, kind)).

Definition acyclic (c : Core) (kind : string) : Prop := ∀ x, ¬ tc (edge c kind) x x.

Lemma dep_rows_elem c d : d ∈ dep_rows c ↔ is_Some (wi_dependencies c !! d).
Proof.
  unfold dep_rows. rewrite list_elem_of_fmap. split.
  - intros ([k n] & -> & H%elem_of_map_to_list). eauto.
  - intros [n H]. exists (d, n). split; [done|]. by apply elem_of_map_to_list.
Qed.

Lemma blockers_of_spec c kind ids y :
  y ∈ blockers_of c kind ids ↔ ∃ x, x ∈ ids ∧ edge c kind x y.
Proof.
  assert (∀ l, y ∈ foldr (λ (d : string * string * string) acc,
      if String.eqb d.2 kind && bool_decide (d.1.1 ∈ ids)
      then {[ d.1.2 ]} ∪ acc else acc) (∅ : gset string) l ↔
    ∃ x, x ∈ ids ∧ (x, y, kind) ∈ l) as H.
  { induction l as [|[[a b] k] l IH]; simpl; [set_solver|].
    destruct (String.eqb_spec k kind) as [->|Hk]; simpl.
    - destruct (bool_decide_reflect (a ∈ ids)); set_solver.
    - set_solver. }
  unfold blockers_of. rewrite H. unfold edge. by setoid_rewrite dep_rows_elem.
Qed.

Definition closed (c : Core) (kind : string) (ids : gset string) : Prop :=
  blockers_of c kind ids ⊆ ids.

Lemma reach_iter_closed c kind n ids :
  closed c kind ids → reach_iter c kind n ids = ids.
Proof.
  revert ids. induction n as [|n IH]; intros ids H; simpl; [done|].
  unfold closed in H. assert (ids ∪ blockers_of c kind ids = ids) as -> by set_solver.
  by apply IH.
Qed.

Lemma reach_iter_enough c kind (T : gset string) n ids :
  (∀ X, blockers_of c kind X ⊆ T) → ids ⊆ T → size T <= size ids + n →
  closed c kind (reach_iter c kind n ids).
Proof.
  intros HT. revert ids. induction n as [|n IH]; intros ids Hids Hsz; simpl.
  - assert (T ⊆ ids) by (apply set_subseteq_size_eq in Hids; [set_solver|lia]).
    unfold closed. specialize (HT ids). set_solver.
  - destruct (decide (blockers_of c kind ids ⊆ ids)) as [Hc|Hc].
    + assert (ids ∪ blockers_of c kind ids = ids) as -> by set_solver.
      by rewrite reach_iter_closed.
    + apply IH; [specialize (HT ids); set_solver|].
      assert (ids ⊂ ids ∪ blockers_of c kind ids) as Hlt by set_solver.
      apply subset_size in Hlt. lia.
Qed.

Lemma reach_iter_mono c kind n ids : ids ⊆ reach_iter c kind n ids.
Proof. revert ids. induction n as [|n IH]; intros ids; simpl; [done|]. specialize (IH (ids ∪ blockers_of c kind ids)). set_solver. Qed.

Lemma reach_iter_sound c kind s n ids :
  (∀ y, y ∈ ids → tc (edge c kind) s y) →
  ∀ y, y ∈ reach_iter c kind n ids → tc (edge c kind) s y.
Proof.
  revert ids. induction n as [|n IH]; intros ids H; simpl; [done|].
  apply IH. intros y [Hy|Hy]%elem_of_union; [auto|].
  apply blockers_of_spec in Hy as (x & Hx & He). eapply tc_r; eauto.
Qed.

Lemma size_list_to_set_le (l : list string) :
  size (list_to_set l : gset string) <= length l.
Proof.
  induction l as [|x l IH]; simpl; [done|].
  destruct (decide (x ∈ (list_to_set l : gset string))) as [Hx|Hx].
  - assert ({[x]} ∪ list_to_set l = (list_to_set l : gset string)) as -> by set_solver.
    lia.
  - rewrite size_union, size_singleton by set_solver. lia.
Qed.

(** The recursive query computes exactly the items reachable by edges. *)
Lemma reachable_spec c kind s y : y ∈ reachable c kind s ↔ tc (edge c kind) s y.
Proof.
  split.
  - apply reach_iter_sound. intros z (x & ->%elem_of_singleton & He)%blockers_of_spec.
    by apply tc_once.
  - assert (closed c kind (reachable c kind s)) as Hcl.
    { set (T := list_to_set ((λ d : string * string * string, d.1.2) <$> dep_rows c)
                : gset string).
      assert (∀ X, blockers_of c kind X ⊆ T) as HT.
      { intros X z (x & _ & He)%blockers_of_spec. apply elem_of_list_to_set.
        apply list_elem_of_fmap. exists (x, z, kind). by rewrite dep_rows_elem. }
      apply (reach_iter_enough c kind T); [done|apply HT|].
      pose proof (size_list_to_set_le
        ((λ d : string * string * string, d.1.2) <$> dep_rows c)) as Hsz.
      rewrite length_fmap in Hsz. fold T in Hsz. lia. }
    intros H. apply tc_nsteps in H as (n & Hn & Hs).
    assert (∀ n x, nsteps (edge c kind) (S n) s x → x ∈ reachable c kind s) as Hall.
    { clear n Hn Hs. induction n as [|n IH]; intros x Hx.
      - apply nsteps_once_inv in Hx. apply reach_iter_mono, blockers_of_spec.
        exists s. set_solver.
      - apply nsteps_inv_r in Hx as (z & Hz & He). apply Hcl, blockers_of_spec.
        exists z. split; [by apply IH|done]. }
    destruct n as [|n]; [lia|]. by apply (Hall n).
Qed.

(** ** Adding a checked edge *)

Lemma tc_add_edge c c' kind a b x y :
  (∀ u v, edge c' kind u v → edge c kind u v ∨ (u = a ∧ v = b)) →
  tc (edge c' kind) x y →
  tc (edge c kind) x y ∨ (rtc (edge c kind) x a ∧ rtc (edge c kind) b y).
Proof.
  intros Hsub H. induction H as [x y H|x y z H _ IH].
  - destruct (Hsub _ _ H) as [?|[-> ->]]; [left; by apply tc_once|right].
    split; apply rtc_refl.
  - destruct (Hsub _ _ H) as [He|[-> ->]].
    + destruct IH as [IH|[IH1 IH2]]; [left|right].
      * by eapply tc_l.
      * split; [by eapply rtc_l|done].
    + right. split; [apply rtc_refl|]. destruct IH as [IH|[_ IH]]; [|done].
      by apply tc_rtc.
Qed.

Lemma add_edge_acyclic c c' kind a b :
  acyclic c kind → a ≠ b → a ∉ reachable c kind b →
  (∀ u v, edge c' kind u v → edge c kind u v ∨ (u = a ∧ v = b)) →
  acyclic c' kind.
Proof.
  intros Hac Hab Hnr Hsub x Hx.
  destruct (tc_add_edge c c' kind a b x x Hsub Hx) as [H|[H1 H2]]; [by eapply Hac|].
  assert (rtc (edge c kind) b a) as Hba by (by etransitivity).
  apply rtc_tc in Hba as [->|Hba]; [done|]. by apply Hnr, reachable_spec.
Qed.

(** ** The transactions *)

Record create_dep_result (c : Core) (cx : Ctx) (req : CreateDependencyRequest)
  (kind : string) (c' : Core) : Prop := {
  cd_deps : ∃ note, wi_dependencies c'
            = <[(dr_blocked req, dr_blocking req, kind) := note]> (wi_dependencies c);
  cd_wi : ∃ w, work_items c !! dr_blocked req = Some w ∧ work_items c' =
    if bool_decide (kind = "blocks") && bool_decide (wi_status w = WQueued)
    then <[dr_blocked req := wi_with_status (cx_now cx) WBlocked w]> (work_items c)
    else work_items c;
  cd_blocking : is_Some (work_items c !! dr_blocking req);
  cd_att : run_attempts c' = run_attempts c;
  cd_locks : resource_locks c' = resource_locks c;
}.

Lemma create_dep_spec cx req kind project user c :
  wp (create_dep_body cx req kind project user)
    (commits_to (λ _, create_dep_result c cx req kind)) (VActive c).
Proof.
  unfold create_dep_body. set (k := (dr_blocked req, dr_blocking req, kind)).
  hstep (λ r c1, ∃ b note w, r = inr b ∧ work_items c !! dr_blocked req = Some w
    ∧ is_Some (work_items c !! dr_blocking req)
    ∧ c1 = set_deps (<[k := note]> (wi_dependencies c)) c).
  { apply triple_stmt; unfold insert_dep, k; simpl;
      (destruct (_ || _); [done|]);
      (destruct (work_items c !! dr_blocked req) as [w|]; [|done]);
      (destruct (work_items c !! dr_blocking req); [|done]);
      (destruct (wi_dependencies c !! _) as [n|] eqn:En; [|]); try done.
    - intros b c1 [= <- <-]. exists false, n, w. rewrite insert_id by done.
      split; [done|]. split; [done|]. split; [eauto|]. by destruct c.
    - intros b c1 [= <- <-]. exists true, (dr_note req), w. eauto. }
  intros r c1 (b & note & w & -> & Hw & Hb & ->). set (c1 := set_deps _ c).
  hstep (λ x c2, x = b ∧ c2 = c1); [by apply triple_ret|]. intros x c2 [-> ->].
  hstep (λ _ c2, same_tables c1 c2).
  { destruct b; [|by apply triple_ret]. unfold emitDependencyCreatedEvent.
    apply triple_exec_throw. by intros c' ->%insert_event_inr. }
  intros _ c2 [Hw2 Ha2 Hl2 Hd2]. simpl in Hw2, Ha2, Hl2, Hd2.
  hstep (λ _, create_dep_result c cx req kind).
  { destruct (String.eqb_spec kind "blocks") as [Hk|Hk].
    - apply triple_exec_throw. unfold derive_blocked. rewrite Hw2, Hw.
      intros c3 [= <-]. split.
      + exists note. by destruct (decide _).
      + exists w. split; [done|]. rewrite (bool_decide_eq_true_2 (kind = _)) by done.
        destruct (decide (wi_status w = WQueued)) as [Hq|Hq]; simpl.
        * rewrite bool_decide_eq_true_2 by done.
          by rewrite Hw2, (alter_as_insert _ _ _ w).
        * by rewrite bool_decide_eq_false_2.
      + done.
      + rewrite <- Ha2. by destruct (decide _).
      + rewrite <- Hl2. by destruct (decide _).
    - apply triple_ret. split; eauto.
      exists w. split; [done|]. by rewrite (bool_decide_eq_false_2 (kind = _)). }
  intros [] c3 H3. by apply wp_commit_tail.
Qed.

Lemma create_dep_result_refines cx req kind c c' :
  keyed c → create_dep_result c cx req kind c' → refines c c'.
Proof.
  intros Hk [_ (w & Hw & Hwi) _ Ha Hl].
  destruct (_ && _) eqn:E.
  - reflect_bools. split.
    + intros i v. rewrite Hwi. intros [[<- <-]|[_ Hv]]%lookup_insert_Some; [|eauto].
      by apply (Hk _ _ Hw).
    + apply rtc_once. unfold abs at 2. rewrite Hwi, Ha, Hl, fmap_insert.
      apply (a_block _ (abs_wi <$> work_items c) _ _ (dr_blocked req) (abs_wi w));
        [by rewrite lookup_fmap, Hw|done].
  - apply refines_same; [done|]. by split.
Qed.

Lemma CreateDependency_refines env f1 f2 f3 cx req user roles role d0 d :
  Wf (core d) →
  refines (core d)
    (core (CreateDependency env f1 f2 f3 cx req user roles role d0 d).2).
Proof.
  intros [Hk _]. unfold CreateDependency.
  destruct (rbind _ _) as [e|[kind project]]; [by apply refines_refl|].
  eapply runTx_invariant; [apply _|apply _|apply create_dep_spec|by apply refines_refl|].
  intros [] c'. by apply create_dep_result_refines.
Qed.

(** What a committed deletion did. *)
Definition delete_dep_result (c : Core) (now : Z) (blocked blocking kind : string)
  (c' : Core) : Prop :=
  let c1 := set_deps (delete (blocked, blocking, kind) (wi_dependencies c)) c in
  is_Some (wi_dependencies c !! (blocked, blocking, kind)) ∧
  c' = if bool_decide (kind = "blocks") then (requeue_next now "" blocked c1).2 else c1.

Lemma delete_dep_spec cx blocked blocking kind c :
  wp (delete_dep_body cx blocked blocking kind)
    (commits_to (λ _, delete_dep_result c (cx_now cx) blocked blocking kind)) (VActive c).
Proof.
  unfold delete_dep_body.
  set (c1 := set_deps (delete (blocked, blocking, kind) (wi_dependencies c)) c).
  hstep (λ r c', match r with
    | inr true => is_Some (wi_dependencies c !! (blocked, blocking, kind)) ∧ c' = c1
    | inr false => True | inl _ => True end).
  { apply triple_stmt; unfold delete_dep; [done|].
    destruct (wi_dependencies c !! _) eqn:E; intros a c' [= <- <-]; eauto. }
  intros [e|found] c2 H.
  { hstep (λ _ _, False); [apply triple_throw|done]. }
  hstep (λ x c', x = found ∧ c' = c2); [by apply triple_ret|]. intros x c3 [-> ->].
  destruct found; [|apply commits_throw]. destruct H as [Hin ->]. simpl.
  hstep (λ _, delete_dep_result c (cx_now cx) blocked blocking kind).
  { unfold delete_dep_result. fold c1. destruct (String.eqb_spec kind "blocks") as [Hk|Hk].
    - rewrite bool_decide_eq_true_2 by done.
      tstep (λ r c', r = inr (requeue_next (cx_now cx) "" blocked c1).1
                     ∧ c' = (requeue_next (cx_now cx) "" blocked c1).2).
      { apply triple_stmt; rewrite requeueIfUnblocked_eq; [done|].
        intros a c'. unfold requeue_next.
        by destruct (work_items c1 !! blocked); intros [= <- <-]. }
      intros r c2 [-> ->]. destruct (requeue_next (cx_now cx) "" blocked c1).1;
        [|by apply triple_ret].
      unfold delete_dep_event. tstep (λ _ c', c' = (requeue_next (cx_now cx) "" blocked c1).2);
        [by apply triple_query|].
      intros p c2 ->. destruct p; [by apply triple_ret|by apply triple_emit].
    - rewrite bool_decide_eq_false_2 by done. by apply triple_ret. }
  intros [] c2 H2. by apply wp_commit_tail.
Qed.

Lemma requeue_next_requeued now ex id c : requeued now ex c [id] (requeue_next now ex id c).2.
Proof. apply (requeued_next now ex c []), requeued_nil. Qed.

Lemma delete_dep_result_refines now blocked blocking kind c c' :
  keyed c → delete_dep_result c now blocked blocking kind c' → refines c c'.
Proof.
  intros Hk [_ ->]. set (c1 := set_deps _ c).
  destruct (bool_decide _); [|by apply refines_same].
  destruct (requeue_next_requeued now "" blocked c1) as [_ _ _ _ Hr].
  destruct (Hr Hk) as [Hk' Hs]. split; [done|]. exact Hs.
Qed.

Lemma DeleteDependency_refines env cx blocked blocking kind d :
  Wf (core d) →
  refines (core d) (core (DeleteDependency env cx blocked blocking kind d).2).
Proof.
  intros [Hk _]. unfold DeleteDependency.
  eapply runTx_invariant; [apply _|apply _|apply delete_dep_spec|by apply refines_refl|].
  intros [] c'. by apply delete_dep_result_refines.
Qed.

(** ** The sweeps *)

Lemma gc_run_core {A} lock (aff : A → Z) env (m : Tx A) d :
  (gc_run lock aff env m d).2 = d ∨ (gc_run lock aff env m d).2 = (runTx env m d).2.
Proof.
  unfold gc_run. destruct lock as [|[]]; [by left| |by left].
  destruct (runTx env m d). by right.
Qed.

Lemma gc_unblock_rows now c :
  map_imap (λ id w, Some (if sweep_unblocks c id w then wi_with_status now WQueued w else w))
    (work_items c)
  = requeue_rows now "" c (filter (λ id, has_blocks_edge c id = true)
                             (map_to_list (work_items c)).*1).
Proof.
  apply map_eq. intros i. rewrite requeue_rows_lookup, map_lookup_imap.
  destruct (work_items c !! i) as [w|] eqn:Ew; [|done]. simpl. f_equal.
  unfold sweep_unblocks, requeueable.
  destruct (has_blocks_edge c i) eqn:Eb.
  - rewrite (bool_decide_eq_true_2 (i ∈ _)).
    + by rewrite andb_true_r.
    + apply list_elem_of_filter. split; [done|]. apply list_elem_of_fmap.
      exists (i, w). split; [done|]. by apply elem_of_map_to_list.
  - rewrite (bool_decide_eq_false_2 (i ∈ _)).
    + by rewrite andb_false_r.
    + intros [? _]%list_elem_of_filter. congruence.
Qed.

Definition swept (now : Z) (c : Core) : Core :=
  set_work_items (map_imap (λ id w, Some (
    if sweep_unblocks c id w then wi_with_status now WQueued w else w))) c.

Lemma unblock_sweep_spec cx c :
  wp (unblock_sweep_body cx) (commits_to (λ _ c', c' = swept (cx_now cx) c)) (VActive c).
Proof.
  unfold unblock_sweep_body.
  hstep (λ r c', (∃ n, r = inr n) ∧ c' = swept (cx_now cx) c).
  { apply triple_stmt; unfold gc_unblock; [done|]. intros a c' [= <- <-]. eauto. }
  intros r c1 [[n ->] ->]. hstep (λ _ c', c' = swept (cx_now cx) c);
    [by apply triple_ret|]. intros x c1 ->. by apply wp_commit_tail.
Qed.

Lemma swept_refines now c : keyed c → refines c (swept now c).
Proof.
  intros Hk. unfold swept, set_work_items. rewrite gc_unblock_rows.
  by apply requeue_rows_refines.
Qed.

Lemma RunUnblockDependentWI_refines lock env cx d :
  Wf (core d) → refines (core d) (core (RunUnblockDependentWI lock env cx d).2).
Proof.
  intros [Hk _]. unfold RunUnblockDependentWI.
  destruct (gc_run_core lock id env (unblock_sweep_body cx) d) as [-> | ->];
    [by apply refines_refl|].
  eapply runTx_invariant; [apply _|apply _|apply unblock_sweep_spec|by apply refines_refl|].
  intros n c' ->. by apply swept_refines.
Qed.

Lemma orphan_sweep_spec cx c :
  wp (orphan_sweep_body cx)
    (commits_to (λ rows c', rows = (λ kv, lock_row c kv.1 kv.2) <$>
                                     map_to_list (deleted_locks orphanLockSweep c)
                            ∧ c' = set_locks (kept_locks orphanLockSweep c) c)) (VActive c).
Proof.
  unfold orphan_sweep_body.
  set (rows := (λ kv, lock_row c kv.1 kv.2) <$> map_to_list (deleted_locks orphanLockSweep c)).
  hstep (λ r c', r = inr rows ∧ c' = set_locks (kept_locks orphanLockSweep c) c).
  { by apply releaseLocks_spec. }
  intros r c1 [-> ->].
  hstep (λ x c', x = rows ∧ c' = set_locks (kept_locks orphanLockSweep c) c);
    [by apply triple_ret|]. intros x c1 [-> ->]. by apply wp_commit_tail.
Qed.

Lemma orphan_kept c k l :
  kept_locks orphanLockSweep c !! k = Some l ↔
  resource_locks c !! k = Some l
  ∧ ∃ x, (abs_att <$> run_attempts c) !! lk_owner l = Some x ∧ aa_live x = true.
Proof.
  unfold kept_locks, orphanLockSweep, lock_live. rewrite map_lookup_filter_Some. simpl.
  apply and_iff_compat_l. rewrite negb_false_iff, lookup_fmap.
  destruct (run_attempts c !! lk_owner l) as [a|]; simpl; [|naive_solver].
  unfold aa_live. split; [intros H; by eexists|]. by intros (x & [= <-] & ?).
Qed.

Lemma RunOrphanLockSweep_refines lock env cx d :
  Wf (core d) → refines (core d) (core (RunOrphanLockSweep lock env cx d).2).
Proof.
  intros [Hk _]. unfold RunOrphanLockSweep.
  destruct (gc_run_core lock (λ released, Z.of_nat (length released)) env
              (orphan_sweep_body cx) d) as [-> | ->]; [by apply refines_refl|].
  eapply runTx_invariant; [apply _|apply _|apply orphan_sweep_spec|by apply refines_refl|].
  intros n c' [_ ->]. split; [done|]. apply rtc_once.
  apply (a_sweep _ (abs_wi <$> work_items (core d)) (abs_att <$> run_attempts (core d))
           (resource_locks (core d))).
  intros k l. apply orphan_kept.
Qed.

(** ** Unblocking *)

Lemma unblock_sql_refines now id c c' :
  keyed c → unblock_sql now id c = inr c' → refines c c'.
Proof.
  intros Hk [= <-]. destruct (work_items c !! id) as [w|] eqn:Hw.
  2: { apply refines_same; [done|]. simpl. split; [|done]. apply map_eq. intros i.
       destruct (decide (i = id)) as [->|?]; [by rewrite lookup_alter_eq, Hw|].
       by rewrite lookup_alter_ne. }
  set (f := λ w, if bool_decide (wi_status w = WBlocked) then _ else w).
  assert (alter f id (work_items c) = <[id := f w]> (work_items c)) as Hf
    by (by apply alter_as_insert).
  unfold f in Hf at 2. destruct (bool_decide_reflect (wi_status w = WBlocked)) as [Hb|Hb].
  - assert (set_work_items (alter f id) c
            = set_work_items (alter (wi_with_status now WQueued) id) c) as ->.
    { unfold set_work_items. by rewrite Hf, (alter_as_insert _ _ _ w). }
    eapply status_refines; [done|done|]. unfold abs. simpl. apply a_requeue; [|done].
    by rewrite lookup_fmap, Hw.
  - apply refines_same; [done|]. simpl. rewrite Hf. by rewrite insert_id.
Qed.

Lemma handleUnblockWorkItem_refines env1 env2 f cx key user role reason d0 d :
  Wf (core d) →
  refines (core d) (core (handleUnblockWorkItem env1 env2 f cx key user role reason d0 d).2).
Proof.
  intros [Hk _]. unfold handleUnblockWorkItem.
  destruct (negb _); [by apply refines_refl|].
  destruct (GetWorkItem f key d0) as [|w]; [by apply refines_refl|].
  destruct (negb _); [by apply refines_refl|].
  destruct (autocommit env1 _ d) as [r d1] eqn:E1.
  assert (refines (core d) (core d1)) as H1.
  { apply autocommit_spec in E1 as [[[-> _]|[E _]] _]; [by apply refines_refl|].
    by eapply unblock_sql_refines. }
  destruct r as [|[]]; [done|]. simpl.
  destruct (autocommit env2 _ d1) as [r d2] eqn:E2. simpl.
  apply autocommit_spec in E2 as [[[-> _]|[E _]] _]; [done|].
  unfold admin_unblock_event in E. apply insert_event_inr in E as ->.
  destruct H1 as [Hk1 Hs]. by split.
Qed.
