(* ===== verification/StepSpec.v ===== *)
(** * What the step transitions do

    The compare-and-set on the step state, the completion records, and that
    a transition which does not escalate leaves the lifecycle tables alone; one
    that does blocks the item, whatever its status. *)

From S2P Require Import Prelude GoStrings Errors Json Store TxLogic LifecycleSpec.
From S2P Require Import ResourceEvents Attempts Claim Takeover StepUpdate Lifecycle.
From S2P Require Import Moves Handover.

Open Scope list_scope.

(** ** The step state *)

(** The state [startStep] writes, when it writes one. *)
Definition started_state (now : Z) (step sa : option string) (o : option StepState)
  : option StepState :=
  match o with
  | None => Some (mkStep None step StepInProgress sa (Some now) 1 None)
  | Some s =>
      if decide (ss_status s = StepIdle)
      then Some (mkStep (ss_type s) step StepInProgress sa (Some now)
                   (ss_version s + 1) (ss_scenario_ref s))
      else None
  end.

Lemma start_step_sql_eq now wi step sa c :
  start_step_sql now wi step sa c = inr
    match started_state now step sa (wi_step_state c !! wi) with
    | Some s => (true, set_steps (<[wi := s]>) c)
    | None => (false, c)
    end.
Proof.
  unfold start_step_sql, started_state.
  destruct (wi_step_state c !! wi); [|done]. by destruct (decide _).
Qed.

(** What a transition leaves alone: the lifecycle tables and the memories. *)
Record step_frame (c c' : Core) : Prop := {
  sf_tables : same_tables c c';
  sf_memories : memories c' = memories c;
}.

#[export] Instance step_frame_preorder : PreOrder step_frame.
Proof.
  split; [by split|]. intros ??? [H1 H2] [H3 H4]. split; [by etransitivity|congruence].
Qed.

Definition requires_methodology (req : UpdateStepRequest) (wi : string) (c : Core)
  : Prop :=
  ∀ s, us_step req = Some s → s = "spec" ∨ s = "plan" →
       has_methodology wi ("methodology." +:+ s) c = true.

Definition completion_of (cx : Ctx) (wi : string) (req : UpdateStepRequest)
  (status : string) (err : option string) : StepCompletion :=
  mkComp (cx_sc cx) wi (derefStr (us_step req)) (at_attempt (us_auth req)) status
    (us_artifact req) err false.

(** The completion row is new, and its attempt exists. *)
Record recorded (c : Core) (sa : string) (sc : StepCompletion) (c' : Core) : Prop := {
  rec_new : wi_step_completions c !! sa = None;
  rec_attempt : is_Some (run_attempts c !! sc_run_attempt sc);
  rec_row : wi_step_completions c' = <[sa := sc]> (wi_step_completions c);
}.

(** The table of step states and the completions after each transition. *)
Inductive step_post (cx : Ctx) (wi : string) (req : UpdateStepRequest) (c c' : Core)
  : Prop :=
  | sp_start s :
      us_status req = "in_progress" →
      started_state (cx_now cx) (us_step req) (us_step_attempt req)
        (wi_step_state c !! wi) = Some s →
      wi_step_state c' = <[wi := s]> (wi_step_state c) →
      wi_step_completions c' = wi_step_completions c →
      step_post cx wi req c c'
  | sp_complete :
      us_status req = "completed" → requires_methodology req wi c →
      recorded c (derefStr (us_step_attempt req))
        (completion_of cx wi req "completed" None) c' →
      (let S1 := alter (step_set_completed (us_step req)) wi (wi_step_state c) in
       if String.eqb (derefStr (us_next req)) "" then wi_step_state c' = S1
       else ∃ s, started_state (cx_now cx) (us_next req) (us_next_attempt req) (S1 !! wi)
                 = Some s ∧ wi_step_state c' = <[wi := s]> S1) →
      step_post cx wi req c c'
  | sp_fail :
      us_status req = "failed" →
      recorded c (derefStr (us_step_attempt req))
        (completion_of cx wi req "failed" (us_error_type req)) c' →
      wi_step_state c' = alter step_reset wi (wi_step_state c) →
      step_post cx wi req c c'.

Lemma internal_spec {A} (r : result DbErr A) (Q : A → Core → Prop) c :
  (∀ a, r = inr a → Q a c) → triple (internal r) Q c.
Proof. intros H. apply triple_or_throw. auto. Qed.

Lemma startStep_spec cx wi step sa c :
  triple (startStep cx wi step sa) (λ r c',
    match started_state (cx_now cx) step sa (wi_step_state c !! wi) with
    | Some s => r = inr true ∧ c' = set_steps (<[wi := s]>) c
    | None => r = inr false ∧ c' = c
    end) c.
Proof.
  unfold startStep. apply triple_stmt; rewrite start_step_sql_eq; [done|].
  intros b c'. by destruct (started_state _ _ _ _); intros [= <- <-].
Qed.

(** A start either writes the state or answers a lost compare-and-set. *)
Lemma start_or_throw_spec {A} cx wi step sa (a : A) c :
  triple (tbind (startStep cx wi step sa) (λ r, tbind (internal r) (λ started,
            if started : bool then tret a else tthrow (NewErr ErrConflictCASFailed))))
    (λ x c', x = a ∧ ∃ s,
       started_state (cx_now cx) step sa (wi_step_state c !! wi) = Some s
       ∧ c' = set_steps (<[wi := s]>) c) c.
Proof.
  eapply triple_bind; [robust|apply startStep_spec|]. intros r c1.
  destruct (started_state _ _ _ _) as [s|]; intros [-> ->].
  - apply triple_ret_bind, triple_ret. eauto.
  - apply triple_ret_bind, triple_throw.
Qed.

Lemma methodology_gate_spec wi req c :
  triple (methodology_gate wi (us_step req))
    (λ _ c', c' = c ∧ requires_methodology req wi c) c.
Proof.
  unfold methodology_gate, requires_methodology.
  destruct (us_step req) as [s|]; [|by apply triple_ret].
  destruct (String.eqb_spec s "spec") as [->|H1]; simpl.
  1: idtac. 2: destruct (String.eqb_spec s "plan") as [->|H2]; simpl.
  3: { apply triple_ret. split; [done|]. intros ? [= <-] [?|?]; done. }
  all: tstep (λ r c', c' = c ∧ ∀ b, r = inr b → b = has_methodology wi _ c);
    [apply triple_query; [done|]; intros b [= <-]; split; [done|]; by intros ? [= <-]|];
    intros r c1 [-> Hr];
    (tstep (λ b c', c' = c ∧ r = inr b); [by apply internal_spec|]);
    intros b c1 [-> ->]; specialize (Hr b eq_refl);
    destruct b; [|apply triple_throw]; apply triple_ret; split; [done|];
    by intros ? [= <-] _.
Qed.

Lemma insertStepCompletion_spec cx wi att sa step status artifact err esc c :
  triple (insertStepCompletion cx wi att sa step status artifact err esc) (λ _ c',
    let sc := mkComp (cx_sc cx) wi step att status artifact err esc in
    recorded c sa sc c' ∧ c' = set_completions (<[sa := sc]> (wi_step_completions c)) c) c.
Proof.
  apply triple_exec_throw. intros c'. unfold insert_step_completion. simpl.
  destruct (wi_step_completions c !! sa) eqn:E; [done|].
  destruct (run_attempts c !! att) eqn:Ea; [|done]. intros [= <-]. split; [|done].
  by split.
Qed.

Lemma step_start_spec cx wi req c :
  us_status req = "in_progress" →
  triple (step_start cx wi req)
    (λ _ c', step_frame c c' ∧ step_post cx wi req c c') c.
Proof.
  intros Hst. unfold step_start.
  eapply triple_mono; [apply start_or_throw_spec|].
  intros evs c' (_ & s & Hs & ->). split; [done|]. by eapply sp_start.
Qed.

Lemma step_complete_spec cx wi req c :
  us_status req = "completed" →
  triple (step_complete cx wi req)
    (λ _ c', step_frame c c' ∧ step_post cx wi req c c') c.
Proof.
  intros Hst. unfold step_complete.
  eapply triple_bind; [robust|apply methodology_gate_spec|]. intros _ c1 [-> Hm].
  set (S1 := alter (step_set_completed (us_step req)) wi).
  tstep (λ r c', r = inr tt ∧ c' = set_steps S1 c).
  { apply triple_exec; [done|]. by intros c' [= <-]. }
  intros r c1 [-> ->]. apply triple_ret_bind.
  eapply triple_bind; [robust|apply insertStepCompletion_spec|].
  intros _ c2 [[Hn Ha Hr] Hc2]. simpl in Hn, Ha, Hr, Hc2.
  assert (recorded c (derefStr (us_step_attempt req))
    (completion_of cx wi req "completed" None) c2) as Hrec by by split.
  destruct (String.eqb_spec (derefStr (us_next req)) "") as [En|En]; simpl.
  - apply triple_ret. rewrite Hc2 in *. split; [done|]. apply sp_complete; [done..|].
    simpl. by rewrite En.
  - eapply triple_mono; [apply start_or_throw_spec|].
    intros evs c' (_ & s & Hs & ->). rewrite Hc2 in *. split; [done|].
    apply sp_complete; [done..|by destruct Hrec|]. simpl.
    destruct (String.eqb_spec (derefStr (us_next req)) ""); [done|]. by exists s.
Qed.

Lemma step_fail_spec cx wi user req c :
  us_status req = "failed" → us_escalated req = false →
  triple (step_fail cx wi user req)
    (λ _ c', step_frame c c' ∧ step_post cx wi req c c') c.
Proof.
  intros Hst He. unfold step_fail. rewrite He.
  tstep (λ r c', r = inr tt ∧ c' = set_steps (alter step_reset wi) c).
  { apply triple_exec; [done|]. by intros c' [= <-]. }
  intros r c1 [-> ->]. apply triple_ret_bind.
  eapply triple_bind; [robust|apply insertStepCompletion_spec|].
  intros _ c2 [[Hn Ha Hr] Hc2]. apply triple_ret_bind, triple_ret.
  rewrite Hc2 in *. split; [done|]. by apply sp_fail.
Qed.

(** ** The transaction *)

Lemma step_fail_robust cx wi user req :
  us_escalated req = false → Robust (step_fail cx wi user req).
Proof. intros He. unfold step_fail. rewrite He. solve_robust. Qed.

Lemma update_step_robust cx wi user req :
  us_escalated req = false → Robust (update_step_body cx wi user req).
Proof.
  intros He. pose proof (step_fail_robust cx wi user req He).
  unfold update_step_body. solve_robust.
Qed.

#[export] Instance update_step_commits cx wi user req :
  CommitsOnOk (update_step_body cx wi user req).
Proof. solve_commits. Qed.

(** The events change nothing a later reader of the step tables sees. *)
Lemma step_post_frame cx wi req c c1 c2 :
  wi_step_state c2 = wi_step_state c1 → wi_step_completions c2 = wi_step_completions c1 →
  step_post cx wi req c c1 → step_post cx wi req c c2.
Proof.
  intros H1 H2 [s|? ? [] ?|? [] ?];
    [eapply sp_start|apply sp_complete|apply sp_fail]; try split;
    rewrite ?H1, ?H2; try done.
Qed.

Definition identity_ok (wi : string) (req : UpdateStepRequest) (c : Core) : Prop :=
  ends_step (us_status req) = true → us_heartbeat req = false →
  ∀ s step, wi_step_state c !! wi = Some s → ss_step s = Some step →
            derefStr (us_step req) = step.

Definition step_result (cx : Ctx) (wi : string) (req : UpdateStepRequest) (c c' : Core)
  : Prop :=
  identity_ok wi req c ∧ step_frame c c' ∧ step_post cx wi req c c'.

Lemma update_step_spec cx wi user req c :
  us_escalated req = false →
  wp (update_step_body cx wi user req)
    (commits_to (λ _, step_result cx wi req c)) (VActive c).
Proof.
  intros He. pose proof (step_fail_robust cx wi user req He) as Hrob.
  unfold update_step_body. hstep (λ r c', c' = c ∧ r = select_step wi c).
  { apply triple_query; naive_solver. }
  intros r c1 [-> ->].
  destruct (validateStepIdentity _ _ _ _) as [e|u] eqn:Eid; [apply commits_throw|].
  assert (identity_ok wi req c) as Hid.
  { intros Hends Hhb s step Hs Hstep. unfold validateStepIdentity in Eid.
    rewrite Hends, Hhb in Eid. simpl in Eid. unfold select_step in Eid.
    rewrite Hs, Hstep in Eid. by destruct (String.eqb_spec (derefStr (us_step req)) step). }
  eapply wp_bind_triple; [solve_robust|
    instantiate (1 := λ _ c', step_frame c c' ∧ step_post cx wi req c c')|].
  { destruct (String.eqb_spec (us_status req) "in_progress");
      [by apply step_start_spec|].
    destruct (String.eqb_spec (us_status req) "completed");
      [by apply step_complete_spec|].
    destruct (String.eqb_spec (us_status req) "failed"); [by apply step_fail_spec|].
    apply triple_throw. }
  intros evs c1 Hc1.
  hstep (λ _ c', step_frame c c' ∧ step_post cx wi req c c').
  { apply keeps_triple; [|done]. clear. induction evs as [|ev evs IH]; [apply keeps_ret|].
    apply keeps_bind; [solve_robust| |intros _; apply IH]. unfold insertStepEvent.
    apply keeps_bind; [robust| |intros r; apply keeps_or_throw].
    apply keeps_exec. intros c1 c2 [Hf Hp]. unfold insert_step_event.
    assert (∀ e, insert_event e c1 = inr c2 → step_frame c c2 ∧ step_post cx wi req c c2)
      as Hev.
    { intros e ->%insert_event_inr. split; [by etransitivity|]. by apply (step_post_frame _ _ _ _ c1). }
    destruct (ev_attempt _); [|apply Hev]. destruct (run_attempts c1 !! _); [apply Hev|done]. }
  intros [] c2 [Hf Hp]. by apply wp_commit_tail.
Qed.

(** ** The handler *)

Lemma same_tables_refines c c' : keyed c → same_tables c c' → refines c c'.
Proof. intros Hk [Hw Ha Hl _]. by apply refines_same. Qed.

Lemma step_credential_refines env f cx wi req d0 d :
  Wf (core d) → refines (core d) (core (step_credential env f cx wi req d0 d).2).
Proof.
  intros HW. unfold step_credential. destruct (_ && _).
  - by apply VerifyAttemptCredentialPool_refines.
  - destruct HW. by apply refines_refl.
Qed.

(** A failure that is escalated may block the item besides. *)
Definition escalating : Mode := mkMode false true.

Definition may_escalate (c c' : Core) : Prop := keyed c → refines_with escalating c c'.

#[export] Instance may_escalate_preorder : PreOrder may_escalate.
Proof.
  split; [intros c Hk; by apply refines_refl|].
  intros c1 c2 c3 H12 H23 Hk. destruct (H12 Hk) as [Hk2 Hs].
  destruct (H23 Hk2) as [Hk3 Hs']. split; [done|]. by etransitivity.
Qed.

Lemma same_tables_may c c' : same_tables c c' → may_escalate c c'.
Proof. intros Hs Hk. by apply refines_weaken, same_tables_refines. Qed.

Lemma step_event_same e c c' : insert_step_event e c = inr c' → same_tables c c'.
Proof.
  unfold insert_step_event.
  destruct (ev_attempt e); [destruct (run_attempts c !! _); [|done]|];
    intros ->%insert_event_inr; by split.
Qed.

Lemma start_step_same now wi st sa c b c' :
  start_step_sql now wi st sa c = inr (b, c') → same_tables c c'.
Proof. unfold start_step_sql. repeat case_match; intros [= _ <-]; by split. Qed.

Lemma step_completion_same sa sc c c' :
  insert_step_completion sa sc c = inr c' → same_tables c c'.
Proof. unfold insert_step_completion. repeat case_match; intros [= <-]; by split. Qed.

Lemma blocked_may now wi c :
  may_escalate c (set_work_items (alter (wi_with_status now WBlocked) wi) c).
Proof.
  intros Hk. destruct (work_items c !! wi) as [w|] eqn:Hw.
  - eapply status_refines; [done|done|]. unfold abs. simpl. apply a_escalate; [done|].
    by rewrite lookup_fmap, Hw.
  - apply refines_weaken, refines_same; [done|]. simpl. split; [|done]. apply map_eq.
    intros i. destruct (decide (i = wi)) as [->|?]; [by rewrite lookup_alter_eq, Hw|].
    by rewrite lookup_alter_ne.
Qed.

Lemma escalate_may cx wi att user req : Moves may_escalate (escalate cx wi att user req).
Proof.
  intros s. unfold escalate. destruct (tx_phase s) eqn:E; try exact E.
  destruct (next_fault _) as [f1 fs1], (next_fault _) as [f2 fs2],
    (next_fault _) as [f3 fs3], (next_fault _) as [f4 fs4]. cbv zeta.
  destruct f1; [done|]. destruct f4; [by destruct f2, f3|].
  destruct f2, f3; simpl; try reflexivity.
  destruct (insert_step_event _ _) as [|c1] eqn:Ec; simpl; [reflexivity|].
  etransitivity; [apply blocked_may|]. by eapply same_tables_may, step_event_same.
Qed.

Lemma update_step_may cx wi user req :
  Moves may_escalate (update_step_body cx wi user req).
Proof.
  pose proof escalate_may. solve_moves; intros; apply same_tables_may;
    solve [by eapply step_event_same | by eapply start_step_same
          | by eapply step_completion_same | simplify_eq/=; by split].
Qed.

Lemma update_step_tx_refines env cx wi user req d :
  us_escalated req = false → Wf (core d) →
  refines (core d) (core (runTx env (update_step_body cx wi user req) d).2).
Proof.
  intros He [Hk _]. pose proof (update_step_robust cx wi user req He).
  apply same_tables_refines; [done|]. eapply runTx_invariant;
    [done|apply _|by apply update_step_spec|done|]. by intros [] c' (_ & [Hs _] & _).
Qed.

(** The mode of a step transition. *)
Definition step_mode (req : UpdateStepRequest) : Mode := mkMode false (us_escalated req).

Lemma step_tx_refines env cx wi user req d :
  Wf (core d) →
  refines_with (step_mode req) (core d) (core (runTx env (update_step_body cx wi user req) d).2).
Proof.
  intros HW. unfold step_mode. destruct (us_escalated req) eqn:He.
  - pose proof HW as [Hk _]. revert Hk.
    apply (runTx_moves may_escalate (update_step_body cx wi user req)), update_step_may.
  - by apply update_step_tx_refines.
Qed.

Lemma handleUpdateStep_refines env1 env2 f1 f2 cx wi user req d0 d :
  Wf (core d) →
  refines_with (step_mode req) (core d)
    (core (handleUpdateStep env1 env2 f1 f2 cx wi user req d0 d).2).
Proof.
  intros HW. pose proof (step_credential_refines env1 f1 cx wi req d0 d HW) as H1.
  apply (refines_weaken (step_mode req)) in H1.
  unfold handleUpdateStep. destruct (step_credential _ _ _ _ _ _ _) as [[e|[]] d1];
    [done|]. simpl in H1. destruct (validateNextStepArgs _ _ _ _); [done|].
  assert (∀ d2, same_tables (core d1) (core d2) →
    refines_with (step_mode req) (core d) (core d2)) as Hsame.
  { intros d2 Hs. destruct H1 as [Hk1 Hst].
    destruct (refines_weaken (step_mode req) _ _ (same_tables_refines _ _ Hk1 Hs)) as
      [Hk2 Hst2]. split; [done|]. by etransitivity. }
  destruct (us_heartbeat req).
  { unfold heartbeat_update. destruct f2; by apply Hsame. }
  destruct (rbind _ _); [by apply Hsame|].
  assert (Wf (core d1)) as HW1 by (by eapply refines_wf).
  destruct H1 as [_ Hst], (step_tx_refines env2 cx wi user req d1 HW1) as [Hk2 Hst2].
  split; [done|]. by etransitivity.
Qed.
