(* ===== verification/CreateSpec.v ===== *)
(** * What the creation of a work item commits

    The tables [CreateWorkItem] found and those it leaves when it commits, and
    that it refines the transition [a_create] of [LifecycleSpec]. *)

From stdpp Require Import pretty relations.
From S2P Require Import Prelude GoStrings Errors Json Crypto Declared Flow Policy.
From S2P Require Import WorkflowTables WorkflowPin Store TxLogic LifecycleSpec ResourceEvents.
From S2P Require Import Attempts Claim Lifecycle Takeover Handover Edit WorkflowStart.
From S2P Require Import WorkflowRevise Dependencies Dedup Create WorkflowReads WorkflowSpec.

Open Scope nat_scope.
Open Scope list_scope.

(** ** References *)

(** [ref] names the item [id], and the caller may see it. *)
Definition visible_ref (c : Core) (project : string) (roles : gmap string string)
  (role ref id : string) : Prop :=
  ∃ w, work_items c !! id = Some w ∧ ref_visible ref project roles role (id, w) = true.

Lemma resolveVisibleRef_reads ref project roles role c :
  reads (resolveVisibleRefOnTx ref project roles role) c (visible_ref c project roles role ref).
Proof.
  unfold resolveVisibleRefOnTx. rstep reads_query. intros r ->.
  destruct (List.find _ _) as [[id w]|] eqn:E; [|apply reads_throw].
  apply reads_ret. exists w. apply List.find_some in E as [Hin Hv].
  split; [|done]. by apply elem_of_map_to_list, list_elem_of_In.
Qed.

Definition parent_resolved (c : Core) (q : CreateWorkItemRequest) (roles : gmap string string)
  (role : string) (parent : option string) : Prop :=
  match cq_parent q with
  | Some p =>
      if String.eqb (trimSpace p) "" then parent = None
      else ∃ id, parent = Some id ∧ visible_ref c (cq_project q) roles role (trimSpace p) id
  | None => parent = None
  end.

Lemma resolve_parent_reads q roles role c :
  reads (resolve_parent q roles role) c (parent_resolved c q roles role).
Proof.
  unfold resolve_parent, parent_resolved. destruct (cq_parent q) as [p|]; [|by apply reads_ret].
  destruct (String.eqb _ _); [by apply reads_ret|]. rstep resolveVisibleRef_reads.
  intros id Hid. apply reads_ret. by exists id.
Qed.

(** ** The statements *)

(** Everything but the events. *)
Record same_rows (c c' : Core) : Prop := {
  sr_wi : work_items c' = work_items c;
  sr_att : run_attempts c' = run_attempts c;
  sr_locks : resource_locks c' = resource_locks c;
  sr_steps : wi_step_state c' = wi_step_state c;
  sr_completions : wi_step_completions c' = wi_step_completions c;
  sr_memories : memories c' = memories c;
  sr_workflow : workflow c' = workflow c;
  sr_projects : projects c' = projects c;
  sr_registry : registry c' = registry c;
}.

#[export] Instance same_rows_preorder : PreOrder same_rows.
Proof. split; [by split|]. intros ??? [] []. split; congruence. Qed.

(** [id] has one more blocker for each element of [B]. *)
Record edges_added (id : string) (B : gset string) (c c' : Core) : Prop := {
  ea_rows : same_rows c c';
  ea_deps k n : wi_dependencies c' !! k = Some n ↔
    wi_dependencies c !! k = Some n ∨ n = None ∧ ∃ b, b ∈ B ∧ k = (id, b, "blocks");
}.

Lemma edges_added_none id c c' :
  same_rows c c' → wi_dependencies c' = wi_dependencies c → edges_added id ∅ c c'.
Proof.
  intros Hs Hd. split; [done|]. intros k n. rewrite Hd. split; [by left|].
  by intros [|(_ & b & []%not_elem_of_empty & _)].
Qed.

Lemma edges_added_trans id B B' c c1 c' :
  edges_added id B c c1 → edges_added id B' c1 c' → edges_added id (B ∪ B') c c'.
Proof.
  intros [H1 H2] [H3 H4]. split; [by etransitivity|]. intros k n. rewrite H4, H2.
  set_solver.
Qed.

Lemma insert_blocker_ok id b c c' :
  insert_blocker id b c = inr c' →
  wi_dependencies c !! (id, b, "blocks") = None ∧ edges_added id {[b]} c c'.
Proof.
  unfold insert_blocker, insert_dep. destruct (_ || _); [done|]. cbn [fst snd].
  destruct (work_items c !! id), (work_items c !! b); try done.
  destruct (wi_dependencies c !! _) eqn:E; [done|]. intros [= <-]. split; [done|].
  split; [done|]. intros k n. simpl. rewrite lookup_insert_Some. split.
  - intros [[<- <-]|[_ ?]]; [right|by left]. set_solver.
  - intros [H|[-> (b' & ->%elem_of_singleton & ->)]]; [|by left].
    right. split; [|done]. intros <-. congruence.
Qed.

(** The blockers named, none of them the new item. *)
Definition blockers_resolved (c : Core) (id : string) (q : CreateWorkItemRequest)
  (roles : gmap string string) (role : string) (ids : list string) : Prop :=
  Forall2 (λ ref b, b ≠ id ∧ visible_ref c (cq_project q) roles role ref b)
    (cq_blocked_by q) ids.

Lemma visible_ref_same c c' project roles role ref id :
  work_items c' = work_items c →
  visible_ref c' project roles role ref id → visible_ref c project roles role ref id.
Proof. intros H (w & Hw & Hv). exists w. by rewrite <- H. Qed.

Lemma create_blockers_spec id user display q roles role refs seen c :
  triple (create_blockers id user display q roles role seen refs) (λ _ c', ∃ ids,
    Forall2 (λ ref b, b ≠ id ∧ visible_ref c (cq_project q) roles role ref b) refs ids
    ∧ edges_added id (list_to_set ids ∖ seen) c c'
    ∧ ∀ b, b ∈ ids → b ∉ seen → wi_dependencies c !! (id, b, "blocks") = None) c.
Proof.
  revert seen c. induction refs as [|ref refs IH]; intros seen c.
  { apply triple_ret. exists []. split; [constructor|]. split; [|set_solver].
    replace (list_to_set [] ∖ seen) with (∅ : gset string) by set_solver.
    by apply edges_added_none. }
  simpl. tstep (λ seen' c', ∃ b, b ≠ id ∧ visible_ref c (cq_project q) roles role ref b
    ∧ seen' = {[b]} ∪ seen ∧ edges_added id ({[b]} ∖ seen) c c'
    ∧ (b ∉ seen → wi_dependencies c !! (id, b, "blocks") = None)).
  { unfold create_blocker. eapply triple_bind; [robust|apply resolveVisibleRef_reads|].
    intros b c0 [-> Hb]. destruct (String.eqb_spec b id) as [|Hne]; [apply triple_throw|].
    destruct (bool_decide_reflect (b ∈ seen)) as [Hs|Hs].
    - apply triple_ret. exists b. split_and!; [done|done|set_solver| |done].
      replace ({[b]} ∖ seen) with (∅ : gset string) by set_solver. by apply edges_added_none.
    - apply triple_exec_or_throw; [robust|]. intros c1 [Hf [Hr Hd]]%insert_blocker_ok.
      unfold emitDependencyCreatedEvent. apply triple_exec_or_throw; [robust|].
      intros c2 ->%insert_event_inr. apply triple_ret. exists b. split_and!; try done.
      split; [|intros k n; simpl; rewrite Hd; set_solver]. destruct Hr. by split. }
  intros seen' c1 (b & Hne & Hb & -> & Hadd & Hfree).
  eapply triple_mono; [apply IH|]. intros [] c2 (ids & Hids & Hadd2 & Hfree2).
  destruct Hadd as [Hrows Hdeps]. exists (b :: ids). split_and!.
  - constructor; [done|]. eapply Forall2_impl; [exact Hids|]. intros r i [? ?].
    split; [done|]. eapply visible_ref_same; [|done]. apply Hrows.
  - replace (list_to_set (b :: ids) ∖ seen)
      with (({[b]} ∖ seen) ∪ (list_to_set ids ∖ ({[b]} ∪ seen)) : gset string).
    + by eapply edges_added_trans; [by split|].
    + apply set_eq. intros x. simpl. destruct (decide (x = b)); set_solver.
  - intros x [->|Hx]%elem_of_cons Hs; [by apply Hfree|]. destruct (decide (x = b)) as [->|].
    { by apply Hfree. }
    specialize (Hfree2 x Hx ltac:(set_solver)). apply eq_None_not_Some. intros [m Hm].
    assert (wi_dependencies c1 !! (id, x, "blocks") = Some m) as E by (apply Hdeps; by left).
    congruence.
Qed.

(** The last number given in a project. *)
Definition last_seq (c : Core) (project : string) : option Z := pr_seq <$> projects c !! project.

Lemma next_seq_ok project c n c' :
  next_seq project c = inr (n, c') →
  last_seq c project = Some (n - 1)%Z ∧ (n < 2 ^ 63)%Z
  ∧ c' = set_projects (alter (pr_with_seq n) project) c.
Proof.
  unfold next_seq, last_seq. destruct (projects c !! project) as [p|]; [|done]. cbv zeta.
  destruct (Z.ltb_spec (pr_seq p + 1) (2 ^ 63)); [|done]. intros [= <- <-].
  split; [|done]. simpl. f_equal. lia.
Qed.

Lemma take_seq_spec project c :
  triple (take_seq project) (λ n c', next_seq project c = inr (n, c')) c.
Proof.
  unfold take_seq. tstep (λ r c', match r with
    | inr n => next_seq project c = inr (n, c') | inl _ => True end).
  { by apply triple_stmt. }
  intros [[]|n] c' H; try apply triple_throw; [|by apply triple_ret].
  destruct (String.eqb _ _); apply triple_throw.
Qed.

Definition drop_pointer (id : string) (t : WorkflowTables) : WorkflowTables :=
  mkWf (delete id (wf_pointers t)) (wf_generations t) (wf_invocations t) (wf_results t)
    (wf_approvals t) (wf_repairs t).

(** No item has this number in this project. *)
Definition seq_free (project : string) (n : Z) (c : Core) : Prop :=
  ∀ i w, work_items c !! i = Some w → wi_project w = project → doc_seq (wi_doc w) ≠ n.

Lemma insert_work_item_ok w c c' :
  insert_work_item w c = inr c' →
  work_items c !! wi_id w = None ∧ seq_free (wi_project w) (doc_seq (wi_doc w)) c
  ∧ (∀ p, doc_parent (wi_doc w) = Some p → is_Some (work_items c !! p))
  ∧ c' = set_workflow (drop_pointer (wi_id w)) (set_work_items <[wi_id w := w]> c).
Proof.
  unfold insert_work_item.
  destruct (bool_decide_reflect (is_Some (work_items c !! wi_id w))) as [|Hf]; [done|].
  destruct (existsb _ _) eqn:Ex; [done|]. destruct (negb (insert_checks _ _ _)); [done|].
  simpl. destruct (negb _ || _) eqn:Ep; [done|]. intros [= <-].
  apply orb_false_iff in Ep as [_ Hp].
  split; [by apply eq_None_not_Some|]. split; [|split; [|done]].
  - intros i v Hv Hpr Hn. eapply not_true_iff_false; [exact Ex|]. apply existsb_exists.
    exists (i, v). rewrite <- list_elem_of_In, elem_of_map_to_list.
    split; [done|]. cbn [snd]. by rewrite Hpr, Hn, String.eqb_refl, Z.eqb_refl.
  - intros p E. rewrite E in Hp. by apply negb_false_iff, bool_decide_eq_true in Hp.
Qed.

(** ** The new row *)

(** The row of the new item when the creation commits. *)
Definition final_row (now : Z) (q : CreateWorkItemRequest) (w : WorkItem) : WorkItem :=
  let w := match cq_steps q with Some _ => wi_with_mode "db" w | None => w end in
  if bool_decide (cq_blocked_by q = []) then w else wi_with_status now WBlocked w.

(** The tables of workflows afterwards. *)
Definition first_generation (o : Outside) (cx : Ctx) (id user : string)
  (q : CreateWorkItemRequest) (t t' : WorkflowTables) : Prop :=
  match cq_steps q with
  | None => t' = t
  | Some steps => ∃ caller pin,
      cq_caller q = Some caller
      ∧ pinWorkflowGeneration o 1 caller (default false (cq_rhs q)) steps = inr pin
      ∧ wf_generations t !! (id, 1%Z) = None
      ∧ t' = set_generation id 1 (new_generation cx pin (default false (cq_rhs q)) user) t
  end.

Lemma pin_first_spec o cx id project user caller rhs steps c w :
  work_items c !! id = Some w →
  triple (pinFirstWorkflowGenerationInTx o cx id project user caller rhs steps)
    (λ _ c', ∃ pin, pinWorkflowGeneration o 1 caller rhs steps = inr pin
       ∧ wf_generations (workflow c) !! (id, 1%Z) = None
       ∧ edges_added id ∅ (set_workflow (set_generation id 1 (new_generation cx pin rhs user))
                      (set_work_items (alter (wi_with_mode "db") id) c)) c') c.
Proof.
  intros Hw. unfold pinFirstWorkflowGenerationInTx.
  eapply triple_bind; [robust|apply reads_throw_result|]. intros pin c0 [-> Hpin].
  apply triple_exec_or_throw; [robust|]. intros c1 (_ & Hfr & _ & ->)%insert_generation_ok.
  apply triple_exec_or_throw; [robust|]. intros c2. unfold pin_pointer.
  cbn [work_items set_workflow]. rewrite Hw. intros [= <-].
  apply triple_exec_throw. intros c3 ->%insert_event_inr. exists pin. split_and!; [done|done|].
  by apply edges_added_none.
Qed.

Lemma map_err_triple {A} f (m : Tx A) (Q : A → Core → Prop) c :
  triple m Q c → triple (map_err f m) Q c.
Proof.
  intros H s Hs. destruct (H s Hs) as (v & Hv & HP). exists v. unfold map_err.
  destruct (m s) as [[e|a] s']; simpl in *; [|done]. split; [done|]. by destruct v.
Qed.

Lemma create_pin_spec o cx id user q c w :
  work_items c !! id = Some w →
  triple (create_pin o cx id user q) (λ _ c', ∃ t,
    first_generation o cx id user q (workflow c) t
    ∧ edges_added id ∅ (set_workflow (λ _, t) (set_work_items (alter (λ w, match cq_steps q with
        Some _ => wi_with_mode "db" w | None => w end) id) c)) c') c.
Proof.
  intros Hw. unfold create_pin, first_generation. destruct (cq_steps q) as [steps|].
  - destruct (cq_caller q) as [caller|]; [|apply triple_throw]. apply map_err_triple.
    eapply triple_mono; [by eapply pin_first_spec|]. intros [] c' (pin & Hp & Hf & [Hr Hd]).
    eexists. split; [by exists caller, pin|]. split; [|done]. by destruct Hr.
  - apply triple_ret. exists (workflow c). split; [done|]. apply edges_added_none; [|done].
    split; try done. simpl. apply map_eq. intros i. destruct (decide (id = i)) as [->|Hne].
    + by rewrite lookup_alter_eq, Hw.
    + by rewrite lookup_alter_ne.
Qed.

(** ** The creation *)

Definition duplicates_checked (lower_rune : string → string)
  (jsonb_contains : RawMessage → RawMessage → bool) (cx : Ctx) (q : CreateWorkItemRequest)
  (c0 : Core) : Prop :=
  if cq_force q then 10 <= String.length (cq_force_reason q)
  else dedup_verdict lower_rune (cx_scan cx) (dedup_key q)
         (candidates jsonb_contains (dedup_key q) c0) = None.

(** From [c] the creation of [id] leaves [c']; [q] is the request with its
    defaults, [w] the row inserted, [ids] the blockers its references name. *)
Record created (o : Outside) (cx : Ctx) (id user display : string)
  (roles : gmap string string) (role : string) (q : CreateWorkItemRequest) (mode : string)
  (c : Core) (w : WorkItem) (ids : list string) (c' : Core) : Prop := {
  cr_fresh : work_items c !! id = None;
  cr_row : ∃ parent declared attrs,
    jsonb (cq_declared q) = inr declared ∧ jsonb (cq_attrs q) = inr attrs
    ∧ parent_resolved c q roles role parent
    ∧ w = created_row id user display mode parent (doc_seq (wi_doc w)) declared attrs q;
  cr_seq : last_seq c (cq_project q) = Some (doc_seq (wi_doc w) - 1)%Z
    ∧ (doc_seq (wi_doc w) < 2 ^ 63)%Z ∧ seq_free (cq_project q) (doc_seq (wi_doc w)) c;
  cr_blockers : blockers_resolved c id q roles role ids;
  cr_edges b : b ∈ ids → wi_dependencies c !! (id, b, "blocks") = None;
  cr_items : work_items c' = <[id := final_row (cx_now cx) q w]> (work_items c);
  cr_deps k n : wi_dependencies c' !! k = Some n ↔
    wi_dependencies c !! k = Some n ∨ n = None ∧ ∃ b, b ∈ ids ∧ k = (id, b, "blocks");
  cr_projects : projects c' = alter (pr_with_seq (doc_seq (wi_doc w))) (cq_project q) (projects c);
  cr_registry : registry c' = registry c;
  cr_attempts : run_attempts c' = run_attempts c;
  cr_locks : resource_locks c' = resource_locks c;
  cr_steps : wi_step_state c' = wi_step_state c
    ∧ wi_step_completions c' = wi_step_completions c ∧ memories c' = memories c;
  cr_workflow : first_generation o cx id user q (drop_pointer id (workflow c)) (workflow c');
}.

Section body.
Context (lower_rune : string → string) (jsonb_contains : RawMessage → RawMessage → bool).

Lemma create_gate_reads cx q d0 c :
  reads (create_gate lower_rune jsonb_contains cx q d0) c
    (λ _, duplicates_checked lower_rune jsonb_contains cx q (core d0)).
Proof.
  unfold create_gate, duplicates_checked. destruct (cq_force q); cbn [negb].
  - destruct (Nat.ltb_spec (String.length (cq_force_reason q)) 10); [apply reads_throw|].
    by apply reads_ret.
  - unfold checkDedup. rstep reads_query. intros r ->.
    eapply reads_mono; [apply throw_opt_reads|]. by intros [].
Qed.

Lemma insert_created_ok id user display mode parent seq q c c' :
  insert_created id user display mode parent seq q c = inr c' →
  ∃ declared attrs, jsonb (cq_declared q) = inr declared ∧ jsonb (cq_attrs q) = inr attrs
  ∧ insert_work_item (created_row id user display mode parent seq declared attrs q) c = inr c'.
Proof.
  unfold insert_created. rewrite rbind_ok. intros ([] & _ & H). revert H.
  rewrite rbind_ok. intros (declared & ? & H). revert H.
  rewrite rbind_ok. intros (attrs & ? & ?). by exists declared, attrs.
Qed.

Lemma create_body_spec o cx id user display roles role q mode d0 c :
  wp (create_body lower_rune jsonb_contains o cx id user display roles role q mode d0)
    (commits_to (λ _ c', ∃ w ids, created o cx id user display roles role q mode c w ids c'
       ∧ duplicates_checked lower_rune jsonb_contains cx q (core d0))) (VActive c).
Proof.
  unfold create_body. hread create_gate_reads. intros [] Hdup.
  hread resolve_parent_reads. intros parent Hparent.
  eapply wp_bind_triple; [robust|apply take_seq_spec|].
  intros n c0 (Hn & Hlt & ->)%next_seq_ok.
  hstep (λ r c', match r with
    | inr _ => insert_created id user display mode parent n q
                 (set_projects (alter (pr_with_seq n) (cq_project q)) c) = inr c'
    | inl _ => True end); [by apply triple_exec|].
  intros [e|[]] c1 H1; [apply commits_throw|]. apply wp_bind, wp_ret.
  apply insert_created_ok in H1 as (declared & attrs & Hd & Ha & Hins).
  apply insert_work_item_ok in Hins as (Hfr & Hseq & _ & ->).
  set (w := created_row id user display mode parent n declared attrs q) in *.
  change (wi_id w) with id in *. change (wi_project w) with (cq_project q) in Hseq.
  change (doc_seq (wi_doc w)) with n in Hseq. cbn [work_items set_projects] in Hfr, Hseq.
  apply wp_bind, wp_exec.
  destruct (insert_event _ _) as [[|e|]|c2] eqn:Eev;
    [by apply insert_event_some in Eev|by apply wp_bind, wp_throw|by apply wp_bind, wp_throw|].
  apply wp_bind, wp_ret. apply insert_event_inr in Eev.
  set (c2' := add_event _ _) in Eev. subst c2. rename c2' into c2.
  eapply wp_bind_triple; [robust|apply (create_pin_spec o cx id user q c2 w);
    cbn; by rewrite lookup_insert_eq|].
  intros [] c3 (t & Ht & [Hr3 Hd3]).
  eapply wp_bind_triple; [robust|apply create_blockers_spec|].
  intros [] c4 (ids & Hids & [Hr4 Hd4] & Hfree).
  set (w3 := match cq_steps q with Some _ => wi_with_mode "db" w | None => w end).
  assert (work_items c4 = <[id := w3]> (work_items c)) as Hw4.
  { rewrite (sr_wi _ _ Hr4), (sr_wi _ _ Hr3). simpl.
    rewrite (alter_as_insert _ _ _ w) by by rewrite lookup_insert_eq.
    rewrite insert_insert_eq. done. }
  hstep (λ _ c', edges_added id ∅ (set_work_items (alter
    (λ w, if bool_decide (cq_blocked_by q = []) then w else wi_with_status (cx_now cx) WBlocked w)
    id) c4) c').
  { destruct (bool_decide _).
    - apply triple_ret. apply edges_added_none; [|done]. split; try done. simpl. rewrite Hw4.
      by rewrite (alter_as_insert _ _ _ w3), insert_insert_eq by by rewrite lookup_insert_eq.
    - apply triple_exec_throw. intros c' [= <-]. by apply edges_added_none. }
  intros [] c5 [Hr5 Hd5]. apply wp_commit_tail. exists w, ids. split; [|done].
  destruct Hr3, Hr4, Hr5. subst c2. simpl in *. split; try done; try congruence.
  - by exists parent, declared, attrs.
  - eapply Forall2_impl; [exact Hids|]. intros ref b [Hne (v & Hv & Hvis)].
    split; [done|]. exists v. split; [|done]. revert Hv. rewrite sr_wi0. simpl.
    rewrite lookup_alter_ne, lookup_insert_ne; done.
  - intros b Hb. specialize (Hfree b Hb ltac:(set_solver)). apply eq_None_not_Some.
    intros [m Hm]. enough (wi_dependencies c3 !! (id, b, "blocks") = Some m) by congruence.
    apply Hd3. by left.
  - rewrite sr_wi2. simpl. rewrite Hw4.
    by rewrite (alter_as_insert _ _ _ w3), insert_insert_eq by by rewrite lookup_insert_eq.
  - intros k m. rewrite Hd5. simpl. rewrite Hd4, Hd3. simpl.
    setoid_rewrite elem_of_difference. setoid_rewrite elem_of_list_to_set.
    setoid_rewrite elem_of_empty. clear. naive_solver.
  - rewrite sr_projects2. simpl. rewrite sr_projects1, sr_projects0. done.
  - split_and!; congruence.
Qed.
End body.

(** ** Refinement *)

Lemma final_row_id now q w : wi_id (final_row now q w) = wi_id w.
Proof. unfold final_row. by destruct (cq_steps q), (bool_decide _). Qed.

Lemma final_row_abs now q w :
  abs_wi (final_row now q w) =
  mkAWi (if bool_decide (cq_blocked_by q = []) then wi_status w else WBlocked)
    (wi_current w) (wi_epoch w).
Proof. unfold final_row. by destruct (cq_steps q), (bool_decide _). Qed.

Lemma created_row_id o cx id user display roles role q mode c w ids c' :
  created o cx id user display roles role q mode c w ids c' → wi_id w = id.
Proof. by intros [_ (p & d & a & _ & _ & _ & ->)]. Qed.

Lemma created_refines o cx id user display roles role q mode c w ids c' :
  Wf c → created o cx id user display roles role q mode c w ids c' → refines c c'.
Proof.
  intros [Hk HI] H. pose proof (created_row_id _ _ _ _ _ _ _ _ _ _ _ _ _ H) as Hid.
  destruct H as [Hfr (p & dcl & at_ & _ & _ & _ & Hw) _ _ _ Hi _ _ _ Ha Hl _ _]. split.
  - intros i v. rewrite Hi, lookup_insert_Some. intros [[<- <-]|[_ Hv]]; [|by apply Hk].
    by rewrite final_row_id.
  - apply rtc_once. unfold abs. rewrite Hi, Ha, Hl, fmap_insert, final_row_abs, Hw.
    cbn [created_row wi_status wi_current wi_epoch].
    apply a_create.
    + by rewrite lookup_fmap, Hfr.
    + intros a x Hx E. destruct (inv_owner _ HI a x Hx) as (v & Hv & _).
      cbn [a_wis abs] in Hv. rewrite E, lookup_fmap, Hfr in Hv. done.
    + destruct (bool_decide _); auto.
Qed.

(** Whatever the faults: nothing, or the creation. *)
Definition create_outcome (c c' : Core) : Prop :=
  c' = c ∨ ∃ o cx id user display roles role q mode w ids,
    created o cx id user display roles role q mode c w ids c'.

Lemma CreateWorkItem_outcome url lower contains o env f cx id user display roles role req later
  d0 d :
  create_outcome (core d) (core (CreateWorkItem url lower contains o env f cx id user display
    roles role req later d0 d).2).
Proof.
  unfold CreateWorkItem. destruct (create_checks url req) as [e|[q mode]]; [by left|].
  assert (create_outcome (core d) (core (runTx env (create_body lower contains o cx id user
    display roles role q mode d0) d).2)) as H.
  { eapply runTx_invariant; [apply _..|apply create_body_spec|by left|].
    intros [] c' (w & ids & H & _). right. eexists _, _, _, _, _, _, _, _, _, _, _. exact H. }
  by destruct (runTx env _ d) as [[|] d'].
Qed.

Lemma create_outcome_refines c c' : Wf c → create_outcome c c' → refines c c'.
Proof.
  intros HW [->|(?&?&?&?&?&?&?&?&?&?&?& H)]; [by apply refines_refl, HW|].
  by eapply created_refines.
Qed.
