(* ===== verification/System.v ===== *)
(** * The lifecycle as a system

    Executions: any handler, with any arguments and any faults, on any
    database the previous ones left; a handler that reads before its
    transaction may have read any earlier state.  The theorems about them are
    the promises of the lifecycle to its clients. *)

From S2P Require Import Prelude GoStrings Errors Json Crypto Declared Locks Store.
From S2P Require Import TxLogic LifecycleSpec ResourceEvents Attempts Claim Complete.
From S2P Require Import Takeover Dependencies StepUpdate Lifecycle Handover DepGraph.
From S2P Require Import StepSpec CommitLocks CommitSpec Edit EditSpec WorkflowTables.
From S2P Require Import WorkflowPin WorkflowStart WorkflowRun WorkflowRepair WorkflowRevise.
From S2P Require Import WorkflowLifecycle Create CreateSpec WorkflowTables.
From stdpp Require Import relations.

Open Scope list_scope.

(** ** Executions *)

(** One request; [h] holds the earlier states a handler may have read, and the
    mode [m] says whether a takeover decided on such a state, and a step
    transition that escalates, may occur.  A step transition comes as the whole
    handler, or as its transaction alone, when other requests ran between the
    handler's credential check and that transaction.  Each transaction runs
    without another committing between its first statement and its COMMIT. *)
Inductive request (m : Mode) (h : list Db) (d : Db) : Db → Prop :=
  | r_claim env cx wiID req caller :
      epoch_room (core d) → cx_attempt cx ≠ "" →
      request m h d (FnClaimWorkItem env cx wiID req caller d).2
  | r_complete env cx wiID req roles role :
      request m h d (FnCompleteAttempt env cx wiID req roles role d).2
  | r_takeover env f1 f2 cx wiID user display role roles req gen d0 :
      stale_takeovers m = true → d0 ∈ h → epoch_room (core d0) → cx_attempt cx ≠ "" →
      request m h d
        (FnForceTakeover env f1 f2 cx wiID user display role roles req gen d0 d).2
  | r_acquire env cx wiID req : request m h d (FnAcquireLocks env cx wiID req d).2
  | r_commit_locks env cx wiID req :
      request m h d (FnReconcileCommitLocks env cx wiID req d).2
  | r_pins env cx wiID req pins :
      request m h d (FnRecordRepoPins env cx wiID req pins d).2
  | r_verify env f cx wiID req d0 :
      d0 ∈ h → request m h d (VerifyAttemptCredentialPool env f cx wiID req d0 d).2
  | r_cancel env f cx key user role roles d0 :
      d0 ∈ h → request m h d (CancelWorkItem env f cx key user role roles d0 d).2
  | r_edit url env f1 f2 cx key user role roles req later d0 :
      d0 ∈ h →
      request m h d (UpdateWorkItem url env f1 f2 cx key user role roles req later d0 d).2
  | r_add_dep env f1 f2 f3 cx req user roles role d0 :
      d0 ∈ h →
      request m h d (CreateDependency env f1 f2 f3 cx req user roles role d0 d).2
  | r_del_dep env cx blocked blocking kind :
      request m h d (DeleteDependency env cx blocked blocking kind d).2
  | r_unblock env1 env2 f cx key user role reason d0 :
      d0 ∈ h →
      request m h d (handleUnblockWorkItem env1 env2 f cx key user role reason d0 d).2
  | r_step env1 env2 f1 f2 cx wi user req d0 :
      d0 ∈ h → (us_escalated req = true → escalations m = true) →
      request m h d (handleUpdateStep env1 env2 f1 f2 cx wi user req d0 d).2
  | r_step_tx env cx wi user req :
      (us_escalated req = true → escalations m = true) →
      request m h d (runTx env (update_step_body cx wi user req) d).2
  | r_wf_start o env cx ids key req :
      request m h d (StartWorkflowStep o env cx ids key req d).2
  | r_wf_result o env cx ids key req :
      request m h d (RecordWorkflowResult o env cx ids key req d).2
  | r_wf_approve env f cx ids key actor display typ req later :
      request m h d (ApproveWorkflowStep env f cx ids key actor display typ req later d).2
  | r_wf_repair env f cx ids key req later :
      request m h d (AuthorizeWorkflowRepair env f cx ids key req later d).2
  | r_wf_reconcile env cx key req :
      request m h d (ReconcileWorkflowInvocations env cx key req d).2
  | r_wf_revise o env cx key caller user role roles req later :
      request m h d
        (UpdateWorkItemWorkflow o env cx key caller user role roles req later d).2
  | r_create url lower contains o env f cx id user display roles role req later d0 :
      d0 ∈ h →
      request m h d (CreateWorkItem url lower contains o env f cx id user display roles role
                        req later d0 d).2
  | r_sweep_locks lock env cx : request m h d (RunOrphanLockSweep lock env cx d).2
  | r_sweep_blocked lock env cx : request m h d (RunUnblockDependentWI lock env cx d).2.

(** [run m d0 h d]: from [d0] some requests lead to [d]; [h] is every state on
    the way, [d] first. *)
Inductive run (m : Mode) (d0 : Db) : list Db → Db → Prop :=
  | run_init : run m d0 [d0] d0
  | run_step h d d' : run m d0 h d → request m h d d' → run m d0 (d' :: h) d'.

Lemma request_refines m h d d' :
  Wf (core d) → (∀ ds, ds ∈ h → earlier (core ds) (core d)) → request m h d d' →
  refines_with m (core d) (core d').
Proof.
  intros HW Hh. destruct 1;
    lazymatch goal with
    | |- context [FnForceTakeover] =>
        apply (refines_mono takeovers); [by split|apply FnForceTakeover_refines; by auto]
    | |- context [handleUpdateStep] => apply (refines_mono (step_mode req)); [by split|]
    | |- context [update_step_body] => apply (refines_mono (step_mode req)); [by split|]
    | _ => apply refines_weaken
    end.
  - by apply FnClaimWorkItem_refines.
  - by apply FnCompleteAttempt_refines.
  - by apply FnAcquireLocks_refines.
  - by apply FnReconcileCommitLocks_refines.
  - by apply FnRecordRepoPins_refines.
  - by apply VerifyAttemptCredentialPool_refines.
  - by apply CancelWorkItem_refines.
  - by apply UpdateWorkItem_refines.
  - by apply CreateDependency_refines.
  - by apply DeleteDependency_refines.
  - by apply handleUnblockWorkItem_refines.
  - by apply handleUpdateStep_refines.
  - by apply step_tx_refines.
  - by apply workflow_outcome_refines, StartWorkflowStep_outcome; try apply HW.
  - by apply workflow_outcome_refines, RecordWorkflowResult_outcome; try apply HW.
  - by apply workflow_outcome_refines, ApproveWorkflowStep_outcome; try apply HW.
  - by apply workflow_outcome_refines, AuthorizeWorkflowRepair_outcome; try apply HW.
  - by apply workflow_outcome_refines, ReconcileWorkflowInvocations_outcome; try apply HW.
  - by apply workflow_outcome_refines, UpdateWorkItemWorkflow_outcome; try apply HW.
  - by apply create_outcome_refines, CreateWorkItem_outcome.
  - by apply RunOrphanLockSweep_refines.
  - by apply RunUnblockDependentWI_refines.
Qed.

Lemma earlier_refines m c0 c c' :
  earlier c0 c → Wf c → refines_with m c c' → earlier c0 c'.
Proof.
  intros [HW Hg] [_ HI] [_ Hs]. split; [done|].
  etransitivity; [exact Hg|]. by eapply asteps_grows.
Qed.

(** Every reachable state is well formed, it is reached by transitions of the
    specification, and every state on the way is an earlier one of it. *)
Lemma run_refines m d0 h d :
  Wf (core d0) → run m d0 h d →
  Wf (core d) ∧ refines_with m (core d0) (core d)
  ∧ ∀ ds, ds ∈ h → earlier (core ds) (core d).
Proof.
  intros HW. induction 1 as [|h d d' _ (IHw & IHr & IHh) Hr].
  - split; [done|]. split; [by apply refines_refl, HW|].
    intros ds ->%list_elem_of_singleton. by split.
  - pose proof (request_refines m h d d' IHw IHh Hr) as Href.
    assert (Wf (core d')) as HW' by (by eapply refines_wf). split; [done|]. split.
    { destruct IHr as [_ H1], Href as [Hk H2]. split; [done|]. by etransitivity. }
    intros ds [->|Hds]%elem_of_cons; [by split|].
    eapply earlier_refines; eauto.
Qed.

(** Without escalations running attempts stay exclusive. *)
Lemma run_exclusive m d0 h d :
  escalations m = false → Wf (core d0) → Exclusive (abs (core d0)) → run m d0 h d →
  Exclusive (abs (core d)).
Proof.
  intros Hm HW HX Hr. destruct (run_refines m d0 h d HW Hr) as (_ & [_ Hs] & _).
  eapply asteps_exclusive; [exact Hm|apply HW|exact Hs|exact HX].
Qed.

Lemma run_wf m d0 h d : Wf (core d0) → run m d0 h d → Wf (core d).
Proof. intros HW Hr. by destruct (run_refines m d0 h d HW Hr). Qed.

(** The empty installation. *)
Definition empty_core : Core := mkCore ∅ ∅ ∅ ∅ ∅ ∅ [] ∅ no_workflows ∅ no_registry.
Definition empty_db : Db := mkDb empty_core [].

Lemma empty_wf : Wf empty_core.
Proof.
  split; [intros i w; simpl; by rewrite lookup_empty|].
  unfold abs. simpl. rewrite !fmap_empty. apply Inv_empty.
Qed.

(** A row as [CreateWorkItem] inserts it. *)
Definition new_item (id slug project : string) (declared : RawMessage) : WorkItem :=
  mkWI id slug project "a goal" (Some "feature") None WQueued declared 0 "u1" None 0 "" None
    (mkDoc "normal" None [] None (JObj []) 1 "coding" "human" "U" None).

Definition with_items (ws : list WorkItem) : Core :=
  set_work_items (λ _, list_to_map ((λ w, (wi_id w, w)) <$> ws)) empty_core.

Definition fresh_item (w : WorkItem) : Prop :=
  wi_status w = WQueued ∧ wi_current w = None ∧ wi_epoch w = 0%Z.

Lemma no_attempts ws a x : ¬ run_attempts (with_items ws) !! a = Some x.
Proof. simpl. by rewrite lookup_empty. Qed.

Lemma no_locks ws k l : ¬ resource_locks (with_items ws) !! k = Some l.
Proof. simpl. by rewrite lookup_empty. Qed.

Lemma with_items_wf ws :
  Forall fresh_item ws → Wf (with_items ws).
Proof.
  intros Hf. rewrite Forall_forall in Hf.
  assert (∀ i w, work_items (with_items ws) !! i = Some w → wi_id w = i ∧ fresh_item w)
    as Hin.
  { intros i w Hw. simpl in Hw. apply elem_of_list_to_map_2 in Hw.
    apply list_elem_of_fmap in Hw as (v & [= -> ->] & Hv). auto. }
  split; [intros i w Hw; by apply Hin|].
  assert (∀ i v, (abs_wi <$> work_items (with_items ws)) !! i = Some v →
    aw_status v = WQueued ∧ aw_current v = None ∧ aw_epoch v = 0%Z) as Hv.
  { intros i v (w & <- & Hw)%lookup_fmap_Some. by apply Hin in Hw as (_ & ? & ? & ?). }
  split; cbn [a_wis a_atts a_locks abs].
  1: done.
  1: intros i v (_ & _ & ->)%Hv; lia.
  - intros a x (y & _ & Hy)%lookup_fmap_Some. by apply no_attempts in Hy.
  - intros a x b y (z & _ & Hz)%lookup_fmap_Some. by apply no_attempts in Hz.
  - intros i v e (_ & _ & He)%Hv. lia.
  - intros i v a (_ & Hc & _)%Hv. congruence.
  - intros i v (Hs & _ & _)%Hv. congruence.
  - intros k l Hl. by apply no_locks in Hl.
Qed.

Lemma with_items_exclusive ws : Exclusive (abs (with_items ws)).
Proof.
  intros a x (y & _ & Hy)%lookup_fmap_Some. by apply no_attempts in Hy.
Qed.
