(* ===== verification/WorkflowHistory.v ===== *)
(** * The history of workflows only grows

    Generations, results and approvals are never changed or removed; an
    invocation keeps its identity and, once recorded, its status; a repair
    authorization may only close.  Every statement of every workflow handler
    respects this, [wf_grows]. *)

From S2P Require Import Prelude GoStrings Errors Json Flow Policy WorkflowTables WorkflowPin.
From S2P Require Import Store TxLogic WorkflowStart WorkflowRun WorkflowRepair WorkflowRevise.
From S2P Require Import WorkflowReads WorkflowSpec.

Open Scope list_scope.

(** [i'] is [i], later. *)
Record invocation_later (i i' : Invocation) : Prop := {
  il_same : iv_with_status (iv_status i) i' = i;
  il_recorded : iv_status i = InvRecorded → iv_status i' = InvRecorded;
  il_over : iv_status i ≠ InvOpen → iv_status i' ≠ InvOpen;
}.

Definition repair_later (r r' : Repair) : Prop := r' = r ∨ r' = rpr_closed r.

#[export] Instance invocation_later_preorder : PreOrder invocation_later.
Proof.
  split; [intros []; by split|].
  intros [] [] [] [[=] ? ?] [[=] ? ?]; simpl in *; subst. split; [done|auto..].
Qed.

#[export] Instance repair_later_preorder : PreOrder repair_later.
Proof. split; [by left|]. intros r r' r'' [->| ->] [->| ->]; unfold repair_later; auto. Qed.

(** Each row is still there, later. *)
Definition rows_later {A} (R : A → A → Prop) (m m' : gmap string A) : Prop :=
  ∀ k x, m !! k = Some x → ∃ y, m' !! k = Some y ∧ R x y.

#[export] Instance rows_later_preorder {A} (R : relation A) `{!PreOrder R} :
  PreOrder (rows_later R).
Proof.
  split; [intros m k x Hx; by exists x|].
  intros m1 m2 m3 H1 H2 k x (y & Hy & Hxy)%H1. apply H2 in Hy as (z & Hz & Hyz).
  exists z. split; [done|by etransitivity].
Qed.

Record wf_grows (w w' : WorkflowTables) : Prop := {
  wg_generations : wf_generations w ⊆ wf_generations w';
  wg_invocations : rows_later invocation_later (wf_invocations w) (wf_invocations w');
  wg_results : wf_results w ⊆ wf_results w';
  wg_approvals : wf_approvals w ⊆ wf_approvals w';
  wg_repairs : rows_later repair_later (wf_repairs w) (wf_repairs w');
}.

#[export] Instance wf_grows_preorder : PreOrder wf_grows.
Proof. split; [by split|]. intros ??? [] []. by split; etransitivity. Qed.

(** ** The writes *)

Lemma rows_later_insert {A} (R : relation A) `{!PreOrder R} k x (m : gmap string A) :
  m !! k = None → rows_later R m (<[k := x]> m).
Proof.
  intros Hk i y Hy. exists y. split; [|reflexivity].
  rewrite lookup_insert_ne; [done|]. by intros ->; simplify_eq.
Qed.

Lemma rows_later_alter {A} (R : relation A) `{!PreOrder R} f k (m : gmap string A) :
  (∀ x, R x (f x)) → rows_later R m (alter f k m).
Proof.
  intros Hf i x Hx. destruct (decide (k = i)) as [->|Hne].
  - exists (f x). by rewrite lookup_alter_eq, Hx.
  - exists x. by rewrite lookup_alter_ne.
Qed.

Lemma rows_later_fmap {A} (R : relation A) f (m : gmap string A) :
  (∀ x, R x (f x)) → rows_later R m (f <$> m).
Proof. intros Hf i x Hx. exists (f x). by rewrite lookup_fmap, Hx. Qed.

Lemma later_recorded i : invocation_later i (iv_with_status InvRecorded i).
Proof. by destruct i. Qed.

Lemma later_superseded wi att i :
  invocation_later i (if supersedes wi att i then iv_with_status InvSuperseded i else i).
Proof.
  destruct (supersedes wi att i) eqn:E; [|done]. unfold supersedes in E.
  apply andb_true_iff in E as [_ Ho%bool_decide_eq_true].
  destruct i. simpl in *. subst. by split.
Qed.

Lemma grows_invocation id i w :
  wf_invocations w !! id = None → wf_grows w (set_invocations (<[id := i]>) w).
Proof. intros. split; simpl; try done. by apply (rows_later_insert _). Qed.
Lemma grows_recorded id w :
  wf_grows w (set_invocations (alter (iv_with_status InvRecorded) id) w).
Proof. split; simpl; try done. apply (rows_later_alter _), later_recorded. Qed.
Lemma grows_superseded wi att w :
  wf_grows w (set_invocations (fmap (λ i,
    if supersedes wi att i then iv_with_status InvSuperseded i else i)) w).
Proof. split; simpl; try done. apply rows_later_fmap, later_superseded. Qed.
Lemma grows_result id r w :
  wf_results w !! id = None → wf_grows w (set_results (<[id := r]>) w).
Proof. intros. split; simpl; try done. by apply insert_subseteq. Qed.
Lemma grows_approval id a w :
  wf_approvals w !! id = None → wf_grows w (set_approvals (<[id := a]>) w).
Proof. intros. split; simpl; try done. by apply insert_subseteq. Qed.
Lemma grows_repair id r w :
  wf_repairs w !! id = None → wf_grows w (set_repairs (<[id := r]>) w).
Proof. intros. split; simpl; try done. by apply (rows_later_insert _). Qed.
Lemma grows_closed id w : wf_grows w (set_repairs (alter rpr_closed id) w).
Proof. split; simpl; try done. apply (rows_later_alter _). by right. Qed.
Lemma grows_generation k g p w :
  wf_generations w !! k = None →
  wf_grows w (mkWf p (<[k := g]> (wf_generations w)) (wf_invocations w) (wf_results w)
                (wf_approvals w) (wf_repairs w)).
Proof. intros. split; simpl; try done. by apply insert_subseteq. Qed.
Lemma grows_pointer p w :
  wf_grows w (mkWf p (wf_generations w) (wf_invocations w) (wf_results w) (wf_approvals w)
                (wf_repairs w)).
Proof. by split. Qed.
