(* ===== verification/WorkflowInvariant.v ===== *)
(** * The invariant of the workflow tables

    What holds of generations, invocations, results, approvals and repair
    authorizations in every state the handlers reach, and why each commit of
    [WorkflowLifecycle.workflow_commit] preserves it. *)

From S2P Require Import Prelude GoStrings Errors Json Flow Policy WorkflowTables WorkflowPin.
From S2P Require Import Store TxLogic Lifecycle WorkflowStart WorkflowRun WorkflowRepair.
From S2P Require Import WorkflowRevise WorkflowReads WorkflowSpec WorkflowLifecycle.
From S2P Require Import WorkflowHistory CreateSpec Create.

Open Scope nat_scope.
Open Scope list_scope.

(** ** Generations *)

Record gens_ok (P : gmap string (Flow * Z)) (G : gmap (string * Z) Generation) : Prop := {
  (** the pointer names a stored generation, whose flow is the current one *)
  go_pointer wi f v : P !! wi = Some (f, v) →
    (1 <= v)%Z ∧ ∃ g, G !! (wi, v) = Some g ∧ gn_steps g = f;
  (** and no stored generation is newer *)
  go_newest wi v g : G !! (wi, v) = Some g →
    ∃ f v', P !! wi = Some (f, v') ∧ (1 <= v <= v')%Z;
}.

Lemma gens_ok_next P G wi v g :
  gens_ok P G → (1 <= v + 1)%Z → G !! (wi, (v + 1)%Z) = None →
  v = steps_version (P !! wi) →
  gens_ok (<[wi := (gn_steps g, (v + 1)%Z)]> P) (<[(wi, (v + 1)%Z) := g]> G).
Proof.
  intros [Hp Hn] H1 Hfr Hv. split.
  - intros wi' f v'. rewrite lookup_insert_Some. intros [[<- [= <- <-]]|[Hne H]].
    + split; [done|]. exists g. by rewrite lookup_insert_eq.
    + destruct (Hp _ _ _ H) as (? & g' & Hg & Hs). split; [done|]. exists g'.
      by rewrite lookup_insert_ne by congruence.
  - intros wi' v' g'. rewrite lookup_insert_Some. intros [[[= <- <-] <-]|[Hne H]].
    + exists (gn_steps g), (v + 1)%Z. rewrite lookup_insert_eq. split; [done|lia].
    + destruct (Hn _ _ _ H) as (f & u & Hu & Hle). destruct (decide (wi = wi')) as [<-|].
      * eexists _, _. rewrite lookup_insert_eq. split; [done|]. rewrite Hu in Hv. simpl in Hv. lia.
      * exists f, u. by rewrite lookup_insert_ne.
Qed.

(** ** Invocations *)

Record invs_ok (G : gmap (string * Z) Generation) (I : gmap string Invocation) : Prop := {
  (** a step attempt belongs to one invocation *)
  vo_attempt k i k' i' : I !! k = Some i → I !! k' = Some i' →
    iv_attempt i = iv_attempt i' → k = k';
  (** a step has one open invocation at most *)
  vo_open k i k' i' : I !! k = Some i → I !! k' = Some i' →
    iv_status i = InvOpen → iv_status i' = InvOpen →
    iv_wi i = iv_wi i' → iv_version i = iv_version i' → iv_step i = iv_step i' → k = k';
  vo_generation k i : I !! k = Some i → is_Some (G !! (iv_wi i, iv_version i));
}.

(** Two tables whose rows differ in their status only. *)
Definition same_invocations (I I' : gmap string Invocation) : Prop :=
  iv_with_status InvOpen <$> I' = iv_with_status InvOpen <$> I.

Lemma same_invocations_lookup I I' k i' :
  same_invocations I I' → I' !! k = Some i' →
  ∃ i, I !! k = Some i ∧ i' = iv_with_status (iv_status i') i.
Proof.
  intros H Hi. assert ((iv_with_status InvOpen <$> I') !! k = Some (iv_with_status InvOpen i'))
    as H' by by rewrite lookup_fmap, Hi.
  rewrite H, lookup_fmap_Some in H'. destruct H' as (i & Heq & Hi0). exists i.
  split; [done|]. destruct i, i'. simpl in *. by injection Heq as -> -> -> -> -> -> -> -> -> ->.
Qed.

Lemma same_invocations_sym I I' : same_invocations I I' → same_invocations I' I.
Proof. done. Qed.

Lemma same_alter id I : same_invocations I (alter (iv_with_status InvRecorded) id I).
Proof.
  apply map_eq. intros k. rewrite !lookup_fmap. destruct (decide (id = k)) as [->|Hne].
  - rewrite lookup_alter_eq. by destruct (I !! k).
  - by rewrite lookup_alter_ne.
Qed.

Definition superseding (wi att : string) (i : Invocation) : Invocation :=
  if supersedes wi att i then iv_with_status InvSuperseded i else i.

Lemma same_supersede wi att I : same_invocations I (superseding wi att <$> I).
Proof.
  unfold same_invocations. rewrite <- map_fmap_compose. apply map_fmap_ext.
  intros k i _. unfold superseding. simpl. by destruct (supersedes wi att i).
Qed.

(** Statuses that only leave [InvOpen] keep the invariant. *)
Lemma invs_ok_same G I I' :
  same_invocations I I' →
  (∀ k i i', I !! k = Some i → I' !! k = Some i' → iv_status i' = InvOpen → iv_status i = InvOpen) →
  invs_ok G I → invs_ok G I'.
Proof.
  intros Hs Ho [Ha Hop Hg]. split.
  - intros k i k' i' Hi Hi' Heq.
    destruct (same_invocations_lookup _ _ _ _ Hs Hi) as (j & Hj & Ej).
    destruct (same_invocations_lookup _ _ _ _ Hs Hi') as (j' & Hj' & Ej').
    apply (Ha _ _ _ _ Hj Hj'). by rewrite Ej, Ej' in Heq.
  - intros k i k' i' Hi Hi' H1 H2 H3 H4 H5.
    destruct (same_invocations_lookup _ _ _ _ Hs Hi) as (j & Hj & Ej).
    destruct (same_invocations_lookup _ _ _ _ Hs Hi') as (j' & Hj' & Ej').
    pose proof (Ho _ _ _ Hj Hi H1). pose proof (Ho _ _ _ Hj' Hi' H2).
    rewrite Ej, Ej' in H3, H4, H5. by apply (Hop _ _ _ _ Hj Hj').
  - intros k i Hi. destruct (same_invocations_lookup _ _ _ _ Hs Hi) as (j & Hj & Ej).
    rewrite Ej. exact (Hg k j Hj).
Qed.

Lemma invs_ok_insert G I k i :
  invs_ok G I → I !! k = None → is_Some (G !! (iv_wi i, iv_version i)) →
  (∀ k' i', I !! k' = Some i' → iv_attempt i' ≠ iv_attempt i) →
  (∀ k' i', I !! k' = Some i' → iv_wi i' = iv_wi i → iv_version i' = iv_version i →
     iv_step i' = iv_step i → iv_status i' ≠ InvOpen) →
  invs_ok G (<[k := i]> I).
Proof.
  intros [Ha Hop Hg] Hk Hgen Hat Hidle. split.
  - intros a x b y. rewrite !lookup_insert_Some.
    intros [[<- <-]|[? Hx]] [[<- <-]|[? Hy]] E; [done| | |by eapply Ha].
    + by destruct (Hat _ _ Hy).
    + by destruct (Hat _ _ Hx).
  - intros a x b y. rewrite !lookup_insert_Some.
    intros [[<- <-]|[? Hx]] [[<- <-]|[? Hy]] E1 E2 E3 E4 E5; [done| | |by eapply Hop].
    + by destruct (Hidle _ _ Hy).
    + by destruct (Hidle _ _ Hx).
  - intros a x. rewrite lookup_insert_Some. intros [[<- <-]|[? Hx]]; [done|by eapply Hg].
Qed.

(** ** Results *)

(** A result carries the identity of its invocation. *)
Record result_of_invocation (r : WfResult) (i : Invocation) : Prop := {
  ri_wi_eq : wr_wi r = iv_wi i;
  ri_version_eq : wr_version r = iv_version i;
  ri_step_eq : wr_step r = iv_step i;
  ri_attempt_eq : wr_attempt r = iv_attempt i;
  ri_run_eq : wr_run r = iv_run i;
  ri_epoch_eq : wr_epoch r = iv_epoch i;
  ri_producer_eq : wr_producer r = iv_producer i;
}.

Record results_ok (I : gmap string Invocation) (R : gmap string WfResult) : Prop := {
  so_invocation k r : R !! k = Some r →
    ∃ i, I !! wr_inv r = Some i ∧ iv_status i = InvRecorded ∧ result_of_invocation r i;
  so_recorded id i : I !! id = Some i → iv_status i = InvRecorded →
    ∃ k r, R !! k = Some r ∧ wr_inv r = id;
  so_once k r k' r' : R !! k = Some r → R !! k' = Some r' → wr_inv r = wr_inv r' → k = k';
}.

Lemma results_ok_insert_inv I R k i :
  results_ok I R → I !! k = None → iv_status i = InvOpen → results_ok (<[k := i]> I) R.
Proof.
  intros [Hi Hr Ho] Hk Hs. split; [|intros id x|done].
  - intros a r Ha. destruct (Hi _ _ Ha) as (x & Hx & ?). exists x.
    rewrite lookup_insert_ne; [done|]. intros ->. congruence.
  - rewrite lookup_insert_Some. intros [[<- <-]|[? Hx]]; [congruence|by apply Hr].
Qed.

Lemma results_ok_supersede wi att I R :
  results_ok I R → results_ok (superseding wi att <$> I) R.
Proof.
  assert (∀ i, iv_status (superseding wi att i) = InvRecorded → superseding wi att i = i) as H1.
  { intros i. unfold superseding. by destruct (supersedes wi att i). }
  assert (∀ i, iv_status i = InvRecorded → superseding wi att i = i) as H2.
  { intros i Hs. unfold superseding, supersedes. rewrite Hs.
    rewrite (bool_decide_eq_false_2 (_ = _)) by done. by rewrite andb_false_r. }
  intros [Hi Hr Ho]. split; [| |done].
  - intros k r Hk. destruct (Hi _ _ Hk) as (i & Hii & Hs & Hid). exists i.
    by rewrite lookup_fmap, Hii; simpl; rewrite H2.
  - intros id i. rewrite lookup_fmap_Some. intros (j & <- & Hj) Hs. rewrite H1 in Hs by done.
    by eapply Hr.
Qed.

Lemma results_ok_store I R id inv i r :
  results_ok I R → R !! id = None → I !! inv = Some i → iv_status i = InvOpen →
  wr_inv r = inv → result_of_invocation r i →
  results_ok (alter (iv_with_status InvRecorded) inv I) (<[id := r]> R).
Proof.
  intros [Hi Hr Ho] Hid Hinv Hs Hri Hof.
  assert (∀ k q, R !! k = Some q → wr_inv q ≠ inv) as Hnew.
  { intros k q Hq E. destruct (Hi _ _ Hq) as (j & Hj & ? & _). rewrite E in Hj. congruence. }
  split.
  - intros k q. rewrite lookup_insert_Some. intros [[<- <-]|[? Hq]].
    + exists (iv_with_status InvRecorded i). rewrite Hri, lookup_alter_eq, Hinv.
      split; [done|]. split; [done|]. by destruct Hof.
    + destruct (Hi _ _ Hq) as (j & Hj & ?). exists j.
      rewrite lookup_alter_ne; [done|]. intros E. by apply (Hnew _ _ Hq).
  - intros x j Hx Hj. destruct (decide (inv = x)) as [<-|Hne].
    { exists id, r. by rewrite lookup_insert_eq. }
    rewrite lookup_alter_ne in Hx by done. destruct (Hr _ _ Hx Hj) as (k & q & Hq & <-).
    exists k, q. split; [|done]. rewrite lookup_insert_ne; [done|]. congruence.
  - intros a x b y. rewrite !lookup_insert_Some.
    intros [[<- <-]|[? Hx]] [[<- <-]|[? Hy]] E; [done| | |by eapply Ho].
    + destruct (Hnew _ _ Hy). congruence.
    + destruct (Hnew _ _ Hx). congruence.
Qed.

(** ** Repair authorizations *)

(** How many authorized retries lead from the first failure to [att]. *)
Inductive retry_depth (I : gmap string Invocation) (Q : gmap string Repair) (wi att : string)
  : nat → Prop :=
  | rd_root k i :
      I !! k = Some i → iv_wi i = wi → iv_attempt i = att → iv_episode i = None →
      retry_depth I Q wi att 0
  | rd_episode k i e r :
      I !! k = Some i → iv_wi i = wi → iv_attempt i = att → iv_episode i = Some e →
      Q !! e = Some r → rpr_kind r = "episode" → retry_depth I Q wi att 0
  | rd_retry k i e r n :
      I !! k = Some i → iv_wi i = wi → iv_attempt i = att → iv_episode i = Some e →
      Q !! e = Some r → rpr_kind r = "retry" →
      retry_depth I Q wi (rpr_attempt r) n → retry_depth I Q wi att (S n).

Lemma invocation_later_fields i i' :
  invocation_later i i' →
  iv_wi i' = iv_wi i ∧ iv_version i' = iv_version i ∧ iv_step i' = iv_step i
  ∧ iv_attempt i' = iv_attempt i ∧ iv_episode i' = iv_episode i.
Proof. intros [<- _ _]. done. Qed.

Lemma repair_later_fields r r' :
  repair_later r r' →
  rpr_wi r' = rpr_wi r ∧ rpr_kind r' = rpr_kind r ∧ rpr_version r' = rpr_version r
  ∧ rpr_step r' = rpr_step r ∧ rpr_attempt r' = rpr_attempt r ∧ rpr_parent r' = rpr_parent r.
Proof. by intros [-> | ->]. Qed.

Lemma retry_depth_later I Q I' Q' wi att n :
  rows_later invocation_later I I' → rows_later repair_later Q Q' →
  retry_depth I Q wi att n → retry_depth I' Q' wi att n.
Proof.
  intros HI HQ. induction 1 as [att k i Hi Hw Ha He|att k i e r Hi Hw Ha He Hr Hk
    |att k i e r n Hi Hw Ha He Hr Hk _ IH];
    destruct (HI _ _ Hi) as (i' & Hi' & (E1 & _ & _ & E4 & E5)%invocation_later_fields).
  - by apply (rd_root _ _ _ _ k i'); congruence.
  - destruct (HQ _ _ Hr) as (r' & Hr' & (_ & F2 & _)%repair_later_fields).
    by apply (rd_episode _ _ _ _ k i' e r'); congruence.
  - destruct (HQ _ _ Hr) as (r' & Hr' & (_ & F2 & _ & _ & F5 & _)%repair_later_fields).
    apply (rd_retry _ _ _ _ k i' e r'); [congruence..|]. by rewrite F5.
Qed.

Record repairs_ok (I : gmap string Invocation) (R : gmap string WfResult)
  (Q : gmap string Repair) : Prop := {
  (** an invocation is bound to an authorization of its own generation *)
  bo_bound k i e : I !! k = Some i → iv_episode i = Some e →
    e ≠ "" ∧ ∃ r, Q !! e = Some r ∧ rpr_wi r = iv_wi i ∧ rpr_version r = iv_version i
      ∧ (rpr_kind r = "retry" → rpr_step r = iv_step i);
  bo_kind id r : Q !! id = Some r → rpr_kind r = "retry" ∨ rpr_kind r = "episode";
  (** every authorization answers a recorded failure of its kind *)
  bo_failure id r : Q !! id = Some r → ∃ k q, R !! k = Some q
    ∧ wr_wi q = rpr_wi r ∧ wr_version q = rpr_version r ∧ wr_step q = rpr_step r
    ∧ wr_attempt q = rpr_attempt r
    ∧ (rpr_kind r = "retry" → wr_status q = StatusProviderError ∧ wr_verdict q ≠ ReviewFail)
    ∧ (rpr_kind r = "episode" → wr_verdict q = ReviewFail);
  bo_once id r id' r' : Q !! id = Some r → Q !! id' = Some r' →
    rpr_kind r = rpr_kind r' → rpr_attempt r = rpr_attempt r' → id = id';
  (** chains of retries are short *)
  bo_depth id r : Q !! id = Some r → rpr_kind r = "retry" →
    ∃ n, n < maxRetryChainDepth ∧ retry_depth I Q (rpr_wi r) (rpr_attempt r) n;
  (** a parent is an episode of the same work item *)
  bo_parent id r p : Q !! id = Some r → rpr_parent r = Some p →
    rpr_kind r = "retry" ∧ p ≠ ""
    ∧ ∃ q, Q !! p = Some q ∧ rpr_kind q = "episode" ∧ rpr_wi q = rpr_wi r;
}.

(** Rows of invocations may advance and be added, results and closings too. *)
Lemma repairs_ok_later I R Q I' R' Q' :
  repairs_ok I R Q → rows_later invocation_later I I' → R ⊆ R' →
  rows_later repair_later Q Q' →
  (∀ id r', Q' !! id = Some r' → ∃ r, Q !! id = Some r ∧ repair_later r r') →
  (∀ k i' e, I' !! k = Some i' → iv_episode i' = Some e →
     (∃ i, I !! k = Some i ∧ invocation_later i i')
     ∨ e ≠ "" ∧ ∃ r, Q !! e = Some r ∧ rpr_wi r = iv_wi i' ∧ rpr_version r = iv_version i'
         ∧ (rpr_kind r = "retry" → rpr_step r = iv_step i')) →
  repairs_ok I' R' Q'.
Proof.
  intros [Hb Hk Hf Ho Hd Hp] HI HR HQ Hback Hnew. split.
  - intros k i' e Hi' He.
    assert (e ≠ "" ∧ ∃ r, Q !! e = Some r ∧ rpr_wi r = iv_wi i' ∧ rpr_version r = iv_version i'
      ∧ (rpr_kind r = "retry" → rpr_step r = iv_step i')) as (Hne & r & Hr & Hrest).
    { destruct (Hnew _ _ _ Hi' He) as [(i & Hi & (E1 & E2 & E3 & _ & E5)%invocation_later_fields)|];
        [|done]. rewrite E5 in He. rewrite E1, E2, E3. by eapply Hb. }
    split; [done|].
    destruct (HQ _ _ Hr) as (r' & Hr' & (F1 & F2 & F3 & F4 & _)%repair_later_fields).
    exists r'. by rewrite F1, F2, F3, F4.
  - intros id r' Hr'. destruct (Hback _ _ Hr') as (r & Hr & (_ & -> & _)%repair_later_fields).
    by eapply Hk.
  - intros id r' Hr'.
    destruct (Hback _ _ Hr') as (r & Hr & (-> & -> & -> & -> & -> & _)%repair_later_fields).
    destruct (Hf _ _ Hr) as (k & q & Hq & ?). exists k, q. split; [|done].
    by eapply lookup_weaken.
  - intros a x b y Hx Hy.
    destruct (Hback _ _ Hx) as (x' & Hx' & (_ & -> & _ & _ & -> & _)%repair_later_fields).
    destruct (Hback _ _ Hy) as (y' & Hy' & (_ & -> & _ & _ & -> & _)%repair_later_fields).
    by apply Ho.
  - intros id r' Hr'.
    destruct (Hback _ _ Hr') as (r & Hr & (-> & -> & _ & _ & -> & _)%repair_later_fields).
    intros Hret. destruct (Hd _ _ Hr Hret) as (n & Hn & Hdep). exists n.
    split; [done|]. by eapply retry_depth_later.
  - intros id r' p Hr'.
    destruct (Hback _ _ Hr') as (r & Hr & (-> & -> & _ & _ & _ & ->)%repair_later_fields).
    intros Hpar. destruct (Hp _ _ _ Hr Hpar) as (? & ? & q & Hq & ? & ?).
    destruct (HQ _ _ Hq) as (q' & Hq' & (E1 & E2 & _)%repair_later_fields).
    split; [done|]. split; [done|]. exists q'. by rewrite E1, E2.
Qed.

(** The walk of the code computes the depth. *)
Lemma lineage_depth wi w out cur ln :
  repairs_ok (wf_invocations w) (wf_results w) (wf_repairs w) →
  lineage wi w out cur ln →
  ∃ n, retry_depth (wf_invocations w) (wf_repairs w) wi cur n
       ∧ ln_depth ln = n + ln_depth out.
Proof.
  intros [Hb _ _ _ _ _]. induction 1 as [out cur k i Hi Hw Ha He|out cur k i e r Hi Hw Ha He Hr Hrw Hk
    |out cur k i e r res Hi Hw Ha He Hr Hrw Hk _ (n & Hn & Hd)].
  - exists 0. split; [|done]. eapply rd_root; [done..|].
    destruct (iv_episode i) as [e|] eqn:E; [|done]. simpl in He.
    by destruct (Hb _ _ _ Hi E).
  - exists 0. split; [|done]. by eapply rd_episode.
  - exists (S n). split; [by eapply rd_retry|]. simpl in Hd. lia.
Qed.

(** ... and finds a parent that is an episode of the item. *)
Definition parent_ok (Q : gmap string Repair) (wi p : string) : Prop :=
  p = "" ∨ ∃ q, Q !! p = Some q ∧ rpr_kind q = "episode" ∧ rpr_wi q = wi.

Lemma lineage_parent wi w out cur ln :
  repairs_ok (wf_invocations w) (wf_results w) (wf_repairs w) →
  lineage wi w out cur ln → parent_ok (wf_repairs w) wi (ln_parent out) →
  parent_ok (wf_repairs w) wi (ln_parent ln).
Proof.
  intros [_ _ _ _ _ Hp]. induction 1 as [|out cur k i e r Hi Hw Ha He Hr Hrw Hk
    |out cur k i e r res Hi Hw Ha He Hr Hrw Hk _ IH]; intros Hout; [done| |].
  - right. by exists r.
  - apply IH. simpl. destruct (rpr_parent r) as [p|] eqn:E; [|done].
    destruct (String.eqb_spec p ""); [done|].
    destruct (Hp _ _ _ Hr E) as (_ & _ & q & ? & ? & ?). right. exists q. by rewrite <- Hrw.
Qed.

(** ** Approvals *)

Record approvals_ok (R : gmap string WfResult) (A : gmap string Approval) : Prop := {
  (** a decision is about a recorded artifact *)
  ao_result k a : A !! k = Some a → ∃ j q, R !! j = Some q ∧ wr_wi q = wa_wi a
    ∧ wr_version q = wa_version a ∧ wr_step q = wa_step a ∧ wr_artifact q = wa_artifact a;
  (** and there is one per artifact *)
  ao_once k a k' a' : A !! k = Some a → A !! k' = Some a' → wa_wi a = wa_wi a' →
    wa_version a = wa_version a' → wa_step a = wa_step a' → wa_artifact a = wa_artifact a' →
    k = k';
}.

Lemma approvals_ok_later R R' A : approvals_ok R A → R ⊆ R' → approvals_ok R' A.
Proof.
  intros [Hr Ho] HR. split; [|done]. intros k a Ha.
  destruct (Hr _ _ Ha) as (j & q & Hq & ?). exists j, q. split; [|done].
  by eapply lookup_weaken.
Qed.

(** ** All of it *)

Record wf_ok (w : WorkflowTables) : Prop := {
  ok_gens : gens_ok (wf_pointers w) (wf_generations w);
  ok_invs : invs_ok (wf_generations w) (wf_invocations w);
  ok_results : results_ok (wf_invocations w) (wf_results w);
  ok_repairs : repairs_ok (wf_invocations w) (wf_results w) (wf_repairs w);
  ok_approvals : approvals_ok (wf_results w) (wf_approvals w);
}.

Lemma wf_ok_empty : wf_ok no_workflows.
Proof. split; split; simpl; intros; by simplify_map_eq. Qed.

(** ** Every commit preserves it *)

Lemma invocation_back I I' :
  same_invocations I I' → rows_later invocation_later I I' →
  ∀ k i', I' !! k = Some i' → ∃ i, I !! k = Some i ∧ invocation_later i i'.
Proof.
  intros Hs Hl k i' Hi'. destruct (same_invocations_lookup _ _ _ _ Hs Hi') as (i & Hi & _).
  exists i. split; [done|]. destruct (Hl _ _ Hi) as (i2 & Hi2 & ?). by simplify_eq.
Qed.

Lemma repairs_ok_same I I' R R' Q :
  repairs_ok I R Q → same_invocations I I' → rows_later invocation_later I I' → R ⊆ R' →
  repairs_ok I' R' Q.
Proof.
  intros H Hs Hl HR. apply (repairs_ok_later I R Q); [done..|reflexivity| |].
  - intros id r Hr. by exists r.
  - intros k i' e Hi' _. left. by eapply invocation_back.
Qed.

Lemma started_ok o cx ids key req c w a v flow grants meta s c' :
  started o cx ids key req c w a v flow grants meta s c' →
  wf_ok (workflow c) → wf_ok (workflow c').
Proof.
  intros [_ _ _ _ _ _ Hidle Hord Hfr Hat Hgen _ ->] [Hg Hi Hr Hq Ha].
  split; cbn [wf_pointers wf_generations wf_invocations wf_results wf_approvals wf_repairs
    set_invocations]; [done|..|done].
  - by apply invs_ok_insert.
  - by apply results_ok_insert_inv.
  - eapply repairs_ok_later; [exact Hq| |done|reflexivity| |].
    { by apply (rows_later_insert _). }
    { intros id r Hr'. by exists r. }
    intros k i' e. rewrite lookup_insert_Some. intros [[<- <-]|[Hne Hk]] He.
    + right. simpl in He |- *. unfold optional, start_order in *.
      destruct (String.eqb_spec (sw_repair req) "") as [|Hne]; [done|].
      injection He as <-. split; [done|]. destruct Hord as [r [H1 _ H2 H3 _ _ H4 _ _ _]].
      exists r. split_and!; try done. intros Hk. by destruct (H4 Hk).
    + left. by exists i'.
Qed.

Lemma result_stored_ok id inv i res w :
  wf_ok w → wf_results w !! id = None → wf_invocations w !! inv = Some i →
  iv_status i = InvOpen → wr_inv res = inv → result_of_invocation res i →
  wf_ok (result_stored id inv res w).
Proof.
  intros [Hg Hi Hr Hq Ha] Hid Hinv Hs Hri Hof.
  assert (wf_results w ⊆ <[id := res]> (wf_results w)) as HR by by apply insert_subseteq.
  split; cbn [result_stored wf_pointers wf_generations wf_invocations wf_results wf_approvals
    wf_repairs set_invocations set_results]; [done|..].
  - eapply invs_ok_same; [apply same_alter| |done]. intros k j j' Hj.
    destruct (decide (inv = k)) as [->|Hne].
    + rewrite lookup_alter_eq, Hj. by intros [= <-].
    + rewrite lookup_alter_ne by done. congruence.
  - by eapply results_ok_store.
  - eapply repairs_ok_same; [done|apply same_alter| |done].
    apply (rows_later_alter _), later_recorded.
  - by eapply approvals_ok_later.
Qed.

Lemma closing_ok id w w' : closing id w w' → wf_ok w → wf_ok w'.
Proof.
  intros [|r Hr _ _] [Hg Hi Hre Hq Ha]; [by split|].
  split; cbn [set_repairs wf_pointers wf_generations wf_invocations wf_results wf_approvals
    wf_repairs]; try done.
  eapply repairs_ok_later; [done|reflexivity|done| | |].
  - apply (rows_later_alter _). by right.
  - intros k q. destruct (decide (id = k)) as [->|Hne].
    + rewrite lookup_alter_eq, fmap_Some. intros (p & Hp & ->). exists p. split; [done|by right].
    + rewrite lookup_alter_ne by done. by exists q.
  - intros k i e Hk _. left. by exists i.
Qed.

Lemma recorded_ok o cx ids key req r c w a v inv i m c' :
  recorded o cx ids key req r c w a v inv i m c' →
  wf_ok (workflow c) → wf_ok (workflow c').
Proof.
  intros [_ _ Hi Han _ _ Hfr _ _ (e & p & w1 & H1 & H2) _] Hok.
  eapply closing_ok; [exact H2|]. eapply closing_ok; [exact H1|].
  destruct Han as [[] [] ? ? ? ? [] ?].
  by eapply result_stored_ok.
Qed.

Lemma newest_in {A} (stamp : string * A → Z * string) l x : newest stamp l = Some x → x ∈ l.
Proof.
  unfold newest.
  assert (∀ acc, fold_left (λ acc x, match acc with
      | None => Some x
      | Some y => if row_newer (stamp y) (stamp x) then Some x else Some y
      end) l acc = Some x → acc = Some x ∨ x ∈ l) as H.
  { induction l as [|y l IH]; intros acc Hf; [by left|]. simpl in Hf.
    apply IH in Hf as [Hf|Hf]; [|right; by right].
    destruct acc as [z|]; [|simplify_eq; right; by left].
    destruct (row_newer _ _); simplify_eq; [right; by left|by left]. }
  intros Hx. by destruct (H None Hx).
Qed.

Lemma latest_result_in wi v step w kr :
  latest_result wi v step w = Some kr →
  wf_results w !! kr.1 = Some kr.2 ∧ wr_wi kr.2 = wi ∧ wr_version kr.2 = v
  ∧ wr_step kr.2 = step.
Proof.
  unfold latest_result, generation_results.
  intros [Hs [[Hw Hv] Hin]%list_elem_of_filter]%newest_in%list_elem_of_filter.
  destruct kr. by apply elem_of_map_to_list in Hin.
Qed.

Lemma approval_of_None wi v step art w k a :
  approval_of wi v step art w = None → wf_approvals w !! k = Some a →
  wa_wi a = wi → wa_version a = v → wa_step a = step → wa_artifact a ≠ art.
Proof.
  intros Hn Ha E1 E2 E3 E4. unfold approval_of in Hn.
  pose proof (find_key_None _ _ Hn k a Ha) as H. cbn [snd] in H.
  by rewrite E1, E2, E3, !String.eqb_refl, Z.eqb_refl, bool_decide_eq_true_2 in H.
Qed.

Lemma approved_ok cx ids key u display req c w flow s kr c' :
  approved cx ids key u display req c w flow s kr c' →
  wf_ok (workflow c) → wf_ok (workflow c').
Proof.
  intros [_ _ _ Hl Hart Hund Hfr _ ->] [Hg Hi Hr Hq [Har Hao]].
  split; cbn [set_approvals wf_pointers wf_generations wf_invocations wf_results wf_approvals
    wf_repairs]; try done.
  apply latest_result_in in Hl as (Hkr & ? & ? & ?). split.
  - intros k a. rewrite lookup_insert_Some. intros [[<- <-]|[_ Ha]]; [|by eapply Har].
    exists kr.1, kr.2. done.
  - intros k a k' a'. rewrite !lookup_insert_Some.
    intros [[<- <-]|[_ Hx]] [[<- <-]|[_ Hy]]; simpl; intros E1 E2 E3 E4;
      [done| | |by eapply Hao].
    + destruct (approval_of_None _ _ _ _ _ _ _ Hund Hy); congruence.
    + destruct (approval_of_None _ _ _ _ _ _ _ Hund Hx); congruence.
Qed.

Lemma superseded_ok cx key req c w a named c' :
  superseded cx key req c w a named c' → wf_ok (workflow c) → wf_ok (workflow c').
Proof.
  intros [_ _ _ _ _ _ ->] [Hg Hi Hr Hq Ha].
  split; cbn [set_invocations wf_pointers wf_generations wf_invocations wf_results wf_approvals
    wf_repairs]; [done|..|done].
  - eapply invs_ok_same; [apply same_supersede| |done]. intros k i i' Hk.
    unfold superseding. rewrite lookup_fmap, Hk. simpl. intros [= <-].
    by destruct (supersedes _ _ i).
  - by apply results_ok_supersede.
  - eapply repairs_ok_same; [done|apply same_supersede| |done].
    apply rows_later_fmap, later_superseded.
Qed.

Lemma revised_ok o cx key caller user role roles rhs req c w v pin c' :
  revised o cx key caller user role roles rhs req c w v pin c' →
  wf_ok (workflow c) → wf_ok (workflow c').
Proof.
  intros [(p & [_ Hp] & Hv) _ _ _ _ Hfr [H1 _] _ _ _ _ ->] [Hg Hi Hr Hq Ha].
  split; cbn [set_generation wf_pointers wf_generations wf_invocations wf_results wf_approvals
    wf_repairs]; try done.
  - apply gens_ok_next; try done. by rewrite Hp.
  - destruct Hi as [H2 H3 H4]. split; [done..|]. intros k i Hk.
    destruct (H4 _ _ Hk) as [g Hgen]. exists g. rewrite lookup_insert_ne; [done|congruence].
Qed.

(** A new authorization over a recorded failure. *)
Lemma repairs_ok_insert I R Q id r :
  repairs_ok I R Q → Q !! id = None →
  rpr_kind r = "retry" ∨ rpr_kind r = "episode" →
  (∃ k q, R !! k = Some q ∧ wr_wi q = rpr_wi r ∧ wr_version q = rpr_version r
    ∧ wr_step q = rpr_step r ∧ wr_attempt q = rpr_attempt r
    ∧ (rpr_kind r = "retry" → wr_status q = StatusProviderError ∧ wr_verdict q ≠ ReviewFail)
    ∧ (rpr_kind r = "episode" → wr_verdict q = ReviewFail)) →
  (∀ k q, Q !! k = Some q → rpr_kind q = rpr_kind r → rpr_attempt q ≠ rpr_attempt r) →
  (rpr_kind r = "retry" → ∃ n, n < maxRetryChainDepth
    ∧ retry_depth I Q (rpr_wi r) (rpr_attempt r) n) →
  (∀ p, rpr_parent r = Some p → rpr_kind r = "retry" ∧ p ≠ ""
    ∧ ∃ q, Q !! p = Some q ∧ rpr_kind q = "episode" ∧ rpr_wi q = rpr_wi r) →
  repairs_ok I R (<[id := r]> Q).
Proof.
  intros [Hb Hk Hf Ho Hd Hp] Hid Hkind Hfail Honce Hdep Hpar.
  assert (∀ k q, Q !! k = Some q → <[id := r]> Q !! k = Some q) as Hkeep.
  { intros k q Hq. rewrite lookup_insert_ne; [done|]. by intros ->; simplify_eq. }
  assert (rows_later repair_later Q (<[id := r]> Q)) as Hlater
    by by apply (rows_later_insert _).
  split.
  - intros k i e Hi He. destruct (Hb _ _ _ Hi He) as (? & q & Hq & ?). eauto 10.
  - intros k q. rewrite lookup_insert_Some. intros [[<- <-]|[_ Hq]]; [done|by eapply Hk].
  - intros k q. rewrite lookup_insert_Some. intros [[<- <-]|[_ Hq]]; [done|by eapply Hf].
  - intros a x b y. rewrite !lookup_insert_Some.
    intros [[<- <-]|[_ Hx]] [[<- <-]|[_ Hy]] E1 E2; [done| | |by eapply Ho].
    + by destruct (Honce _ _ Hy).
    + by destruct (Honce _ _ Hx).
  - intros k q. rewrite lookup_insert_Some.
    assert (∀ wi att n, retry_depth I Q wi att n → retry_depth I (<[id:=r]> Q) wi att n)
      as Hmono by (intros; by eapply retry_depth_later).
    intros [[<- <-]|[_ Hq]] Hret.
    + destruct (Hdep Hret) as (n & ? & ?). eauto.
    + destruct (Hd _ _ Hq Hret) as (n & ? & ?). eauto.
  - intros k q p. rewrite lookup_insert_Some. intros [[<- <-]|[_ Hq]] Hqp.
    + destruct (Hpar _ Hqp) as (? & ? & z & ? & ?). eauto 10.
    + destruct (Hp _ _ _ Hq Hqp) as (? & ? & z & ? & ?). eauto 10.
Qed.

Lemma authorized_ok cx ids key req reason c w a v kr parent by_ c' :
  authorized cx ids key req reason c w a v kr parent by_ c' →
  wf_ok (workflow c) → wf_ok (workflow c').
Proof.
  intros [_ _ Hkr (Hkw & Hkv & Hka) (g & m & _ & _ & Hj) _ Hfr Honce Hkind _ ->]
    [Hg Hi Hr Hq Ha].
  split; cbn [set_repairs wf_pointers wf_generations wf_invocations wf_results wf_approvals
    wf_repairs]; try done.
  apply repairs_ok_insert; try done.
  - exists kr.1, kr.2. split_and!; try done; simpl; intros Hk.
    + destruct Hj as [(He & _)|(_ & ? & ? & _)]; [congruence|done].
    + destruct Hj as [(_ & ? & _)|(He & _)]; [done|congruence].
  - simpl. intros Hk. destruct Hj as [(He & _)|(_ & _ & _ & ln & Hln & Hd & _)]; [congruence|].
    destruct (lineage_depth _ _ _ _ _ Hq Hln) as (n & Hn & E). exists n. simpl in E.
    split; [lia|done].
  - simpl. unfold optional. intros p. destruct (String.eqb_spec parent "") as [|Hne]; [done|].
    intros [= <-]. destruct Hj as [(_ & _ & _ & ->)|(Hne' & _ & _ & ln & Hln & _ & ->)]; [done|].
    split; [by destruct Hkind|]. split; [done|].
    destruct (lineage_parent _ _ _ _ _ Hq Hln) as [|(q & ? & ? & ?)]; [by left|done|eauto].
Qed.

Theorem workflow_commit_ok c c' :
  workflow_commit c c' → wf_ok (workflow c) → wf_ok (workflow c').
Proof.
  destruct 1; eauto using started_ok, recorded_ok, approved_ok, authorized_ok,
    superseded_ok, revised_ok.
Qed.

(** ** The items of generations *)

(** The foreign key of [workflow_generations]. *)
Definition owned (c : Core) : Prop :=
  ∀ wi v g, wf_generations (workflow c) !! (wi, v) = Some g → is_Some (work_items c !! wi).

Record workflows_ok (c : Core) : Prop := {
  wk_tables : wf_ok (workflow c);
  wk_owned : owned c;
}.

Lemma workflows_ok_empty c : workflow c = no_workflows → workflows_ok c.
Proof.
  intros E. split; [rewrite E; apply wf_ok_empty|]. intros wi v g. rewrite E. simpl.
  by rewrite lookup_empty.
Qed.

Definition items_kept (c c' : Core) : Prop :=
  ∀ i, is_Some (work_items c !! i) → is_Some (work_items c' !! i).

Lemma owned_insert c c' wi v g :
  items_kept c c' → is_Some (work_items c' !! wi) →
  wf_generations (workflow c') = <[(wi, v) := g]> (wf_generations (workflow c)) →
  owned c → owned c'.
Proof.
  intros Hk Hwi Hg Ho wi' v' g'. rewrite Hg, lookup_insert_Some.
  intros [[[= <- <-] _]|[_ H]]; [done|]. by eapply Hk, Ho.
Qed.

Lemma owned_same c c' :
  items_kept c c' → wf_generations (workflow c') = wf_generations (workflow c) →
  owned c → owned c'.
Proof. intros Hk Hg Ho wi v g. rewrite Hg. intros H. by eapply Hk, Ho. Qed.

Lemma closing_generations id w w' :
  closing id w w' → wf_generations w' = wf_generations w.
Proof. by destruct 1. Qed.

Lemma workflow_commit_owned c c' :
  keyed c → items_kept c c' → workflow_commit c c' → owned c → owned c'.
Proof.
  intros Hk Hkeep. destruct 1 as [????????????[]|???????????? H|??????????[]|???????????[]
                |??????[]|???????????? H].
  1,3,4,5: apply owned_same; [done|].
  1-4: match goal with E : workflow _ = _ |- _ => by rewrite E end.
  - apply owned_same; [done|]. destruct H as [_ _ _ _ _ _ _ _ _ (e & p & w1 & H1 & H2) _].
    by rewrite (closing_generations _ _ _ H2), (closing_generations _ _ _ H1).
  - destruct H as [(p & Hwi & _) _ _ _ _ _ _ Hi _ _ _ Hw].
    eapply owned_insert; [done| |by rewrite Hw]. apply Hkeep.
    exists w. by eapply workflow_item_row.
Qed.

Theorem workflow_commit_wf c c' :
  keyed c → items_kept c c' → workflow_commit c c' → workflows_ok c → workflows_ok c'.
Proof.
  intros Hk Hkeep H [H1 H2]. split; [by eapply workflow_commit_ok|].
  by eapply workflow_commit_owned.
Qed.

(** ** Creations *)

Lemma drop_pointer_fresh c id :
  workflows_ok c → work_items c !! id = None → drop_pointer id (workflow c) = workflow c.
Proof.
  intros [[[Hp _] _ _ _ _] Ho] Hfr. unfold drop_pointer. rewrite delete_id; [by destruct (workflow c)|].
  destruct (wf_pointers (workflow c) !! id) as [[f v]|] eqn:E; [|done].
  destruct (Hp _ _ _ E) as (_ & g & Hg & _). destruct (Ho _ _ _ Hg). congruence.
Qed.

Lemma created_wf o cx id user display roles role q mode c w ids c' :
  created o cx id user display roles role q mode c w ids c' → workflows_ok c →
  workflows_ok c'.
Proof.
  intros [Hfr _ _ _ _ Hi _ _ _ _ _ _ Hw] Hok. rewrite drop_pointer_fresh in Hw by done.
  assert (items_kept c c') as Hkeep.
  { intros i [v Hv]. rewrite Hi. destruct (decide (id = i)) as [->|Hne].
    - by rewrite lookup_insert_eq.
    - rewrite lookup_insert_ne by done. by exists v. }
  destruct Hok as [[Hg Hin Hr Hq Ha] Ho]. unfold first_generation in Hw.
  destruct (cq_steps q) as [steps|].
  - destruct Hw as (caller & pin & _ & _ & Hnone & Hw). split.
    + rewrite Hw. split; cbn [set_generation wf_pointers wf_generations wf_invocations
        wf_results wf_approvals wf_repairs]; try done.
      * assert (wf_pointers (workflow c) !! id = None) as Hp.
        { destruct Hg as [Hp _]. destruct (wf_pointers _ !! id) as [[f v]|] eqn:E; [|done].
          destruct (Hp _ _ _ E) as (_ & g & Hgen & _). destruct (Ho _ _ _ Hgen). congruence. }
        apply (gens_ok_next _ _ _ 0); try done. by rewrite Hp.
      * destruct Hin as [H2 H3 H4]. split; [done..|]. intros k i Hk.
        destruct (H4 _ _ Hk) as [g Hgen]. exists g. rewrite lookup_insert_ne; [done|congruence].
    + eapply owned_insert; [done| |by rewrite Hw|done].
      rewrite Hi. by rewrite lookup_insert_eq.
  - split; [by rewrite Hw|]. apply (owned_same c); [done|by rewrite Hw|done].
Qed.
