(* ===== verification/WorkflowTermination.v ===== *)
(** * The loops over retries end

    Two loops of [internal/domain/workflow_run.go] follow chains of retries
    with no bound of their own that could hold in every database: the walk of
    [resolveRetryLineage], which declares the tables corrupt after five steps,
    and the replacement loop of [loadEpisodeRoleRows], which has no limit.  In
    tables that satisfy [wf_ok] neither goes wrong: each link of a chain is one
    authorized retry, and those are bounded. *)

From stdpp Require Import sorting.
From S2P Require Import Prelude GoStrings Errors Json Flow Policy WorkflowTables WorkflowPin.
From S2P Require Import Store TxLogic WorkflowStart WorkflowRun WorkflowRepair WorkflowReads.
From S2P Require Import WorkflowSpec WorkflowInvariant.

Open Scope nat_scope.
Open Scope list_scope.

Section chains.
Context (w : WorkflowTables).
Hypothesis Hok : wf_ok w.

Let I := wf_invocations w.
Let Q := wf_repairs w.

(** The depth of an attempt is unique, and at most three. *)
Lemma retry_depth_unique wi att n m :
  retry_depth I Q wi att n → retry_depth I Q wi att m → n = m.
Proof.
  pose proof (vo_attempt _ _ (ok_invs _ Hok)) as Hu.
  intros H. revert m. induction H as [att k i Hi Hw Ha He|att k i e r Hi Hw Ha He Hr Hk
    |att k i e r n Hi Hw Ha He Hr Hk _ IH]; intros m Hm; destruct Hm as
    [k' i' Hi' Hw' Ha' He'|k' i' e' r' Hi' Hw' Ha' He' Hr' Hk'
    |k' i' e' r' m Hi' Hw' Ha' He' Hr' Hk' Hm];
    (assert (k' = k) as -> by (eapply Hu; [done..|congruence]));
    simplify_eq; try done; try congruence.
  f_equal. by apply IH.
Qed.

Lemma invocation_depth k i :
  I !! k = Some i → ∃ n, n <= maxRetryChainDepth ∧ retry_depth I Q (iv_wi i) (iv_attempt i) n.
Proof.
  intros Hi. destruct (ok_repairs _ Hok) as [Hb Hk _ _ Hd _].
  destruct (iv_episode i) as [e|] eqn:He; [|exists 0; split; [lia|by eapply rd_root]].
  destruct (Hb _ _ _ Hi He) as (_ & r & Hr & Hw & _).
  destruct (Hk _ _ Hr) as [Hret|Hep].
  - destruct (Hd _ _ Hr Hret) as (n & Hn & Hdep). exists (S n). split; [lia|].
    eapply rd_retry; [done..|]. by rewrite <- Hw.
  - exists 0. split; [lia|]. by eapply rd_episode.
Qed.

(** ** The walk of [resolveRetryLineage] *)

Lemma select_binding_finds c k i :
  workflow c = w → I !! k = Some i →
  select_binding (iv_wi i) (iv_attempt i) c = inr (iv_episode i).
Proof.
  intros Hc Hi. unfold select_binding. rewrite Hc. destruct (List.find _ _) as [ki|] eqn:E.
  - apply find_key_Some in E as [Hk [_ Ha%String.eqb_eq]%andb_true_iff].
    assert (ki.1 = k) as Ek by by eapply (vo_attempt _ _ (ok_invs _ Hok)).
    rewrite Ek in Hk. fold I in Hk. congruence.
  - pose proof (find_key_None _ _ E k i Hi) as H. cbn [snd] in H.
    by rewrite !String.eqb_refl in H.
Qed.

Lemma lineage_walk_ends c wi att n fuel out :
  workflow c = w → retry_depth I Q wi att n → n < fuel →
  wp (lineage_walk wi fuel out att)
    (λ r v, v = VActive c ∧ ∃ ln, r = inr ln ∧ ln_depth ln = n + ln_depth out) (VActive c).
Proof.
  intros Hc Hd. revert fuel out.
  induction Hd as [att k i Hi Hw Ha He|att k i e r Hi Hw Ha He Hr Hk
    |att k i e r n Hi Hw Ha He Hr Hk Hd IH]; intros [|fuel] out Hf; try lia; simpl;
    apply wp_bind, wp_query; rewrite <- Hw, <- Ha, (select_binding_finds c k i Hc Hi), He;
    apply wp_bind, wp_ret.
  - apply wp_ret. split; [done|]. by exists out.
  - destruct (bo_bound _ _ _ (ok_repairs _ Hok) _ _ _ Hi He) as (Hne & r' & Hr' & Hrw & _).
    assert (r' = r) as -> by (fold Q in Hr'; congruence).
    rewrite (proj2 (String.eqb_neq e "") Hne).
    apply wp_bind, wp_query. unfold select_own_repair, select_repair. rewrite Hc. fold Q.
    rewrite Hr. cbn [rbind]. rewrite (proj2 (String.eqb_eq _ _) Hrw). apply wp_bind, wp_ret.
    rewrite Hk. apply wp_ret. split; [done|]. by eexists.
  - destruct (bo_bound _ _ _ (ok_repairs _ Hok) _ _ _ Hi He) as (Hne & r' & Hr' & Hrw & _).
    assert (r' = r) as -> by (fold Q in Hr'; congruence).
    rewrite (proj2 (String.eqb_neq e "") Hne).
    apply wp_bind, wp_query. unfold select_own_repair, select_repair. rewrite Hc. fold Q.
    rewrite Hr. cbn [rbind]. rewrite (proj2 (String.eqb_eq _ _) Hrw). apply wp_bind, wp_ret.
    rewrite Hk, Hw. simpl. eapply wp_mono; [apply IH; lia|].
    intros res v [-> (ln & -> & Hln)]. split; [done|]. exists ln. split; [done|].
    rewrite Hln. simpl. lia.
Qed.

(** ** The replacements of an episode *)

Lemma retry_replacements_in e key row :
  (key, row) ∈ retry_replacements e w →
  ∃ id r k i, Q !! id = Some r ∧ rpr_parent r = Some e ∧ rpr_attempt r = key
    ∧ I !! k = Some i ∧ iv_episode i = Some id ∧ er_attempt row = iv_attempt i.
Proof.
  unfold retry_replacements. rewrite merge_sort_Permutation.
  intros (kr & Hx & [Hp Hkr]%list_elem_of_filter)%list_elem_of_bind.
  apply list_elem_of_fmap in Hx as (ki & [= -> ->] & Hki).
  unfold bound_invocations in Hki.
  apply list_elem_of_filter in Hki as [[He _] Hki]. destruct kr as [id r], ki as [k i].
  apply elem_of_map_to_list in Hkr, Hki. simpl in *.
  exists id, r, k, i. split_and!; try done.
  unfold row_of. simpl. by destruct (result_of k w).
Qed.

Lemma replacement_rank e key row :
  loadEpisodeRetryReplacements e w !! key = Some row →
  ∃ wi n, (∃ q, Q !! e = Some q ∧ rpr_wi q = wi)
    ∧ retry_depth I Q wi key n ∧ retry_depth I Q wi (er_attempt row) (S n).
Proof.
  unfold loadEpisodeRetryReplacements. intros H%elem_of_list_to_map_2.
  rewrite elem_of_reverse in H.
  destruct (retry_replacements_in _ _ _ H) as (id & r & k & i & Hr & Hp & Hk & Hi & He & ->).
  destruct (ok_repairs _ Hok) as [Hb _ _ _ Hd Hpar].
  destruct (Hpar _ _ _ Hr Hp) as (Hret & _ & q & Hq & _ & Hqw).
  destruct (Hd _ _ Hr Hret) as (n & _ & Hdep). subst key.
  destruct (Hb _ _ _ Hi He) as (_ & r' & Hr' & Hrw & _).
  assert (r' = r) as -> by (fold Q in Hr'; congruence).
  exists (rpr_wi r), n. split; [by exists q|]. split; [done|].
  by eapply rd_retry; [done..|].
Qed.
End chains.

(** A chain whose links raise a rank visits no key twice. *)
Section overlay.
Context (repl : gmap string episodeResultRow) (rank : string → nat → Prop).
Hypothesis rank_fun : ∀ a n m, rank a n → rank a m → n = m.
Hypothesis rank_up : ∀ a row, repl !! a = Some row →
  ∃ n, rank a n ∧ rank (er_attempt row) (S n).

Lemma overlay_total fuel (V : gset string) r :
  V ⊆ dom repl → size repl <= size V + fuel →
  (∀ a n, a ∈ V → rank (er_attempt r) n → ∃ m, rank a m ∧ m < n) →
  is_Some (overlay fuel repl r).
Proof.
  revert V r. induction fuel as [|fuel IH]; intros V r HV Hs Hlow; simpl;
    (destruct (repl !! er_attempt r) as [row|] eqn:E; [|done]);
    (destruct (String.eqb_spec (er_attempt row) "") as [|_]; [done|]);
    destruct (rank_up _ _ E) as (n & Hn & Hn');
    (assert (er_attempt r ∉ V) as Hnew
      by (intros Hin; destruct (Hlow _ _ Hin Hn) as (m & Hm & Hlt);
          rewrite (rank_fun _ _ _ Hn Hm) in Hlt; lia));
    (assert ({[er_attempt r]} ∪ V ⊆ dom repl) as HV'
      by (apply union_subseteq; split; [apply singleton_subseteq_l, elem_of_dom; by eexists|done]));
    (assert (size ({[er_attempt r]} ∪ V) = S (size V)) as Hsz
      by (rewrite size_union, size_singleton; [done|set_solver])).
  - apply subseteq_size in HV'. rewrite size_dom in HV'. lia.
  - apply (IH ({[er_attempt r]} ∪ V)); [done|lia|]. simpl.
    intros a m [->%elem_of_singleton|Ha]%elem_of_union Hm.
    + exists n. split; [done|]. rewrite (rank_fun _ _ _ Hm Hn'). lia.
    + rewrite (rank_fun _ _ _ Hm Hn'). destruct (Hlow _ _ Ha Hn) as (j & ? & ?).
      exists j. split; [done|lia].
Qed.

Lemma overlay_rows_total rows : is_Some (overlay_rows repl rows).
Proof.
  unfold overlay_rows. apply mapM_is_Some_2, Forall_forall. intros r _.
  apply (overlay_total _ ∅); [set_solver|rewrite size_empty; lia|set_solver].
Qed.
End overlay.
