(* ===== verification/Versions.v ===== *)
(** * Declarations and their version along executions

    Every statement of every handler either leaves the declared resources of a
    work item alone or raises their version.  [Moves] is the rule that lifts
    such a fact from the statements to the handlers, whatever the faults. *)

From S2P Require Import Prelude GoStrings Errors Json Crypto Declared Locks Store.
From S2P Require Import Moves TxLogic Pooled LifecycleSpec ResourceEvents Attempts Claim.
From S2P Require Import Complete Takeover Dependencies StepUpdate Lifecycle Handover DepGraph.
From S2P Require Import StepSpec CommitLocks Edit WorkflowPin WorkflowStart WorkflowRun.
From S2P Require Import WorkflowRepair WorkflowRevise WorkflowReads WorkflowSpec System.
From S2P Require Import WorkflowTables WorkflowHistory WorkflowLifecycle Create CreateSpec.

Open Scope nat_scope.
Open Scope list_scope.

(** ** Versions *)

(** What is fixed when an item is created. *)
Definition identity (w : WorkItem) :=
  (wi_id w, wi_slug w, wi_project w, wi_reporter w, doc_seq (wi_doc w),
   doc_parent (wi_doc w), doc_source (wi_doc w)).

(** The declarations of [w'] are those of [w], or have a higher version. *)
Definition declared_since (w w' : WorkItem) : Prop :=
  (wi_resources_version w <= wi_resources_version w')%Z
  ∧ (wi_resources_version w' = wi_resources_version w → wi_declared w' = wi_declared w)
  ∧ identity w' = identity w.

#[export] Instance declared_since_preorder : PreOrder declared_since.
Proof.
  split; [by split; [lia|]|]. intros x y z (H1 & H2 & H5) (H3 & H4 & H6). split; [lia|].
  split; [|congruence]. intros E. rewrite H4, H2; [done|lia..].
Qed.

Definition items_grow (c c' : Core) : Prop :=
  ∀ id w, work_items c !! id = Some w →
  ∃ w', work_items c' !! id = Some w' ∧ declared_since w w'.

#[export] Instance items_grow_preorder : PreOrder items_grow.
Proof.
  split; [intros c id w Hw; by exists w|].
  intros c1 c2 c3 H1 H2 id w (w' & Hw' & Hs)%H1. apply H2 in Hw' as (w'' & ? & ?).
  exists w''. split; [done|]. by etransitivity.
Qed.

(** ... and no item is new, and no number of a project was taken. *)
Record decl_grows (c c' : Core) : Prop := {
  dg_items : items_grow c c';
  dg_none_new i : work_items c !! i = None → work_items c' !! i = None;
  dg_projects : projects c' = projects c;
}.

#[export] Instance decl_grows_preorder : PreOrder decl_grows.
Proof.
  split; [by split|]. intros c1 c2 c3 [H1 H2 H3] [H4 H5 H6].
  split; [by etransitivity|auto|congruence].
Qed.

Lemma decl_grows_same c c' :
  work_items c' = work_items c → projects c' = projects c → decl_grows c c'.
Proof. intros H Hp. split; [|by rewrite H|done]. intros id w Hw. exists w. by rewrite H. Qed.

(** A step of the lifecycle leaves the tables of workflows alone. *)
Definition lifecycle_step (c c' : Core) : Prop :=
  decl_grows c c' ∧ workflow c' = workflow c.

#[export] Instance lifecycle_step_preorder : PreOrder lifecycle_step.
Proof. split; [by split|]. intros ??? [] []. split; [by etransitivity|congruence]. Qed.

Lemma decl_same c c' :
  work_items c' = work_items c → workflow c' = workflow c → projects c' = projects c →
  lifecycle_step c c'.
Proof. intros. split; [by apply decl_grows_same|done]. Qed.

(** A write that replaces rows by later ones. *)
Lemma decl_rows f c :
  (∀ i w, work_items c !! i = Some w → ∃ w', f (work_items c) !! i = Some w' ∧ declared_since w w') →
  (∀ i, work_items c !! i = None → f (work_items c) !! i = None) →
  lifecycle_step c (set_work_items f c).
Proof. by repeat split. Qed.

Definition keeps_declared (f : WorkItem → WorkItem) : Prop :=
  ∀ w, wi_declared (f w) = wi_declared w ∧ wi_resources_version (f w) = wi_resources_version w
       ∧ identity (f w) = identity w.

Lemma keeps_declared_since f w : keeps_declared f → declared_since w (f w).
Proof. intros H. destruct (H w) as (H1 & H2 & H3). split; [lia|done]. Qed.

Lemma decl_alter f id c : keeps_declared f → lifecycle_step c (set_work_items (alter f id) c).
Proof.
  intros Hf. apply decl_rows; intros i; destruct (decide (i = id)) as [->|Hne];
    rewrite ?lookup_alter_eq, ?lookup_alter_ne by done; intros; simplify_option_eq.
  - eexists. split; [done|]. by apply keeps_declared_since.
  - by eexists.
  - done.
  - done.
Qed.

Lemma keeps_status now st : keeps_declared (wi_with_status now st).
Proof. done. Qed.
Lemma keeps_claimed now att e : keeps_declared (wi_claimed now att e).
Proof. done. Qed.
Lemma keeps_rhs b : keeps_declared (wi_with_rhs b).
Proof. done. Qed.

Lemma decl_update_wi f id c c' :
  keeps_declared f → update_wi id f c = inr c' → lifecycle_step c c'.
Proof. intros Hf [= <-]. by apply decl_alter. Qed.

Lemma updated_row_since r v v' : updated_row r v = inr v' → declared_since v v'.
Proof.
  unfold updated_row. rewrite rbind_ok. intros ([] & _ & H). revert H.
  rewrite rbind_ok. intros (attrs & _ & H).
  apply rbind_ok in H as (dv & Hdv & H). cbv zeta in H. case_match; simplify_eq/=.
  destruct (DeclaredResources r) as [raw|]; [|simplify_eq; split; simpl; [lia|done]].
  apply rbind_ok in Hdv as (j & _ & Hdv). case_match; simplify_eq.
  split; simpl; [lia|]. split; [lia|done].
Qed.

Lemma decl_edit r id c b c' :
  buildWorkItemUpdate r id c = inr (b, c') → lifecycle_step c c'.
Proof.
  unfold buildWorkItemUpdate. rewrite rbind_ok. intros (_ & _ & H).
  destruct (work_items c !! id) as [v|] eqn:Hv; [|by simplify_eq].
  destruct (match ResourcesVersion r with Some _ => _ | None => _ end); [by simplify_eq|].
  apply rbind_ok in H as (v' & Hv' & [= _ <-]).
  apply decl_rows; intros i; destruct (decide (i = id)) as [->|Hne];
    rewrite ?lookup_insert_eq, ?lookup_insert_ne by done; intros; simplify_eq; try done.
  - eexists. split; [done|]. by eapply updated_row_since.
  - by eexists.
Qed.

Lemma decl_requeue now id ex c b c' :
  requeueIfUnblocked now id ex c = inr (b, c') → lifecycle_step c c'.
Proof.
  unfold requeueIfUnblocked. repeat case_match; intros [= _ <-]; try done.
  by apply decl_alter.
Qed.

Lemma decl_derive now id c c' : derive_blocked now id c = inr c' → lifecycle_step c c'.
Proof.
  unfold derive_blocked. intros [= <-]. repeat case_match; try done. by apply decl_alter.
Qed.

Lemma decl_gc now c n c' : gc_unblock now c = inr (n, c') → lifecycle_step c c'.
Proof.
  intros [= _ <-]. apply decl_rows; intros id; rewrite map_lookup_imap.
  - intros w ->. simpl. eexists. split; [done|].
    case_match; [by apply keeps_declared_since|done].
  - by intros ->.
Qed.

(** ** The handlers *)

(** The writes that touch no work item. *)
Lemma decl_lock_delete sel c rows c' :
  lockDeleteReporting sel c = inr (rows, c') → lifecycle_step c c'.
Proof. intros [= _ <-]. by apply decl_same. Qed.
Lemma decl_lock_insert t k att e c u c' :
  acquireLocksInsert t k att e c = inr (u, c') → lifecycle_step c c'.
Proof.
  unfold acquireLocksInsert. rewrite rbind_ok. intros (_ & _ & H).
  case_match; simplify_eq. by apply decl_same.
Qed.
Lemma decl_lock_upsert t k att e wi c r c' :
  lockUpsert t k att e wi c = inr (r, c') → lifecycle_step c c'.
Proof.
  unfold lockUpsert. rewrite rbind_ok. intros (_ & _ & H).
  repeat case_match; simplify_eq; by apply decl_same.
Qed.
Lemma decl_update_attempt id f c c' : update_attempt id f c = inr c' → lifecycle_step c c'.
Proof. intros [= <-]. by apply decl_same. Qed.
Lemma decl_insert_attempt id a c c' : insert_attempt id a c = inr c' → lifecycle_step c c'.
Proof. intros (-> & _)%insert_attempt_ok. by apply decl_same. Qed.
Lemma decl_insert_event e c c' : insert_event e c = inr c' → lifecycle_step c c'.
Proof. intros ->%insert_event_inr. by apply decl_same. Qed.
Lemma decl_insert_dep k n c b c' : insert_dep k n c = inr (b, c') → lifecycle_step c c'.
Proof. unfold insert_dep. repeat case_match; intros [= _ <-]; try done; by apply decl_same. Qed.
Lemma decl_delete_dep k c b c' : delete_dep k c = inr (b, c') → lifecycle_step c c'.
Proof. unfold delete_dep. repeat case_match; intros [= _ <-]; try done; by apply decl_same. Qed.

#[export] Hint Resolve decl_lock_delete decl_lock_insert decl_lock_upsert
  decl_update_attempt decl_insert_attempt decl_insert_event decl_insert_dep
  decl_delete_dep decl_requeue decl_derive decl_gc decl_edit keeps_status keeps_claimed
  keeps_rhs : moves.
#[export] Hint Extern 2 (lifecycle_step _ _) => eapply decl_update_wi; [|eassumption] : moves.

Lemma moves_emit_batches R `{!PreOrder R} n evs : Moves R (emit_batches n evs).
Proof.
  revert evs. induction n as [|n IH]; intros [|ev evs]; try apply (moves_ret _).
  simpl. apply (moves_bind _); [|intros; apply IH].
  unfold emitResourceEventBatch. destruct (resource_event_rows _); solve_moves.
Qed.
#[export] Hint Extern 1 (Moves _ (emit_batches _ _)) =>
  apply moves_emit_batches; apply _ : moves.

Lemma moves_probe wi ls ps : Moves lifecycle_step (probeForeignLockHolders wi ls ps).
Proof.
  revert ps. induction ls as [|l ls IH]; intros [|p ps]; solve_moves.
Qed.
#[export] Hint Resolve moves_probe : moves.

Lemma decl_step_upsert wi typ ref c c' : step_upsert wi typ ref c = inr c' → lifecycle_step c c'.
Proof. intros [= <-]. by apply decl_same. Qed.
Lemma decl_insert_completion sa sc c c' :
  insert_completion sa sc c = inr c' → lifecycle_step c c'.
Proof. unfold insert_completion. repeat case_match; intros [= <-]; try done; by apply decl_same. Qed.
#[export] Hint Resolve decl_step_upsert decl_insert_completion : moves.

Lemma decl_start_step now wi st sa c b c' :
  start_step_sql now wi st sa c = inr (b, c') → lifecycle_step c c'.
Proof. unfold start_step_sql. repeat case_match; intros [= _ <-]; by apply decl_same. Qed.
Lemma decl_step_completion sa sc c c' :
  insert_step_completion sa sc c = inr c' → lifecycle_step c c'.
Proof.
  unfold insert_step_completion. repeat case_match; intros [= <-]; by apply decl_same.
Qed.
Lemma decl_step_event e c c' : insert_step_event e c = inr c' → lifecycle_step c c'.
Proof.
  unfold insert_step_event.
  repeat case_match; try done; intros ->%insert_event_inr; by apply decl_same.
Qed.
#[export] Hint Resolve decl_start_step decl_step_completion decl_step_event : moves.

(** Writes of the form [set_steps], [set_memories], [set_run_attempts]. *)
#[export] Hint Extern 3 (lifecycle_step _ _) =>
  match goal with H : inr _ = inr _ |- _ => injection H as <-; by apply decl_same end : moves.

Lemma decl_expire now wi c c' : expire_memories now wi c = inr c' → lifecycle_step c c'.
Proof. intros [= <-]. by apply decl_same. Qed.
Lemma decl_cancel_attempts now wi c c' :
  cancel_attempts now wi c = inr c' → lifecycle_step c c'.
Proof. intros [= <-]. by apply decl_same. Qed.

Lemma moves_swallow m : Moves lifecycle_step m → Moves lifecycle_step (swallow_internal m).
Proof.
  apply moves_same. intros s. unfold swallow_internal.
  destruct (m s) as [[e|a] s']; [by case_decide|done].
Qed.

Lemma moves_force cx wi a sa : Moves lifecycle_step (fnForceTerminateStep cx wi a sa).
Proof. solve_moves. Qed.
Lemma moves_swallow_force cx wi a sa :
  Moves lifecycle_step (swallow_internal (fnForceTerminateStep cx wi a sa)).
Proof. apply moves_swallow, moves_force. Qed.

Lemma moves_escalate cx wi att user req : Moves lifecycle_step (escalate cx wi att user req).
Proof.
  intros s. unfold escalate. destruct (tx_phase s) eqn:E; try exact E.
  destruct (next_fault _) as [f1 fs1], (next_fault _) as [f2 fs2],
    (next_fault _) as [f3 fs3], (next_fault _) as [f4 fs4]. cbv zeta.
  destruct f1; [done|]. destruct f4; [by destruct f2, f3|].
  destruct f2, f3; simpl; try done.
  destruct (insert_step_event _ _) as [|c1] eqn:Ec; simpl; [done|].
  etransitivity; [apply (decl_alter (wi_with_status (cx_now cx) WBlocked) wi), keeps_status|].
  by eapply decl_step_event.
Qed.
#[export] Hint Resolve decl_expire decl_cancel_attempts moves_swallow_force moves_escalate : moves.

Lemma claim_moves cx wiID req caller : Moves lifecycle_step (claim_body cx wiID req caller).
Proof. solve_moves. Qed.
Lemma complete_moves cx wiID req o roles role : Moves lifecycle_step (complete_body cx wiID req o roles role).
Proof. solve_moves. Qed.
Lemma acquire_moves cx wiID req : Moves lifecycle_step (acquire_body cx wiID req).
Proof. solve_moves. Qed.
Lemma takeover_moves cx u dn s req w p pa : Moves lifecycle_step (takeover_body cx u dn s req w p pa).
Proof. solve_moves. Qed.
Lemma commit_moves cx wiID req : Moves lifecycle_step (reconcile_body cx wiID req).
Proof. solve_moves. Qed.
Lemma pins_moves cx wiID req pins : Moves lifecycle_step (record_pins_body cx wiID req pins).
Proof. solve_moves. Qed.
Lemma verify_moves cx w req : Moves lifecycle_step (verify_pool_body cx w req).
Proof. solve_moves. Qed.
Lemma cancel_moves cx wi u r role prole : Moves lifecycle_step (cancel_body cx wi u r role prole).
Proof. solve_moves. Qed.
Lemma create_dep_moves cx req k p u : Moves lifecycle_step (create_dep_body cx req k p u).
Proof. solve_moves. Qed.
Lemma delete_dep_moves cx a b k : Moves lifecycle_step (delete_dep_body cx a b k).
Proof. solve_moves. Qed.
Lemma step_moves cx wi user req : Moves lifecycle_step (update_step_body cx wi user req).
Proof. solve_moves. Qed.
Lemma orphan_moves cx : Moves lifecycle_step (orphan_sweep_body cx).
Proof. solve_moves. Qed.
Lemma unblock_moves cx : Moves lifecycle_step (unblock_sweep_body cx).
Proof. solve_moves. Qed.
Lemma edit_moves cx user w r : Moves lifecycle_step (edit_body cx user w r).
Proof. solve_moves. Qed.

(** ** The workflow handlers *)

(** A step of a workflow: declarations and histories only grow. *)
Definition system_step (c c' : Core) : Prop :=
  decl_grows c c' ∧ wf_grows (workflow c) (workflow c').

(** Any step: items may be new. *)
Definition any_step (c c' : Core) : Prop :=
  items_grow c c' ∧ wf_grows (workflow c) (workflow c').

#[export] Instance system_step_preorder : PreOrder system_step.
Proof. split; [by split|]. intros ??? [] []. by split; etransitivity. Qed.
#[export] Instance any_step_preorder : PreOrder any_step.
Proof. split; [by split|]. intros ??? [] []. by split; etransitivity. Qed.

Lemma system_any c c' : system_step c c' → any_step c c'.
Proof. by intros [[] ?]. Qed.

Lemma lifecycle_system c c' : lifecycle_step c c' → system_step c c'.
Proof. intros [? H]. split; [done|]. by rewrite H. Qed.

Lemma moves_weaken R R' {A} (m : Tx A) :
  (∀ c c', R c c' → R' c c') → Moves R m → Moves R' m.
Proof.
  intros H Hm s. specialize (Hm s). destruct (tx_phase s), (tx_phase (m s).2); auto.
Qed.

Lemma system_workflow f c : wf_grows (workflow c) (f (workflow c)) →
  system_step c (set_workflow f c).
Proof. intros. split; [by apply decl_grows_same|done]. Qed.

#[local] Hint Resolve grows_invocation grows_recorded grows_superseded grows_result
  grows_approval grows_repair grows_closed grows_generation : core.

Lemma sys_insert_invocation id i c c' : insert_invocation id i c = inr c' → system_step c c'.
Proof. intros (? & _ & _ & ->)%insert_invocation_ok. apply system_workflow. auto. Qed.
Lemma sys_insert_result id r c c' : insert_result id r c = inr c' → system_step c c'.
Proof. intros (? & _ & ->)%insert_result_ok. apply system_workflow. auto. Qed.
Lemma sys_insert_approval id a c c' : insert_approval id a c = inr c' → system_step c c'.
Proof. intros (? & _ & ->)%insert_approval_ok. apply system_workflow. auto. Qed.
Lemma sys_insert_repair id r c c' : insert_repair id r c = inr c' → system_step c c'.
Proof. intros (? & _ & _ & ->)%insert_repair_ok. apply system_workflow. auto. Qed.
Lemma sys_insert_generation wi v g c c' :
  insert_generation wi v g c = inr c' → system_step c c'.
Proof. intros (_ & ? & _ & ->)%insert_generation_ok. apply system_workflow. auto. Qed.
Lemma sys_move_pointer wi v flow rhs c c' :
  move_pointer wi v flow rhs c = inr c' → system_step c c'.
Proof.
  unfold move_pointer. case_match; intros [= <-]; [|done].
  etransitivity; [|apply (system_workflow (λ w, mkWf _ _ _ _ _ _)), grows_pointer].
  by apply lifecycle_system, (decl_alter (wi_with_workflow rhs)).
Qed.
Lemma sys_close_invocation id c c' : close_invocation id c = inr c' → system_step c c'.
Proof. intros [= <-]. apply system_workflow. auto. Qed.
Lemma sys_close_repair id c c' : close_repair id c = inr c' → system_step c c'.
Proof. intros [= <-]. apply system_workflow. auto. Qed.
Lemma sys_supersede wi att c rows c' :
  supersede_invocations wi att c = inr (rows, c') → system_step c c'.
Proof. intros [= _ <-]. apply system_workflow. auto. Qed.

#[export] Hint Resolve sys_insert_invocation sys_insert_result sys_insert_approval
  sys_insert_repair sys_insert_generation sys_move_pointer sys_close_invocation
  sys_close_repair sys_supersede : moves.
#[export] Hint Extern 5 (system_step _ _) =>
  apply lifecycle_system; solve [eauto 4 with moves] : moves.

Lemma lineage_moves wi fuel out cur : Moves system_step (lineage_walk wi fuel out cur).
Proof. revert out cur. induction fuel; solve_moves. Qed.
#[export] Hint Resolve lineage_moves : moves.

Lemma wf_start_moves o cx ids key req : Moves system_step (start_body o cx ids key req).
Proof. solve_moves. Qed.
Lemma wf_record_moves o cx ids key req r : Moves system_step (record_body o cx ids key req r).
Proof. solve_moves. Qed.
Lemma wf_approve_moves cx ids key u display req :
  Moves system_step (approve_body cx ids key u display req).
Proof. solve_moves. Qed.
Lemma wf_authorize_moves cx ids key req reason :
  Moves system_step (authorize_body cx ids key req reason).
Proof. solve_moves. Qed.
Lemma wf_reconcile_moves cx key req : Moves system_step (reconcile_inv_body cx key req).
Proof. solve_moves. Qed.
Lemma wf_revise_moves o cx key caller user role roles rhs req :
  Moves system_step (revise_body o cx key caller user role roles rhs req).
Proof. solve_moves. Qed.

(** ** Requests and executions *)

(** A transaction moves the tables along when its body does. *)
Lemma gc_run_grows R `{!PreOrder R} {A} lock aff env (m : Tx A) d :
  Moves R m → R (core d) (core (gc_run lock aff env m d).2).
Proof.
  intros Hm. pose proof (runTx_moves R m env d Hm) as H. unfold gc_run.
  destruct lock as [|[]]; try done. by destruct (runTx env m d) as [[]].
Qed.

#[export] Hint Resolve claim_moves complete_moves acquire_moves
  takeover_moves commit_moves pins_moves verify_moves cancel_moves create_dep_moves
  delete_dep_moves step_moves orphan_moves unblock_moves edit_moves wf_start_moves
  wf_record_moves wf_approve_moves wf_authorize_moves wf_reconcile_moves
  wf_revise_moves : moves.
#[export] Hint Extern 2 (lifecycle_step _ (core (runTx _ _ _).2)) =>
  apply (runTx_moves _) : moves.
#[export] Hint Extern 2 (system_step _ (core (runTx _ _ _).2)) =>
  apply (runTx_moves _) : moves.
#[export] Hint Extern 2 (lifecycle_step _ (core (gc_run _ _ _ _ _).2)) =>
  apply (gc_run_grows lifecycle_step) : moves.

(** A handler is checks, each of which may end it, around transactions. *)
Ltac solve_grows :=
  repeat (cbn [snd]; first
    [ reflexivity
    | solve [eauto 4 with moves]
    | match goal with
      | |- context [match ?x with _ => _ end] =>
          lazymatch x with runTx _ _ _ => fail | _ => destruct x end
      end ]).

Lemma step_handler_moves env1 env2 f1 f2 cx wi user req d0 d :
  lifecycle_step (core d) (core (handleUpdateStep env1 env2 f1 f2 cx wi user req d0 d).2).
Proof.
  unfold handleUpdateStep.
  assert (lifecycle_step (core d) (core (step_credential env1 f1 cx wi req d0 d).2)) as H.
  { unfold step_credential, VerifyAttemptCredentialPool. solve_grows. }
  destruct (step_credential env1 f1 cx wi req d0 d) as [[e|u] d1]; [exact H|].
  etransitivity; [exact H|]. cbn [snd]. unfold heartbeat_update.
  repeat (case_match; cbn [snd]; try reflexivity).
  all: solve [by apply decl_same | eauto with moves].
Qed.

Lemma edit_handler_moves url env f1 f2 cx key user role roles req later d0 d :
  lifecycle_step (core d)
    (core (UpdateWorkItem url env f1 f2 cx key user role roles req later d0 d).2).
Proof.
  unfold UpdateWorkItem. destruct (GetWorkItem f1 key d0) as [|w]; [reflexivity|].
  destruct (edit_checks _ _ _ _ _ _) as [|r]; [reflexivity|].
  pose proof (runTx_moves _ _ env d (edit_moves cx user w r)) as H.
  by destruct (runTx env _ d) as [[]].
Qed.

Lemma unblock_handler_moves env1 env2 f cx key user role reason d0 d :
  lifecycle_step (core d)
    (core (handleUnblockWorkItem env1 env2 f cx key user role reason d0 d).2).
Proof.
  unfold handleUnblockWorkItem. destruct (negb _); [reflexivity|].
  destruct (GetWorkItem f key d0) as [|w]; [reflexivity|]. destruct (negb _); [reflexivity|].
  destruct (autocommit env1 _ d) as [r d1] eqn:E1.
  assert (lifecycle_step (core d) (core d1)) as H1.
  { apply autocommit_spec in E1 as [[[-> _]|[[= <-] _]] _]; [reflexivity|].
    apply decl_alter. intros v. by case_bool_decide. }
  destruct r as [|[]]; [done|]. simpl.
  destruct (autocommit env2 _ d1) as [r d2] eqn:E2. simpl.
  apply autocommit_spec in E2 as [[[-> _]|[E _]] _]; [done|].
  etransitivity; [exact H1|]. by eapply decl_insert_event.
Qed.

(** Handlers that read their answer back after their transaction. *)
Lemma approve_handler_moves env f cx ids key actor display typ req later d :
  system_step (core d)
    (core (ApproveWorkflowStep env f cx ids key actor display typ req later d).2).
Proof.
  unfold ApproveWorkflowStep. destruct (approve_args _ _ _) as [|u]; [reflexivity|].
  pose proof (runTx_moves _ _ env d (wf_approve_moves cx ids key u display req)) as H.
  by destruct (runTx env _ d) as [[|[]]].
Qed.
Lemma authorize_handler_moves env f cx ids key req later d :
  system_step (core d) (core (AuthorizeWorkflowRepair env f cx ids key req later d).2).
Proof.
  unfold AuthorizeWorkflowRepair. destruct (authorize_args _) as [|reason]; [reflexivity|].
  pose proof (runTx_moves _ _ env d (wf_authorize_moves cx ids key req reason)) as H.
  by destruct (runTx env _ d) as [[]].
Qed.
Lemma revise_handler_moves o env cx key caller user role roles req later d :
  system_step (core d)
    (core (UpdateWorkItemWorkflow o env cx key caller user role roles req later d).2).
Proof.
  unfold UpdateWorkItemWorkflow. destruct (rv_rhs req) as [rhs|]; [|reflexivity].
  destruct (bool_decide _); [reflexivity|].
  pose proof (runTx_moves _ _ env d
    (wf_revise_moves o cx key caller user role roles rhs req)) as H.
  by destruct (runTx env _ d) as [[]].
Qed.

Lemma drop_pointer_grows id t : wf_grows t (drop_pointer id t).
Proof. apply grows_pointer. Qed.

(** A creation adds an item, and perhaps a generation. *)
Lemma create_outcome_steps c c' : create_outcome c c' → any_step c c'.
Proof.
  intros [->|(o & cx & id & user & dis & roles & role & q & mode & w & ids & H)]; [done|].
  destruct H as [Hfr _ _ _ _ Hi _ _ _ _ _ _ Hw]. split.
  - intros i v Hv. exists v. rewrite Hi, lookup_insert_ne; [by split|congruence].
  - etransitivity; [apply (drop_pointer_grows id)|]. unfold first_generation in Hw.
    destruct (cq_steps q); [|by rewrite Hw].
    destruct Hw as (caller & pin & _ & _ & Hf & ->). by apply grows_generation.
Qed.

(** A request of the lifecycle, one of workflows, or a creation. *)
Lemma request_steps m h d d' :
  request m h d d' →
  lifecycle_step (core d) (core d')
  ∨ system_step (core d) (core d')
    ∧ (keyed (core d) → workflow_outcome (core d) (core d'))
  ∨ create_outcome (core d) (core d').
Proof.
  destruct 1.
  all: lazymatch goal with
    | |- context [StartWorkflowStep] =>
        right; left; split; [unfold StartWorkflowStep; solve_grows|by intros; apply StartWorkflowStep_outcome]
    | |- context [RecordWorkflowResult] => right; left; split;
        [unfold RecordWorkflowResult; solve_grows|by intros; apply RecordWorkflowResult_outcome]
    | |- context [ApproveWorkflowStep] => right; left; split;
        [apply approve_handler_moves|by intros; apply ApproveWorkflowStep_outcome]
    | |- context [AuthorizeWorkflowRepair] => right; left; split;
        [apply authorize_handler_moves|by intros; apply AuthorizeWorkflowRepair_outcome]
    | |- context [ReconcileWorkflowInvocations] => right; left; split;
        [unfold ReconcileWorkflowInvocations; solve_grows
        |by intros; apply ReconcileWorkflowInvocations_outcome]
    | |- context [UpdateWorkItemWorkflow] => right; left; split;
        [apply revise_handler_moves|by intros; apply UpdateWorkItemWorkflow_outcome]
    | |- context [CreateWorkItem] =>
        right; right; apply CreateWorkItem_outcome
    | _ => left; first
        [ apply step_handler_moves | apply unblock_handler_moves | apply edit_handler_moves | solve [eauto 4 with moves]
        | match goal with |- lifecycle_step _ (core (?f).2) => unfold_head f end; solve_grows ]
    end.
Qed.

(** Whatever an execution does, it never lowers the version of an item, never
    changes declarations without raising it, and only adds to histories. *)
Lemma request_any m h d d' : request m h d d' → any_step (core d) (core d').
Proof.
  intros [H|[[H _]|H]]%request_steps.
  - by apply system_any, lifecycle_system.
  - by apply system_any.
  - by apply create_outcome_steps.
Qed.

Lemma run_steps m d0 h d :
  run m d0 h d → ∀ ds, ds ∈ h → any_step (core ds) (core d).
Proof.
  induction 1 as [|h d d' Hrun IH Hr]; intros ds.
  - by intros ->%list_elem_of_singleton.
  - intros [->|Hds]%elem_of_cons; [reflexivity|].
    etransitivity; [by apply IH|]. by eapply request_any.
Qed.

Lemma run_grows m d0 h d :
  run m d0 h d → ∀ ds, ds ∈ h → items_grow (core ds) (core d).
Proof. intros Hr ds Hds. by destruct (run_steps _ _ _ _ Hr ds Hds). Qed.
