(* ===== verification/Scenario.v ===== *)
(** * A small installation to evaluate the handlers on

    Two users, two work items of project "p" that both declare the file
    [a.go] of repository "r", and one item that depends on the first.  The
    theorems' witnesses and the counterexamples run the handlers on it. *)

From S2P Require Import Prelude GoStrings Errors Json Crypto Declared Locks Store.
From S2P Require Import TxLogic LifecycleSpec ResourceEvents Attempts Claim Complete.
From S2P Require Import Takeover Dependencies StepUpdate Lifecycle Handover DepGraph.
From S2P Require Import StepSpec System.

Open Scope list_scope.

Definition clock (n : Z) (att op : string) : Ctx :=
  mkCtx n att ("sc_" +:+ att) ("lop1_" +:+ op) ("lop2_" +:+ op) None.

Definition file_a : RawMessage :=
  RawJSON (JArr [JObj [("type", JStr "path"); ("uri", JStr "file:a.go"); ("repo", JStr "r")]]).

Definition item_a : WorkItem := new_item "wi_a" "fix-a" "p" file_a.
Definition item_b : WorkItem := new_item "wi_b" "fix-b" "p" file_a.
Definition item_c : WorkItem := new_item "wi_c" "doc-c" "p" RawEmpty.

Definition db0 : Db := mkDb (with_items [item_a; item_b; item_c]) [].

Definition alice : Caller := mkCaller "u1" "Alice".
Definition bob : Caller := mkCaller "u2" "Bob".
Definition no_roles : gmap string string := ∅.
Definition maintains : gmap string string := {[ "p" := "maintainer" ]}.

Definition claim_req (idem secret : string) : ClaimRequest :=
  mkClaim idem "m1" secret [] false None.

(** Alice claims the first item. *)
Definition claim_a (d : Db) := FnClaimWorkItem ideal_env (clock 10 "ra_1" "c1") "wi_a"
  (claim_req "k1" "s1") alice d.
Definition db1 : Db := Eval vm_compute in (claim_a db0).2.

(** Bob, who maintains the project, takes it over. *)
Definition force_a (snap d : Db) := FnForceTakeover ideal_env None None
  (clock 20 "ra_2" "f1") "fix-a" "u2" "Bob" "user" maintains
  (mkForce "stuck" "" "s2") "gen" snap d.
Definition db2 : Db := Eval vm_compute in (force_a db1 db1).2.

Definition complete_req (att : string) (epoch : Z) (secret status : string)
  : CompleteAttemptRequest :=
  mkComplete att epoch secret status false None
    (if String.eqb status "wrapped" then Some [] else None) None.

Definition complete_a (d : Db) (req : CompleteAttemptRequest) :=
  FnCompleteAttempt ideal_env (clock 30 "" "e1") "wi_a" req no_roles "user" d.

(** The first item wrapped by its second attempt. *)
Definition wrap_a (d : Db) := complete_a d (complete_req "ra_2" 2 "s2" "wrapped").
Definition db3 : Db := Eval vm_compute in (wrap_a db2).2.

(** ** These steps are executions *)

Lemma db0_wf : Wf (core db0).
Proof. apply with_items_wf. repeat constructor. Qed.

(** Evaluates an [epoch_room] side condition on a concrete database. *)
Definition room_b (c : Core) : bool :=
  forallb (λ kw : string * WorkItem, Z.ltb (wi_epoch kw.2) max_int64)
    (map_to_list (work_items c)).

Lemma room_b_ok c : room_b c = true → epoch_room c.
Proof.
  intros H id w Hw. unfold room_b in H. rewrite forallb_forall in H.
  apply Z.ltb_lt, (H (id, w)), list_elem_of_In, elem_of_map_to_list, Hw.
Qed.

Lemma run_db1 m : run m db0 [db1; db0] db1.
Proof.
  eapply run_step; [apply run_init|].
  assert (db1 = (claim_a db0).2) as -> by (vm_compute; reflexivity).
  apply r_claim; [by apply room_b_ok; vm_compute|done].
Qed.

Lemma run_db2 : run takeovers db0 [db2; db1; db0] db2.
Proof.
  eapply run_step; [apply run_db1|].
  assert (db2 = (force_a db1 db1).2) as -> by (vm_compute; reflexivity).
  apply r_takeover; [done|set_solver|by apply room_b_ok; vm_compute|done].
Qed.

Lemma run_db3 : run takeovers db0 [db3; db2; db1; db0] db3.
Proof.
  eapply run_step; [apply run_db2|].
  assert (db3 = (wrap_a db2).2) as -> by (vm_compute; reflexivity).
  apply r_complete.
Qed.

Lemma db2_wf : Wf (core db2).
Proof. apply (run_wf _ _ _ _ db0_wf run_db2). Qed.
Lemma db1_wf : Wf (core db1).
Proof. apply (run_wf _ _ _ _ db0_wf (run_db1 calm)). Qed.
Lemma db3_wf : Wf (core db3).
Proof. apply (run_wf _ _ _ _ db0_wf run_db3). Qed.

(** The second item cancelled before anyone claimed it. *)
Definition cancel_b (d : Db) :=
  CancelWorkItem ideal_env None (clock 15 "" "cb") "wi_b" "u1" "user" no_roles d d.
Definition cancelled_b : Db := Eval vm_compute in (cancel_b db0).2.

Lemma run_cancelled : run calm db0 [cancelled_b; db0] cancelled_b.
Proof.
  eapply run_step; [apply run_init|].
  assert (cancelled_b = (cancel_b db0).2) as -> by (vm_compute; reflexivity).
  apply r_cancel. set_solver.
Qed.

(** Then Alice claims the first item. *)
Definition after_cancel : Db := Eval vm_compute in (claim_a cancelled_b).2.

Lemma run_after_cancel : run calm cancelled_b [after_cancel; cancelled_b] after_cancel.
Proof.
  eapply run_step; [apply run_init|].
  assert (after_cancel = (claim_a cancelled_b).2) as -> by (vm_compute; reflexivity).
  apply r_claim; [by apply room_b_ok; vm_compute|done].
Qed.

(** Alice claims the third item, asking for a worktree, while Bob holds the
    file of the first. *)
Definition worktree_req : ClaimRequest :=
  mkClaim "k3" "m1" "s3" [mkLockReq "worktree" "wt1"] false None.
Definition claim_c (d : Db) := FnClaimWorkItem ideal_env (clock 25 "ra_3" "c3") "doc-c"
  worktree_req alice d.

(** The commit happens, its acknowledgement does not arrive. *)
Definition lost_env : Env := mkEnv true [] CommitLost.
Definition lost_claim (d : Db) := FnClaimWorkItem lost_env (clock 10 "ra_1" "c1") "wi_a"
  (claim_req "k1" "s1") alice d.

(** A commit recorded for the first item, and no step. *)
Definition db2_commit : Db :=
  mkDb (add_event (mkEvent "commit" "wi_a" (Some "ra_2") (Some "u2") "Bob" [] (Some "p"))
          (core db2)) (savepoint_events db2).

(** The third item is made to wait for the first. *)
Definition dep_req : CreateDependencyRequest := mkDepReq "wi_c" "wi_a" "" None.
Definition add_dep (d : Db) := CreateDependency ideal_env None None None
  (clock 27 "" "d") dep_req "u2" maintains "user" d d.
Definition db2_dep : Db := Eval vm_compute in (add_dep db2).2.

Lemma db2_dep_wf : Wf (core db2_dep).
Proof.
  assert (db2_dep = (add_dep db2).2) as -> by (vm_compute; reflexivity).
  eapply refines_wf; [exact db2_wf|]. apply CreateDependency_refines, db2_wf.
Qed.

Definition del_dep (d : Db) :=
  DeleteDependency ideal_env (clock 28 "" "dd") "wi_c" "wi_a" "blocks" d.

(** A dependency on an item that is already wrapped blocks its dependent all
    the same; the sweep repairs it. *)
Definition stuck_db : Db := Eval vm_compute in (add_dep db3).2.
Definition sweep (d : Db) := RunUnblockDependentWI (inr true) ideal_env (clock 90 "" "g") d.

(** Steps of the first item, reported by its second attempt. *)
Definition step_req (status step sa next next_sa : string) : UpdateStepRequest :=
  mkStepReq (mkAttReq "ra_2" 2 "s2") status (Some step) (Some sa) false None None false
    (nilIfEmpty next) (nilIfEmpty next_sa).
Definition start_req : UpdateStepRequest := step_req "in_progress" "code" "sa1" "" "".
Definition done_req : UpdateStepRequest := step_req "completed" "code" "sa1" "test" "sa2".
Definition db_step1 : Db := Eval vm_compute in
  (runTx ideal_env (update_step_body (clock 22 "x1" "s") "wi_a" "u2" start_req) db2).2.
Definition db_step2 : Db := Eval vm_compute in
  (runTx ideal_env (update_step_body (clock 23 "x2" "s") "wi_a" "u2" done_req) db_step1).2.
