(* ===== verification/WorkflowScenario.v ===== *)
(** * A workflow to evaluate the handlers on

    The first item of [Scenario] given a flow of a write, a review that a human
    gates, and a verification; then claimed, started and recorded. *)

From S2P Require Import Prelude GoStrings Errors Json Crypto GoJson Declared Flow Policy.
From S2P Require Import WorkflowTables WorkflowPin Store TxLogic LifecycleSpec Attempts Claim.
From S2P Require Import Complete Lifecycle Takeover Edit WorkflowStart WorkflowRun WorkflowRepair.
From S2P Require Import Pooled WorkflowRevise WorkflowReads WorkflowSpec WorkflowLifecycle System.
From S2P Require Import WorkflowHistory WorkflowInvariant Scenario.

Open Scope list_scope.

Definition contract_for (cap : string) : SkillContract := mkContract [cap] "" "" "" false.
Definition skill_contract (id : string) : result AihubError (Z * SkillContract) :=
  if String.eqb id "coder" then inr (1%Z, contract_for CapAuthoring)
  else if String.eqb id "reviewer" then inr (1%Z, contract_for CapReview)
  else if String.eqb id "verifier" then inr (1%Z, contract_for CapVerification)
  else inl (NewErr ErrNotFound).

Definition a_digest : string :=
  "sha256:0123456789abcdef0123456789abcdef0123456789abcdef0123456789abcdef".

(** A registry of three skills, and one user. *)
Definition demo_outside : Outside :=
  mkOutside (λ _ id _, skill_contract id) (λ id _, rbind (skill_contract id) (λ p, inr p.2))
    (λ _, inr (mkUser "u1" "user" None)) (λ _, true) (λ _ _, true) (λ _ _ _ _, true)
    (λ _ _, true) (λ _ _ _ _ _, a_digest).

Definition spec (id skill : string) (rhs : option bool) (inputs : list InputRef)
  : WorkflowStepSpec :=
  mkSpec id skill 0 rhs [mkCandidate "claude" "m" "high"] "" inputs.
Definition demo_specs : list WorkflowStepSpec :=
  [spec "write" "coder" None [];
   spec "review" "reviewer" (Some true) [mkInput "diff" "write" "diff"];
   spec "verify" "verifier" None [mkInput "diff" "write" "diff"]].

Definition reporter : UserRecord := mkUser "u1" "user" None.
Definition revision (expected : Z) : UpdateWorkItemWorkflowRequest :=
  mkRevision expected (Some true) demo_specs.
Definition quiet (d : Db) : Pool := mkPool (λ _, core d) (λ _, None).
Definition revise_a (expected : Z) (d : Db) :=
  UpdateWorkItemWorkflow demo_outside ideal_env (clock 5 "" "w") "fix-a" reporter "u1" "user"
    no_roles (revision expected) quiet d.

(** The artifacts of the steps are memories of the item. *)
Definition payload : json := JObj [("ok", JBool true)].
Definition artifact_hash : string := Eval vm_compute in workflowArtifactDigest payload.
Definition a_memory : MemoryRow :=
  mkMem "wi_a" "methodology.output" "active" None "project" "u1"
    (RawJSON (JObj [("structured_payload", payload)])).
Definition db0_memory : Db := mkDb (set_memories (<["mem_1" := a_memory]>) (core db0)) [].

Definition wf1 : Db := Eval vm_compute in (revise_a 0 db0_memory).2.
Definition wf2 : Db := Eval vm_compute in (claim_a wf1).2.

Definition ids (n : string) : WfIds :=
  mkIds ("sa_" +:+ n) ("wfp_" +:+ n) ("winv_" +:+ n) ("wres_" +:+ n) ("wapp_" +:+ n)
    ("wrep_" +:+ n).
Definition start_step (step n repair : string) (now : Z) (d : Db) :=
  StartWorkflowStep demo_outside ideal_env (clock now "" "s") (ids n) "fix-a"
    (mkStart "ra_1" 1 "s1" step repair) d.
Definition step_result (status verdict step n : string) (evidence : list Evidence) : StepResult :=
  mkResult status verdict "wi_a" 1 step ("sa_" +:+ n) 1 ("wfp_" +:+ n)
    (mkArtifact "mem_1" 1 artifact_hash) evidence.
Definition record_result (r : StepResult) (n : string) (now : Z) (d : Db) :=
  RecordWorkflowResult demo_outside ideal_env (clock now "" "r") (ids n) "fix-a"
    (mkRecord "ra_1" 1 "s1" (Some r)) d.

Definition evidence : list Evidence := [mkEvidence "log" "run/1" a_digest].

(** The write is started and completed; then the review is started. *)
Definition wf3 : Db := Eval vm_compute in (start_step "write" "1" "" 11 wf2).2.
Definition write_done : StepResult := step_result StatusCompleted "" "write" "1" evidence.
Definition wf4 : Db := Eval vm_compute in (record_result write_done "1" 12 wf3).2.
Definition wf5 : Db := Eval vm_compute in (start_step "review" "2" "" 13 wf4).2.
(** The review passes, and a human approves its artifact. *)
Definition review_pass : StepResult := step_result StatusCompleted ReviewPass "review" "2" evidence.
Definition wf6 : Db := Eval vm_compute in (record_result review_pass "2" 14 wf5).2.
Definition approve_review (decision : string) (now : Z) (d : Db) :=
  ApproveWorkflowStep ideal_env None (clock now "" "a") (ids "2") "fix-a" (Some reporter) "U"
    "human" (mkApproveReq 1 "review" (mkArtifact "mem_1" 1 artifact_hash) decision) id d.
Definition wf7 : Db := Eval vm_compute in (approve_review ApprovalGranted 15 wf6).2.

(** Or it fails, and the attempt is paused. *)
Definition review_fail : StepResult := step_result StatusCompleted ReviewFail "review" "2" evidence.
Definition wf6_failed : Db := Eval vm_compute in (record_result review_fail "2" 14 wf5).2.

(** ** These steps are executions *)

Lemma db0_memory_wf : Wf (core db0_memory).
Proof. destruct db0_wf as [Hk HI]. by split. Qed.

Lemma run_wf1 m : run m db0_memory [wf1; db0_memory] wf1.
Proof.
  eapply run_step; [apply run_init|].
  assert (wf1 = (revise_a 0 db0_memory).2) as -> by (vm_compute; reflexivity).
  apply r_wf_revise.
Qed.
Lemma run_wf2 m : run m db0_memory [wf2; wf1; db0_memory] wf2.
Proof.
  eapply run_step; [apply run_wf1|].
  assert (wf2 = (claim_a wf1).2) as -> by (vm_compute; reflexivity).
  apply r_claim; [by apply room_b_ok; vm_compute|done].
Qed.
Lemma run_wf3 m : run m db0_memory [wf3; wf2; wf1; db0_memory] wf3.
Proof.
  eapply run_step; [apply run_wf2|].
  assert (wf3 = (start_step "write" "1" "" 11 wf2).2) as -> by (vm_compute; reflexivity).
  apply r_wf_start.
Qed.
Lemma run_wf4 m : run m db0_memory [wf4; wf3; wf2; wf1; db0_memory] wf4.
Proof.
  eapply run_step; [apply run_wf3|].
  assert (wf4 = (record_result write_done "1" 12 wf3).2) as -> by (vm_compute; reflexivity).
  apply r_wf_result.
Qed.
