(* ===== verification/WorkflowContracts.v ===== *)
(** * The promises of workflows

    What the clients of the workflow endpoints can rely on: consistent tables
    whose history only grows, steps that start in order, results that only the
    current attempt can record, decisions that are final, and loops that end. *)

From S2P Require Import Prelude GoStrings Errors Json Crypto GoJson Declared Flow Policy.
From S2P Require Import WorkflowTables WorkflowPin Store TxLogic LifecycleSpec ResourceEvents.
From S2P Require Import Attempts Claim.
From S2P Require Import Complete Lifecycle Takeover Handover Edit WorkflowStart WorkflowRun.
From S2P Require Import WorkflowRepair WorkflowRevise WorkflowReads WorkflowSpec.
From S2P Require Import WorkflowLifecycle System WorkflowHistory WorkflowInvariant Versions.
From S2P Require Import WorkflowTermination Scenario WorkflowScenario.

Open Scope nat_scope.
Open Scope list_scope.

(** ** Along executions *)

Lemma run_wf_ok m d0 h d :
  Wf (core d0) → workflows_ok (core d0) → run m d0 h d → workflows_ok (core d).
Proof.
  intros HW Hok. induction 1 as [|h d d' Hrun IH Hr]; [done|].
  assert (keyed (core d)) as Hk by apply (wf_keyed _ (run_wf _ _ _ _ HW Hrun)).
  assert (items_kept (core d) (core d')) as Hkeep.
  { intros i [w Hw]. destruct (request_any _ _ _ _ Hr) as [Hg _].
    destruct (Hg _ _ Hw) as (w' & Hw' & _). by exists w'. }
  destruct (request_steps _ _ _ _ Hr) as [[_ Hwf]|[[_ Hw]|Hw]].
  - destruct IH as [H1 H2]. split; [by rewrite Hwf|].
    apply (owned_same (core d)); [done|by rewrite Hwf|done].
  - destruct (Hw Hk) as [->|Hc]; [done|]. by eapply workflow_commit_wf.
  - destruct Hw as [->|(? & ? & ? & ? & ? & ? & ? & ? & ? & ? & ? & Hc)]; [done|].
    by eapply created_wf.
Qed.

(** C10. The tables of workflows are consistent in every state that requests of
    any kind reach, whatever their interleaving and faults: a step has at most
    one open invocation; an invocation is recorded exactly when it has a result,
    one, with its identity; the current generation of an item is the newest one
    stored; a repair authorization answers a recorded failure of its kind, is
    bound to steps of its own generation and continues a chain of fewer than
    three retries; an artifact has at most one decision (see [wf_ok]). *)
Theorem workflow_state_consistent m d0 h d :
  Wf (core d0) → workflows_ok (core d0) → run m d0 h d → wf_ok (workflow (core d)).
Proof. intros HW Hok Hr. exact (wk_tables _ (run_wf_ok _ _ _ _ HW Hok Hr)). Qed.

Lemma db0_memory_ok : workflows_ok (core db0_memory).
Proof. by apply workflows_ok_empty. Qed.

Lemma wf4_ok : wf_ok (workflow (core wf4)).
Proof. exact (wk_tables _ (run_wf_ok takeovers _ _ _ db0_memory_wf db0_memory_ok (run_wf4 takeovers))). Qed.

Lemma workflow_state_consistent_witness :
  wf_ok (workflow (core db0_memory)) ∧ wf_ok (workflow (core wf4)).
Proof.
  split; [exact (wk_tables _ db0_memory_ok)|].
  exact (workflow_state_consistent takeovers _ _ _ db0_memory_wf db0_memory_ok (run_wf4 takeovers)).
Defined.

(** C13. History is append-only: from any earlier state of an execution to its
    last one, every generation, result and approval is still there unchanged;
    every invocation keeps its identity and is never opened again, and once
    recorded stays recorded; every authorization is there, unchanged but
    perhaps closed.  This holds through every request, takeovers, edits and
    sweeps included. *)
Theorem workflow_history_grows m d0 h d ds :
  run m d0 h d → ds ∈ h →
  let w := workflow (core ds) in let w' := workflow (core d) in
  wf_generations w ⊆ wf_generations w' ∧ wf_results w ⊆ wf_results w'
  ∧ wf_approvals w ⊆ wf_approvals w'
  ∧ (∀ id i, wf_invocations w !! id = Some i → ∃ i',
       wf_invocations w' !! id = Some i' ∧ iv_with_status (iv_status i) i' = i
       ∧ (iv_status i = InvRecorded → i' = i) ∧ (iv_status i ≠ InvOpen → iv_status i' ≠ InvOpen))
  ∧ (∀ id r, wf_repairs w !! id = Some r → ∃ r',
       wf_repairs w' !! id = Some r' ∧ (r' = r ∨ r' = rpr_closed r)).
Proof.
  intros Hr Hds w w'. destruct (run_steps _ _ _ _ Hr ds Hds) as [_ [Hg Hi Hre Ha Hq]].
  split_and!; try done. intros id i Hid. destruct (Hi _ _ Hid) as (i' & Hi' & [E1 E2 E3]).
  exists i'. split_and!; try done. intros Hs. rewrite <- E1, Hs.
  specialize (E2 Hs). destruct i'. simpl in *. by subst.
Qed.

Lemma workflow_history_grows_witness :
  wf_generations (workflow (core wf1)) ⊆ wf_generations (workflow (core wf4)).
Proof.
  apply (workflow_history_grows takeovers _ _ wf4 wf1 (run_wf4 takeovers)).
  right. right. right. left.
Defined.

(** ** Starting *)

Lemma StartWorkflowStep_success o env cx ids key req d resp :
  Wf (core d) → (StartWorkflowStep o env cx ids key req d).1 = inr resp →
  ∃ w a v flow grants meta s,
    started o cx ids key req (core d) w a v flow grants meta s
      (core (StartWorkflowStep o env cx ids key req d).2)
    ∧ resp = start_response ids w v grants s.
Proof.
  intros [Hk _]. unfold StartWorkflowStep. destruct (String.eqb _ _); [done|].
  apply (runTx_success (start_body o cx ids key req) _ env d resp (start_body_spec o cx ids key req _ Hk)).
Qed.

(** The current attempt of an item belongs to it, so the flow revalidated is
    the pinned one. *)
Lemma current_attempt_of c w att epoch secret a :
  Wf c → work_items c !! wi_id w = Some w → credential_ok c w att epoch secret a →
  ra_wi a = wi_id w.
Proof.
  intros [_ HI] Hw [Hcur Ha _ _ _].
  destruct (inv_current _ HI (wi_id w) (abs_wi w) att) as (x & Hx & Hi & _);
    [apply abs_lookup_wi; eauto|done|].
  apply abs_lookup_att in Hx as (b & Hb & ->). by simplify_eq.
Qed.

(** C11. Steps start in order.  When a start that names no authorization
    succeeds, the caller holds the current attempt of a running item, the step
    is one of the item's pinned flow and has no open invocation; it has no
    result yet, or a human rejected the latest; every step before it has
    completed and is no failed review; every human-gated step with a result is
    approved on exactly its latest artifact; and no authorization of the
    generation is unsettled.  The start adds one open invocation, the answered
    one, and changes nothing else of workflows, items and locks. *)
Theorem ordinary_start_in_order o env cx ids key req d resp :
  Wf (core d) → sw_repair req = "" →
  (StartWorkflowStep o env cx ids key req d).1 = inr resp →
  let c := core d in let c' := core (StartWorkflowStep o env cx ids key req d).2 in
  ∃ w a v flow s inv, select_wi key c = inr w
    ∧ credential_ok c w (sw_attempt req) (sw_epoch req) (sw_secret req) a
    ∧ wi_status w = WRunning
    ∧ wf_pointers (workflow c) !! wi_id w = Some (flow, v)
    ∧ find_step flow (sw_step req) = Some s
    ∧ step_idle (wi_id w) v (st_id s) (workflow c)
    ∧ in_order (wi_id w) v flow s (workflowStepIndex flow (sw_step req)) (wi_human w)
        (workflow c)
    ∧ iv_step inv = st_id s ∧ iv_status inv = InvOpen ∧ iv_run inv = sw_attempt req
    ∧ iv_attempt inv = sp_attempt resp ∧ iv_producer inv = sp_producer resp
    ∧ wf_invocations (workflow c) !! sp_invocation resp = None
    ∧ workflow c' = set_invocations (<[sp_invocation resp := inv]>) (workflow c)
    ∧ work_items c' = work_items c ∧ resource_locks c' = resource_locks c.
Proof.
  intros HW Hrep Hs c c'.
  destruct (StartWorkflowStep_success _ _ _ _ _ _ _ _ HW Hs)
    as (w & a & v & flow & grants & meta & s & H & ->).
  destruct H as [(f & Hsel & Hp) Hv Hcred Hrun Hval Hstep Hidle Hord Hfr _ _ Ht Hw].
  assert (work_items (core d) !! wi_id w = Some w) as Hrow
    by (by destruct (select_wi_Some key (core d) w (wf_keyed _ HW) Hsel)).
  pose proof (current_attempt_of _ _ _ _ _ _ HW Hrow Hcred) as Ha.
  assert (wf_pointers (workflow (core d)) !! wi_id w = Some (flow, v)) as Hpf.
  { destruct Hval as [(b & v' & Hb & Hbp) _]. destruct Hcred as [_ Hrowa _ _ _].
    assert (b = a) as -> by congruence. rewrite Ha, Hp in Hbp. by injection Hbp as -> _. }
  unfold start_order in Hord. rewrite Hrep in Hord.
  exists w, a, v, flow, s, (new_invocation cx ids (wi_id w) v s (grant_of grants (st_id s)) req).
  destruct Ht as [Hti _ Htl _]. by repeat (split; [done|]).
Qed.

Lemma find_step_id flow id s : find_step flow id = Some s → st_id s = id.
Proof. by intros [_ ?%String.eqb_eq]%find_some. Qed.

(** The review of the scenario starts after the write has completed. *)
Lemma ordinary_start_in_order_witness :
  ∃ wi v, step_idle wi v "review" (workflow (core wf4)).
Proof.
  destruct (start_step "review" "2" "" 13 wf4) as [[e|resp] d'] eqn:Hs;
    [by vm_compute in Hs|].
  assert ((start_step "review" "2" "" 13 wf4).1 = inr resp) as H by by rewrite Hs.
  destruct (ordinary_start_in_order demo_outside ideal_env (clock 13 "" "s") (ids "2") "fix-a"
    (mkStart "ra_1" 1 "s1" "review" "") wf4 resp
    (run_wf _ _ _ _ db0_memory_wf (run_wf4 takeovers)) eq_refl H)
    as (w & a & v & flow & s & inv & _ & _ & _ & _ & Hf & Hidle & _).
  exists (wi_id w), v. rewrite (find_step_id _ _ _ Hf) in Hidle. exact Hidle.
Defined.

(** ** Recording *)

Lemma RecordWorkflowResult_success o env cx ids key req r d out :
  rq_result req = Some r → (RecordWorkflowResult o env cx ids key req d).1 = inr out →
  ∃ w a v inv i m,
    recorded o cx ids key req r (core d) w a v inv i m
      (core (RecordWorkflowResult o env cx ids key req d).2)
    ∧ out = record_response w v r.
Proof.
  unfold RecordWorkflowResult. intros ->.
  apply (runTx_success (record_body o cx ids key req r) _ env d out
           (record_body_spec o cx ids key req r (core d))).
Qed.

(** Closing changes authorizations only. *)
Lemma closings_frame w w' :
  closings w w' →
  wf_pointers w' = wf_pointers w ∧ wf_generations w' = wf_generations w
  ∧ wf_invocations w' = wf_invocations w ∧ wf_results w' = wf_results w
  ∧ wf_approvals w' = wf_approvals w.
Proof. intros (e & p & w1 & [|? ? ? ?] & [|? ? ? ?]); done. Qed.

(** A failed review, as the tables show it. *)
Lemma review_paused_shows cx w att r epoch secret a c c1 c' :
  work_items c !! wi_id w = Some w → credential_ok c w att epoch secret a →
  review_paused cx w att r (heartbeat (cx_now cx) att c) c1 → same_tables c1 c' →
  (∃ x, work_items c' !! wi_id w = Some x ∧ wi_status x = WPaused)
  ∧ (∃ y, run_attempts c' !! att = Some y ∧ ra_status y = RPaused
          ∧ ra_pause_reason y = Some (review_fail_reason r))
  ∧ ∀ k l, resource_locks c' !! k = Some l ↔
      resource_locks c !! k = Some l ∧ (lk_owner l = att → k.1 ≠ "file_scope").
Proof.
  intros Hw [_ Ha _ _ _] [P1 P2 P3 _ _] [S1 S2 S3 _]. split_and!.
  - exists (wi_with_status (cx_now cx) WPaused w). split; [|done].
    rewrite S1, P1. simpl. by rewrite lookup_alter_eq, Hw.
  - eexists. rewrite S2, P2. simpl. rewrite !lookup_alter_eq, Ha. by split.
  - intros k l. rewrite S3, P3.
    change (kept_locks (acquireLocksReleasePaused att) (heartbeat (cx_now cx) att c))
      with (kept_locks (end_sel att OPaused) c).
    rewrite end_sel_kept. naive_solver.
Qed.

(** C12. Recording a result takes effect as a whole.  A recorded result answers
    an invocation that was open, had no result, and has the result's item,
    generation, step, step attempt, producer and epoch; the caller holds the
    current attempt, which started it; its shape fits the step's capabilities,
    and a completed one names a stored artifact of the item, readable by the
    recording user, with the digest claimed and the pinned schema.  The result
    is stored and the invocation recorded; authorizations at most close, each
    with its work done; and the lifecycle is untouched, except that a failed
    review pauses item and attempt and releases exactly the attempt's file
    locks. *)
Theorem record_takes_effect o env cx ids key req r d out :
  Wf (core d) → rq_result req = Some r →
  (RecordWorkflowResult o env cx ids key req d).1 = inr out →
  let c := core d in let c' := core (RecordWorkflowResult o env cx ids key req d).2 in
  let t := workflow c in let t' := workflow c' in
  ∃ w a f v inv i m, workflow_item c key w (Some (f, v))
    ∧ credential_ok c w (rq_attempt req) (rq_epoch req) (rq_secret req) a
    ∧ wf_invocations t !! inv = Some i ∧ answers_invocation req r w v i
    ∧ (∀ k q, wf_results t !! k = Some q → wr_inv q ≠ inv)
    ∧ (∃ g, wf_generations t !! (wi_id w, v) = Some g ∧ gn_meta g !! sr_step r = Some m)
    ∧ validateWorkflowResultShape r m = true
    ∧ (sr_status r = StatusCompleted → artifact_resolved o w (Some f) (rq_attempt req) r c)
    ∧ wf_results t' = <[new_result ids := new_wf_result cx inv (wi_id w) v req r]> (wf_results t)
    ∧ wf_invocations t' = alter (iv_with_status InvRecorded) inv (wf_invocations t)
    ∧ wf_generations t' = wf_generations t ∧ wf_approvals t' = wf_approvals t
    ∧ closings (result_stored (new_result ids) inv (new_wf_result cx inv (wi_id w) v req r) t) t'
    ∧ if decide (sr_verdict r = ReviewFail) then
        (∃ x, work_items c' !! wi_id w = Some x ∧ wi_status x = WPaused)
        ∧ (∃ y, run_attempts c' !! rq_attempt req = Some y ∧ ra_status y = RPaused
             ∧ ra_pause_reason y = Some (review_fail_reason r))
        ∧ ∀ k l, resource_locks c' !! k = Some l ↔
            resource_locks c !! k = Some l ∧ (lk_owner l = rq_attempt req → k.1 ≠ "file_scope")
      else work_items c' = work_items c ∧ resource_locks c' = resource_locks c.
Proof.
  intros HW Hreq Hs c c' t t'.
  destruct (RecordWorkflowResult_success _ _ _ _ _ _ _ _ _ Hreq Hs)
    as (w & a & v & inv & i & m & H & _).
  destruct H as [(f & Hwi & Hart) Hcred Hi Han Hm Hsh _ Honce Hlife Hcl _].
  destruct (closings_frame _ _ Hcl) as (_ & Eg & Ei & Er & Ea).
  exists w, a, f, v, inv, i, m. split_and!; try done; [by intros; eapply Honce|].
  pose proof (workflow_item_row _ _ _ _ (wf_keyed _ HW) Hwi) as Hrow.
  unfold record_lifecycle in Hlife.
  destruct (String.eqb_spec (sr_verdict r) ReviewFail), (decide _); try done.
  - destruct Hlife as (c1 & Hp & Ht). by eapply review_paused_shows.
  - by destruct Hlife as [? _ ? _].
Qed.

Lemma run_wf5 m : run m db0_memory [wf5; wf4; wf3; wf2; wf1; db0_memory] wf5.
Proof.
  eapply run_step; [apply run_wf4|].
  assert (wf5 = (start_step "review" "2" "" 13 wf4).2) as -> by (vm_compute; reflexivity).
  apply r_wf_start.
Qed.
Lemma wf5_wf : Wf (core wf5).
Proof. exact (run_wf _ _ _ _ db0_memory_wf (run_wf5 takeovers)). Qed.

(** The failed review of the scenario pauses the attempt. *)
Lemma record_takes_effect_witness :
  ∃ y, run_attempts (core (record_result review_fail "2" 14 wf5).2) !! "ra_1" = Some y
       ∧ ra_status y = RPaused.
Proof.
  destruct (record_result review_fail "2" 14 wf5) as [[e|out] d'] eqn:Hs; [by vm_compute in Hs|].
  assert ((record_result review_fail "2" 14 wf5).1 = inr out) as H by by rewrite Hs.
  destruct (record_takes_effect demo_outside ideal_env (clock 14 "" "r") (ids "2") "fix-a"
    (mkRecord "ra_1" 1 "s1" (Some review_fail)) review_fail wf5 out wf5_wf eq_refl H)
    as (w & a & f & v & inv & i & m & _ & _ & _ & _ & _ & _ & _ & _ & _ & _ & _ & _ & _ & Hl).
  rewrite decide_True in Hl by done. destruct Hl as (_ & (y & Hy & Hst & _) & _).
  exists y. split; [|exact Hst]. unfold record_result in Hs. rewrite Hs in Hy. exact Hy.
Defined.

(** ** Loops *)

Lemma roles_total w flow grants meta failed episode :
  wf_ok w → is_Some (roles_of flow grants meta failed (episode_rows episode w)
                       (loadEpisodeRetryReplacements episode w)).
Proof.
  intros Hok. unfold roles_of.
  set (wi := default "" (rpr_wi <$> wf_repairs w !! episode)).
  assert (∀ rows, is_Some (overlay_rows (loadEpisodeRetryReplacements episode w) rows)) as H.
  { apply (overlay_rows_total _ (retry_depth (wf_invocations w) (wf_repairs w) wi)).
    - intros. by eapply retry_depth_unique.
    - intros a row Hrow.
      destruct (replacement_rank w Hok _ _ _ Hrow) as (wi' & n & (q & Hq & <-) & ? & ?).
      exists n. unfold wi. by rewrite Hq. }
  destruct (H (with_role (is_repair_row flow grants meta failed) (episode_rows episode w)))
    as [? ->].
  destruct (H (with_role (is_verify_row grants meta) (episode_rows episode w))) as [? ->].
  destruct (H (with_role (is_review_row grants meta) (episode_rows episode w))) as [? ->].
  done.
Qed.

(** The answer of a computation that does not commit, run without faults. *)
Lemma runTx_answers {A} (m : Tx A) (P : A → Prop) d :
  wp m (λ r _, ∃ a, r = inr a ∧ P a) (VActive (core d)) →
  ∃ a, (runTx ideal_env m d).1 = inr a ∧ P a.
Proof.
  intros H. destruct (H (mkTx d Active [] CommitOk)) as (v & _ & a & Ha & HP); [done|].
  exists a. split; [|done]. unfold runTx. cbn [env_begin ideal_env env_faults env_commit].
  by destruct (m _).
Qed.

(** C15. The loops over retries end in every reachable state.  From any step
    attempt the walk to the root of its retries finds it, after three links at
    most, and never declares the tables corrupt; and the replacement of every
    row of an episode is found, however its retries chain: the unbounded loop of
    the code terminates. *)
Theorem retry_loops_end m d0 h d :
  Wf (core d0) → workflows_ok (core d0) → run m d0 h d →
  (∀ k i, wf_invocations (workflow (core d)) !! k = Some i → ∃ ln,
     (runTx ideal_env (resolveRetryLineage (iv_wi i) (iv_attempt i)) d).1 = inr ln
     ∧ ln_depth ln <= maxRetryChainDepth)
  ∧ (∀ flow grants meta failed episode, ∃ roles,
     (runTx ideal_env (loadEpisodeRoleRows flow grants meta failed episode) d).1 = inr roles).
Proof.
  intros HW Hok0 Hrun. pose proof (wk_tables _ (run_wf_ok _ _ _ _ HW Hok0 Hrun)) as Hok. split.
  - intros k i Hi. destruct (invocation_depth _ Hok k i Hi) as (n & Hn & Hd).
    apply (runTx_answers _ (λ ln, ln_depth ln <= maxRetryChainDepth)).
    eapply wp_mono; [apply (lineage_walk_ends _ Hok); [done|done|unfold maxRetryChainDepth in *; lia]|].
    intros r v (_ & ln & -> & Hln). exists ln. split; [done|]. simpl in Hln. lia.
  - intros flow grants meta failed episode.
    destruct (roles_total (workflow (core d)) flow grants meta failed episode Hok) as [roles Hr].
    destruct (runTx_answers (loadEpisodeRoleRows flow grants meta failed episode) (λ _, True) d)
      as (a & Ha & _); [|by exists a].
    unfold loadEpisodeRoleRows. apply wp_bind, wp_query, wp_bind, wp_ret.
    apply wp_bind, wp_query, wp_bind, wp_ret. rewrite Hr. apply wp_ret. by exists roles.
Qed.

Lemma retry_loops_end_witness :
  ∃ ln, (runTx ideal_env (resolveRetryLineage "wi_a" "sa_1") wf4).1 = inr ln.
Proof.
  destruct (retry_loops_end takeovers _ _ _ db0_memory_wf db0_memory_ok (run_wf4 takeovers)) as [H _].
  destruct (wf_invocations (workflow (core wf4)) !! "winv_1") as [i|] eqn:E;
    [|by vm_compute in E].
  assert (iv_wi i = "wi_a" ∧ iv_attempt i = "sa_1") as [Hw Ha]
    by (clear -E; vm_compute in E; injection E as <-; split; reflexivity).
  destruct (H "winv_1" i E) as (ln & Hln & _). exists ln.
  rewrite Hw, Ha in Hln. exact Hln.
Defined.

(** ** Deciding *)

Lemma earlier_ok m d0 h d ds :
  Wf (core d0) → workflows_ok (core d0) → run m d0 h d → ds ∈ h →
  workflows_ok (core ds).
Proof.
  intros HW Hok Hr. induction Hr as [|h d d' Hrun IH Hreq].
  - by intros ->%list_elem_of_singleton.
  - intros [->|Hds]%elem_of_cons; [|by apply IH].
    by apply (run_wf_ok m d0 (d' :: h) d' HW Hok), (run_step _ _ _ d).
Qed.

(** The decision on an artifact, where it is unique. *)
Lemma approval_of_unique R w k a :
  approvals_ok R (wf_approvals w) → wf_approvals w !! k = Some a →
  approval_of (wa_wi a) (wa_version a) (wa_step a) (wa_artifact a) w = Some (k, a).
Proof.
  intros Hok Ha. unfold approval_of. destruct (List.find _ _) as [[k' a']|] eqn:E.
  - apply find_key_Some in E as [Ha' E]. simpl in *. rewrite !andb_true_iff in E.
    destruct E as [[[E1%String.eqb_eq E2%Z.eqb_eq] E3%String.eqb_eq] E4%bool_decide_eq_true].
    assert (k' = k) as -> by by eapply (ao_once _ _ Hok).
    by simplify_eq.
  - apply (find_key_None _ _) with (k := k) (x := a) in E; [|done]. simpl in E.
    by rewrite !String.eqb_refl, Z.eqb_refl, bool_decide_eq_true_2 in E.
Qed.

(** The handler, without faults, where the decision is stored. *)
Lemma approve_decided cx ids key u display req c w ka :
  select_wi key c = inr w →
  approval_of (wi_id w) (aq_version req) (aq_step req) (aq_artifact req) (workflow c) = Some ka →
  wp (approve_body cx ids key u display req)
    (λ r v, v = VActive c ∧ ∀ x, r = inr x → x = inl ka ∧ aq_decision req = wa_decision ka.2)
    (VActive c).
Proof.
  intros Hsel Hka. unfold approve_body, getWorkflowWI.
  apply wp_bind, wp_bind, wp_query. rewrite Hsel. apply wp_ret, wp_bind.
  cbn [fst snd]. destruct (approve_gate w _ req) as [e|[]]; [by apply wp_throw|].
  apply wp_ret, wp_bind, wp_query. destruct (latest_result _ _ _ _) as [kr|];
    [|by apply wp_throw].
  destruct (negb _); [by apply wp_throw|]. apply wp_bind, wp_query. rewrite Hka.
  destruct (String.eqb_spec (wa_decision ka.2) (aq_decision req)) as [Hd|]; cbn [negb];
    [|by apply wp_throw].
  assert (select_approval ka.1 c = inr ka) as Hs.
  { unfold select_approval. pose proof (find_key_Some _ _ _ Hka) as [-> _]. by destruct ka. }
  apply wp_bind, wp_query. rewrite Hs. apply wp_bind, wp_ret, wp_ret.
  split; [done|]. by intros x [= <-].
Qed.

(** A human's decision is final.  Once an approval or a rejection of a
    step's artifact is stored, no later request to decide on that artifact
    changes the tables, whatever fails; without faults, it is answered only by
    the stored decision, only to a human, and only when it asks for that same
    decision. *)
Theorem decisions_are_final m d0 h d ds env f cx ids key actor display typ req later w k a :
  Wf (core d0) → workflows_ok (core d0) → run m d0 h d → ds ∈ h →
  wf_approvals (workflow (core ds)) !! k = Some a → select_wi key (core d) = inr w →
  wa_wi a = wi_id w → wa_version a = aq_version req → wa_step a = aq_step req →
  wa_artifact a = aq_artifact req →
  let out env := ApproveWorkflowStep env f cx ids key actor display typ req later d in
  core (out env).2 = core d
  ∧ ∀ ka, (out ideal_env).1 = inr ka →
      ka = (k, a) ∧ aq_decision req = wa_decision a ∧ typ = "human".
Proof.
  intros HW Hok Hr Hds Ha Hsel E1 E2 E3 E4.
  assert (wf_approvals (workflow (core d)) !! k = Some a) as Hd.
  { destruct (run_steps _ _ _ _ Hr ds Hds) as [_ [_ _ _ Hap _]]. by eapply lookup_weaken. }
  pose proof (approval_of_unique _ _ _ _ (ok_approvals _ (wk_tables _ (run_wf_ok _ _ _ _ HW Hok Hr))) Hd) as Hu.
  rewrite E1, E2, E3, E4 in Hu. unfold ApproveWorkflowStep.
  destruct (approve_args actor typ req) as [e|u] eqn:Eargs; [split; [done|by intros]|].
  destruct (runTx_ideal _ _ d (approve_decided cx ids key u display req (core d) w _ Hsel Hu))
    as (v & Hv & -> & Hans). simpl in Hv. split.
  - assert (core (runTx env (approve_body cx ids key u display req) d).2 = core d) as H
      by (apply (runTx_preserves_any _ (λ c, c = core d)); [by rewrite Hv|done]).
    by destruct (runTx env _ d) as [[|[|]] d'].
  - intros ka. destruct (runTx ideal_env _ d) as [[e|x] d']; [done|]; simpl in *.
    destruct (Hans _ eq_refl) as [-> Hdec]. intros [= <-]. split; [done|]. split; [done|].
    unfold approve_args in Eargs. destruct (negb (bool_decide _)); [done|].
    by destruct (String.eqb_spec typ "human").
Qed.

Lemma run_wf7 m : run m db0_memory [wf7; wf6; wf5; wf4; wf3; wf2; wf1; db0_memory] wf7.
Proof.
  eapply run_step; [eapply run_step; [apply run_wf5|]|].
  - assert (wf6 = (record_result review_pass "2" 14 wf5).2) as -> by (vm_compute; reflexivity).
    apply r_wf_result.
  - assert (wf7 = (approve_review ApprovalGranted 15 wf6).2) as -> by (vm_compute; reflexivity).
    apply r_wf_approve.
Qed.

(** An approved review cannot be rejected afterwards. *)
Lemma decisions_are_final_witness :
  core (approve_review ApprovalDenied 16 wf7).2 = core wf7.
Proof.
  destruct (wf_approvals (workflow (core wf7)) !! "wapp_2") as [a|] eqn:Ha;
    [|by vm_compute in Ha].
  destruct (select_wi "fix-a" (core wf7)) as [e|w] eqn:Hw; [by vm_compute in Hw|].
  assert (wa_wi a = "wi_a" ∧ wa_version a = 1%Z ∧ wa_step a = "review"
          ∧ wa_artifact a = mkArtifact "mem_1" 1 artifact_hash) as (E1 & E2 & E3 & E4)
    by (clear -Ha; vm_compute in Ha; injection Ha as <-; repeat split; reflexivity).
  assert (wi_id w = "wi_a") as E0
    by (clear -Hw; vm_compute in Hw; injection Hw as <-; reflexivity).
  rewrite <- E0 in E1.
  destruct (decisions_are_final takeovers _ _ wf7 wf7 ideal_env None (clock 16 "" "a") (ids "2") "fix-a"
    (Some reporter) "U" "human"
    (mkApproveReq 1 "review" (mkArtifact "mem_1" 1 artifact_hash) ApprovalDenied) id w _ a
    db0_memory_wf db0_memory_ok (run_wf7 takeovers) ltac:(left) Ha Hw E1 E2 E3 E4) as [H _].
  exact H.
Defined.

(** ** Revising *)

(** Two states with the same current version of an item have the same flow. *)
Lemma pointer_by_version w w' wi :
  gens_ok (wf_pointers w) (wf_generations w) → gens_ok (wf_pointers w') (wf_generations w') →
  wf_generations w ⊆ wf_generations w' →
  steps_version (wf_pointers w !! wi) = steps_version (wf_pointers w' !! wi) →
  wf_pointers w !! wi = wf_pointers w' !! wi.
Proof.
  intros [Hp _] [Hp' _] Hsub. destruct (wf_pointers w !! wi) as [[f v]|] eqn:E,
    (wf_pointers w' !! wi) as [[f' v']|] eqn:E'; simpl; intros Hv; try done.
  - subst v'. destruct (Hp _ _ _ E) as (_ & g & Hg & <-).
    destruct (Hp' _ _ _ E') as (_ & g' & Hg' & <-).
    rewrite (lookup_weaken _ _ _ _ Hg Hsub) in Hg'. by simplify_eq.
  - destruct (Hp _ _ _ E). lia.
  - destruct (Hp' _ _ _ E'). lia.
Qed.

(** C14. Revisions never lose one another.  A client reads the version of an
    item's workflow in some earlier state and revises what it read, naming that
    version.  Whatever happened meanwhile and whatever fails, either the request
    changes nothing, or the workflow is still exactly the one the client read,
    the caller may edit the item, no legacy step ran, and the new workflow was
    validated: then it is stored as the next generation, the item points at it,
    the older generations stay, and no attempt, lock or dependency changes. *)
Theorem revisions_are_serialized m d0 h d ds o env cx key caller user role roles req later :
  Wf (core d0) → workflows_ok (core d0) → run m d0 h d → ds ∈ h →
  (∀ w, select_wi key (core d) = inr w →
     steps_version (wf_pointers (workflow (core ds)) !! wi_id w) = rv_expected req) →
  let c := core d in
  let c' := core (UpdateWorkItemWorkflow o env cx key caller user role roles req later d).2 in
  c' = c ∨ ∃ w rhs pin, let v := (rv_expected req + 1)%Z in
    select_wi key c = inr w ∧ rv_rhs req = Some rhs
    ∧ wf_pointers (workflow c) !! wi_id w = wf_pointers (workflow (core ds)) !! wi_id w
    ∧ updateGate (wi_status_text (wi_status w)) wiTierContract
        (String.eqb (wi_reporter w) user) role
        (match roles !! wi_project w with Some r => r | None => "" end) = None
    ∧ (∀ s, wi_step_state c !! wi_id w = Some s → (ss_version s <= 0)%Z)
    ∧ pinWorkflowGeneration o v caller rhs (rv_steps req) = inr pin
    ∧ wf_pointers (workflow c') !! wi_id w = Some (pn_flow pin, v)
    ∧ wf_generations (workflow c) !! (wi_id w, v) = None
    ∧ wf_generations (workflow c') =
        <[(wi_id w, v) := new_generation cx pin rhs user]> (wf_generations (workflow c))
    ∧ run_attempts c' = run_attempts c ∧ resource_locks c' = resource_locks c
    ∧ wi_dependencies c' = wi_dependencies c.
Proof.
  intros HW Hok Hr Hds Hread c c'.
  pose proof (wf_keyed _ (run_wf _ _ _ _ HW Hr)) as Hk.
  unfold UpdateWorkItemWorkflow in c'. destruct (rv_rhs req) as [rhs|] eqn:Erhs; [|by left].
  destruct (bool_decide _); [by left|].
  assert (c' = core (runTx env (revise_body o cx key caller user role roles rhs req) d).2) as E
    by (subst c'; by destruct (runTx env _ d) as [[|] d']).
  rewrite E. clear c' E. subst c.
  match goal with |- ?G => let P := eval pattern
    (core (runTx env (revise_body o cx key caller user role roles rhs req) d).2) in G in
    match P with ?R _ => apply (runTx_invariant _ _ R _ _
      (revise_body_spec o cx key caller user role roles rhs req (core d) Hk)) end end; [by left|].
  intros id c' (w & v & pin & [(p & [Hsel Hp] & Hv) Hgate Hleg Hcas Hpin Hfr _ _ H1 H2 H3 Hwf] & _).
  right. exists w, rhs, pin. cbv zeta. rewrite Hcas, Hwf.
  specialize (Hread w Hsel). rewrite Hcas, <- Hv, <- Hp in Hread. split_and!; try done.
  - symmetry. apply pointer_by_version; [..|exact Hread].
    + exact (ok_gens _ (wk_tables _ (earlier_ok _ _ _ _ _ HW Hok Hr Hds))).
    + exact (ok_gens _ (wk_tables _ (run_wf_ok _ _ _ _ HW Hok Hr))).
    + by destruct (run_steps _ _ _ _ Hr ds Hds) as [_ [? _ _ _ _]].
  - simpl. by rewrite lookup_insert_eq.
Qed.

(** The second of two revisions of one version changes nothing. *)
Lemma revisions_are_serialized_witness :
  let c' := core (revise_a 0 wf1).2 in c' = core wf1 ∨
  ∃ w, wf_pointers (workflow (core wf1)) !! wi_id w
       = wf_pointers (workflow (core db0_memory)) !! wi_id w.
Proof.
  intros c'.
  destruct (revisions_are_serialized takeovers _ _ wf1 db0_memory demo_outside ideal_env
    (clock 5 "" "w") "fix-a" reporter "u1" "user" no_roles (revision 0) quiet
    db0_memory_wf db0_memory_ok (run_wf1 takeovers) ltac:(right; left)
    ltac:(intros w Hw; by vm_compute in Hw; injection Hw as <-))
    as [H|(w & rhs & pin & _ & _ & H & _)]; [by left|right; by exists w].
Defined.
