(* ===== verification/CreateContracts.v ===== *)
(** * The promises of creating work items

    What a creation leaves when it succeeds, that numbers and slugs identify
    items for ever, and that an open item cannot be created a second time. *)

From Stdlib Require Import Ascii.
From stdpp Require Import pretty.
From S2P Require Import Prelude GoStrings Errors Json Crypto Declared Flow Policy.
From S2P Require Import WorkflowTables WorkflowPin Store TxLogic LifecycleSpec ResourceEvents.
From S2P Require Import Attempts Claim Lifecycle Takeover Edit WorkflowStart WorkflowRevise.
From S2P Require Import WorkflowSpec Dependencies Dedup Create CreateSpec System Versions.
From S2P Require Import Dedup Scenario WorkflowScenario.

Open Scope Z_scope.
Open Scope list_scope.

(** ** Slugs *)

(** No character of a text is a number sign. *)
Fixpoint no_hash (s : string) : Prop :=
  match s with "" => True | String c s => c ≠ "#"%char ∧ no_hash s end.

Lemma no_hash_app a b : no_hash (a +:+ b) ↔ no_hash a ∧ no_hash b.
Proof. induction a as [|c a IH]; simpl; [tauto|]. rewrite IH. tauto. Qed.

Lemma hash_suffix p q a b :
  no_hash a → no_hash b → p +:+ "#" +:+ a = q +:+ "#" +:+ b → p = q ∧ a = b.
Proof.
  intros Ha Hb. revert q. induction p as [|c p IH]; intros [|x q] H.
  - change (String "#" a = String "#" b) in H. by injection H as ->.
  - change (String "#" a = String x (q +:+ "#" +:+ b)) in H. injection H as <- ->.
    apply no_hash_app in Ha as [_ [Hne _]]. by destruct Hne.
  - change (String c (p +:+ "#" +:+ a) = String "#" b) in H. injection H as -> <-.
    apply no_hash_app in Hb as [_ [Hne _]]. by destruct Hne.
  - change (String c (p +:+ "#" +:+ a) = String x (q +:+ "#" +:+ b)) in H.
    injection H as <- H. by destruct (IH q H) as [-> ->].
Qed.

Lemma no_hash_N x s : no_hash s → no_hash (pretty_N_go x s).
Proof.
  revert s. induction (N.lt_wf_0 x) as [x _ IH]; intros s Hs.
  destruct (decide (x = 0%N)) as [->|Hx]; [by rewrite pretty_N_go_0|].
  rewrite pretty_N_go_step by lia. apply IH; [apply N.div_lt; lia|].
  split; [|done]. unfold pretty_N_char. by repeat case_match.
Qed.

Lemma no_hash_Z (n : Z) : no_hash (pretty n).
Proof.
  assert (∀ p, no_hash (pretty (Npos p))) as H.
  { intros p. unfold pretty, pretty_N. by apply no_hash_N. }
  destruct n as [|p|p]; [done|apply H|]. split; [done|]. apply H.
Qed.

Lemma slug_of_inj p m q n : slug_of p m = slug_of q n → p = q ∧ m = n.
Proof.
  intros H. apply hash_suffix in H as [-> H]; [|apply no_hash_Z..].
  split; [done|]. by apply (inj pretty) in H.
Qed.

(** ** Numbers *)

(** Slugs are made of the project and the number; the numbers of a project do
    not exceed its counter and none is given twice. *)
Record numbered (c : Core) : Prop := {
  nb_slug i w : work_items c !! i = Some w →
    wi_slug w = slug_of (wi_project w) (doc_seq (wi_doc w));
  nb_counter i w : work_items c !! i = Some w →
    ∃ n, last_seq c (wi_project w) = Some n ∧ doc_seq (wi_doc w) <= n;
  nb_once i w j v : work_items c !! i = Some w → work_items c !! j = Some v →
    wi_project w = wi_project v → doc_seq (wi_doc w) = doc_seq (wi_doc v) → i = j;
}.

Lemma numbered_grows c c' : decl_grows c c' → numbered c → numbered c'.
Proof.
  intros [Hg Hn Hp] [H1 H2 H3].
  assert (∀ i w', work_items c' !! i = Some w' → ∃ w, work_items c !! i = Some w
    ∧ identity w' = identity w) as Hback.
  { intros i w' Hw'. destruct (work_items c !! i) as [w|] eqn:E.
    - destruct (Hg _ _ E) as (x & Hx & _ & _ & Hid). exists w. split; [done|congruence].
    - apply Hn in E. congruence. }
  split.
  - intros i w' (w & Hw & [= _ -> -> _ -> _ _])%Hback. by eapply H1.
  - intros i w' (w & Hw & [= _ _ -> _ -> _ _])%Hback. unfold last_seq. rewrite Hp.
    by eapply H2.
  - intros i w' j v' (w & Hw & [= _ _ -> _ -> _ _])%Hback (v & Hv & [= _ _ -> _ -> _ _])%Hback.
    by eapply H3.
Qed.

Lemma final_row_identity now q w : identity (final_row now q w) = identity w.
Proof. unfold final_row. by destruct (cq_steps q), (bool_decide _). Qed.

Lemma numbered_create o cx id user display roles role q mode c w ids c' :
  created o cx id user display roles role q mode c w ids c' → numbered c → numbered c'.
Proof.
  intros [Hfr (p & dcl & at_ & _ & _ & _ & Hw) (Hp & _ & Hfree) _ _ Hi _ Hp' _ _ _ _ _]
    [H1 H2 H3].
  pose proof (final_row_identity (cx_now cx) q w) as Hid. set (z := final_row _ q w) in *.
  assert (wi_slug w = slug_of (wi_project w) (doc_seq (wi_doc w)) ∧ wi_project w = cq_project q)
    as [Hs Hpr] by (by rewrite Hw).
  injection Hid as _ Es Ep _ En _ _.
  split.
  - intros i v. rewrite Hi, lookup_insert_Some. intros [[<- <-]|[_ Hv]]; [|by eapply H1].
    by rewrite Es, Ep, En.
  - intros i v. unfold last_seq. rewrite Hi, Hp', lookup_insert_Some.
    assert (∃ x, projects c !! cq_project q = Some x ∧ pr_seq x = doc_seq (wi_doc w) - 1)
      as (x & Hx & Hxn) by by apply fmap_Some in Hp as (x & ? & ->); exists x.
    intros [[<- <-]|[_ Hv]].
    + rewrite Ep, En, Hpr, lookup_alter_eq, Hx. eexists. split; [done|]. simpl. lia.
    + destruct (H2 _ _ Hv) as (n & Hn & Hle). unfold last_seq in Hn.
      destruct (decide (cq_project q = wi_project v)) as [E|].
      * rewrite <- E, lookup_alter_eq, Hx. eexists. split; [done|]. simpl.
        rewrite <- E, Hx in Hn. simplify_eq/=. lia.
      * rewrite lookup_alter_ne by done. by exists n.
  - intros i v j u. rewrite Hi, !lookup_insert_Some.
    intros [[<- <-]|[_ Hv]] [[<- <-]|[_ Hu]] E1 E2; [done| | |by eapply H3].
    + rewrite Ep, Hpr in E1. rewrite En in E2. by destruct (Hfree _ _ Hu (eq_sym E1)).
    + rewrite Ep, Hpr in E1. rewrite En in E2. by destruct (Hfree _ _ Hv E1).
Qed.

Lemma run_numbered m d0 h d : numbered (core d0) → run m d0 h d → numbered (core d).
Proof.
  intros H0. induction 1 as [|h d d' Hrun IH Hr]; [done|].
  destruct (request_steps _ _ _ _ Hr) as [[H _]|[[[H _] _]|H]].
  1,2: by eapply numbered_grows.
  destruct H as [->|(? & ? & ? & ? & ? & ? & ? & ? & ? & ? & ? & H)]; [done|].
  by eapply numbered_create.
Qed.

(** C8. A slug names one work item for ever.  Two items that bear the same slug,
    each in any state of an execution (creations, edits, cancellations and all
    others, with any faults), are the same item; and it keeps its slug, project,
    number, reporter and parent for as long as the execution goes on. *)
Theorem slugs_identify m d0 h d d1 d2 i w j v :
  numbered (core d0) → run m d0 h d → d1 ∈ h → d2 ∈ h →
  work_items (core d1) !! i = Some w → work_items (core d2) !! j = Some v →
  wi_slug w = wi_slug v →
  i = j ∧ ∃ u, work_items (core d) !! i = Some u ∧ wi_slug u = wi_slug w
    ∧ wi_project u = wi_project w ∧ doc_seq (wi_doc u) = doc_seq (wi_doc w)
    ∧ wi_reporter u = wi_reporter w ∧ doc_parent (wi_doc u) = doc_parent (wi_doc w).
Proof.
  intros H0 Hr H1 H2 Hw Hv Hs. destruct (run_numbered _ _ _ _ H0 Hr) as [Hslug _ Honce].
  destruct (run_grows _ _ _ _ Hr _ H1 _ _ Hw) as (u & Hu & _ & _ & Hid).
  destruct (run_grows _ _ _ _ Hr _ H2 _ _ Hv) as (x & Hx & _ & _ & Hid').
  injection Hid as _ Es Ep Er En Epa _. injection Hid' as _ Es' _ _ _ _ _.
  pose proof (Hslug _ _ Hu) as Hsu. pose proof (Hslug _ _ Hx) as Hsx.
  rewrite <- Es, <- Es', Hsu, Hsx in Hs. apply slug_of_inj in Hs as [E1 E2].
  split; [by eapply Honce|]. exists u. by rewrite <- Es.
Qed.

(** ** An installation with one project, to create items in *)

Definition db_project : Db := mkDb (set_projects (λ _, {[ "p" := mkProject None true None (JArr []) (JArr []) 0 0 None "u1" ]}) empty_core) [].

Definition plain_request (goal : string) (blocked_by : list string)
  (steps : option (list WorkflowStepSpec)) : CreateWorkItemRequest :=
  mkCreate "p" goal "" "" (Some "feature") (Some true) None ["backend"] file_a None blocked_by ""
    RawEmpty None false "" steps (match steps with Some _ => "db" | None => "" end)
    (Some reporter).

(** Every search sees the tables of [d] itself. *)
Definition create_in (id goal : string) (blocked_by : list string)
  (steps : option (list WorkflowStepSpec)) (d : Db) :=
  CreateWorkItem (λ _, None) (λ r, r) (λ _ _, false) demo_outside ideal_env None (clock 1 "" id) id
    "u1" "U" no_roles "user" (plain_request goal blocked_by steps) (λ d, d) d d.

Definition db_one : Db := Eval vm_compute in (create_in "wi_1" "Fix the parser" [] None db_project).2.
Definition db_two : Db :=
  Eval vm_compute in (create_in "wi_2" "Draw a map" ["p#1"] (Some demo_specs) db_one).2.

Lemma db_project_numbered : numbered (core db_project).
Proof. split; intros i w; simpl; by rewrite lookup_empty. Qed.

Lemma run_db_two m : run m db_project [db_two; db_one; db_project] db_two.
Proof.
  assert (db_two = (create_in "wi_2" "Draw a map" ["p#1"] (Some demo_specs) db_one).2) as E2
    by (vm_compute; reflexivity).
  assert (db_one = (create_in "wi_1" "Fix the parser" [] None db_project).2) as E1
    by (vm_compute; reflexivity).
  apply (run_step _ _ [db_one; db_project] db_one).
  - apply (run_step _ _ [db_project] db_project); [apply run_init|].
    rewrite E1. apply r_create. left.
  - rewrite E2. apply r_create. left.
Qed.

(** The second item of the project is "p#2", before and after. *)
Lemma slugs_identify_witness :
  ∃ w, work_items (core db_two) !! "wi_2" = Some w ∧ wi_slug w = "p#2" ∧ "wi_2" ≠ "wi_1"
  ∧ ∃ u, work_items (core db_two) !! "wi_2" = Some u ∧ wi_slug u = wi_slug w.
Proof.
  destruct (work_items (core db_two) !! "wi_2") as [w|] eqn:E; [|by vm_compute in E].
  assert (wi_slug w = "p#2") as Hs
    by (clear -E; vm_compute in E; injection E as <-; reflexivity).
  exists w. split; [reflexivity|]. split; [exact Hs|]. split; [discriminate|].
  destruct (slugs_identify takeovers db_project _ db_two db_two db_two "wi_2" w "wi_2" w
    db_project_numbered (run_db_two takeovers) ltac:(left) ltac:(left) E E eq_refl)
    as (_ & u & Hu & Hus & _).
  exists u. split; [rewrite <- E; exact Hu|exact Hus].
Defined.

(** ** Success *)

(** The whole effect of a creation. *)
Definition creation (url : string → option (string * string * string))
  (lower : string → string) (contains : RawMessage → RawMessage → bool) (o : Outside)
  (cx : Ctx) (id user display : string) (roles : gmap string string) (role : string)
  (req : CreateWorkItemRequest) (c0 c c' : Core) : Prop :=
  ∃ q mode w ids,
    create_checks url req = inr (q, mode)
    ∧ duplicates_checked lower contains cx q c0
    ∧ created o cx id user display roles role q mode c w ids c'.

Lemma create_tx_creation url lower contains o env cx id user display roles role req q mode d0 d :
  create_checks url req = inr (q, mode) →
  let out := runTx env (create_body lower contains o cx id user display roles role q mode d0) d in
  let P := creation url lower contains o cx id user display roles role req (core d0) (core d) in
  (core out.2 = core d ∨ P (core out.2)) ∧ ∀ a, out.1 = inr a → P (core out.2).
Proof.
  intros Hq out P.
  pose proof (create_body_spec lower contains o cx id user display roles role q mode d0 (core d))
    as Hspec. split.
  - subst out P. eapply (runTx_invariant _ _ (λ c', c' = core d ∨ creation _ _ _ _ _ _ _ _ _ _ _ _ _ c'));
      [exact Hspec|by left|]. intros [] c' (w & ids & H & Hd). right. by exists q, mode, w, ids.
  - intros a Ha. destruct (runTx_success _ _ env d a Hspec Ha) as (w & ids & H & Hd).
    by exists q, mode, w, ids.
Qed.

Lemma final_row_fields now q w :
  let v := final_row now q w in
  wi_goal v = wi_goal w ∧ wi_project v = wi_project w ∧ wi_slug v = wi_slug w
  ∧ wi_reporter v = wi_reporter w ∧ wi_current v = wi_current w ∧ wi_epoch v = wi_epoch w
  ∧ wi_doc v = wi_doc w
  ∧ wi_status v = if bool_decide (cq_blocked_by q = []) then wi_status w else WBlocked.
Proof. unfold final_row. by destruct (cq_steps q), (bool_decide _). Qed.

(** C7. Creating a work item is all or nothing, whatever fails and whatever the
    other requests did; and an answer that reports success means that it
    happened.  Then the request had passed the checks and the search for
    duplicates (or gave a reason to force it); the item is new, queued, or
    blocked when it names blockers, unclaimed at fencing token 0, and filed by
    the caller; it got the number after the project's last one, which no item of
    the project had, and the slug made of it; its parent and its blockers are
    items the caller may see; its edges to the blockers are the only new ones;
    its first workflow generation, when the request has steps, passed the
    validation of a pin; and no other item, attempt or lock changed. *)
Theorem create_takes_effect url lower contains o env f cx id user display roles role req later d0 d :
  let out := CreateWorkItem url lower contains o env f cx id user display roles role req later
               d0 d in
  let c := core d in let c' := core out.2 in
  let effect := ∃ q mode v ids, let n := doc_seq (wi_doc v) in
    create_checks url req = inr (q, mode)
    ∧ duplicates_checked lower contains cx q (core d0)
    ∧ work_items c !! id = None ∧ work_items c' = <[id := v]> (work_items c)
    ∧ wi_goal v = cq_goal q ∧ wi_project v = cq_project q ∧ wi_reporter v = user
    ∧ wi_status v = (if bool_decide (cq_blocked_by q = []) then WQueued else WBlocked)
    ∧ wi_current v = None ∧ wi_epoch v = 0
    ∧ last_seq c (cq_project q) = Some (n - 1)
    ∧ projects c' = alter (pr_with_seq n) (cq_project q) (projects c)
    ∧ seq_free (cq_project q) n c ∧ wi_slug v = slug_of (cq_project q) n
    ∧ parent_resolved c q roles role (doc_parent (wi_doc v))
    ∧ blockers_resolved c id q roles role ids
    ∧ (∀ k m, wi_dependencies c' !! k = Some m ↔ wi_dependencies c !! k = Some m
         ∨ m = None ∧ ∃ b, b ∈ ids ∧ k = (id, b, "blocks"))
    ∧ first_generation o cx id user q (drop_pointer id (workflow c)) (workflow c')
    ∧ run_attempts c' = run_attempts c ∧ resource_locks c' = resource_locks c in
  (c' = c ∨ effect) ∧ ((∃ x, out.1 = inr x) → effect).
Proof.
  intros out c c' effect.
  assert (creation url lower contains o cx id user display roles role req (core d0) c c' → effect)
    as Heff.
  { intros (q & mode & w & ids & Hq & Hd & [Hfr (p & dc & at_ & _ & _ & Hp & Hw) (Hn & _ & Hfree)
      Hb _ Hi Hdeps Hpr _ Ha Hl _ Hwf]).
    destruct (final_row_fields (cx_now cx) q w) as (F1 & F2 & F3 & F4 & F5 & F6 & F7 & F8).
    exists q, mode, (final_row (cx_now cx) q w), ids.
    rewrite F1, F2, F3, F4, F5, F6, F7, F8, Hpr, Hi, Ha, Hl.
    split_and!; try done; try (by rewrite Hw). }
  subst out c c'. unfold CreateWorkItem in *.
  destruct (create_checks url req) as [e|[q mode]] eqn:Hq; [split; [by left|by intros []]|].
  destruct (create_tx_creation url lower contains o env cx id user display roles role req q mode
    d0 d Hq) as [Hany Hok].
  destruct (runTx env _ d) as [[e|[]] d']; cbn [fst snd] in *.
  - split; [destruct Hany; auto|by intros []].
  - specialize (Hok tt eq_refl). auto.
Qed.

(** An item created with steps and a blocker. *)
Lemma create_takes_effect_witness :
  ∃ v, work_items (core db_two) !! "wi_2" = Some v ∧ wi_status v = WBlocked
       ∧ wi_slug v = slug_of "p" (doc_seq (wi_doc v)).
Proof.
  destruct (create_takes_effect (λ _, None) (λ r, r) (λ _ _, false) demo_outside ideal_env None
    (clock 1 "" "wi_2") "wi_2" "u1" "U" no_roles "user"
    (plain_request "Draw a map" ["p#1"] (Some demo_specs)) (λ d, d) db_one db_one) as [_ H].
  destruct H as (q & mode & v & ids & Hq & _ & _ & Hi & _ & _ & _ & Hs & _ & _ & _ & _ & _ & Hslug & _).
  { destruct (create_in "wi_2" "Draw a map" ["p#1"] (Some demo_specs) db_one).1 as [e|x] eqn:E;
      [by vm_compute in E|exists x; exact E]. }
  exists v. split.
  - transitivity (work_items (core (create_in "wi_2" "Draw a map" ["p#1"] (Some demo_specs)
      db_one).2) !! "wi_2"); [vm_compute; reflexivity|].
    unfold create_in. rewrite Hi. apply lookup_insert_eq.
  - assert (cq_blocked_by q = ["p#1"] ∧ cq_project q = "p") as [Hb Hp]
      by (clear -Hq; vm_compute in Hq; injection Hq as <- _; split; reflexivity).
    rewrite Hb in Hs. rewrite Hp in Hslug. split; [exact Hs|exact Hslug].
Defined.

(** ** Duplicates *)

Lemma checked_keys url raw :
  ValidateDeclaredResources url raw = inr tt → is_Some (declaredResourceKeys raw).
Proof.
  unfold ValidateDeclaredResources, declaredResourceKeys. destruct (raw_absent raw); [done|].
  destruct (unmarshal_objects raw); [by eexists|done].
Qed.

Lemma create_checks_ok url req q mode :
  create_checks url req = inr (q, mode) →
  q = with_defaults req ∧ validateWorkItemGoalShape (cq_goal q) = inr tt
  ∧ ValidateDeclaredResources url (cq_declared q) = inr tt
  ∧ validateWorkItemLabels (cq_labels q) = inr tt.
Proof.
  unfold create_checks. rewrite rbind_ok. intros (_ & _ & H).
  apply rbind_ok in H as ([] & Hg & H). destruct (String.eqb (cq_project req) ""); [done|].
  cbv zeta in H. apply rbind_ok in H as ([] & Hd & H).
  apply rbind_ok in H as (_ & _ & H). apply rbind_ok in H as (_ & _ & H).
  apply rbind_ok in H as ([] & Hl & H). apply rbind_ok in H as (_ & _ & H).
  apply rbind_ok in H as (_ & _ & H). apply rbind_ok in H as (m & _ & H).
  destruct (_ && _); [done|]. destruct (negb _); [done|]. by injection H as <- _.
Qed.

(** The search refuses: so does the creation. *)
Lemma create_refused lower contains o cx id user display roles role q mode d0 c e :
  cq_force q = false →
  dedup_verdict lower (cx_scan cx) (dedup_key q) (candidates contains (dedup_key q) (core d0)) = Some e →
  wp (create_body lower contains o cx id user display roles role q mode d0)
    (λ r v, r = inl e ∧ v = VActive c) (VActive c).
Proof.
  intros Hf Hv. unfold create_body, create_gate. rewrite Hf. cbn [negb]. unfold checkDedup.
  apply wp_bind, wp_bind, wp_query. rewrite Hv. by apply wp_throw.
Qed.

(** C9. What is open is not created twice, as long as the search sees it.  A
    request that is not forced, with the goal, the labels and the resources of
    an item that is among the 50 open candidates of the search, and is read
    before any row whose Scan fails (the search is best effort: a row that does
    not scan ends it, and lets the creation pass), changes nothing, whatever
    statement fails; without faults it is answered CONFLICT_DUPLICATE, naming an
    open item of the project.  The float64 arithmetic of the score never hides
    it, as long as the counts are exact in a float64. *)
Theorem duplicates_are_refused url lower contains o f cx id user display roles role req later d0 d q mode w :
  create_checks url req = inr (q, mode) → cq_force q = false →
  small_request lower (dedup_key q) →
  w ∈ (drain (cx_scan cx) (candidates contains (dedup_key q) (core d0))).1 →
  wi_goal w = cq_goal q → doc_labels (wi_doc w) = cq_labels q →
  declaredResourceKeys (wi_declared w) = declaredResourceKeys (cq_declared q) →
  let out env := CreateWorkItem url lower contains o env f cx id user display roles role req
                   later d0 d in
  (∀ env, core (out env).2 = core d)
  ∧ ∃ i v, work_items (core d0) !! i = Some v ∧ wi_project v = cq_project q
      ∧ wi_terminal (wi_status v) = false
      ∧ (out ideal_env).1 = inl (NewErrDetails ErrConflictDuplicate
           (DExisting (wi_id v) (wi_slug v) (wi_goal v) (wi_status_text (wi_status v)))).
Proof.
  intros Hq Hf Hsmall Hin Hg Hl Hd out.
  destruct (create_checks_ok _ _ _ _ Hq) as (_ & _ & Hdecl & _).
  destruct (checked_keys _ _ Hdecl) as [keys Hkeys].
  destruct (verdict_refuses lower contains (cx_scan cx) (dedup_key q) (core d0) w) as (v & Hv & Hverdict);
    [done|done|split; [done|split; [done|]]; exists keys; split; [done|congruence]|].
  destruct (candidates_sound _ _ _ _ Hv) as (i & Hi & Hp & Ht).
  pose proof (create_refused lower contains o cx id user display roles role q mode d0 (core d) _
    Hf Hverdict) as Hwp.
  destruct (runTx_ideal _ _ d Hwp) as (x & Hcore & Hans & ->). simpl in Hcore.
  subst out. unfold CreateWorkItem. rewrite Hq. split.
  - intros env.
    assert (core (runTx env (create_body lower contains o cx id user display roles role q mode d0)
      d).2 = core d) as H
      by (apply (runTx_preserves_any _ (λ c, c = core d)); [by rewrite Hcore|done]).
    by destruct (runTx env _ d) as [[|[]] d'].
  - exists i, v. split; [done|]. split; [done|]. split; [done|].
    destruct (runTx ideal_env _ d) as [[e|a] d']; simpl in *; congruence.
Qed.

(** Filing the first item of the project once more. *)
Lemma duplicates_are_refused_witness :
  core (create_in "wi_3" "Fix the parser" [] None db_one).2 = core db_one
  ∧ ∃ e, (create_in "wi_3" "Fix the parser" [] None db_one).1 = inl e
         ∧ err_code e = ErrConflictDuplicate.
Proof.
  destruct (create_checks (λ _, None) (plain_request "Fix the parser" [] None))
    as [e|[q mode]] eqn:Hq; [by vm_compute in Hq|].
  destruct (work_items (core db_one) !! "wi_1") as [w|] eqn:Hw; [|by vm_compute in Hw].
  assert (q = with_defaults (plain_request "Fix the parser" [] None)) as ->
    by (clear -Hq; vm_compute in Hq; injection Hq as <- _; vm_compute; reflexivity).
  assert (wi_goal w = "Fix the parser" ∧ doc_labels (wi_doc w) = ["backend"]
    ∧ wi_declared w = file_a) as (E1 & E2 & E3)
    by (clear -Hw; vm_compute in Hw; injection Hw as <-; repeat split; reflexivity).
  destruct (duplicates_are_refused (λ _, None) (λ r, r) (λ _ _, false) demo_outside None
    (clock 1 "" "wi_3") "wi_3" "u1" "U" no_roles "user" (plain_request "Fix the parser" [] None)
    (λ d, d) db_one db_one (with_defaults (plain_request "Fix the parser" [] None)) mode w Hq)
    as [H1 (i & v & _ & _ & _ & H2)].
  - reflexivity.
  - split; [vm_compute; reflexivity|]. split; [vm_compute; reflexivity|].
    intros keys Hk. vm_compute in Hk. injection Hk as <-. vm_compute. reflexivity.
  - assert (candidates (λ _ _, false) (dedup_key (with_defaults
      (plain_request "Fix the parser" [] None))) (core db_one) = [w]) as ->.
    { clear -Hw. vm_compute in Hw. injection Hw as <-. vm_compute. reflexivity. }
    left.
  - exact E1.
  - exact E2.
  - rewrite E3. vm_compute. reflexivity.
  - split; [exact (H1 ideal_env)|]. eexists. split; [exact H2|reflexivity].
Defined.

(** ** A request can name the item it creates *)

(** The slug of the next item can be told in advance, and it resolves inside the
    transaction: the refusal of an item that blocks itself is reached. *)
Definition answer_code {A} (r : result AihubError A * Db) : option ErrCode :=
  match r.1 with inl e => Some (err_code e) | inr _ => None end.

Example own_slug_is_refused :
  answer_code (create_in "wi_3" "Write a manual" ["p#3"] None db_two) = Some ErrBadRequest
  ∧ answer_code (create_in "wi_3" "Write a manual" ["p#4"] None db_two) = Some ErrNotFound
  ∧ answer_code (create_in "wi_3" "Write a manual" ["p#2"] None db_two) = None.
Proof. split; [|split]; vm_compute; reflexivity. Qed.
