(* ===== verification/CommitContracts.v ===== *)
(** * The promises of the commit gate

    What a client that was let through has, what one that was refused is told,
    and the hole a blank repository name leaves. *)

From S2P Require Import Prelude GoStrings Errors Json Crypto Declared Locks Store.
From S2P Require Import TxLogic LifecycleSpec ResourceEvents Attempts Claim Complete.
From S2P Require Import Takeover CommitLocks Lifecycle Handover CommitSpec System Scenario.

Open Scope nat_scope.
Open Scope list_scope.

(** The heartbeat of the credential check moves no lock. *)
Lemma blocked_heartbeat now att project repo c p o :
  blocked_by project repo att (heartbeat now att c) p o ↔ blocked_by project repo att c p o.
Proof.
  unfold blocked_by, heartbeat. simpl.
  split; intros (k & l & a & w & Hl & Ho & Hs & Hne & Ha & H).
  - rewrite lookup_alter_ne in Ha by done. exists k, l, a, w. tauto.
  - exists k, l, a, w. rewrite lookup_alter_ne by done. tauto.
Qed.

Lemma gate_conflict_paths c w req p :
  p ∈ cc_path <$> conflicts (rc_attempt req) c (sp_missing (gate_split c w req)) ↔
  asked (rc_paths req) p ∧ ¬ protected (wi_project w) (rc_repo req) (rc_attempt req) c p
  ∧ ∃ o, blocked_by (wi_project w) (rc_repo req) (rc_attempt req) c p o.
Proof.
  rewrite list_elem_of_fmap. setoid_rewrite conflicts_elem. split.
  - intros (cf & -> & m & Hm & Ho).
    pose proof (gate_missing c w req m Hm) as Hmo.
    pose proof (probe_outcome_missing _ _ _ _ _ Hmo) as H. rewrite Ho in H.
    destruct H as (o & -> & Hb). simpl.
    destruct (proj1 (gate_missing_path c w req (mp_path m))) as [Ha Hp];
      [by apply list_elem_of_fmap_2|]. eauto.
  - intros (Ha & Hp & o & Hb).
    pose proof (proj2 (gate_missing_path c w req p) (conj Ha Hp)) as Hin.
    apply list_elem_of_fmap in Hin as (m & -> & Hm).
    pose proof (probe_outcome_missing _ _ _ _ _ (gate_missing c w req m Hm)) as H.
    destruct (probe_outcome _ c m) as [|cf|] eqn:Ho; [done| |by apply H in Hb].
    destruct H as (o' & -> & _). by exists (conflict_at m o'); eauto.
Qed.

(** What a successful reconciliation leaves, with coverage as the gate's own
    probe sees it. *)
Lemma gate_covers env cx wiID req d resp :
  Wf (core d) → (FnReconcileCommitLocks env cx wiID req d).1 = inr resp →
  let c' := core (FnReconcileCommitLocks env cx wiID req d).2 in
  ∃ w a, select_wi wiID (core d) = inr w ∧ wi_status w = WRunning
    ∧ credential_ok (core d) w (rc_attempt req) (rc_epoch req) (rc_secret req) a
    ∧ let had := protected (wi_project w) (rc_repo req) (rc_attempt req) (core d) in
      (∀ p, asked (rc_paths req) p →
         protected (wi_project w) (rc_repo req) (rc_attempt req) c' p
         ∧ if decide (had p) then p ∈ rp_covered resp
           else p ∈ rp_acquired_paths resp
                ∧ (∀ o, ¬ blocked_by (wi_project w) (rc_repo req) (rc_attempt req) (core d) p o)
                ∧ resource_locks c' !! ("file_scope", path_key (wi_project w) (rc_repo req) p)
                  = Some (mkLock (rc_attempt req) (rc_epoch req)))
      ∧ (∀ k l, resource_locks (core d) !! k = Some l → resource_locks c' !! k = Some l)
      ∧ (∀ k l, resource_locks c' !! k = Some l → resource_locks (core d) !! k = Some l
           ∨ ∃ p, p ∈ rp_acquired_paths resp
                  ∧ k = ("file_scope", path_key (wi_project w) (rc_repo req) p)
                  ∧ l = mkLock (rc_attempt req) (rc_epoch req))
      ∧ rp_probed resp = length (rp_acquired_paths resp).
Proof.
  intros HW Hok c'. unfold FnReconcileCommitLocks in *.
  destruct (String.eqb _ _); [done|].
  destruct (runTx_success _ _ _ _ _ (reconcile_body_spec cx wiID req _ HW) Hok)
    as (w & a & Hsel & Hrun & Hcred & Hans).
  exists w, a. repeat (split; [done|]). set (c1 := heartbeat _ _ _) in Hans.
  assert (Wf c1) as HW1 by by apply heartbeat_wf.
  destruct (gate_answer_locks _ _ _ _ _ HW1 Hans) as (_ & Hkept & Hnew).
  unfold gate_answer in Hans. set (ms := sp_missing _) in *.
  destruct (conflicts _ _ _) eqn:Ec; [|done]. injection Hans as <- Hc'. fold c' in Hc'.
  simpl. split; [|split; [exact Hkept|split]].
  - intros p Hp. assert (∀ o, p ∈ mp_path <$> ms → ¬ blocked_by (wi_project w) (rc_repo req)
      (rc_attempt req) (core d) p o) as Hfree.
    { intros o Hin Hb. destruct (proj1 (gate_missing_path c1 w req p) Hin) as [_ Hno].
      pose proof (proj2 (gate_conflict_paths c1 w req p)) as H. fold ms in H.
      rewrite Ec in H. apply not_elem_of_nil in H; [done|]. split; [done|]. split; [done|].
      exists o. by apply blocked_heartbeat. }
    destruct (decide _) as [Hhad|Hhad].
    + split; [|by apply (gate_covered c1 w req p)]. destruct Hhad as (k & l & Hl & ? & ?).
      exists k, l. split; [|done]. by apply Hkept.
    + assert (p ∈ mp_path <$> ms) as Hin by by apply (gate_missing_path c1 w req p).
      apply list_elem_of_fmap in Hin as (m & -> & Hm).
      destruct (gate_missing c1 w req m Hm) as (Hk & _ & Hb & _).
      assert (resource_locks c' !! ("file_scope", path_key (wi_project w) (rc_repo req) (mp_path m))
        = Some (mkLock (rc_attempt req) (rc_epoch req))) as Hown.
      { rewrite <- Hc', <- Hk. apply put_locks_lookup. left. split; [done|].
        split; [|done]. by apply (list_elem_of_fmap_2 mp_key). }
      split; [|split; [by apply list_elem_of_fmap_2|split; [|exact Hown]]].
      * eexists _, _. split; [exact Hown|]. split; [done|]. by apply path_probe_own.
      * intros o. apply Hfree. by apply list_elem_of_fmap_2.
  - intros k l Hl. destruct (Hnew k l Hl) as [?|(m & Hm & -> & ->)]; [by left|right].
    exists (mp_path m). split; [by apply list_elem_of_fmap_2|].
    by destruct (gate_missing c1 w req m Hm) as (-> & _).
  - by rewrite length_fmap.
Qed.

(** ** Coverage, by the keys *)

(** The keys of a file of a named repository: the qualified one, and the one
    without a repository, which stands for the path in any of them. *)
Definition file_keys (project repo p : string) : list string :=
  [project +:+ ":" +:+ trimSpace repo +:+ ":" +:+ p; project +:+ ":" +:+ p].

Lemma probe_file_keys project repo p k :
  blank repo = false →
  sql_key_conflicts (path_probe project repo p) k = true ↔ k ∈ file_keys project repo p.
Proof.
  unfold blank. intros Hb. unfold path_probe, fileScopeConflictProbe, fileScopeLockKey.
  unfold normalizeRepo. rewrite Hb, file_uri_path. change (trimSpace "") with "".
  unfold sql_key_conflicts, file_keys. simpl. rewrite orb_false_r, orb_false_r, orb_true_iff.
  rewrite !String.eqb_eq, !elem_of_cons. split; [tauto|]. intros [?|[?|[]%elem_of_nil]]; auto.
Qed.

(** [att] holds a lock on a key of the file. *)
Definition holds_file (c : Core) (att project repo p : string) : Prop :=
  ∃ k l, k ∈ file_keys project repo p
    ∧ resource_locks c !! ("file_scope", k) = Some l ∧ lk_owner l = att.

(** A live attempt of another owner holds one. *)
Definition held_elsewhere (c : Core) (att project repo p : string) : Prop :=
  ∃ o a, o ≠ att ∧ holds_file c o project repo p ∧ run_attempts c !! o = Some a
    ∧ ra_live (ra_status a) = true ∧ is_Some (work_items c !! ra_wi a).

(** C39. A commit the gate lets through is protected: whatever the environment,
    when reconciliation succeeds for a repository that has a name (more than
    blanks), the caller's attempt is the current, running attempt of the item;
    for every path of the commit it holds a lock on one of the two keys of the
    file; for a path it held none for, no other live attempt did either, and it
    now holds the qualified key; no lock anybody held has gone; and the only
    new locks are the attempt's own, one per path it reports as acquired. *)
Theorem gate_protects env cx wiID req d resp :
  Wf (core d) → blank (rc_repo req) = false →
  (FnReconcileCommitLocks env cx wiID req d).1 = inr resp →
  let c' := core (FnReconcileCommitLocks env cx wiID req d).2 in
  ∃ w a, select_wi wiID (core d) = inr w ∧ wi_status w = WRunning
    ∧ credential_ok (core d) w (rc_attempt req) (rc_epoch req) (rc_secret req) a
    ∧ let key p := wi_project w +:+ ":" +:+ trimSpace (rc_repo req) +:+ ":" +:+ p in
      let mine c := holds_file c (rc_attempt req) (wi_project w) (rc_repo req) in
      (∀ p, asked (rc_paths req) p →
         (mine (core d) p ∧ p ∈ rp_covered resp)
         ∨ (¬ mine (core d) p ∧ p ∈ rp_acquired_paths resp
            ∧ ¬ held_elsewhere (core d) (rc_attempt req) (wi_project w) (rc_repo req) p
            ∧ resource_locks c' !! ("file_scope", key p)
              = Some (mkLock (rc_attempt req) (rc_epoch req))))
      ∧ (∀ k l, resource_locks (core d) !! k = Some l → resource_locks c' !! k = Some l)
      ∧ (∀ k l, resource_locks c' !! k = Some l → resource_locks (core d) !! k = Some l
           ∨ ∃ p, p ∈ rp_acquired_paths resp ∧ k = ("file_scope", key p)
                  ∧ l = mkLock (rc_attempt req) (rc_epoch req)).
Proof.
  intros HW Hb Hok c'. destruct (gate_covers _ _ _ _ _ _ HW Hok)
    as (w & a & Hsel & Hrun & Hcred & Hp & Hkept & Hnew & _).
  fold c' in Hp, Hkept, Hnew. exists w, a. do 3 (split; [done|]).
  assert (∀ p, path_key (wi_project w) (rc_repo req) p
    = wi_project w +:+ ":" +:+ trimSpace (rc_repo req) +:+ ":" +:+ p) as Hkey.
  { intros p. unfold path_key, fileScopeLockKey, normalizeRepo. unfold blank in Hb.
    by rewrite Hb, file_uri_path. }
  assert (∀ c p, protected (wi_project w) (rc_repo req) (rc_attempt req) c p
    ↔ holds_file c (rc_attempt req) (wi_project w) (rc_repo req) p) as Hmine.
  { intros c p. unfold protected, holds_file. setoid_rewrite probe_file_keys; [|done].
    naive_solver. }
  cbv zeta. split; [|split; [exact Hkept|]].
  - intros p Hask. destruct (Hp p Hask) as [Hafter Hcov].
    destruct (decide _) as [Hhad|Hhad]; rewrite Hmine in Hhad; [by left|right].
    destruct Hcov as (Hacq & Hfree & Hown). split; [done|]. split; [done|]. split.
    + intros (o & ra & Hne & (k & l & Hk & Hl & Ho) & Hra & Hlive & [v Hv]).
      apply (Hfree (o, ra_display ra, wi_slug v)). exists k, l, ra, v. simpl.
      by rewrite probe_file_keys.
    + by rewrite <- Hkey.
  - intros k l Hl. destruct (Hnew k l Hl) as [?|(p & Hin & -> & ->)]; [by left|right].
    exists p. by rewrite <- Hkey.
Qed.

(** The commit of Bob, who holds [a.go] of repository "r". *)
Definition bob_commit (paths : list string) : ReconcileCommitLocksRequest :=
  mkReconcile "ra_2" 2 "s2" "r" paths false.
Definition commit_bob (paths : list string) (d : Db) :=
  FnReconcileCommitLocks ideal_env (clock 40 "" "g1") "wi_a" (bob_commit paths) d.
Definition db2_gate : Db := Eval vm_compute in (commit_bob ["a.go"; "b.go"; "a.go"; ""] db2).2.

Lemma gate_protects_witness :
  resource_locks (core (commit_bob ["a.go"; "b.go"; "a.go"; ""] db2).2)
    !! ("file_scope", "p:r:b.go") = Some (mkLock "ra_2" 2).
Proof.
  unfold commit_bob.
  assert (∃ resp, (FnReconcileCommitLocks ideal_env (clock 40 "" "g1") "wi_a"
    (bob_commit ["a.go"; "b.go"; "a.go"; ""]) db2).1 = inr resp) as [resp Hr]
    by (vm_compute; eexists; reflexivity).
  destruct (gate_protects _ _ _ (bob_commit ["a.go"; "b.go"; "a.go"; ""]) _ _ db2_wf eq_refl Hr)
    as (w & a & Hw & _ & _ & H & _).
  assert (wi_project w = "p") as E by (by row_fact Hw).
  rewrite E in H.
  destruct (H "b.go") as [[(k & l & Hk & Hl & Ho) _]|(_ & _ & _ & Hl)];
    [split; [right; left|reflexivity]|exfalso|exact Hl].
  apply elem_of_cons in Hk as [->|[->|[]%elem_of_nil]%elem_of_cons]; by vm_compute in Hl.
Defined.

(** The gate decides, and a refusal is complete: without faults, for the
    current attempt of a running item, reconciliation succeeds exactly when no
    path of the commit that lacks a lock is blocked by another live attempt;
    otherwise it answers CONFLICT_LOCK_TAKEN with every such path and nothing
    else, each with an attempt that really blocks it, and takes no lock. *)
Theorem gate_decides cx wiID req d w a :
  Wf (core d) → select_wi wiID (core d) = inr w → wi_status w = WRunning →
  credential_ok (core d) w (rc_attempt req) (rc_epoch req) (rc_secret req) a →
  rc_repo req ≠ "" →
  let r := FnReconcileCommitLocks ideal_env cx wiID req d in
  let blocks := blocked_by (wi_project w) (rc_repo req) (rc_attempt req) (core d) in
  let refused p := asked (rc_paths req) p
    ∧ ¬ protected (wi_project w) (rc_repo req) (rc_attempt req) (core d) p
    ∧ ∃ o, blocks p o in
  (∃ resp, r.1 = inr resp ∧ ∀ p, ¬ refused p)
  ∨ ∃ first rest, r = (inl (commitLockConflictErr first rest (rc_merge req)), d)
      ∧ (∀ p, p ∈ cc_path <$> first :: rest ↔ refused p)
      ∧ ∀ cf, cf ∈ first :: rest →
          blocks (cc_path cf) (cc_attempt cf, cc_display cf, cc_slug cf).
Proof.
  intros HW Hsel Hrun Hcred Hrepo r blocks refused.
  set (c1 := heartbeat (cx_now cx) (rc_attempt req) (core d)).
  assert (∀ p, refused p ↔ p ∈ cc_path <$> conflicts (rc_attempt req) c1
                                 (sp_missing (gate_split c1 w req))) as Href.
  { intros p. rewrite gate_conflict_paths. unfold refused, blocks, c1.
    by setoid_rewrite blocked_heartbeat. }
  assert (r = runTx ideal_env (reconcile_body cx wiID req) d) as Hr.
  { unfold r, FnReconcileCommitLocks. by rewrite (proj2 (String.eqb_neq _ _) Hrepo). }
  assert (∀ e, r.1 = inl e → r.2 = d) as Herr.
  { intros e. rewrite Hr. eapply runTx_ideal_error. by apply reconcile_body_spec. }
  destruct (runTx_ideal (reconcile_body cx wiID req) (λ r' _, r' =
    rbind (gate_answer c1 w req) (λ x, inr x.1)) d) as (v & _ & Hv).
  { eapply reconcile_body_total; [done..|]. fold c1. cbv zeta.
    by destruct (gate_answer c1 w req) as [|[]]. }
  rewrite <- Hr in *. unfold gate_answer in Hv.
  destruct (conflicts _ _ _) as [|first rest] eqn:Ec.
  - left. eexists. split; [exact Hv|]. intros p Hp%Href. set_solver.
  - right. exists first, rest. split; [|split; [intros p; by rewrite Href|]].
    + rewrite (surjective_pairing r), Hv. f_equal. by apply (Herr _ Hv).
    + intros cf Hcf. rewrite <- Ec in Hcf. apply conflicts_elem in Hcf as (m & Hm & Ho).
      pose proof (probe_outcome_missing _ _ _ _ _ (gate_missing c1 w req m Hm)) as H.
      rewrite Ho in H. destruct H as (o & -> & Hb). apply blocked_heartbeat in Hb.
      by destruct o as [[]].
Qed.

(** Alice claims the third item and then commits a file of the first. *)
Definition db2_c : Db := Eval vm_compute in (claim_c db2).2.

Lemma db2_c_wf : Wf (core db2_c).
Proof.
  assert (db2_c = (claim_c db2).2) as -> by (vm_compute; reflexivity).
  eapply refines_wf; [exact db2_wf|]. apply FnClaimWorkItem_refines;
    [exact db2_wf|by apply room_b_ok; vm_compute|done].
Qed.

Definition alice_commit : ReconcileCommitLocksRequest :=
  mkReconcile "ra_3" 1 "s3" "r" ["c.go"; "a.go"] false.

Lemma gate_decides_witness :
  ∃ first rest,
    FnReconcileCommitLocks ideal_env (clock 40 "" "g2") "doc-c" alice_commit db2_c
    = (inl (commitLockConflictErr first rest false), db2_c).
Proof.
  destruct (work_items (core db2_c) !! "wi_c") as [w|] eqn:Hw; [|by vm_compute in Hw].
  destruct (run_attempts (core db2_c) !! "ra_3") as [a|] eqn:Ha; [|by vm_compute in Ha].
  assert (select_wi "doc-c" (core db2_c) = inr w) as Hsel.
  { vm_compute in Hw. injection Hw as <-. vm_compute. reflexivity. }
  assert (wi_status w = WRunning) as Hrun by (by row_fact Hw).
  assert (credential_ok (core db2_c) w "ra_3" 1 "s3" a) as Hcred.
  { vm_compute in Hw, Ha. injection Hw as <-. injection Ha as <-.
    split; vm_compute; reflexivity. }
  destruct (gate_decides (clock 40 "" "g2") "doc-c" alice_commit db2_c w a db2_c_wf
    Hsel Hrun Hcred) as [(resp & Hr & _)|(first & rest & Hr & _)]; [done| |].
  - exfalso. assert (match (FnReconcileCommitLocks ideal_env (clock 40 "" "g2") "doc-c"
      alice_commit db2_c).1 with inl _ => True | inr _ => False end) as H
      by (vm_compute; exact I).
    by rewrite Hr in H.
  - by exists first, rest.
Defined.

(** A repository name of blanks passes the check that one is given, and is no
    name for the keys: the lock on another repository's file covers the path. *)
Example blank_repo_covers_any_repo :
  (FnReconcileCommitLocks ideal_env (clock 40 "" "g3") "wi_a"
     (mkReconcile "ra_2" 2 "s2" " " ["a.go"] false) db2).1
  = inr (mkReconciled 1 ["a.go"] 0 [] [])
  ∧ held_keys "ra_2" (core db2) = ["p:r:a.go"].
Proof. split; vm_compute; reflexivity. Qed.
