(* ===== verification/Guarantees.v ===== *)
(** * The promises of the lifecycle over whole executions

    Mutual exclusion, lock ownership, fencing and finality: facts about every
    state any sequence of requests can reach. *)

From S2P Require Import Prelude GoStrings Errors Json Crypto Declared Locks Store.
From S2P Require Import TxLogic LifecycleSpec ResourceEvents Attempts Claim Complete.
From S2P Require Import Takeover Dependencies StepUpdate Lifecycle Handover DepGraph.
From S2P Require Import StepSpec CommitLocks CommitSpec System Scenario.
From stdpp Require Import relations.

Open Scope list_scope.

(** ** Shared facts *)

Lemma abs_att_lookup c a ra :
  run_attempts c !! a = Some ra → a_atts (abs c) !! a = Some (abs_att ra).
Proof. intros H. apply abs_lookup_att. eauto. Qed.

Lemma abs_wi_lookup c id w :
  work_items c !! id = Some w → a_wis (abs c) !! id = Some (abs_wi w).
Proof. intros H. apply abs_lookup_wi. eauto. Qed.

(** A valid credential is the newest attempt's. *)
Lemma credential_newest c id w att epoch secret ra :
  Wf c → work_items c !! id = Some w → credential_ok c w att epoch secret ra →
  ra_wi ra = id ∧ ra_epoch ra = wi_epoch w.
Proof.
  intros [_ HI] Hw [Hcur Hra _ _ _].
  destruct (inv_current _ HI _ _ att (abs_wi_lookup _ _ _ Hw) Hcur) as (x & Hx & Hi & He).
  rewrite (abs_att_lookup _ _ _ Hra) in Hx. by simplify_eq/=.
Qed.

(** An attempt that was once overtaken has no valid credential any more. *)
Lemma stale_no_credential c c' a ra w id v epoch secret rb :
  earlier c c' → Wf c' →
  run_attempts c !! a = Some ra → work_items c !! ra_wi ra = Some w →
  (ra_epoch ra < wi_epoch w)%Z →
  work_items c' !! id = Some v → ¬ credential_ok c' v a epoch secret rb.
Proof.
  intros [[Hk HI] Hg] HW' Hra Hw Hlt Hv Hcred. pose proof HW' as [_ HI'].
  destruct (credential_newest _ _ _ _ _ _ _ HW' Hv Hcred) as [Hi He].
  destruct (stale_forever _ _ a (abs_att ra) (abs_wi w) HI HI' Hg) as
    (x & u & Hx & Hxi & Hu & _ & Hcur); [by apply abs_att_lookup|
    by apply abs_wi_lookup|done|].
  rewrite (abs_att_lookup _ _ _ (co_row _ _ _ _ _ _ Hcred)) in Hx. simplify_eq/=.
  pose proof (abs_wi_lookup _ _ _ Hv) as Hv2. simpl in *. rewrite Hxi in Hv2. simplify_eq.
  by apply Hcur, Hcred.
Qed.

Lemma run_earlier m d0 h d h' d' :
  Wf (core d0) → run m d0 h d → run m d h' d' → earlier (core d) (core d') ∧ Wf (core d').
Proof.
  intros HW H1 H2. pose proof (run_wf _ _ _ _ HW H1) as HW1.
  destruct (run_refines _ _ _ _ HW1 H2) as (HW2 & [_ Hs] & _). split; [|done].
  split; [done|]. eapply asteps_grows; [apply HW1|exact Hs].
Qed.

(** ** Mutual exclusion *)

(** C1. As long as no step failure is escalated, in every reachable state a
    running attempt is the current attempt of its work item, which is itself
    running, and its claim epoch is the item's: no other attempt of the item
    runs, and none has a newer epoch.  Every other request may occur, takeovers
    decided on stale reads included; an escalation does break the promise
    ([Findings.escalation_allows_two_running_attempts]). *)
Theorem one_running_attempt m d0 h d a ra b rb :
  escalations m = false →
  Wf (core d0) → Exclusive (abs (core d0)) → run m d0 h d →
  run_attempts (core d) !! a = Some ra → ra_status ra = RRunning →
  run_attempts (core d) !! b = Some rb → ra_wi rb = ra_wi ra →
  (∃ w, work_items (core d) !! ra_wi ra = Some w ∧ wi_status w = WRunning
        ∧ wi_current w = Some a ∧ wi_epoch w = ra_epoch ra)
  ∧ (ra_epoch rb <= ra_epoch ra)%Z ∧ (a ≠ b → ra_status rb ≠ RRunning).
Proof.
  intros Hm HW HX0 Hrun Ha Hr Hb Hwi. destruct (run_wf _ _ _ _ HW Hrun) as [_ HI].
  pose proof (run_exclusive _ _ _ _ Hm HW HX0 Hrun) as HX.
  apply abs_att_lookup in Ha, Hb.
  destruct (HX _ _ Ha Hr) as (v & Hv & Hs & Hc).
  destruct (inv_current _ HI _ _ _ Hv Hc) as (x & Hx & _ & He). simplify_eq.
  destruct (newest_running _ _ _ _ _ HI HX Ha Ha Hr Hr eq_refl) as [_ Hnew].
  apply abs_lookup_wi in Hv as (w & Hw & ->). split; [|split].
  - exists w. simpl in *. auto.
  - exact (Hnew b _ Hb Hwi).
  - intros Hne Hrb. apply Hne. symmetry in Hwi.
    by destruct (newest_running _ _ _ _ _ HI HX Ha Hb Hr Hrb Hwi).
Qed.

Lemma one_running_attempt_witness :
  ∃ ra rb, run_attempts (core db2) !! "ra_2" = Some ra
    ∧ run_attempts (core db2) !! "ra_1" = Some rb
    ∧ (ra_epoch rb <= ra_epoch ra)%Z ∧ ra_status rb ≠ RRunning.
Proof.
  destruct (run_attempts (core db2) !! "ra_2") as [ra|] eqn:Ha; [|by vm_compute in Ha].
  destruct (run_attempts (core db2) !! "ra_1") as [rb|] eqn:Hb; [|by vm_compute in Hb].
  exists ra, rb. split; [done|]. split; [done|].
  destruct (one_running_attempt takeovers db0 _ db2 "ra_2" ra "ra_1" rb eq_refl db0_wf
    (with_items_exclusive _) run_db2 Ha)
    as (_ & He & Hs); [by row_fact Ha|done| |split; [done|by apply Hs]].
  vm_compute in Ha, Hb. by injection Ha as <-; injection Hb as <-.
Defined.

(** C3. In every reachable state each lock row is owned by a live (running or
    paused) attempt of an existing work item, and carries that attempt's claim
    epoch: nobody holds a lock under a stale fencing token, and the orphan
    sweep finds nothing to release. *)
Theorem locks_are_fenced m d0 h d k l :
  Wf (core d0) → run m d0 h d → resource_locks (core d) !! k = Some l →
  (∃ ra w, run_attempts (core d) !! lk_owner l = Some ra ∧ ra_live (ra_status ra) = true
      ∧ lk_epoch l = ra_epoch ra ∧ work_items (core d) !! ra_wi ra = Some w
      ∧ (ra_epoch ra <= wi_epoch w)%Z)
  ∧ orphanLockSweep (core d) k l = false.
Proof.
  intros HW Hrun Hl. destruct (run_wf _ _ _ _ HW Hrun) as [_ HI].
  destruct (inv_locks _ HI _ _ Hl) as (x & Hx & Hlive & He).
  destruct (inv_owner _ HI _ _ Hx) as (v & Hv & Hle).
  apply abs_lookup_att in Hx as (ra & Hra & ->).
  apply abs_lookup_wi in Hv as (w & Hw & ->). split.
  - exists ra, w. simpl in *. repeat split; try done; lia.
  - unfold orphanLockSweep, lock_live. rewrite Hra. unfold aa_live in Hlive.
    simpl in Hlive. by rewrite Hlive.
Qed.

Lemma locks_are_fenced_witness :
  orphanLockSweep (core db2) ("file_scope", "p:r:a.go") (mkLock "ra_2" 2) = false.
Proof.
  apply (locks_are_fenced takeovers db0 _ db2 _ _ db0_wf run_db2). vm_compute; reflexivity.
Defined.

(** ** Fencing *)

(** C2. Fencing: once an attempt's claim epoch is older than its work item's,
    no completion, lock acquisition, commit reconciliation or pin record made
    in its name succeeds in any later state, whatever the secret, the epoch
    sent, the environment and the work item named; and it leaves the database
    exactly as it was. *)
Theorem stale_attempt_fenced m d0 h d h' d' ra w env cx wiID req creq greq roles role pins :
  Wf (core d0) → run m d0 h d → run m d h' d' →
  run_attempts (core d) !! at_attempt req = Some ra →
  work_items (core d) !! ra_wi ra = Some w → (ra_epoch ra < wi_epoch w)%Z →
  co_attempt creq = at_attempt req → rc_attempt greq = at_attempt req →
  let refused {A} (r : result AihubError A * Db) := (∃ e, r.1 = inl e) ∧ r.2 = d' in
  refused (FnCompleteAttempt env cx wiID creq roles role d')
  ∧ refused (FnAcquireLocks env cx wiID req d')
  ∧ refused (FnReconcileCommitLocks env cx wiID greq d')
  ∧ refused (FnRecordRepoPins env cx wiID req pins d').
Proof.
  intros HW H1 H2 Hra Hw Hlt Hco Hgo refused.
  destruct (run_earlier _ _ _ _ _ _ HW H1 H2) as [He HW']. pose proof HW' as [Hk _].
  split; [|split; [|split]]; unfold refused.
  - unfold FnCompleteAttempt. destruct (complete_args creq) as [e|o]; [split; eauto|].
    eapply runTx_refused; [apply _..|by apply complete_body_spec|].
    intros _ c (v & a & Hv & _ & Hc & _). rewrite Hco in Hc.
    by eapply stale_no_credential.
  - eapply runTx_refused; [apply _..|by apply acquire_body_spec|].
    intros _ c (v & a & Hsel & _ & Hc & _).
    destruct (select_wi_Some _ _ _ Hk Hsel) as [Hv _]. by eapply stale_no_credential.
  - unfold FnReconcileCommitLocks. destruct (String.eqb _ _); [split; eauto|].
    eapply runTx_refused; [apply _..|by apply reconcile_body_spec|].
    intros resp c (v & a & Hsel & _ & Hc & _). rewrite Hgo in Hc.
    destruct (select_wi_Some _ _ _ Hk Hsel) as [Hv _]. by eapply stale_no_credential.
  - eapply runTx_refused; [apply _..|apply record_pins_spec|].
    intros _ c (v & a & Hv & Hc & _). by eapply stale_no_credential.
Qed.

Lemma stale_attempt_fenced_witness :
  (FnAcquireLocks ideal_env (clock 40 "" "x") "wi_a" (mkAttReq "ra_1" 1 "s1") db2).2 = db2.
Proof.
  destruct (run_attempts (core db2) !! "ra_1") as [ra|] eqn:Hra; [|by vm_compute in Hra].
  destruct (work_items (core db2) !! "wi_a") as [w|] eqn:Hw; [|by vm_compute in Hw].
  destruct (stale_attempt_fenced takeovers db0 _ db2 _ db2 ra w ideal_env (clock 40 "" "x")
    "wi_a" (mkAttReq "ra_1" 1 "s1") (complete_req "ra_1" 1 "s1" "wrapped")
    (mkReconcile "ra_1" 1 "s1" "r" ["b.go"] false) no_roles
    "user" ∅ db0_wf run_db2 (run_init takeovers _) Hra) as (_ & [_ H] & _);
    [| |done|done|exact H].
  - vm_compute in Hra. injection Hra as <-. exact Hw.
  - vm_compute in Hra, Hw. by injection Hra as <-; injection Hw as <-.
Defined.

(** ** Finality *)

(** C19. Without takeovers decided on stale reads and without escalated step
    failures, a wrapped, failed or cancelled work item keeps its status, its
    current attempt and its epoch for ever.  Both exclusions are needed
    ([Findings.takeover_reopens_wrapped_item],
    [Findings.escalation_reopens_wrapped_item]). *)
Theorem terminal_is_final d0 h d h' d' id w :
  Wf (core d0) → Exclusive (abs (core d0)) → run calm d0 h d → run calm d h' d' →
  work_items (core d) !! id = Some w → wi_terminal (wi_status w) = true →
  ∃ w', work_items (core d') !! id = Some w' ∧ wi_status w' = wi_status w
        ∧ wi_current w' = wi_current w ∧ wi_epoch w' = wi_epoch w.
Proof.
  intros HW HX H1 H2 Hw Ht. pose proof (run_wf _ _ _ _ HW H1) as HW1.
  pose proof (run_exclusive calm _ _ _ eq_refl HW HX H1) as HX1.
  destruct (run_refines _ _ _ _ HW1 H2) as (_ & [_ Hs] & _).
  pose proof (asteps_terminal _ _ id (abs_wi w) (wf_inv _ HW1) HX1 Hs
    (abs_wi_lookup _ _ _ Hw) Ht) as H.
  apply abs_lookup_wi in H as (w' & Hw' & [= E1 E2 E3]). by exists w'.
Qed.

Lemma terminal_is_final_witness :
  ∃ w, work_items (core after_cancel) !! "wi_b" = Some w ∧ wi_status w = WCancelled.
Proof.
  destruct (work_items (core cancelled_b) !! "wi_b") as [v|] eqn:Hv; [|by vm_compute in Hv].
  destruct (terminal_is_final db0 _ cancelled_b _ after_cancel "wi_b" v db0_wf
    (with_items_exclusive _)
    run_cancelled run_after_cancel Hv) as (w' & Hw' & Hs & _); [by row_fact Hv|].
  exists w'. split; [done|]. rewrite Hs. vm_compute in Hv. by injection Hv as <-.
Defined.
