(* ===== verification/Contracts.v ===== *)
(** * The contracts of the lifecycle handlers

    What each handler does when it answers success, and which error it answers
    when it refuses. *)

From S2P Require Import Prelude GoStrings Errors Json Crypto Declared Locks Store.
From S2P Require Import TxLogic LifecycleSpec ResourceEvents Attempts Claim Complete.
From S2P Require Import Takeover Dependencies StepUpdate Lifecycle Handover DepGraph.
From S2P Require Import StepSpec System Scenario.
From stdpp Require Import relations.

Open Scope list_scope.

(** ** Evaluating a handler without faults *)

Definition at_rest (d : Db) : TxSt := mkTx d Active [] CommitOk.

Lemma query_at_rest {A} (f : Core → result DbErr A) d a :
  f (core d) = inr a → query f (at_rest d) = (inr (inr a), at_rest d).
Proof.
  intros H. unfold query, stmt, at_rest. simpl. rewrite H. simpl. by destruct d.
Qed.

Lemma query_at_rest_none {A} (f : Core → result DbErr A) d :
  f (core d) = inl NoRows → query f (at_rest d) = (inr (inl NoRows), at_rest d).
Proof. intros H. unfold query, stmt, at_rest. simpl. by rewrite H. Qed.

Lemma tbind_at_rest {A B} (m : Tx A) (k : A → Tx B) s a s' :
  m s = (inr a, s') → tbind m k s = k a s'.
Proof. intros H. unfold tbind. by rewrite H. Qed.

Lemma run_at_rest {A} (m : Tx A) d r :
  m (at_rest d) = (r, at_rest d) → runTx ideal_env m d = (r, d).
Proof.
  intros H. unfold runTx. cbn [env_begin ideal_env env_faults env_commit].
  fold (at_rest d). by rewrite H.
Qed.

Lemma run_commits {A} (m : Tx A) d r s :
  m (at_rest d) = (r, mkTx d (Committed d) s CommitOk) → runTx ideal_env m d = (r, d).
Proof.
  intros H. unfold runTx. cbn [env_begin ideal_env env_faults env_commit].
  fold (at_rest d). by rewrite H.
Qed.

(** ** Claim *)

Lemma claim_ok env cx wiID req caller d resp :
  keyed (core d) → (FnClaimWorkItem env cx wiID req caller d).1 = inr resp →
  claim_result (core d) cx wiID req caller resp
    (core (FnClaimWorkItem env cx wiID req caller d).2).
Proof.
  intros Hk. unfold FnClaimWorkItem. destruct (claim_args req); [done|].
  intros H. eapply runTx_success; [apply _..|by apply claim_body_spec|done].
Qed.

(** The locks a claim takes: the requested ones, or those its declarations
    derive. *)
Definition claim_locks (req : ClaimRequest) (w : WorkItem) : list ResourceLockReq :=
  (deriveClaimLocks (cr_locks req) (wi_declared w) (wi_project w)).1.
Definition claim_probes (req : ClaimRequest) (w : WorkItem) : list lockConflictProbe :=
  (deriveClaimLocks (cr_locks req) (wi_declared w) (wi_project w)).2.

(** A claim that was not a replay. *)
Lemma claim_taken env cx wiID req caller d resp w :
  keyed (core d) → select_wi wiID (core d) = inr w →
  select_idempotent (wi_id w) (cr_idem req) (core d) = inl NoRows →
  (FnClaimWorkItem env cx wiID req caller d).1 = inr resp →
  ∃ takeover, gate_ok (core d) w caller (cr_force req) takeover
    ∧ claim_post (core d) cx w (prior_of takeover) (claim_row cx req caller w takeover)
        (claim_locks req w) (claim_probes req w)
        (core (FnClaimWorkItem env cx wiID req caller d).2)
    ∧ cl_attempt resp = cx_attempt cx ∧ cl_epoch resp = wrap64 (wi_epoch w + 1).
Proof.
  intros Hk Hsel Hidem Hok. destruct (claim_ok _ _ _ _ _ _ _ Hk Hok) as (v & Hv & _ & H).
  rewrite Hsel in Hv. injection Hv as <-. rewrite Hidem in H.
  destruct H as (t & Hg & H). exists t. unfold claim_locks, claim_probes.
  destruct (deriveClaimLocks _ _ _) as [locks probes]. simpl.
  destruct H as (Hp & Ha & He & _). auto.
Qed.

(** C4. A successful claim: the work item runs under the new attempt with the
    next claim epoch; that attempt's row stores the hash of the caller's secret;
    every wanted lock is held by it under that epoch; a running item's previous
    attempt is superseded and holds no lock; every other work item is
    unchanged. *)
Theorem claim_takes_effect env cx wiID req caller d resp w :
  Wf (core d) → epoch_room (core d) → select_wi wiID (core d) = inr w →
  select_idempotent (wi_id w) (cr_idem req) (core d) = inl NoRows →
  (FnClaimWorkItem env cx wiID req caller d).1 = inr resp →
  let c := core d in
  let c' := core (FnClaimWorkItem env cx wiID req caller d).2 in
  let att := cx_attempt cx in
  let epoch := (wi_epoch w + 1)%Z in
  (∃ w' ra, work_items c' !! wi_id w = Some w' ∧ wi_status w' = WRunning
     ∧ wi_current w' = Some att ∧ wi_epoch w' = epoch
     ∧ run_attempts c !! att = None ∧ run_attempts c' !! att = Some ra
     ∧ ra_wi ra = wi_id w ∧ ra_status ra = RRunning ∧ ra_epoch ra = epoch
     ∧ ra_secret_hash ra = HashSecret (cr_secret req))
  ∧ cl_attempt resp = att ∧ cl_epoch resp = epoch
  ∧ (∀ l, l ∈ claim_locks req w → resource_locks c' !! key_of l = Some (mkLock att epoch))
  ∧ (∀ p, wi_status w = WRunning → wi_current w = Some p → p ≠ att →
       (∃ rp, run_attempts c' !! p = Some rp ∧ ra_status rp = RSuperseded)
       ∧ ∀ k l, resource_locks c' !! k = Some l → lk_owner l ≠ p)
  ∧ (∀ id, id ≠ wi_id w → work_items c' !! id = work_items c !! id).
Proof.
  intros [Hk HI] Hroom Hsel Hidem Hok.
  destruct (claim_taken _ _ _ _ _ _ _ _ Hk Hsel Hidem Hok)
    as (t & Hg & [Hwi Hatt Hclash Hlocks _ _] & Hra & Hre).
  destruct (select_wi_Some _ _ _ Hk Hsel) as [Hw _].
  set (c := core d) in *. set (c' := core (FnClaimWorkItem _ _ _ _ _ _).2) in *.
  cbv zeta.
  assert (wrap64 (wi_epoch w + 1) = (wi_epoch w + 1)%Z) as He.
  { apply wrap64_id. specialize (Hroom _ _ Hw).
    assert (0 <= wi_epoch w)%Z.
    { apply (inv_epoch_nonneg _ HI (wi_id w) (abs_wi w)), abs_lookup_wi. eauto. }
    unfold in_int64, max_int64 in *. simpl in *. lia. }
  destruct (no_clash_abs _ _ _ _ _ Hclash) as (_ & Hfresh & _).
  destruct Hwi as (w' & Hw' & _ & Hcur & Hep & Hst & _).
  destruct Hlocks as (c2 & [_ Hgot Hother _ _] & HL). simpl in Hep, Hgot.
  rewrite He in *.
  split; [|split; [done|split; [done|split; [|split]]]].
  - eexists w', _. rewrite Hw', Hatt, !lookup_insert_eq.
    do 5 (split; [done|]). split; [done|]. simpl. by rewrite He.
  - intros l Hl. rewrite HL. apply Hgot. by apply list_elem_of_fmap_2.
  - intros p Hrun Hp Hne.
    destruct (inv_current _ HI (wi_id w) (abs_wi w) p) as (x & Hx & _);
      [apply abs_lookup_wi; eauto|done|].
    apply abs_lookup_att in Hx as (rp & Hrp & _).
    assert (prior_of t = Some p) as Hprior.
    { destruct t as [q|]; simpl in Hg.
      - destruct Hg as (_ & Hq & _). simpl. rewrite Hp in Hq. injection Hq as <-.
        destruct (String.eqb_spec p "") as [->|]; [|done].
        pose proof (inv_noname _ HI) as Hno. simpl in Hno.
        fold c in Hno. by rewrite lookup_fmap, Hrp in Hno.
      - destruct Hg as [?|[?|[_ Hno]]]; [congruence..|].
        by rewrite (Hno p Hp) in Hrp. }
    rewrite Hprior in *. split.
    + eexists. rewrite Hatt, lookup_insert_ne by done. simpl.
      rewrite lookup_alter_eq, Hrp. simpl. done.
    + intros k l. rewrite HL. destruct (decide (k ∈ key_of <$> claim_locks req w)) as [Hin|Hin].
      * rewrite (Hgot k Hin). intros [= <-]. simpl. congruence.
      * rewrite (Hother k Hin). simpl. intros Hu.
        apply (unowned_locks_lookup (Some p)) in Hu as [_ Ho]. congruence.
  - intros id Hid. by rewrite Hw', lookup_insert_ne.
Qed.

Lemma claim_takes_effect_witness :
  ∃ w', work_items (core (claim_a db0).2) !! "wi_a" = Some w' ∧ wi_status w' = WRunning.
Proof.
  destruct (claim_a db0).1 as [e|resp] eqn:Hr; [by vm_compute in Hr|].
  destruct (claim_takes_effect ideal_env (clock 10 "ra_1" "c1") "wi_a"
    (claim_req "k1" "s1") alice db0 resp item_a db0_wf) as ((w' & ra & Hw & Hs & _) & _).
  - apply room_b_ok. vm_compute. reflexivity.
  - vm_compute. reflexivity.
  - vm_compute. reflexivity.
  - exact Hr.
  - exists w'. split; [exact Hw|exact Hs].
Defined.

(** C5. A successful claim never takes a lock from an attempt still working on
    another item: every lock row such an attempt holds is kept, and none of
    them is of a wanted type with a key that conflicts with a wanted key. *)
Theorem claim_respects_foreign_locks env cx wiID req caller d resp w :
  Wf (core d) → select_wi wiID (core d) = inr w →
  select_idempotent (wi_id w) (cr_idem req) (core d) = inl NoRows →
  (FnClaimWorkItem env cx wiID req caller d).1 = inr resp →
  ∀ k l ra, resource_locks (core d) !! k = Some l →
    run_attempts (core d) !! lk_owner l = Some ra → ra_live (ra_status ra) = true →
    ra_wi ra ≠ wi_id w →
    resource_locks (core (FnClaimWorkItem env cx wiID req caller d).2) !! k = Some l
    ∧ ∀ i rl p, claim_locks req w !! i = Some rl → claim_probes req w !! i = Some p →
        req_resource_type rl = k.1 → sql_key_conflicts p k.2 = false.
Proof.
  intros [Hk HI] Hsel Hidem Hok k l ra Hl Hra Hlive Hne.
  destruct (claim_taken _ _ _ _ _ _ _ _ Hk Hsel Hidem Hok)
    as (t & Hg & [_ _ Hclash Hlocks Hprobe _] & _).
  destruct (no_clash_abs _ _ _ _ _ Hclash) as (_ & Hfresh & _).
  destruct (select_wi_Some _ _ _ Hk Hsel) as [Hw _]. split.
  - destruct Hlocks as (c2 & Hacq & ->).
    eapply (lc_foreign (abs_att <$> run_attempts (core d)) (wi_id w)).
    + eapply acquired_locks_change; [done| |done]. intros p x Hp Hx.
      destruct t as [q|]; [|done]. simpl in Hg. destruct Hg as (_ & Hcur & _).
      simpl in Hp. destruct (String.eqb q ""); [done|]. injection Hp as <-.
      destruct (inv_current _ HI (wi_id w) (abs_wi w) q) as (y & Hy & Hyi & _);
        [apply abs_lookup_wi; eauto|done|].
      apply abs_lookup_att in Hy as (z & Hz & ->). by simplify_eq.
    + done.
    + exists (abs_att ra). rewrite lookup_fmap, Hra. done.
  - intros i rl p Hi Hp Ht. specialize (Hprobe i rl p Hi Hp (k, l)).
    destruct (sql_key_conflicts p k.2) eqn:Ec; [|done]. exfalso.
    destruct (inv_owner _ HI (lk_owner l) (abs_att ra)) as (v & Hv & _);
      [apply abs_lookup_att; eauto|].
    apply abs_lookup_wi in Hv as (u & Hu & _). simpl in Hu.
    unfold collides in Hprobe. simpl in Hprobe.
    rewrite Ht, String.eqb_refl, Ec, Hra, Hlive in Hprobe. simpl in Hprobe.
    rewrite bool_decide_eq_true_2 in Hprobe by eauto. simpl in Hprobe.
    destruct (String.eqb_spec (ra_wi ra) (wi_id w)); [done|]. simpl in Hprobe.
    discriminate Hprobe. by apply elem_of_map_to_list.
Qed.

Lemma claim_respects_foreign_locks_witness :
  resource_locks (core (claim_c db2).2) !! ("file_scope", "p:r:a.go")
  = Some (mkLock "ra_2" 2).
Proof.
  destruct (claim_c db2).1 as [e|resp] eqn:Hr; [by vm_compute in Hr|].
  destruct (run_attempts (core db2) !! "ra_2") as [ra|] eqn:Hra; [|by vm_compute in Hra].
  destruct (claim_respects_foreign_locks ideal_env (clock 25 "ra_3" "c3") "doc-c"
    worktree_req alice db2 resp item_c db2_wf) with (k := ("file_scope", "p:r:a.go"))
    (l := mkLock "ra_2" 2) (ra := ra) as [Hkept _]; [vm_compute; reflexivity|
    vm_compute; reflexivity|exact Hr|vm_compute; reflexivity| | | |].
  - exact Hra.
  - by row_fact Hra.
  - by row_fact Hra.
  - exact Hkept.
Defined.

(** ** Retrying a claim *)

(** Only the item [id] answers to [key]. *)
Definition names_only (c : Core) (key id : string) : Prop :=
  ∀ i w, work_items c !! i = Some w → wi_matches key (i, w) = true → i = id.

Lemma select_wi_unique c key id w :
  work_items c !! id = Some w → wi_matches key (id, w) = true → names_only c key id →
  select_wi key c = inr w.
Proof.
  intros Hw Hm Hu. unfold select_wi.
  destruct (List.find _ _) as [[i v]|] eqn:E.
  - apply List.find_some in E as [Hin Hmi].
    apply list_elem_of_In, elem_of_map_to_list in Hin.
    rewrite (Hu _ _ Hin Hmi) in Hin. by simplify_eq.
  - exfalso. pose proof (find_none _ _ E (id, w)) as Hno. rewrite Hm in Hno.
    discriminate Hno. by apply list_elem_of_In, elem_of_map_to_list.
Qed.

Lemma select_idempotent_unique c wi idem att a :
  run_attempts c !! att = Some a → ra_wi a = wi → ra_idem a = idem →
  (∀ b rb, run_attempts c !! b = Some rb → ra_wi rb = wi → ra_idem rb = idem → b = att) →
  select_idempotent wi idem c = inr (att, a).
Proof.
  intros Ha Hwi Hid Hu. unfold select_idempotent.
  destruct (List.find _ _) as [[b rb]|] eqn:E.
  - apply List.find_some in E as [Hin Hm].
    apply list_elem_of_In, elem_of_map_to_list in Hin. simpl in Hm. reflect_bools.
    assert (b = att) as -> by (by eapply Hu). by simplify_eq.
  - exfalso. pose proof (find_none _ _ E (att, a)) as Hno. simpl in Hno.
    rewrite Hwi, Hid, !String.eqb_refl in Hno. discriminate Hno.
    by apply list_elem_of_In, elem_of_map_to_list.
Qed.

(** The replay path always answers, and writes nothing. *)
Lemma claim_replay_at_rest cx w att a d :
  ∃ resp, runTx ideal_env (claim_replay cx w att a) d = (inr resp, d)
    ∧ cl_attempt resp = att ∧ cl_epoch resp = ra_epoch a
    ∧ (inr (cl_locks resp) : result DbErr _) = select_owned_locks att (core d).
Proof.
  eexists. split.
  - apply run_commits with (s := []). unfold claim_replay.
    erewrite tbind_at_rest; [|by apply query_at_rest].
    erewrite tbind_at_rest; [|reflexivity].
    assert (∃ r, query (select_step (wi_id w)) (at_rest d) = (inr r, at_rest d)
                 ∧ retry_of r = None ∧ r = select_step (wi_id w) (core d))
      as (r & Hr & Hnone & ->).
    { unfold select_step. destruct (wi_step_state (core d) !! wi_id w) as [s|] eqn:E.
      - eexists. split; [apply query_at_rest; by rewrite E|done].
      - eexists. split; [apply query_at_rest_none; by rewrite E|done]. }
    erewrite tbind_at_rest; [|exact Hr]. rewrite Hnone.
    erewrite tbind_at_rest; [|reflexivity].
    unfold commit_tail. erewrite tbind_at_rest; [|reflexivity]. reflexivity.
  - done.
Qed.

Lemma claim_effect env cx wiID req caller d :
  keyed (core d) →
  core (FnClaimWorkItem env cx wiID req caller d).2 ≠ core d →
  ∃ resp, claim_result (core d) cx wiID req caller resp
            (core (FnClaimWorkItem env cx wiID req caller d).2)
          ∧ claim_args req = inr tt.
Proof.
  intros Hk. unfold FnClaimWorkItem. destruct (claim_args req) as [|[]]; [done|].
  intros Hne. cut ((λ c', c' = core d ∨ ∃ resp,
    claim_result (core d) cx wiID req caller resp c')
      (core (runTx env (claim_body cx wiID req caller) d).2)).
  { intros [?|[resp ?]]; [done|eauto]. }
  eapply runTx_invariant; [apply _|apply _|by apply claim_body_spec|by left|eauto].
Qed.

(** C6. A claim is idempotent: once it took effect - whether its answer arrived
    or was lost with the connection - repeating it with the same idempotency
    key answers the same attempt, its epoch and the locks it owns, and writes
    nothing, whoever repeats it and whatever else the request says. *)
Theorem claim_retry_idempotent env cx wiID req caller d w cx2 req2 caller2 :
  Wf (core d) → epoch_room (core d) →
  select_wi wiID (core d) = inr w → names_only (core d) wiID (wi_id w) →
  select_idempotent (wi_id w) (cr_idem req) (core d) = inl NoRows →
  let d' := (FnClaimWorkItem env cx wiID req caller d).2 in
  core d' ≠ core d →
  cr_idem req2 = cr_idem req → claim_args req2 = inr tt →
  ∃ resp, FnClaimWorkItem ideal_env cx2 wiID req2 caller2 d' = (inr resp, d')
    ∧ cl_attempt resp = cx_attempt cx ∧ cl_epoch resp = (wi_epoch w + 1)%Z
    ∧ (inr (cl_locks resp) : result DbErr _) = select_owned_locks (cx_attempt cx) (core d').
Proof.
  intros [Hk HI] Hroom Hsel Hu Hidem d' Hne Hi2 Hargs.
  destruct (claim_effect _ _ _ _ _ _ Hk Hne) as (resp & (v & Hv & Hmode & H) & _).
  rewrite Hsel in Hv. injection Hv as <-. rewrite Hidem in H.
  destruct H as (t & _ & H). destruct (deriveClaimLocks _ _ _) as [locks probes].
  destruct H as ([(w' & Hw' & Hid & _ & _ & _ & Hslug & Hmode') Hatt [_ Hun] _ _ _] & _).
  fold d' in Hw', Hatt. destruct (select_wi_Some _ _ _ Hk Hsel) as [Hw Hm].
  assert (wi_matches wiID (wi_id w, w) = true) as Hmw.
  { unfold wi_matches. simpl. apply orb_true_iff. rewrite !String.eqb_eq. tauto. }
  assert (select_wi wiID (core d') = inr w') as Hsel'.
  { apply (select_wi_unique _ _ (wi_id w)).
    - by rewrite Hw', lookup_insert_eq.
    - unfold wi_matches in *. simpl in *. by rewrite Hslug.
    - intros i x. rewrite Hw'. intros [[<- <-]|[_ Hx]]%lookup_insert_Some; [done|].
      by apply Hu. }
  set (a := claim_row cx req caller w t) in *.
  assert (select_idempotent (wi_id w) (cr_idem req) (core d') = inr (cx_attempt cx, a))
    as Hidem'.
  { apply select_idempotent_unique; [by rewrite Hatt, lookup_insert_eq|done..|].
    intros b rb. rewrite Hatt. intros [[<- _]|[_ Hb]]%lookup_insert_Some Hbw Hbi; [done|].
    by destruct (Hun b rb Hb Hbw). }
  destruct (claim_replay_at_rest cx2 w' (cx_attempt cx) a d') as (resp' & Hrun & Ha & He & Hl).
  exists resp'. split; [|split; [done|split; [|done]]].
  - unfold FnClaimWorkItem. rewrite Hargs. rewrite <- Hrun. unfold runTx.
    cbn [env_begin ideal_env env_faults env_commit]. fold (at_rest d').
    unfold claim_body, claim_lock_wi. erewrite (tbind_at_rest _ _ (at_rest d') w').
    2: { erewrite tbind_at_rest; [|by apply query_at_rest]. reflexivity. }
    rewrite Hmode'. destruct (String.eqb_spec (wi_mode w) "pending"); [done|].
    rewrite Hid, Hi2. erewrite tbind_at_rest; [|by apply query_at_rest]. done.
  - rewrite He. simpl. apply wrap64_id. specialize (Hroom _ _ Hw).
    assert (0 <= wi_epoch w)%Z.
    { apply (inv_epoch_nonneg _ HI (wi_id w) (abs_wi w)), abs_lookup_wi. eauto. }
    unfold in_int64, max_int64 in *. simpl in *. lia.
Qed.

Lemma claim_retry_idempotent_witness :
  (lost_claim db0).1 = inl (NewErr ErrInternalError)
  ∧ ∃ resp, FnClaimWorkItem ideal_env (clock 99 "ra_z" "z") "wi_a" (claim_req "k1" "other")
              bob (lost_claim db0).2 = (inr resp, (lost_claim db0).2)
            ∧ cl_attempt resp = "ra_1".
Proof.
  split; [vm_compute; reflexivity|].
  destruct (claim_retry_idempotent lost_env (clock 10 "ra_1" "c1") "wi_a"
    (claim_req "k1" "s1") alice db0 item_a (clock 99 "ra_z" "z") (claim_req "k1" "other")
    bob db0_wf) as (resp & H & Ha & _).
  - apply room_b_ok. vm_compute. reflexivity.
  - vm_compute. reflexivity.
  - intros i w Hw Hm. unfold wi_matches in Hm. simpl in Hm.
    apply elem_of_list_to_map_2 in Hw.
    apply list_elem_of_fmap in Hw as (v & [= -> ->] & Hv).
    rewrite !elem_of_cons, elem_of_nil in Hv.
    destruct Hv as [->|[->|[->|[]]]]; [done|discriminate Hm..].
  - vm_compute. reflexivity.
  - intros Heq. assert (run_attempts (core (lost_claim db0).2) !! "ra_1"
                        = run_attempts (core db0) !! "ra_1") as Hx by (by rewrite <- Heq).
    vm_compute in Hx. discriminate Hx.
  - reflexivity.
  - reflexivity.
  - exists resp. split; [exact H|exact Ha].
Defined.

(** ** What a claim refuses *)

(** The refusal of a claim on item [w], apart from the arguments. *)
Definition claim_refusal (c : Core) (w : WorkItem) (caller : Caller) (force : bool)
  : option AihubError :=
  match wi_status w with
  | WBlocked | WWrapped | WFailed | WCancelled => Some (NewErr ErrConflictTerminalState)
  | WRunning =>
      match wi_current w with
      | Some cur =>
          match run_attempts c !! cur with
          | Some a =>
              if String.eqb (ra_actor a) (ca_user caller) || force then None
              else Some (NewErrDetails ErrConflictWIAlreadyClaimed
                           (DCurrentAttempt cur (ra_display a) (ra_epoch a)))
          | None => None
          end
      | None => None
      end
  | WQueued | WPaused => None
  end.

Lemma claim_gate_at_rest w caller force d :
  match claim_refusal (core d) w caller force with
  | Some e => claim_gate w caller force (at_rest d) = (inl e, at_rest d)
  | None => ∃ t, claim_gate w caller force (at_rest d) = (inr t, at_rest d)
                 ∧ gate_ok (core d) w caller force t
  end.
Proof.
  unfold claim_refusal, claim_gate, gate_ok.
  destruct (wi_status w) eqn:Es, (wi_current w) as [cur|] eqn:Ec; try done;
    try (eexists; split; [done|]; simpl; tauto || naive_solver).
  destruct (run_attempts (core d) !! cur) as [a|] eqn:Ea.
  - assert (query (select_attempt cur) (at_rest d) = (inr (inr a), at_rest d)) as Hq
      by (apply query_at_rest; unfold select_attempt; by rewrite Ea).
    unfold tbind. rewrite Hq.
    destruct (String.eqb_spec (ra_actor a) (ca_user caller)) as [Hu|Hu], force;
      cbn [orb]; try reflexivity; (eexists; split; [reflexivity|]; naive_solver).
  - assert (query (select_attempt cur) (at_rest d) = (inr (inl NoRows), at_rest d)) as Hq
      by (apply query_at_rest_none; unfold select_attempt; by rewrite Ea).
    unfold tbind. rewrite Hq. eexists. split; [reflexivity|]. naive_solver.
Qed.

(** Which claim is refused, and how: without faults, a well-formed claim on
    a blocked, wrapped, failed or cancelled item answers
    [CONFLICT_TERMINAL_STATE]; on an item running for somebody else it answers
    [CONFLICT_WI_ALREADY_CLAIMED] with the running attempt, its actor and its
    epoch, unless it forces a takeover; and the database stays untouched. *)
Theorem claim_refusals cx wiID req caller d w e :
  claim_args req = inr tt → select_wi wiID (core d) = inr w →
  wi_mode w ≠ "pending" → (∃ t, wi_type w = Some t ∧ t ≠ "") →
  select_idempotent (wi_id w) (cr_idem req) (core d) = inl NoRows →
  claim_refusal (core d) w caller (cr_force req) = Some e →
  FnClaimWorkItem ideal_env cx wiID req caller d = (inl e, d).
Proof.
  intros Ha Hsel Hm (t & Ht & Hte) Hi Hr. unfold FnClaimWorkItem. rewrite Ha.
  apply run_at_rest. unfold claim_body, claim_lock_wi.
  erewrite (tbind_at_rest _ _ _ w).
  2: { erewrite tbind_at_rest; [|by apply query_at_rest]. reflexivity. }
  destruct (String.eqb_spec (wi_mode w) "pending"); [done|].
  erewrite tbind_at_rest; [|by apply query_at_rest_none].
  rewrite Ht. destruct (String.eqb_spec t ""); [done|].
  pose proof (claim_gate_at_rest w caller (cr_force req) d) as Hg. rewrite Hr in Hg.
  unfold tbind. by rewrite Hg.
Qed.

Lemma claim_refusals_witness :
  FnClaimWorkItem ideal_env (clock 50 "ra_5" "z") "fix-a" (claim_req "k5" "s5") alice db2
  = (inl (NewErrDetails ErrConflictWIAlreadyClaimed (DCurrentAttempt "ra_2" "Bob" 2)), db2).
Proof.
  destruct (work_items (core db2) !! "wi_a") as [w|] eqn:Hw; [|by vm_compute in Hw].
  apply (claim_refusals _ _ _ _ _ w).
  - reflexivity.
  - vm_compute in Hw. injection Hw as <-. vm_compute. reflexivity.
  - by row_fact Hw.
  - vm_compute in Hw. injection Hw as <-. by exists "feature".
  - vm_compute in Hw. injection Hw as <-. vm_compute. reflexivity.
  - vm_compute in Hw. injection Hw as <-. vm_compute. reflexivity.
Defined.
