(* ===== verification/EditContracts.v ===== *)
(** * The promises of an edit

    What a client that edits a work item can rely on: no lost update of the
    declarations, the locks given up released, permission decided by the
    editability matrix, no column touched that was not named, and no CHECK of
    the table violated. *)

From S2P Require Import Prelude GoStrings Errors Json Crypto Declared Locks Store.
From S2P Require Import TxLogic LifecycleSpec ResourceEvents Attempts Claim Complete.
From S2P Require Import Takeover Edit Lifecycle Handover EditSpec System Versions Scenario.
From S2P Require Import Contracts.

Open Scope nat_scope.
Open Scope list_scope.

(** ** From the request to the transaction *)

(** The request the transaction works with. *)
Definition normalized (req : UpdateWorkItemRequest) : UpdateWorkItemRequest :=
  normalizeAttrsPatch (normalizeDeclaredResources req).

Lemma edit_checks_normalized url w user role roles req r :
  edit_checks url w user role roles req = inr r → r = normalized req.
Proof.
  unfold edit_checks. cbv zeta. intros H.
  do 8 (apply rbind_ok in H as (? & _ & H)). by injection H as <-.
Qed.

(** A success committed the transaction on the row the snapshot named. *)
Lemma UpdateWorkItem_success url env f1 f2 cx key user role roles req later d0 d out :
  let res := UpdateWorkItem url env f1 f2 cx key user role roles req later d0 d in
  res.1 = inr out →
  ∃ w, GetWorkItem f1 key d0 = inr w
    ∧ edit_checks url w user role roles req = inr (normalized req)
    ∧ edit_result (core d) w (normalized req) (core res.2).
Proof.
  cbv zeta. unfold UpdateWorkItem. destruct (GetWorkItem f1 key d0) as [|w]; [done|].
  destruct (edit_checks _ _ _ _ _ _) as [|r] eqn:Ec; [done|].
  pose proof (edit_checks_normalized _ _ _ _ _ _ _ Ec) as ->.
  destruct (runTx env _ d) as [[|u] d'] eqn:Er; [done|]. intros _. exists w.
  split; [done|]. split; [done|]. simpl.
  pose proof (runTx_success (edit_body cx user w (normalized req))
    (λ _, edit_result (core d) w (normalized req)) env d u) as H.
  rewrite Er in H. apply H; [apply edit_body_spec|done].
Qed.

(** An edit that can have no result is refused and writes nothing. *)
Lemma UpdateWorkItem_refused url env f1 f2 cx key user role roles req later d0 d w :
  GetWorkItem f1 key d0 = inr w →
  (∀ c, ¬ edit_result (core d) w (normalized req) c) →
  let res := UpdateWorkItem url env f1 f2 cx key user role roles req later d0 d in
  (∃ e, res.1 = inl e) ∧ res.2 = d.
Proof.
  intros Hw Hno. cbv zeta. unfold UpdateWorkItem. rewrite Hw.
  destruct (edit_checks _ _ _ _ _ _) as [e|r] eqn:Ec; [split; eauto|].
  pose proof (edit_checks_normalized _ _ _ _ _ _ _ Ec) as ->.
  destruct (runTx_refused (edit_body cx user w (normalized req))
    (λ _, edit_result (core d) w (normalized req)) env d) as [[e He] Hd];
    [apply edit_body_spec|by intros _|].
  destruct (runTx env _ d) as [[|] d']; simpl in *; [split; eauto|done].
Qed.

(** ** No lost update *)

Lemma updated_row_declared r v v' :
  updated_row r v = inr v' →
  match DeclaredResources r with
  | Some next => wi_declared v' = next
      ∧ wi_resources_version v' = (wi_resources_version v + 1)%Z
  | None => wi_declared v' = wi_declared v
      ∧ wi_resources_version v' = wi_resources_version v
  end.
Proof.
  unfold updated_row. rewrite rbind_ok. intros ([] & _ & H). revert H.
  rewrite rbind_ok. intros (attrs & _ & H).
  apply rbind_ok in H as (dv & Hdv & H). cbv zeta in H. case_match; simplify_eq/=.
  destruct (DeclaredResources r) as [raw|]; [|by simplify_eq].
  apply rbind_ok in Hdv as (j & Hj & Hdv). case_match; simplify_eq/=.
  destruct raw; simplify_eq/=; by case_match; simplify_eq/=.
Qed.

Lemma normalized_version req :
  ResourcesVersion (normalized req) = ResourcesVersion req.
Proof. done. Qed.

(** C37. No lost update: a client that read a work item in some earlier state of
    an execution and sends back the version it read either works on the very
    declarations it read, and on success its own replace them under the next
    version, or is refused and changes nothing.  Whatever requests ran in
    between, including other edits, and whatever the faults. *)
Theorem no_lost_update m d0 h d ds url env f1 f2 cx key user role roles req later dr w0 w :
  run m d0 h d → ds ∈ h → GetWorkItem f1 key dr = inr w0 →
  work_items (core ds) !! wi_id w0 = Some w →
  ResourcesVersion req = Some (wi_resources_version w) →
  let res := UpdateWorkItem url env f1 f2 cx key user role roles req later dr d in
  ∃ v, work_items (core d) !! wi_id w0 = Some v
  ∧ (wi_declared v ≠ wi_declared w → (∃ e, res.1 = inl e) ∧ res.2 = d)
  ∧ ∀ out, res.1 = inr out →
      wi_declared v = wi_declared w
      ∧ ∃ v', work_items (core res.2) !! wi_id w0 = Some v'
        ∧ match DeclaredResources (normalized req) with
          | Some next => wi_declared v' = next
              ∧ wi_resources_version v' = (wi_resources_version w + 1)%Z
          | None => wi_declared v' = wi_declared w
              ∧ wi_resources_version v' = wi_resources_version w
          end.
Proof.
  intros Hrun Hds Hget Hw Hver res.
  destruct (run_grows _ _ _ _ Hrun _ Hds _ _ Hw) as (v & Hv & Hle & Heq & _).
  exists v. split; [done|]. split.
  - intros Hne. apply UpdateWorkItem_refused with w0; [done|].
    intros c [(u & u' & [Hu Hcas _ _ _ _ _])|[Hnone _]]; [|congruence].
    simplify_eq. apply Hne, Heq. symmetry. by apply Hcas.
  - intros out Hok. destruct (UpdateWorkItem_success _ _ _ _ _ _ _ _ _ _ _ _ _ _ Hok)
      as (w1 & Hw1 & _ & [(u & u' & [Hu Hcas Hnew Hwi _ _ _])|[Hnone _]]); [|congruence].
    rewrite Hget in Hw1; simplify_eq. pose proof (Hcas _ Hver) as Hn. rewrite <- (Heq (eq_sym Hn)).
    split; [done|]. exists u'. rewrite Hn. split; [|by apply updated_row_declared].
    unfold res. by rewrite Hwi, lookup_insert_eq.
Qed.

(** Edits of the first item of the installation: [a.go] given up for [b.go]. *)
Definition path_entry (repo uri : string) : json :=
  JObj [("type", JStr "path"); ("uri", JStr uri); ("repo", JStr repo)].
Definition file_b : RawMessage := RawJSON (JArr [path_entry "r" "file:b.go"]).

Definition no_edit : UpdateWorkItemRequest :=
  mkUpdate None None None None None None None None None None None None None None.
Definition declare (next : RawMessage) (version : option Z) : UpdateWorkItemRequest :=
  mkUpdate None None None None None None (Some next) version None None None None None None.
Definition no_url : string → option (string * string * string) := λ _, None.
Definition edit_a (req : UpdateWorkItemRequest) (d : Db) :=
  UpdateWorkItem no_url ideal_env None None (clock 50 "" "ed") "fix-a" "u1" "user" no_roles
    req id d d.
Definition db1_edited : Db := Eval vm_compute in (edit_a (declare file_b (Some 0%Z)) db1).2.

Lemma run_edited : run takeovers db0 [db1_edited; db1; db0] db1_edited.
Proof.
  eapply run_step; [apply run_db1|].
  assert (db1_edited = (edit_a (declare file_b (Some 0%Z)) db1).2) as ->
    by (vm_compute; reflexivity).
  apply r_edit. left.
Qed.

(** A second client that read version 0 is refused. *)
Lemma no_lost_update_witness :
  (edit_a (declare file_a (Some 0%Z)) db1_edited).2 = db1_edited.
Proof.
  destruct (GetWorkItem None "fix-a" db1_edited) as [|w0] eqn:Hg; [by vm_compute in Hg|].
  destruct (work_items (core db1) !! "wi_a") as [w|] eqn:Hw; [|by vm_compute in Hw].
  assert (wi_id w0 = "wi_a") as Hid by (by row_fact Hg).
  destruct (no_lost_update takeovers db0 _ db1_edited db1 no_url ideal_env None None
    (clock 50 "" "ed") "fix-a" "u1" "user" no_roles (declare file_a (Some 0%Z)) id
    db1_edited w0 w run_edited) as (v & Hv & [_ H] & _).
  - right. left.
  - exact Hg.
  - rewrite Hid. exact Hw.
  - by row_fact Hw.
  - rewrite Hid in Hv. vm_compute in Hv, Hw. injection Hv as <-. by injection Hw as <-.
  - exact H.
Defined.

(** ** Narrowing *)

(** [key] is the key of [path] in some repository of the project, or in none. *)
Definition key_of_path (project path key : string) : Prop :=
  key = project +:+ ":" +:+ path
  ∨ ∃ repo, key = project +:+ ":" +:+ repo +:+ ":" +:+ path.





(** Each derived key is a key of the path it protects. *)
Lemma derivedFileScopeLocks_key raw project m key q :
  derivedFileScopeLocks raw project = Some m → m !! key = Some q →
  key_of_path project q key.
Proof.
  unfold derivedFileScopeLocks. destruct (decodeDeclaredResources raw) as [items|]; [|done].
  intros [= <-].
  assert (∀ items acc, (∀ k p, acc !! k = Some p → key_of_path project p k) →
    let m := fold_left (λ (byKey : gmap string string) res,
      match derivedLock res project with
      | Some (lockType, lockKey) =>
          if String.eqb lockType "file_scope" && negb (String.eqb lockKey "")
          then <[lockKey := fileURIToLockKey (URI res)]> byKey else byKey
      | None => byKey
      end) items acc in ∀ k p, m !! k = Some p → key_of_path project p k) as H.
  { clear. induction items as [|it items IH]; intros acc Hacc; [done|]. apply IH.
    destruct (derivedLock it project) as [[t k]|] eqn:E; [|done].
    destruct (String.eqb t _ && negb _); [|done].
    intros k' p [[<- <-]|[_ ?]]%lookup_insert_Some; [|by apply Hacc].
    unfold derivedLock, resourceToLock in E. case_bool_decide; [|done].
    destruct (blank _); [done|]. destruct (_ && _); [done|]. simplify_eq.
    unfold fileScopeLockKey. destruct (String.eqb _ _); [by left|right; eauto]. }
  intros Hk. eapply H; [|exact Hk]. intros k p. by rewrite lookup_empty.
Qed.




(** Without that condition a lock that is still declared can be lost: giving up
    [b.go] also releases the lock of the declared path [a:b.go]. *)
Example colon_path_is_released :
  let files l := RawJSON (JArr (path_entry "" <$> l)) in
  let before := files ["file:a:b.go"; "file:b.go"] in
  let after := files ["file:a:b.go"] in
  let d := mkDb (with_items [new_item "wi_x" "x" "p" before]) [] in
  let d1 := (FnClaimWorkItem ideal_env (clock 10 "ra_1" "c1") "wi_x"
               (claim_req "k1" "s1") alice d).2 in
  let d2 := (UpdateWorkItem no_url ideal_env None None (clock 50 "" "ed") "x" "u1" "user"
               no_roles (declare after (Some 0%Z)) id d1 d1).2 in
  (map_to_list (resource_locks (core d1))).*1
    = [("file_scope", "p:a:b.go"); ("file_scope", "p:b.go")]
  ∧ map_to_list (resource_locks (core d2)) = []
  ∧ (map_to_list <$> derivedFileScopeLocks after "p") = Some [("p:a:b.go", "a:b.go")].
Proof. vm_compute. repeat split. Qed.

(** The audit record counts a path once where it lists what was and what is
    declared, but twice among the added ones when two repositories declare it. *)
Example added_paths_repeat :
  let raw := RawJSON (JArr [path_entry "r" "file:a.go"; path_entry "s" "file:a.go"]) in
  (λ m, let d := narrowing_of ∅ m in (NextPaths d, AddedPaths d))
    <$> derivedFileScopeLocks raw "p" = Some (["a.go"], ["a.go"; "a.go"]).
Proof. by vm_compute. Qed.

(** ** Who may edit what, and when *)

Definition given {A} (o : option A) : bool := match o with Some _ => true | None => false end.

(** The fields that are the contract with the reporter, and the ones that say
    how the work is carried out.  All others are a record of it. *)
Definition names_contract (r : UpdateWorkItemRequest) : bool :=
  given (Goal r) || given (WIType r).
Definition names_working (r : UpdateWorkItemRequest) : bool :=
  given (Content r) || given (Labels r) || given (Priority r) || given (Milestone r)
  || given (RequiresHumanSession r) || given (DeclaredResources r).

Definition edit_verdict (w : WorkItem) (user role : string) (roles : gmap string string)
  (r : UpdateWorkItemRequest) : result AihubError unit :=
  let permitted := String.eqb role "admin"
    || bool_decide (roles !! wi_project w = Some "maintainer")
    || String.eqb (wi_reporter w) user in
  if negb (names_contract r || names_working r) then Ok tt
  else if wi_terminal (wi_status w) then Err (NewErr ErrConflictTerminalState)
  else if negb (names_contract r) then Ok tt
  else if bool_decide (wi_status w = WRunning) then Err (NewErr ErrConflictWIAlreadyClaimed)
  else if permitted then Ok tt else Err (NewErr ErrForbidden).

(** The tier of the verdict. *)
Definition demanded_tier (r : UpdateWorkItemRequest) : wiEditTier :=
  if names_contract r then wiTierContract
  else if names_working r then wiTierWorking else wiTierRecord.

Lemma strictest_tier r :
  match strictestSuppliedEditTier r with
  | Some (tier, _) => tier = demanded_tier r
  | None => demanded_tier r = wiTierRecord
  end.
Proof.
  unfold strictestSuppliedEditTier, suppliedEditFields, demanded_tier, names_contract,
    names_working.
  destruct r as [p m t h rr l dr rv a ap au g gr c]. simpl.
  destruct g, t, c, l, p, m, h, dr; try reflexivity; by destruct a, ap, au.
Qed.

Lemma updateGate_record st b r1 r2 : updateGate st wiTierRecord b r1 r2 = None.
Proof. done. Qed.

Lemma edit_gate_verdict w user role roles r :
  edit_gate w user role roles r = edit_verdict w user role roles r.
Proof.
  assert (edit_gate w user role roles r = opt_err (updateGate (wi_status_text (wi_status w))
    (demanded_tier r) (String.eqb (wi_reporter w) user) role
    (match roles !! wi_project w with Some r => r | None => "" end))) as ->.
  { unfold edit_gate. pose proof (strictest_tier r) as H.
    destruct (strictestSuppliedEditTier r) as [[tier f]|]; by rewrite H. }
  unfold edit_verdict, demanded_tier.
  assert (String.eqb (match roles !! wi_project w with Some r => r | None => "" end)
    "maintainer" = bool_decide (roles !! wi_project w = Some "maintainer")) as Hm.
  { destruct (roles !! wi_project w) as [x|]; [|done]. symmetry.
    destruct (String.eqb_spec x "maintainer") as [->|Hne]; [by apply bool_decide_eq_true|].
    apply bool_decide_eq_false. congruence. }
  destruct (names_contract r); simpl; [|by destruct (names_working r), (wi_status w)].
  unfold updateGate. rewrite decide_False, !decide_True by done. rewrite Hm.
  destruct (wi_status w); try reflexivity; simpl; by destruct (_ || _).
Qed.

(** The checks of the request alone. *)
Definition well_formed (url : string → option (string * string * string))
  (req : UpdateWorkItemRequest) : Prop :=
  let r := normalized req in
  opt_check (ValidateDeclaredResources url) (DeclaredResources r) = inr tt
  ∧ opt_check validateWorkItemPriority (Priority r) = inr tt
  ∧ opt_check validateWorkItemLabels (Labels r) = inr tt
  ∧ validateWorkItemContent (Content r) = inr tt
  ∧ validateAttrsPatch r = inr tt.

Lemma edit_checks_well_formed url w user role roles req :
  well_formed url req →
  edit_checks url w user role roles req
  = rbind (edit_verdict w user role roles (normalized req)) (λ _,
    rbind (goal_shape (normalized req)) (λ _,
    rbind (type_shape (normalized req)) (λ _, Ok (normalized req)))).
Proof.
  intros (Hd & Hp & Hl & Hc & Ha). unfold edit_checks. cbv zeta.
  rewrite <- edit_gate_verdict. simpl in *. rewrite Hd, Hp, Hl, Hc. simpl.
  unfold normalized in Ha. by rewrite Ha.
Qed.

Lemma edit_checks_gate url w user role roles req r :
  edit_checks url w user role roles req = inr r →
  edit_verdict w user role roles (normalized req) = inr tt.
Proof.
  unfold edit_checks. cbv zeta. intros H.
  do 5 (apply rbind_ok in H as (? & _ & H)). apply rbind_ok in H as ([] & Hg & _).
  by rewrite <- edit_gate_verdict.
Qed.

(** The editability matrix decides every edit: the walk over the supplied
    fields and the gate give the verdict of the table - a terminal item
    accepts record fields only, the contract with the reporter cannot change
    while an attempt runs and otherwise needs an admin, a maintainer or the
    reporter, everything else is open to any writer - and an edit with a bad
    verdict is refused with that very error, if its fields are well formed,
    and never writes. *)
Theorem edit_gate_decides url env f1 f2 cx key user role roles req later d0 d :
  let res := UpdateWorkItem url env f1 f2 cx key user role roles req later d0 d in
  let verdict w := edit_verdict w user role roles (normalized req) in
  (∀ w, edit_gate w user role roles (normalized req) = verdict w)
  ∧ ∀ w e, GetWorkItem f1 key d0 = inr w → verdict w = inl e →
      (∃ e', res.1 = inl e') ∧ res.2 = d ∧ (well_formed url req → res.1 = inl e).
Proof.
  intros res verdict. split; [intros w; apply edit_gate_verdict|].
  intros w e Hw He. unfold res, UpdateWorkItem. rewrite Hw.
  destruct (edit_checks _ _ _ _ _ _) as [e'|r] eqn:Ec.
  - split; [eauto|]. split; [done|]. intros Hwf.
    rewrite edit_checks_well_formed in Ec by done. unfold verdict in He.
    rewrite He in Ec. by simplify_eq/=.
  - apply edit_checks_gate in Ec. unfold verdict in He. congruence.
Qed.

(** The goal cannot be changed while an attempt works on the item. *)
Definition new_goal (g : string) : UpdateWorkItemRequest :=
  mkUpdate None None None None None None None None None None None (Some g)
    (Some "a longer reason") None.

Lemma edit_gate_decides_witness :
  (edit_a (new_goal "other") db1).1 = inl (NewErr ErrConflictWIAlreadyClaimed).
Proof.
  destruct (GetWorkItem None "fix-a" db1) as [|w] eqn:Hg; [by vm_compute in Hg|].
  destruct (edit_gate_decides no_url ideal_env None None (clock 50 "" "ed") "fix-a" "u1"
    "user" no_roles (new_goal "other") id db1 db1) as [_ H].
  destruct (H w (NewErr ErrConflictWIAlreadyClaimed) Hg) as (_ & _ & He).
  - vm_compute in Hg. injection Hg as <-. by vm_compute.
  - apply He. by repeat split.
Defined.

(** ** What an edit writes *)

(** The members of the new [attrs]: unset ones go, patched ones take the value
    sent, the others stay. *)
Definition patched_member (r : UpdateWorkItemRequest) (old : jobj) (k : string)
  : option json :=
  if bool_decide (k ∈ or_old (AttrsUnset r) []) then None
  else match AttrsPatch r with
       | Some (RawJSON (JObj p)) =>
           match jlookup p k with Some x => Some x | None => jlookup old k end
       | _ => jlookup old k
       end.

Lemma jlookup_app o p k :
  jlookup (o ++ p) k = match jlookup p k with Some x => Some x | None => jlookup o k end.
Proof.
  induction o as [|[k' v] o IH]; simpl; [by destruct (jlookup p k)|].
  rewrite IH. by destruct (jlookup p k).
Qed.

Lemma jlookup_elem o k : k ∈ o.*1 ↔ is_Some (jlookup o k).
Proof.
  induction o as [|[k' v] o IH]; simpl.
  - split; [by intros ?%elem_of_nil|by intros [? ?]].
  - rewrite elem_of_cons, IH. destruct (jlookup o k) as [x|]; [naive_solver|].
    destruct (String.eqb_spec k' k) as [->|]; [naive_solver|].
    split; [intros [?|[? ?]]; congruence|by intros [? ?]].
Qed.

Lemma jlookup_filter (l o : list (string * json)) (P : string → Prop)
  (D : ∀ kv : string * json, Decision (P kv.1)) k :
  l = filter (λ kv : string * json, P kv.1) o →
  (P k → jlookup l k = jlookup o k) ∧ (¬ P k → jlookup l k = None).
Proof.
  intros ->. induction o as [|[k' v] o [IH1 IH2]]; [done|].
  rewrite filter_cons. simpl.
  destruct (decide _) as [Hp|Hp]; simpl in *; (split; intros H; [rewrite IH1|rewrite IH2]);
    try done; destruct (String.eqb_spec k' k) as [->|]; try done.
  by destruct (jlookup o k).
Qed.

(** Merging objects is union, the second one first. *)
Lemma jsonb_concat_members o p :
  ∃ n, jsonb_concat (JObj o) (JObj p) = JObj n
  ∧ ∀ k, jlookup n k = match jlookup p k with Some x => Some x | None => jlookup o k end.
Proof.
  eexists. split; [done|]. intros k. rewrite jlookup_app.
  destruct (jlookup p k) as [x|] eqn:E; [done|].
  apply (jlookup_filter _ o (λ k, k ∉ p.*1) _ k eq_refl).
  rewrite jlookup_elem, E. by intros [? ?].
Qed.

Lemma jsonb_minus_members o ks :
  ∃ n, jsonb_minus (JObj o) ks = inr (JObj n)
  ∧ ∀ k, jlookup n k = if bool_decide (k ∈ ks) then None else jlookup o k.
Proof.
  eexists. split; [done|]. intros k.
  destruct (jlookup_filter _ o (λ k, k ∉ ks) _ k eq_refl) as [Hin Hout].
  case_bool_decide; [by apply Hout; intros ?|by apply Hin].
Qed.

Lemma updated_attrs_members r o j :
  validateAttrsPatch r = inr tt → Attrs r = None →
  updated_attrs r (JObj o) = inr j →
  ∃ n, j = JObj n ∧ ∀ k, jlookup n k = patched_member r o k.
Proof.
  unfold validateAttrsPatch, updated_attrs, patched_member. intros Hv -> Hj.
  apply rbind_ok in Hv as ([] & Hp & _).
  destruct (AttrsPatch r) as [[| |[| | | | |p]]|]; try done;
    destruct (AttrsUnset r) as [ks|]; cbn [rbind attrsAsObject jsonb or_old] in Hj |- *;
    try (destruct (has_nul _); [done|]; cbn [rbind] in Hj).
  - destruct (jsonb_concat_members o p) as (m & Em & Hm). rewrite Em in Hj.
    destruct (jsonb_minus_members m ks) as (n & En & Hn). rewrite En in Hj. simplify_eq.
    exists n. split; [done|]. intros k. by rewrite Hn, Hm.
  - destruct (jsonb_concat_members o p) as (m & Em & Hm). rewrite Em in Hj. simplify_eq.
    exists m. split; [done|]. intros k.
    by rewrite Hm, bool_decide_eq_false_2 by by apply not_elem_of_nil.
  - destruct (jsonb_minus_members o ks) as (n & En & Hn). rewrite En in Hj. simplify_eq.
    by exists n.
  - simplify_eq. exists o. split; [done|]. intros k.
    by rewrite bool_decide_eq_false_2 by by apply not_elem_of_nil.
Qed.

Lemma updated_row_spec r v v' :
  updated_row r v = inr v' →
  updated_attrs r (doc_attrs (wi_doc v)) = inr (doc_attrs (wi_doc v'))
  ∧ work_item_checks (wi_goal v') (wi_doc v') = true
  ∧ v' = mkWI (wi_id v) (wi_slug v) (wi_project v) (or_old (Goal r) (wi_goal v))
      (or_old_opt (WIType r) (wi_type v)) (or_old_opt (RequiresHumanSession r) (wi_rhs v))
      (wi_status v) (or_old (DeclaredResources r) (wi_declared v)) (wi_resources_version v')
      (wi_reporter v) (wi_current v) (wi_epoch v) (wi_mode v) (wi_closed_at v)
      (updated_doc r (wi_doc v) (doc_attrs (wi_doc v'))).
Proof.
  intros H. pose proof (updated_row_declared _ _ _ H) as Hd. revert H.
  unfold updated_row. rewrite rbind_ok. intros ([] & _ & H). revert H.
  rewrite rbind_ok. intros (attrs & Ha & H).
  apply rbind_ok in H as (dv & _ & H). cbv zeta in H.
  destruct (work_item_checks _ _) eqn:Hc; simplify_eq/=. split; [done|]. split; [done|].
  destruct (DeclaredResources r); destruct Hd as [<- _]; done.
Qed.

(** An edit changes what it names and nothing else.  On success the row
    keeps its identity, its reporter and everything the attempts own (status,
    current attempt, epoch, mode, closing time); each column takes the value
    sent or keeps its own; [attrs] is merged member by member; and the new row
    satisfies the column checks.  No other work item, no attempt and no
    dependency changes, and locks only when declarations were sent. *)
Theorem edit_changes_what_it_names url env f1 f2 cx key user role roles req later d0 d out
  w v :
  let res := UpdateWorkItem url env f1 f2 cx key user role roles req later d0 d in
  let r := normalized req in
  res.1 = inr out → GetWorkItem f1 key d0 = inr w →
  work_items (core d) !! wi_id w = Some v →
  ∃ attrs version,
    let doc := updated_doc r (wi_doc v) attrs in
    let goal := or_old (Goal r) (wi_goal v) in
    work_items (core res.2) = <[wi_id w := mkWI (wi_id v) (wi_slug v) (wi_project v) goal
      (or_old_opt (WIType r) (wi_type v)) (or_old_opt (RequiresHumanSession r) (wi_rhs v))
      (wi_status v) (or_old (DeclaredResources r) (wi_declared v)) version
      (wi_reporter v) (wi_current v) (wi_epoch v) (wi_mode v) (wi_closed_at v) doc]>
      (work_items (core d))
    ∧ version = (wi_resources_version v + if given (DeclaredResources r) then 1 else 0)%Z
    ∧ match Attrs r with
      | Some raw => RawJSON attrs = raw
      | None => ∀ o, doc_attrs (wi_doc v) = JObj o →
          ∃ n, attrs = JObj n ∧ ∀ k, jlookup n k = patched_member r o k
      end
    ∧ RuneCountInString goal <= maxWorkItemGoalRunes
    ∧ containsAny goal (bytes [10; 13]) = false
    ∧ doc_priority doc ∈ workItemPriorities
    ∧ length (doc_labels doc) <= maxWorkItemLabels
    ∧ (∀ s, doc_content doc = Some s → RuneCountInString s <= maxWorkItemContentRunes)
    ∧ run_attempts (core res.2) = run_attempts (core d)
    ∧ wi_dependencies (core res.2) = wi_dependencies (core d)
    ∧ (DeclaredResources r = None → resource_locks (core res.2) = resource_locks (core d)).
Proof.
  intros res r Hok Hget Hv.
  destruct (UpdateWorkItem_success _ _ _ _ _ _ _ _ _ _ _ _ _ _ Hok) as (w1 & Hw1 & Hck & H).
  assert (w1 = w) as -> by congruence.
  destruct H as [(u & v' & [Hu _ Hnew Hwi Hat Hde Hlo])|[Hnone _]]; [|congruence].
  assert (u = v) as -> by congruence. fold res r in Hwi, Hat, Hde, Hlo, Hnew.
  destruct (updated_row_spec _ _ _ Hnew) as (Hattrs & Hchk & Hrow).
  pose proof (updated_row_declared _ _ _ Hnew) as Hdecl.
  exists (doc_attrs (wi_doc v')), (wi_resources_version v'). cbv zeta.
  rewrite Hrow in Hwi at 1. simpl in Hwi. rewrite Hrow in Hchk. simpl in Hchk.
  unfold work_item_checks, updated_doc in Hchk. simpl in Hchk.
  rewrite !andb_true_iff, negb_true_iff, !Nat.leb_le in Hchk.
  destruct Hchk as ((((Hc1 & Hc2) & Hc3) & Hc4) & Hc5).
  split; [exact Hwi|]. split.
  { destruct (DeclaredResources r); destruct Hdecl as [_ ->]; simpl; lia. }
  split.
  { destruct (Attrs r) as [raw|] eqn:Ea.
    - unfold updated_attrs in Hattrs. rewrite Ea in Hattrs.
      destruct (AttrsPatch r), (AttrsUnset r); try done. destruct raw as [| |j]; try done.
      simpl in Hattrs. by destruct (has_nul j); simplify_eq.
    - intros o Ho. rewrite Ho in Hattrs. apply updated_attrs_members; [|done..].
      unfold edit_checks in Hck. cbv zeta in Hck.
      do 4 (apply rbind_ok in Hck as (? & _ & Hck)). by apply rbind_ok in Hck as ([] & ? & _). }
  repeat split; try done.
  - by apply bool_decide_eq_true in Hc3.
  - intros s Hs. unfold updated_doc in Hs. simpl in Hs. rewrite Hs in Hc5. by apply Nat.leb_le.
  - intros Hno. by rewrite Hno in Hlo.
Qed.

(** Labels and one member of [attrs], while the item is running. *)
Definition label_it : UpdateWorkItemRequest :=
  mkUpdate None None None None None (Some ["ui"]) None None None
    (Some (RawJSON (JObj [("pr", JNum "7")]))) None None None None.

Lemma edit_changes_what_it_names_witness :
  ∃ w', work_items (core (edit_a label_it db1).2) !! "wi_a" = Some w'
    ∧ doc_labels (wi_doc w') = ["ui"] ∧ wi_goal w' = "a goal"
    ∧ ∃ n, doc_attrs (wi_doc w') = JObj n ∧ jlookup n "pr" = Some (JNum "7").
Proof.
  destruct (GetWorkItem None "fix-a" db1) as [|w] eqn:Hg; [by vm_compute in Hg|].
  destruct (work_items (core db1) !! "wi_a") as [v|] eqn:Hv; [|by vm_compute in Hv].
  assert (wi_id w = "wi_a") as Hid by (by row_fact Hg).
  assert (wi_goal v = "a goal") as Hgoal by (by row_fact Hv).
  assert (doc_attrs (wi_doc v) = JObj []) as Hat by (by row_fact Hv).
  assert (∃ out, (edit_a label_it db1).1 = inr out) as [out Ho]
    by (vm_compute; eexists; reflexivity).
  rewrite <- Hid in Hv |- *.
  destruct (edit_changes_what_it_names no_url ideal_env None None (clock 50 "" "ed") "fix-a"
    "u1" "user" no_roles label_it id db1 db1 out w v Ho Hg Hv)
    as (attrs & version & Hwi & _ & Ha & _).
  eexists. split; [unfold edit_a; rewrite Hwi; apply lookup_insert_eq|].
  split; [done|]. split; [exact Hgoal|].
  destruct (Ha [] Hat) as (n & -> & Hn). exists n. split; [done|]. by rewrite Hn.
Defined.

(** ** The checks of the request cover those of the table *)

Lemma goal_shape_meets r g :
  goal_shape r = inr tt → Goal r = Some g →
  RuneCountInString g <= maxWorkItemGoalRunes ∧ containsAny g (bytes [10; 13]) = false.
Proof.
  unfold goal_shape. intros H E. rewrite E in H. simpl in H. destruct (negb (reason_given _)); [done|].
  apply rbind_ok in H as ([] & _ & H). unfold validateWorkItemGoalShape in H.
  destruct (Nat.ltb_spec maxWorkItemGoalRunes (RuneCountInString g)); [done|].
  by destruct (containsAny g _).
Qed.

Lemma checked_row_meets url w user role roles req r goal doc attrs :
  edit_checks url w user role roles req = inr r → work_item_checks goal doc = true →
  work_item_checks (or_old (Goal r) goal) (updated_doc r doc attrs) = true.
Proof.
  intros Hck. pose proof (edit_checks_normalized _ _ _ _ _ _ _ Hck) as Hr. revert Hck.
  unfold edit_checks. cbv zeta. rewrite rbind_ok. intros (_ & _ & H).
  apply rbind_ok in H as ([] & Hp & H). apply rbind_ok in H as ([] & Hl & H).
  apply rbind_ok in H as ([] & Hc & H). apply rbind_ok in H as ([] & _ & H).
  apply rbind_ok in H as ([] & _ & H). apply rbind_ok in H as ([] & Hg & _).
  change (goal_shape (normalized req) = inr tt) in Hg. rewrite <- Hr in Hg.
  assert (opt_check validateWorkItemPriority (Priority r) = inr tt) as Hp' by (by rewrite Hr).
  assert (opt_check validateWorkItemLabels (Labels r) = inr tt) as Hl' by (by rewrite Hr).
  assert (validateWorkItemContent (Content r) = inr tt) as Hc' by (by rewrite Hr).
  clear Hp Hl Hc Hr. unfold work_item_checks, updated_doc.
  rewrite !andb_true_iff, !negb_true_iff, !Nat.leb_le. simpl.
  intros ((((H1 & H2) & H3) & H4) & H5). split; [split; [split|]|].
  - destruct (Goal r) as [g|] eqn:E; [|done]. by apply (goal_shape_meets r).
  - destruct (Priority r) as [p|]; [|done]. unfold validateWorkItemPriority in Hp'. simpl in *.
    by destruct (bool_decide _).
  - destruct (Labels r) as [l|]; [|done]. simpl in *. unfold validateWorkItemLabels in Hl'.
    by destruct (Nat.ltb_spec maxWorkItemLabels (length l)).
  - destruct (Content r) as [s|]; [|done]. simpl in *. unfold validateWorkItemContent in Hc'.
    destruct (Nat.ltb_spec maxWorkItemContentRunes (RuneCountInString s)); [done|].
    by apply Nat.leb_le.
Qed.

(** A value taken from a parsed request body. *)
Definition sent (o : option RawMessage) : Prop :=
  match o with Some RawEmpty | Some RawInvalid => False | _ => True end.

Definition raw_nul (o : option RawMessage) : bool :=
  match o with Some (RawJSON j) => has_nul j | _ => false end.

Lemma updated_attrs_refusal r old e :
  validateAttrsPatch r = inr tt → sent (Attrs r) → updated_attrs r old = inl e →
  e = PgError pgUntranslatableCharacter ∧ raw_nul (Attrs r) || raw_nul (AttrsPatch r) = true.
Proof.
  unfold validateAttrsPatch, updated_attrs, raw_nul. intros ([] & Hp & H)%rbind_ok Hs.
  apply rbind_ok in H as ([] & _ & H).
  destruct (Attrs r) as [[| |j]|]; try done; simpl.
  - destruct (AttrsPatch r), (AttrsUnset r); try done. by destruct (has_nul j); intros [= <-].
  - destruct (AttrsPatch r) as [[| |[| | | | |p]]|]; try done; simpl;
      try (destruct (existsb _ p); [by destruct (AttrsUnset r); intros [= <-]|]);
      destruct (AttrsUnset r), old; done.
Qed.

Lemma edit_checks_patch url w user role roles req r :
  edit_checks url w user role roles req = inr r → validateAttrsPatch r = inr tt.
Proof.
  intros H. pose proof (edit_checks_normalized _ _ _ _ _ _ _ H) as ->. revert H.
  unfold edit_checks. cbv zeta. rewrite rbind_ok. intros (_ & _ & H).
  do 3 (apply rbind_ok in H as (_ & _ & H)). by apply rbind_ok in H as ([] & Ha & _).
Qed.

(** An edit that passed the checks of the request meets the constraints of
    the table: on a row that meets the column CHECKs, the UPDATE never
    violates one of them, and never sets [attrs] twice.  In the model it can be
    refused for three reasons only: a NUL in a text parameter, a NUL in one of
    the JSON values, and a version of the declarations at the end of its range.
    (Not modelled: lone surrogates and out-of-range numbers in a JSON value, and
    the size limits of rows and indexes.) *)
Theorem checked_edit_meets_constraints url w user role roles req r v e :
  edit_checks url w user role roles req = inr r →
  sent (Attrs r) → sent (DeclaredResources r) →
  work_item_checks (wi_goal v) (wi_doc v) = true →
  updated_row r v = inl e →
  (e = PgError pgInvalidEncoding ∧ existsb text_nul (update_texts r) = true)
  ∨ (e = PgError pgUntranslatableCharacter
     ∧ raw_nul (Attrs r) || raw_nul (AttrsPatch r) || raw_nul (DeclaredResources r) = true)
  ∨ (e = PgError pgNumericOutOfRange ∧ given (DeclaredResources r) = true
     ∧ in_int32 (wi_resources_version v + 1) = false).
Proof.
  intros Hck Hsa Hsd Hold. unfold updated_row, texts_in.
  destruct (existsb _ _); [intros [= <-]; by left|]. cbn [rbind].
  destruct (updated_attrs r _) as [e'|attrs] eqn:Ea.
  { intros [= <-]. right. left.
    apply updated_attrs_refusal in Ea as [-> Hn]; [by rewrite Hn| |done].
    by eapply edit_checks_patch. }
  cbn [rbind]. destruct (DeclaredResources r) as [[| |j]|]; try done; simpl.
  - destruct (has_nul j); simpl; [intros [= <-]; right; left; by rewrite orb_true_r|].
    destruct (in_int32 _) eqn:Ei; simpl; [|intros [= <-]; by right; right].
    by rewrite (checked_row_meets _ _ _ _ _ _ _ _ _ _ Hck Hold).
  - by rewrite (checked_row_meets _ _ _ _ _ _ _ _ _ _ Hck Hold).
Qed.

(** A milestone that holds a NUL passes the checks of the request. *)
Definition nul_milestone : UpdateWorkItemRequest :=
  mkUpdate None (Some (bytes [102; 0])) None None None None None None None None None None None
    None.

Lemma checked_edit_meets_constraints_witness :
  ∃ w r, GetWorkItem None "fix-a" db1 = inr w
    ∧ edit_checks no_url w "u1" "user" no_roles nul_milestone = inr r
    ∧ updated_row r w = inl (PgError pgInvalidEncoding)
    ∧ existsb text_nul (update_texts r) = true.
Proof.
  destruct (GetWorkItem None "fix-a" db1) as [|w] eqn:Hg; [by vm_compute in Hg|].
  assert (edit_checks no_url w "u1" "user" no_roles nul_milestone
    = inr (normalized nul_milestone)) as Hck by (by row_fact Hg).
  assert (work_item_checks (wi_goal w) (wi_doc w) = true) as Hold by (by row_fact Hg).
  assert (updated_row (normalized nul_milestone) w = inl (PgError pgInvalidEncoding)) as He
    by (by row_fact Hg).
  exists w, (normalized nul_milestone). repeat (split; [done|]).
  destruct (checked_edit_meets_constraints no_url w "u1" "user" no_roles nul_milestone _ w _
    Hck I I Hold He) as [[_ H]|[[H _]|[H _]]]; [exact H|discriminate H..].
Defined.
