(* ===== verification/Endings.v ===== *)
(** * How attempts and work items end

    The contracts of completion, cancellation and takeover, the credential's
    decision table, and what an ending does to the items that waited. *)

From S2P Require Import Prelude GoStrings Errors Json Crypto Declared Locks Store.
From S2P Require Import TxLogic LifecycleSpec ResourceEvents Attempts Claim Complete.
From S2P Require Import Takeover Dependencies StepUpdate Lifecycle Handover DepGraph.
From S2P Require Import StepSpec System Scenario Contracts.
From stdpp Require Import relations sorting.

Open Scope list_scope.

(** ** Completion *)

Lemma complete_ok env cx wiID req roles role d u :
  keyed (core d) → (FnCompleteAttempt env cx wiID req roles role d).1 = inr u →
  ∃ o, complete_args req = inr o
       ∧ complete_result (core d) cx wiID req o
           (core (FnCompleteAttempt env cx wiID req roles role d).2).
Proof.
  intros Hk. unfold FnCompleteAttempt. destruct (complete_args req) as [|o]; [done|].
  intros H. exists o. split; [done|]. destruct u.
  eapply (runTx_success (complete_body cx wiID req o roles role)
    (λ _, complete_result (core d) cx wiID req o)); [apply _..|by apply complete_body_spec|done].
Qed.

Lemma complete_args_outcome req o :
  complete_args req = inr o → parse_outcome (co_status req) = Some o.
Proof.
  unfold complete_args. destruct (parse_outcome (co_status req)) as [p|]; [|done].
  destruct (_ && _); [done|]. destruct (_ && _); [done|].
  destruct p, (co_derived req) as [[|x l]|]; try done; try (by intros [= ->]);
    destruct (ValidateDerived _); by intros [= ->].
Qed.

(** The ended item's own row is not a dependent to requeue. *)
Lemma complete_wi_lookup c cx w req o c' :
  complete_post c cx w req o c' →
  work_items c' !! wi_id w = Some (wi_with_status (cx_now cx) (outcome_wi o) w).
Proof.
  intros [Hw _ _ _ _]. rewrite Hw. destruct (decide (o = OPaused)) as [->|Ho]; simpl.
  - by rewrite lookup_insert_eq.
  - rewrite requeue_rows_lookup. simpl. rewrite lookup_insert_eq. simpl.
    unfold requeueable. simpl. destruct o; by rewrite andb_false_r.
Qed.

(** C17. A successful completion: the caller's credential was valid and the item
    not terminal; the item and the attempt take the requested status; a wrap or
    failure releases every lock of the attempt and a pause exactly the
    [file_scope] ones; locks and attempts of anybody else are untouched. *)
Theorem complete_takes_effect env cx wiID req roles role d :
  Wf (core d) → (FnCompleteAttempt env cx wiID req roles role d).1 = inr tt →
  let c := core d in
  let c' := core (FnCompleteAttempt env cx wiID req roles role d).2 in
  ∃ o w a, parse_outcome (co_status req) = Some o
    ∧ work_items c !! wiID = Some w ∧ wi_terminal (wi_status w) = false
    ∧ credential_ok c w (co_attempt req) (co_epoch req) (co_secret req) a
    ∧ work_items c' !! wiID = Some (wi_with_status (cx_now cx) (outcome_wi o) w)
    ∧ (∃ a', run_attempts c' !! co_attempt req = Some a' ∧ ra_status a' = outcome_ra o
             ∧ ra_derived a' = stored_derived req o
             ∧ ra_pause_reason a' = stored_pause_reason req o)
    ∧ (∀ k l, resource_locks c' !! k = Some l ↔ resource_locks c !! k = Some l
         ∧ (lk_owner l = co_attempt req → o = OPaused ∧ k.1 ≠ "file_scope"))
    ∧ (∀ b, b ≠ co_attempt req → run_attempts c' !! b = run_attempts c !! b).
Proof.
  intros [Hk HI] Hok. set (c := core d).
  destruct (complete_ok _ _ _ _ _ _ _ _ Hk Hok) as (o & Ho & w & a & Hw & Ht & Hc & _ & Hp).
  fold c in Hw, Hc, Hp. set (c' := core (FnCompleteAttempt _ _ _ _ _ _ _).2) in *.
  cbv zeta. exists o, w, a. pose proof (Hk _ _ Hw) as Hid.
  pose proof (complete_wi_lookup _ _ _ _ _ _ Hp) as Hwi. rewrite Hid in Hwi.
  destruct Hp as [_ Hatt Hlocks _ _].
  split; [by apply complete_args_outcome|]. do 4 (split; [done|]). split; [|split].
  - eexists. rewrite Hatt, !lookup_alter_eq, (co_row _ _ _ _ _ _ Hc). simpl. done.
  - intros k l. rewrite Hlocks. apply end_sel_kept.
  - intros b Hb. by rewrite Hatt, !lookup_alter_ne.
Qed.

Lemma complete_takes_effect_witness :
  (∃ o w a, parse_outcome "wrapped" = Some o
    ∧ work_items (core db2) !! "wi_a" = Some w
    ∧ credential_ok (core db2) w "ra_2" 2 "s2" a)
  ∧ resource_locks (core (wrap_a db2).2) !! ("file_scope", "p:r:a.go") = None.
Proof.
  unfold wrap_a, complete_a.
  destruct (complete_takes_effect ideal_env (clock 30 "" "e1") "wi_a"
    (complete_req "ra_2" 2 "s2" "wrapped") no_roles "user" db2 db2_wf)
    as (o & w & a & Ho & Hw & _ & Hc & _ & _ & Hl & _).
  - vm_compute. reflexivity.
  - split; [by exists o, w, a|].
    match goal with |- ?x = None => destruct x as [l|] eqn:E; [|done] end.
    exfalso. destruct (proj1 (Hl _ _) E) as [Hold Hx]. vm_compute in Hold.
    injection Hold as <-. destruct (Hx eq_refl) as [Hp _]. simpl in Ho.
    injection Ho as <-. discriminate Hp.
Defined.

(** A wrap of an item that produced code without ever opening a step needs
    a reason: no environment lets it succeed with a missing or blank one. *)
Theorem wrap_without_steps_needs_reason env cx wiID req roles role d :
  Wf (core d) → co_status req = "wrapped" → step_version wiID (core d) = 0%Z →
  has_code_event wiID (core d) = true → nonblank (co_no_steps_reason req) = false →
  ∀ u, (FnCompleteAttempt env cx wiID req roles role d).1 ≠ inr u.
Proof.
  intros [Hk _] Hst Hv Hcode Hr u Hok.
  destruct (complete_ok _ _ _ _ _ _ _ _ Hk Hok) as (o & Ho & w & a & _ & _ & _ & Hg & _).
  apply complete_args_outcome in Ho. rewrite Hst in Ho. injection Ho as <-.
  specialize (Hg eq_refl Hv Hcode). congruence.
Qed.

Lemma wrap_without_steps_needs_reason_witness :
  (FnCompleteAttempt ideal_env (clock 30 "" "e") "wi_a" (complete_req "ra_2" 2 "s2" "wrapped")
     no_roles "user" db2_commit).1 ≠ inr tt.
Proof.
  apply wrap_without_steps_needs_reason; [|reflexivity|vm_compute; reflexivity..].
  destruct db2_wf as [Hk HI]. split; [exact Hk|exact HI].
Defined.

(** The credential check: against a stored secret hash the current attempt
    is accepted exactly with its own epoch and a secret of the same SHA-256
    digest, while it runs; the epoch is judged first, then the secret, then
    the status, each with its own error, and an attempt that is not the
    item's current one is refused as superseded. *)
Theorem credential_decision cx w att a s0 epoch secret d :
  run_attempts (core d) !! att = Some a → ra_secret_hash a = HashSecret s0 →
  (wi_current w ≠ Some att → ∃ det,
     (verifyAttemptCredential cx w att epoch secret (at_rest d)).1
     = inl (NewErrDetails ErrConflictEpochMismatch det))
  ∧ (wi_current w = Some att →
     (verifyAttemptCredential cx w att epoch secret (at_rest d)).1 =
       if decide (ra_epoch a ≠ epoch) then inl (NewErr ErrConflictEpochMismatch)
       else if decide (Sum256 (bytes_of s0) ≠ Sum256 (bytes_of secret))
       then inl (NewErr ErrAttemptMismatch)
       else match ra_status a with
            | RRunning => inr tt
            | RPaused => inl (NewErr ErrAttemptPaused)
            | _ => inl (NewErr ErrAttemptMismatch)
            end).
Proof.
  intros Ha Hs. split; intros Hc; unfold verifyAttemptCredential.
  - rewrite bool_decide_eq_false_2 by done. simpl. unfold tbind at 1.
    assert (∃ det, supersededByDetails att (wi_current w) (at_rest d)
                   = (inr det, at_rest d)) as [det ->]; [|by exists det].
    unfold supersededByDetails. unfold tbind at 1.
    rewrite (query_at_rest _ d a) by (unfold select_attempt; by rewrite Ha).
    destruct (decide _); [|by eexists]. destruct (wi_current w) as [cur|]; [|by eexists].
    unfold tbind. destruct (run_attempts (core d) !! cur) as [b|] eqn:Eb.
    + rewrite (query_at_rest _ d b) by (unfold select_attempt; by rewrite Eb). by eexists.
    + rewrite (query_at_rest_none _ d) by (unfold select_attempt; by rewrite Eb).
      by eexists.
  - rewrite bool_decide_eq_true_2 by done. simpl. unfold tbind at 1.
    rewrite (query_at_rest _ d a) by (unfold select_attempt; by rewrite Ha).
    unfold credential_verdict. rewrite Hs, !HashSecret_decodes. unfold ConstantTimeCompare.
    destruct (decide (ra_epoch a ≠ epoch)) as [He|He].
    + by rewrite (proj2 (Z.eqb_neq _ _) He).
    + assert (ra_epoch a = epoch) as -> by (by destruct (decide (ra_epoch a = epoch))).
      rewrite Z.eqb_refl. simpl. destruct (decide _) as [Hx|Hx].
      * by rewrite bool_decide_eq_false_2.
      * rewrite bool_decide_eq_true_2
          by (by destruct (decide (Sum256 (bytes_of s0) = Sum256 (bytes_of secret)))).
        simpl. by destruct (ra_status a).
Qed.

Lemma credential_decision_witness :
  ∃ w a, work_items (core db2) !! "wi_a" = Some w
    ∧ run_attempts (core db2) !! "ra_2" = Some a
    ∧ (verifyAttemptCredential (clock 60 "" "v") w "ra_2" 2 "s2" (at_rest db2)).1 = inr tt
    ∧ (verifyAttemptCredential (clock 60 "" "v") w "ra_2" 2 "bad" (at_rest db2)).1
      = inl (NewErr ErrAttemptMismatch).
Proof.
  destruct (work_items (core db2) !! "wi_a") as [w|] eqn:Hw; [|by vm_compute in Hw].
  destruct (run_attempts (core db2) !! "ra_2") as [a|] eqn:Ha; [|by vm_compute in Ha].
  exists w, a. split; [done|]. split; [done|].
  assert (wi_current w = Some "ra_2") as Hc by (by row_fact Hw).
  assert (ra_epoch a = 2%Z ∧ ra_status a = RRunning) as [He Hr].
  { vm_compute in Ha. injection Ha as <-. split; reflexivity. }
  assert (ra_secret_hash a = HashSecret "s2") as Hs.
  { vm_compute in Ha. injection Ha as <-. vm_compute. reflexivity. }
  split.
  - destruct (credential_decision (clock 60 "" "v") w "ra_2" a "s2" 2 "s2" db2 Ha Hs)
      as [_ H]. rewrite (H Hc), He, Hr. reflexivity.
  - destruct (credential_decision (clock 60 "" "v") w "ra_2" a "s2" 2 "bad" db2 Ha Hs)
      as [_ H]. rewrite (H Hc), He.
    assert (Sum256 (bytes_of "s2") ≠ Sum256 (bytes_of "bad")) as Hne
      by (intros E; vm_compute in E; discriminate E).
    by rewrite decide_False by tauto; rewrite decide_True.
Defined.

(** ** Dependents *)

Lemma open_blocker_true c id ex :
  open_blocker c id ex = true ↔
  ∃ b w, edge c "blocks" id b ∧ (ex = "" ∨ b ≠ ex)
         ∧ work_items c !! b = Some w ∧ wi_terminal (wi_status w) = false.
Proof.
  unfold open_blocker, edge. rewrite existsb_exists. split.
  - intros ([[x b] k] & Hin & Hd). apply list_elem_of_In, dep_rows_elem in Hin.
    simpl in *. destruct (work_items c !! b) as [w|] eqn:Ew;
      [|by rewrite !andb_false_r in Hd].
    apply andb_true_iff in Hd as [Hd Ht]. apply andb_true_iff in Hd as [Hd He].
    apply andb_true_iff in Hd as [->%String.eqb_eq ->%String.eqb_eq].
    exists b, w. split; [done|]. split; [|by split; [|apply negb_true_iff in Ht]].
    apply orb_true_iff in He as [?%String.eqb_eq|He]; [auto|right].
    by apply negb_true_iff, String.eqb_neq in He.
  - intros (b & w & He & Hex & Hb & Ht). exists (id, b, "blocks").
    split; [by apply list_elem_of_In, dep_rows_elem|]. simpl.
    rewrite !String.eqb_refl, Hb, Ht. simpl. rewrite andb_true_r.
    destruct Hex as [->|Hne]; [done|]. apply orb_true_iff. right.
    by apply negb_true_iff, String.eqb_neq.
Qed.

Lemma blocked_dependents_elem wi c id :
  id ∈ blocked_dependents wi c ↔
  edge c "blocks" id wi ∧ ∃ w, work_items c !! id = Some w ∧ wi_status w = WBlocked.
Proof.
  unfold blocked_dependents, edge. rewrite merge_sort_Permutation, list_elem_of_filter.
  rewrite Is_true_true, existsb_exists, list_elem_of_fmap. split.
  - intros [([[x b] k] & Hin & Hd) ([i w] & -> & Hw)].
    apply list_elem_of_In, dep_rows_elem in Hin. simpl in *.
    apply andb_true_iff in Hd as [Hd ->%String.eqb_eq].
    apply andb_true_iff in Hd as [->%String.eqb_eq ->%String.eqb_eq]. split; [done|].
    apply elem_of_map_to_list, map_lookup_filter_Some in Hw. eauto.
  - intros [He (w & Hw & Hs)]. split.
    + exists (id, wi, "blocks"). split; [by apply list_elem_of_In, dep_rows_elem|].
      simpl. by rewrite !String.eqb_refl.
    + exists (id, w). split; [done|].
      by apply elem_of_map_to_list, map_lookup_filter_Some.
Qed.

(** Every blocker of [id] other than [wi] is terminal (or gone). *)
Definition other_blockers_closed (c : Core) (id wi : string) : Prop :=
  ∀ b w, edge c "blocks" id b → b ≠ wi → work_items c !! b = Some w →
         wi_terminal (wi_status w) = true.

Lemma ended_open_blocker now w o c id :
  o ≠ OPaused →
  open_blocker (ended now w o c) id (wi_id w) = false
  ↔ other_blockers_closed c id (wi_id w).
Proof.
  intros Ho. split.
  - intros Hno b v He Hb Hv. destruct (wi_terminal (wi_status v)) eqn:Et; [done|].
    exfalso. assert (open_blocker (ended now w o c) id (wi_id w) = true); [|congruence].
    apply open_blocker_true. exists b, v. simpl. rewrite lookup_insert_ne by done. auto.
  - intros Hc. destruct (open_blocker _ _ _) eqn:E; [|done]. exfalso.
    apply open_blocker_true in E as (b & v & He & Hex & Hb & Ht). simpl in Hb.
    destruct (decide (b = wi_id w)) as [->|Hne].
    + rewrite lookup_insert_eq in Hb. injection Hb as <-. by destruct o.
    + rewrite lookup_insert_ne in Hb by done. by rewrite (Hc b v) in Ht.
Qed.

(** C18. When an item is wrapped or fails and the rows of its dependents scan, a
    blocked item that it blocks is requeued exactly when all its other blockers
    are terminal; otherwise, and for every item that is not a blocked dependent,
    nothing changes. *)
Theorem ending_unblocks_dependents env cx wiID req roles role d id v :
  Wf (core d) → cx_scan cx = None →
  (FnCompleteAttempt env cx wiID req roles role d).1 = inr tt →
  co_status req ≠ "paused" → id ≠ wiID → work_items (core d) !! id = Some v →
  work_items (core (FnCompleteAttempt env cx wiID req roles role d).2) !! id = Some v
    ∧ ¬ (wi_status v = WBlocked ∧ edge (core d) "blocks" id wiID
         ∧ other_blockers_closed (core d) id wiID)
  ∨ work_items (core (FnCompleteAttempt env cx wiID req roles role d).2) !! id
      = Some (wi_with_status (cx_now cx) WQueued v)
    ∧ wi_status v = WBlocked ∧ edge (core d) "blocks" id wiID
    ∧ other_blockers_closed (core d) id wiID.
Proof.
  intros [Hk HI] Hscan Hok Hnp Hne Hv.
  destruct (complete_ok _ _ _ _ _ _ _ _ Hk Hok) as (o & Ho & w & a & Hw & _ & _ & _ & Hp).
  destruct Hp as [Hwi _ _ _ _]. unfold drained_dependents in Hwi. rewrite Hscan in Hwi.
  simpl in Hwi. apply complete_args_outcome in Ho.
  assert (o ≠ OPaused) as Hop.
  { intros ->. apply Hnp. unfold parse_outcome in Ho.
    destruct (String.eqb _ "wrapped"); [done|]. destruct (String.eqb _ "failed"); [done|].
    by destruct (String.eqb_spec (co_status req) "paused"). }
  rewrite decide_False in Hwi by done. pose proof (Hk _ _ Hw) as Hid.
  rewrite Hwi, requeue_rows_lookup. simpl. rewrite lookup_insert_ne by congruence.
  rewrite Hv. simpl. set (e := ended (cx_now cx) w o (core d)).
  assert (id ∈ blocked_dependents (wi_id w) e ↔
          edge (core d) "blocks" id wiID ∧ wi_status v = WBlocked) as Hdep.
  { rewrite blocked_dependents_elem. simpl. rewrite lookup_insert_ne by congruence.
    rewrite Hv, Hid. unfold edge. naive_solver. }
  pose proof (ended_open_blocker (cx_now cx) w o (core d) id Hop) as Hob.
  fold e in Hob. rewrite Hid in *. unfold requeueable.
  destruct (bool_decide_reflect (id ∈ blocked_dependents wiID e)) as [Hin|Hin]; simpl.
  - apply Hdep in Hin as [He Hs]. rewrite bool_decide_eq_true_2 by done. simpl.
    destruct (open_blocker e id wiID); simpl; [left|right].
    + split; [done|]. intros (_ & _ & Hc). by apply Hob in Hc.
    + split; [done|]. split; [done|]. split; [done|]. by apply Hob.
  - left. split; [done|]. intros (Hs & He & _). by apply Hin, Hdep.
Qed.

Lemma ending_unblocks_dependents_witness :
  ∃ v, work_items (core db2_dep) !! "wi_c" = Some v ∧ wi_status v = WBlocked
    ∧ work_items (core (wrap_a db2_dep).2) !! "wi_c" = Some (wi_with_status 30 WQueued v).
Proof.
  destruct (work_items (core db2_dep) !! "wi_c") as [v|] eqn:Hv; [|by vm_compute in Hv].
  exists v. split; [done|]. assert (wi_status v = WBlocked) as Hs by (by row_fact Hv).
  split; [done|]. unfold wrap_a, complete_a.
  destruct (ending_unblocks_dependents ideal_env (clock 30 "" "e1") "wi_a"
    (complete_req "ra_2" 2 "s2" "wrapped") no_roles "user" db2_dep "wi_c" v db2_dep_wf)
    as [[_ Hno]|[H _]].
  - reflexivity.
  - vm_compute. reflexivity.
  - discriminate.
  - discriminate.
  - exact Hv.
  - exfalso. apply Hno. split; [done|]. split; [vm_compute; eauto|].
    intros b w Hb Hne Hw. exfalso. apply Hne.
    assert (b ∈ reachable (core db2_dep) "blocks" "wi_c") as Hin
      by (apply reachable_spec; by apply relations.tc_once).
    assert (reachable (core db2_dep) "blocks" "wi_c" = {[ "wi_a" ]}) as Hr
      by (vm_compute; reflexivity).
    rewrite Hr in Hin. by apply elem_of_singleton in Hin.
  - exact H.
Defined.

(** ** Cancellation *)

Lemma cancel_ok env f cx key user role roles d0 d u :
  (CancelWorkItem env f cx key user role roles d0 d).1 = inr u →
  ∃ w0, select_wi key (core d0) = inr w0
    ∧ cancel_result (core d) cx (wi_id w0) (String.eqb (wi_reporter w0) user) role
        (match roles !! wi_project w0 with Some r => r | None => "" end)
        (core (CancelWorkItem env f cx key user role roles d0 d).2).
Proof.
  unfold CancelWorkItem, GetWorkItem, pool_query. destruct f; [done|].
  destruct (select_wi key (core d0)) as [|w0]; [done|].
  destruct (cancelGate _ _ _ _); [done|]. intros H. exists w0. split; [done|].
  eapply (runTx_success _ (λ _, cancel_result _ _ _ _ _ _));
    [apply _..|apply cancel_body_spec|done].
Qed.

(** A successful cancellation: the caller is the reporter, a maintainer of
    the project or an administrator; the item was queued, paused or blocked
    when the transaction looked; it is cancelled, every live attempt of it is
    cancelled, no attempt of it holds a lock, and all other rows keep their
    place. *)
Theorem cancel_takes_effect env f cx key user role roles d0 d :
  Wf (core d) → (CancelWorkItem env f cx key user role roles d0 d).1 = inr tt →
  let c' := core (CancelWorkItem env f cx key user role roles d0 d).2 in
  ∃ w0 w, select_wi key (core d0) = inr w0
    ∧ (wi_reporter w0 = user ∨ roles !! wi_project w0 = Some "maintainer"
       ∨ role = "admin")
    ∧ work_items (core d) !! wi_id w0 = Some w
    ∧ wi_status w ∈ [WQueued; WPaused; WBlocked]
    ∧ work_items c' = <[wi_id w0 := wi_with_status (cx_now cx) WCancelled w]>
                        (work_items (core d))
    ∧ (∀ a ra, run_attempts c' !! a = Some ra → ra_wi ra = wi_id w0 →
         ra_live (ra_status ra) = false ∧ ∀ k l, resource_locks c' !! k = Some l →
                                                  lk_owner l ≠ a)
    ∧ (∀ a ra, run_attempts (core d) !! a = Some ra → ra_wi ra ≠ wi_id w0 →
         run_attempts c' !! a = Some ra
         ∧ ∀ k l, lk_owner l = a →
             (resource_locks c' !! k = Some l ↔ resource_locks (core d) !! k = Some l)).
Proof.
  intros [Hk HI] Hok. cbv zeta.
  destruct (cancel_ok _ _ _ _ _ _ _ _ _ _ Hok) as (w0 & Hsel & [(w & Hw & Hg & Hwi) Hatt Hl _]).
  exists w0, w. unfold cancelGate in Hg.
  assert (wi_status w ∈ [WQueued; WPaused; WBlocked] ∧
    (String.eqb role "admin" || String.eqb (match roles !! wi_project w0 with
       Some r => r | None => "" end) "maintainer" || String.eqb (wi_reporter w0) user) = true)
    as [Hst Hperm].
  { clear -Hg. destruct (wi_status w); try discriminate Hg;
      (split; [rewrite !elem_of_cons; auto|by destruct (_ || _)]). }
  split; [done|]. split.
  { apply orb_true_iff in Hperm as [Hperm|?%String.eqb_eq]; [|auto].
    apply orb_true_iff in Hperm as [?%String.eqb_eq|Hm%String.eqb_eq]; [auto|].
    destruct (roles !! wi_project w0); [subst; auto|done]. }
  do 3 (split; [done|]). rewrite Hatt. split.
  - intros a ra (rb & <- & Hb)%lookup_fmap_Some Hra.
    assert (ra_wi rb = wi_id w0) as Hrb by (by destruct (_ && _)).
    rewrite Hrb, String.eqb_refl in *. simpl in *. split.
    { destruct (ra_live (ra_status rb)) eqn:El; [done|]. by rewrite El. }
    intros k l [_ Ho]%Hl E. subst a. by apply (Ho rb).
  - intros a ra Hra Hne. rewrite lookup_fmap, Hra. simpl.
    rewrite (proj2 (String.eqb_neq _ _) Hne). simpl. split; [done|].
    intros k l <-. rewrite Hl. split; [tauto|]. intros H. split; [done|].
    intros x. rewrite Hra. by intros [= <-].
Qed.

Lemma cancel_takes_effect_witness :
  ∃ w0 w, select_wi "wi_b" (core db0) = inr w0
    ∧ work_items (core (cancel_b db0).2) = <[wi_id w0 := wi_with_status 15 WCancelled w]>
                                              (work_items (core db0)).
Proof.
  destruct (cancel_takes_effect ideal_env None (clock 15 "" "cb") "wi_b" "u1" "user"
    no_roles db0 db0 db0_wf) as (w0 & w & Hs & _ & _ & _ & Hw & _).
  - vm_compute. reflexivity.
  - exists w0, w. split; [exact Hs|exact Hw].
Defined.

(** ** Takeover *)

Lemma takeover_ok env f1 f2 cx wiID user display role roles req gen d0 d resp :
  Wf (core d) → earlier (core d0) (core d) →
  (FnForceTakeover env f1 f2 cx wiID user display role roles req gen d0 d).1 = inr resp →
  ∃ w v prior pa secret, takeover_gate f1 f2 wiID user role roles req d0 = inr (w, prior, pa)
    ∧ work_items (core d) !! wi_id w = Some v
    ∧ claim_post (core d) cx v (Some prior) (takeover_row cx user display secret req w prior)
        (takeover_locks w).1 (takeover_locks w).2
        (core (FnForceTakeover env f1 f2 cx wiID user display role roles req gen d0 d).2)
    ∧ ft_attempt resp = cx_attempt cx ∧ ft_epoch resp = wrap64 (wi_epoch w + 1).
Proof.
  intros [Hk _] [[Hk0 _] [_ Hgw]]. unfold FnForceTakeover.
  destruct (takeover_gate _ _ _ _ _ _ _ _) as [|[[w prior] pa]] eqn:Eg; [done|].
  destruct (takeover_gate_ok _ _ _ _ _ _ _ _ _ _ _ Hk0 Eg) as (Hw & _).
  destruct (Hgw (wi_id w) (abs_wi w)) as (x & Hx & _); [apply abs_lookup_wi; eauto|].
  apply abs_lookup_wi in Hx as (v & Hv & _). intros H.
  set (secret := if String.eqb (fo_secret req) "" then gen else fo_secret req) in *.
  exists w, v, prior, pa, secret. split; [done|]. split; [done|].
  eapply runTx_success in H;
    [exact H|apply _|apply _|apply takeover_body_spec; [done|by apply Hk]].
Qed.

(** A successful takeover, when no other request commits between its reads
    and its COMMIT: the item was running and the caller was its attempt's actor,
    a maintainer of the project or an administrator; the new attempt runs with
    the next epoch, the prior one is superseded and holds no lock, and no lock of
    an attempt working on another item has changed hands.  (A claim that commits
    inside the transaction can lose a lock to it:
    [Findings.takeover_window_displaces_live_lock].) *)
Theorem takeover_takes_effect env f1 f2 cx wiID user display role roles req gen d resp :
  Wf (core d) → epoch_room (core d) →
  (FnForceTakeover env f1 f2 cx wiID user display role roles req gen d d).1 = inr resp →
  let c := core d in
  let c' := core (FnForceTakeover env f1 f2 cx wiID user display role roles req gen d d).2 in
  ∃ w prior a, work_items c !! wi_id w = Some w ∧ wi_status w = WRunning
    ∧ wi_current w = Some prior ∧ run_attempts c !! prior = Some a
    ∧ (ra_actor a = user ∨ roles !! wi_project w = Some "maintainer" ∨ role = "admin")
    ∧ (∃ w', work_items c' !! wi_id w = Some w' ∧ wi_status w' = WRunning
         ∧ wi_current w' = Some (cx_attempt cx) ∧ wi_epoch w' = (wi_epoch w + 1)%Z)
    ∧ run_attempts c' !! prior = Some (ra_with_status (cx_now cx) RSuperseded a)
    ∧ (∀ k l, resource_locks c' !! k = Some l → lk_owner l ≠ prior)
    ∧ ∀ k l ra, resource_locks c !! k = Some l → run_attempts c !! lk_owner l = Some ra →
        ra_live (ra_status ra) = true → ra_wi ra ≠ wi_id w →
        resource_locks c' !! k = Some l.
Proof.
  intros HW Hroom Hok. pose proof HW as [Hk HI]. cbv zeta.
  destruct (takeover_ok _ _ _ _ _ _ _ _ _ _ _ _ _ _ HW (conj HW (reflexivity _)) Hok)
    as (w & v & prior & pa & secret & Hg & Hv & [Hwi Hatt Hclash Hlocks _ _] & _).
  destruct (takeover_gate_ok _ _ _ _ _ _ _ _ _ _ _ Hk Hg) as (Hw & Hst & Hcur & a & Ha & Hp).
  rewrite Hw in Hv. injection Hv as <-.
  destruct (no_clash_abs _ _ _ _ _ Hclash) as (_ & Hfresh & _).
  assert (prior ≠ cx_attempt cx) as Hne by congruence.
  assert (∀ p x, Some prior = Some p → run_attempts (core d) !! p = Some x →
                 ra_wi x = wi_id w) as Hown.
  { intros p x [= <-] Hx. destruct (inv_current _ HI (wi_id w) (abs_wi w) prior)
      as (y & Hy & Hyi & _); [apply abs_lookup_wi; eauto|done|].
    apply abs_lookup_att in Hy as (z & Hz & ->). by simplify_eq. }
  destruct Hlocks as (c2 & Hacq & HL).
  pose proof (acquired_locks_change _ _ _ _ _ _ _ Hfresh Hown Hacq) as [Hfrom Hfor].
  exists w, prior, a. do 5 (split; [done|]). split; [|split; [|split]].
  - destruct Hwi as (w' & Hw' & _ & Hc & He & Hs & _). exists w'.
    rewrite Hw', lookup_insert_eq. do 3 (split; [done|]). rewrite He. simpl.
    apply wrap64_id. specialize (Hroom _ _ Hw).
    assert (0 <= wi_epoch w)%Z.
    { apply (inv_epoch_nonneg _ HI (wi_id w) (abs_wi w)), abs_lookup_wi. eauto. }
    unfold in_int64, max_int64 in *. simpl in *. lia.
  - rewrite Hatt, lookup_insert_ne by done. simpl. by rewrite lookup_alter_eq, Ha.
  - intros k l. rewrite HL. intros [->|[_ Ho]]%Hfrom; simpl; congruence.
  - intros k l ra Hl Hra Hlive Hwi'. rewrite HL. apply Hfor; [done|].
    exists (abs_att ra). rewrite lookup_fmap, Hra. done.
Qed.

Lemma takeover_takes_effect_witness :
  ∃ w prior a, work_items (core db1) !! wi_id w = Some w ∧ wi_current w = Some prior
    ∧ run_attempts (core db1) !! prior = Some a
    ∧ run_attempts (core (force_a db1 db1).2) !! prior
      = Some (ra_with_status 20 RSuperseded a).
Proof.
  destruct (force_a db1 db1).1 as [e|resp] eqn:Hr; [by vm_compute in Hr|].
  destruct (takeover_takes_effect ideal_env None None (clock 20 "ra_2" "f1") "fix-a" "u2"
    "Bob" "user" maintains (mkForce "stuck" "" "s2") "gen" db1 resp db1_wf)
    as (w & prior & a & Hw & _ & Hc & Ha & _ & _ & Hs & _).
  - apply room_b_ok. vm_compute. reflexivity.
  - exact Hr.
  - exists w, prior, a. split; [exact Hw|]. split; [exact Hc|]. split; [exact Ha|exact Hs].
Defined.
