(* ===== verification/GraphContracts.v ===== *)
(** * The contracts of the dependency graph and its sweeps *)

From S2P Require Import Prelude GoStrings Errors Json Crypto Declared Locks Store.
From S2P Require Import TxLogic LifecycleSpec ResourceEvents Attempts Claim Complete.
From S2P Require Import Takeover Dependencies StepUpdate Lifecycle Handover DepGraph.
From S2P Require Import StepSpec System Scenario Contracts Endings.
From stdpp Require Import relations.

Open Scope list_scope.

(** [detectCycle] decides reachability: it accepts the edge exactly when no
    chain of edges of that kind leads from the new blocker back to the item it
    would block, however long the chain. *)
Theorem detectCycle_decides blocked blocking kind c :
  (detectCycle blocked blocking kind c = inr tt ↔ ¬ tc (edge c kind) blocking blocked)
  ∧ (tc (edge c kind) blocking blocked →
     detectCycle blocked blocking kind c
     = inl (NewErrDetails ErrConflictDependencyCycle (DCyclePath [blocked; blocking]))).
Proof.
  unfold detectCycle.
  destruct (bool_decide_reflect (blocked ∈ reachable c kind blocking)) as [H|H];
    rewrite reachable_spec in H; split; try done; tauto.
Qed.

Lemma create_dep_ok env f1 f2 f3 cx req user roles role d0 d u :
  (CreateDependency env f1 f2 f3 cx req user roles role d0 d).1 = inr u →
  ∃ kind project, create_dep_args req = inr kind
    ∧ create_dep_gate f1 f2 f3 req kind roles role d0 = inr project
    ∧ create_dep_result (core d) cx req kind
        (core (CreateDependency env f1 f2 f3 cx req user roles role d0 d).2).
Proof.
  unfold CreateDependency. destruct (create_dep_args req) as [|kind] eqn:Ea; [done|]. simpl.
  destruct (create_dep_gate _ _ _ _ _ _ _ _) as [|project] eqn:Eg; [done|]. simpl.
  intros H. exists kind, project. split; [done|]. split; [done|].
  eapply (runTx_success _ (λ _, create_dep_result _ _ _ _));
    [apply _..|apply create_dep_spec|done].
Qed.

Lemma tc_mono {A} (R S : relation A) x y :
  (∀ u v, R u v → S u v) → tc R x y → tc S x y.
Proof.
  intros H. induction 1; [apply tc_once; auto|eapply tc_l; eauto].
Qed.

Lemma create_dep_args_ok req kind :
  create_dep_args req = inr kind →
  dr_blocked req ≠ dr_blocking req ∧ kind ∈ ["blocks"; "supersedes"; "related"]
  ∧ (kind = dr_kind req ∨ dr_kind req = "" ∧ kind = "blocks").
Proof.
  unfold create_dep_args. destruct (_ || _); [done|].
  destruct (String.eqb_spec (dr_blocked req) (dr_blocking req)); [done|].
  unfold validateDependencyKind, dependencyKinds.
  destruct (bool_decide_reflect
    ((if String.eqb (dr_kind req) "" then "blocks" else dr_kind req)
       ∈ ["blocks"; "supersedes"; "related"])) as [Hin|]; [|done].
  simpl. intros [= <-]. split; [done|]. split; [done|].
  destruct (String.eqb_spec (dr_kind req) ""); auto.
Qed.

Lemma create_dep_gate_acyclic f1 f2 f3 req kind roles role d0 p :
  create_dep_gate f1 f2 f3 req kind roles role d0 = inr p →
  kind = "blocks" ∨ kind = "supersedes" →
  dr_blocked req ∉ reachable (core d0) kind (dr_blocking req).
Proof.
  unfold create_dep_gate. destruct (pool_query f1 _ d0); [done|].
  destruct (pool_query f2 _ d0); [done|]. destruct (_ && _); [done|].
  intros H Hk.
  assert (String.eqb kind "blocks" || String.eqb kind "supersedes" = true) as E
    by (by destruct Hk as [->| ->]).
  rewrite E in H. destruct f3; [done|]. unfold detectCycle in H.
  by destruct (bool_decide_reflect (dr_blocked req ∈ reachable (core d0) kind (dr_blocking req))).
Qed.

(** A dependency that is created keeps its graph acyclic: if nobody wrote
    between the cycle check and the transaction, an acyclic [blocks] or
    [supersedes] graph stays acyclic; the edge exists afterwards, both items
    exist, and a queued item that got a blocker is blocked. *)
Theorem create_dependency_acyclic env f1 f2 f3 cx req user roles role d :
  (CreateDependency env f1 f2 f3 cx req user roles role d d).1 = inr tt →
  let c' := core (CreateDependency env f1 f2 f3 cx req user roles role d d).2 in
  ∃ kind, kind ∈ ["blocks"; "supersedes"; "related"]
    ∧ edge c' kind (dr_blocked req) (dr_blocking req)
    ∧ is_Some (work_items (core d) !! dr_blocking req)
    ∧ (∀ k, k = "blocks" ∨ k = "supersedes" → acyclic (core d) k → acyclic c' k)
    ∧ ∃ w, work_items (core d) !! dr_blocked req = Some w
        ∧ (kind = "blocks" → wi_status w = WQueued →
           work_items c' !! dr_blocked req = Some (wi_with_status (cx_now cx) WBlocked w)).
Proof.
  intros Hok. cbv zeta.
  destruct (create_dep_ok _ _ _ _ _ _ _ _ _ _ _ _ Hok)
    as (kind & p & Ha & Hg & [[note Hd] (w & Hw & Hwi) Hb _ _]).
  destruct (create_dep_args_ok _ _ Ha) as (Hne & Hkind & _).
  exists kind. split; [done|]. split.
  { unfold edge. rewrite Hd, lookup_insert_eq. eauto. }
  split; [done|]. split.
  - intros k Hk Hac. destruct (decide (k = kind)) as [->|Hkk].
    + apply (add_edge_acyclic (core d) _ _ (dr_blocked req) (dr_blocking req) Hac Hne).
      * by eapply create_dep_gate_acyclic.
      * intros x y. unfold edge. rewrite Hd. intros [n Hn].
        apply lookup_insert_Some in Hn as [[[= <- <-] _]|[_ Hn]]; [auto|left; eauto].
    + intros x Hx. apply (Hac x). eapply tc_mono; [|exact Hx].
      intros u v [n Hn]. rewrite Hd, lookup_insert_ne in Hn by congruence. by exists n.
  - exists w. split; [done|]. intros -> Hq. rewrite Hwi.
    rewrite !bool_decide_eq_true_2 by done. simpl. by rewrite lookup_insert_eq.
Qed.

Lemma create_dependency_acyclic_witness :
  edge (core (add_dep db2).2) "blocks" "wi_c" "wi_a"
  ∧ acyclic (core (add_dep db2).2) "blocks".
Proof.
  destruct (create_dependency_acyclic ideal_env None None None (clock 27 "" "d") dep_req
    "u2" maintains "user" db2) as (kind & Hk & He & _ & Hac & _).
  - vm_compute. reflexivity.
  - split.
    + exists None. vm_compute. reflexivity.
    + apply Hac; [auto|]. intros x Hx. apply relations.tc_nsteps in Hx as (n & Hn & Hs).
      destruct n as [|n]; [lia|]. apply relations.nsteps_inv_r in Hs as (y & _ & [z Hz]).
      vm_compute in Hz. discriminate Hz.
Defined.

(** Removing a [blocks] edge requeues the blocked item exactly when none of
    its remaining blockers is open; no other item changes, and the edge is
    gone. *)
Theorem delete_dependency_requeues env cx blocked blocking d :
  (DeleteDependency env cx blocked blocking "blocks" d).1 = inr tt →
  let c' := core (DeleteDependency env cx blocked blocking "blocks" d).2 in
  edge (core d) "blocks" blocked blocking
  ∧ (∀ k x y, edge c' k x y ↔ edge (core d) k x y ∧ (k, x, y) ≠ ("blocks", blocked, blocking))
  ∧ (∀ id w, work_items (core d) !! id = Some w → work_items c' !! id = Some
       (if decide (id = blocked ∧ wi_status w = WBlocked
                   ∧ open_blocker c' blocked "" = false)
        then wi_with_status (cx_now cx) WQueued w else w)).
Proof.
  intros Hok. cbv zeta.
  assert (delete_dep_result (core d) (cx_now cx) blocked blocking "blocks"
    (core (DeleteDependency env cx blocked blocking "blocks" d).2)) as [He Hc].
  { eapply (runTx_success _ (λ _, delete_dep_result _ _ _ _ _));
      [apply _..|apply delete_dep_spec|done]. }
  set (c' := core (DeleteDependency _ _ _ _ _ _).2) in *. clearbody c'.
  rewrite bool_decide_eq_true_2 in Hc by done.
  set (c1 := set_deps _ (core d)) in *.
  destruct (requeue_next_requeued (cx_now cx) "" blocked c1) as [Hwi _ _ Hd _].
  rewrite <- Hc in Hwi, Hd. split; [exact He|]. split.
  - intros k x y. unfold edge. rewrite Hd. simpl. unfold is_Some.
    setoid_rewrite lookup_delete_Some. split.
    + intros (n & Hne & Hn). split; [eauto|congruence].
    + intros [[n Hn] Hne]. exists n. split; [congruence|done].
  - intros id w Hw. rewrite Hwi, requeue_rows_lookup. simpl. rewrite Hw. simpl. f_equal.
    assert (open_blocker c' blocked "" = open_blocker c1 blocked "") as ->.
    { by apply (requeue_open_blocker (cx_now cx) "" c1 [blocked]). }
    unfold requeueable.
    destruct (decide _) as [(-> & Hs & Ho)|Hno].
    + rewrite bool_decide_eq_true_2 by set_solver.
      rewrite bool_decide_eq_true_2 by done. by rewrite Ho.
    + destruct (bool_decide_reflect (id ∈ [blocked])) as [->%list_elem_of_singleton|];
        [|done].
      destruct (bool_decide_reflect (wi_status w = WBlocked)); [|done].
      destruct (open_blocker c1 blocked "") eqn:Eo; [done|]. exfalso. by apply Hno.
Qed.

Lemma delete_dependency_requeues_witness :
  ∃ w, work_items (core db2_dep) !! "wi_c" = Some w
    ∧ work_items (core (del_dep db2_dep).2) !! "wi_c" = Some (wi_with_status 28 WQueued w).
Proof.
  destruct (work_items (core db2_dep) !! "wi_c") as [w|] eqn:Hw; [|by vm_compute in Hw].
  exists w. split; [done|].
  destruct (delete_dependency_requeues ideal_env (clock 28 "" "dd") "wi_c" "wi_a" db2_dep)
    as (_ & _ & H); [vm_compute; reflexivity|].
  unfold del_dep. rewrite (H "wi_c" w Hw), decide_True; [reflexivity|].
  split; [done|]. split; [by row_fact Hw|vm_compute; reflexivity].
Defined.

(** ** The sweeps *)

Lemma has_blocks_edge_true c id :
  has_blocks_edge c id = true ↔ ∃ b, edge c "blocks" id b.
Proof.
  unfold has_blocks_edge, edge. rewrite existsb_exists. split.
  - intros ([[x b] k] & Hin & Hd). apply list_elem_of_In, dep_rows_elem in Hin. simpl in Hd.
    apply andb_true_iff in Hd as [->%String.eqb_eq ->%String.eqb_eq]. eauto.
  - intros [b Hb]. exists (id, b, "blocks").
    split; [by apply list_elem_of_In, dep_rows_elem|]. simpl. by rewrite !String.eqb_refl.
Qed.

Lemma set_work_items_same f c : f (work_items c) = work_items c → set_work_items f c = c.
Proof. destruct c. unfold set_work_items. simpl. by intros ->. Qed.

(** The unblock sweep is complete and exact: when it reports success, an
    item that is still blocked and has a blocker has an open one; every item it
    changed was blocked by closed blockers only, and is queued; and repeating
    the sweep changes nothing. *)
Theorem unblock_sweep_complete env cx d n :
  (RunUnblockDependentWI (inr true) env cx d).1 = GcDone n →
  let c' := core (RunUnblockDependentWI (inr true) env cx d).2 in
  (∀ id w b, work_items c' !! id = Some w → wi_status w = WBlocked →
     edge c' "blocks" id b → open_blocker c' id "" = true)
  ∧ (∀ id w, work_items (core d) !! id = Some w →
       work_items c' !! id = Some w
       ∨ wi_status w = WBlocked ∧ open_blocker (core d) id "" = false
         ∧ work_items c' !! id = Some (wi_with_status (cx_now cx) WQueued w))
  ∧ swept (cx_now cx) c' = c'.
Proof.
  unfold RunUnblockDependentWI, gc_run.
  destruct (runTx env (unblock_sweep_body cx) d) as [[|m] d'] eqn:E; [done|].
  simpl. intros _. cbv zeta.
  assert (core d' = swept (cx_now cx) (core d)) as ->.
  { assert ((runTx env (unblock_sweep_body cx) d).1 = inr m) as Hr by (by rewrite E).
    eapply (runTx_success _ (λ _ c', c' = swept (cx_now cx) (core d))) in Hr;
      [by rewrite E in Hr|apply _..|apply unblock_sweep_spec]. }
  set (c := core d). clearbody c. set (now := cx_now cx).
  assert (∀ id ex, open_blocker (swept now c) id ex = open_blocker c id ex) as Hob.
  { intros id ex. unfold swept, set_work_items. rewrite gc_unblock_rows.
    by eapply (requeue_open_blocker now "" c). }
  assert (∀ id, work_items (swept now c) !! id =
    (λ w, if sweep_unblocks c id w then wi_with_status now WQueued w else w)
      <$> work_items c !! id) as Hlook.
  { intros id. unfold swept. simpl. rewrite map_lookup_imap.
    by destruct (work_items c !! id). }
  assert (∀ id w, work_items (swept now c) !! id = Some w → wi_status w = WBlocked →
    has_blocks_edge c id = true → open_blocker c id "" = true) as Hopen.
  { intros id w. rewrite Hlook. destruct (work_items c !! id) as [v|]; [|done]. simpl.
    unfold sweep_unblocks. destruct (bool_decide_reflect (wi_status v = WBlocked)) as [Hs|Hs];
      simpl; [|by intros [= <-]].
    intros Hw Hst Hb. rewrite Hb in Hw. destruct (open_blocker c id ""); [done|].
    injection Hw as <-. discriminate Hst. }
  split; [|split].
  - intros id w b Hw Hs He. rewrite Hob. eapply Hopen; [done..|].
    apply has_blocks_edge_true. by exists b.
  - intros id w Hw. rewrite Hlook, Hw. simpl.
    destruct (sweep_unblocks c id w) eqn:Es; [right|by left].
    unfold sweep_unblocks in Es. reflect_bools. auto.
  - unfold swept at 1. apply set_work_items_same. apply map_eq. intros id. rewrite map_lookup_imap.
    destruct (work_items (swept now c) !! id) as [w|] eqn:Ew; [|done]. simpl.
    f_equal. unfold sweep_unblocks.
    destruct (bool_decide_reflect (wi_status w = WBlocked)) as [Hs|]; [|done]. simpl.
    destruct (has_blocks_edge (swept now c) id) eqn:Eb; [|done]. simpl.
    by rewrite Hob, (Hopen id w).
Qed.

Lemma unblock_sweep_complete_witness :
  ∃ w, work_items (core stuck_db) !! "wi_c" = Some w ∧ wi_status w = WBlocked
    ∧ work_items (core (sweep stuck_db).2) !! "wi_c" = Some (wi_with_status 90 WQueued w).
Proof.
  destruct (work_items (core stuck_db) !! "wi_c") as [w|] eqn:Hw; [|by vm_compute in Hw].
  exists w. split; [done|]. split; [by row_fact Hw|]. unfold sweep.
  destruct (unblock_sweep_complete ideal_env (clock 90 "" "g") stuck_db 1)
    as (Hno & Hch & _); [vm_compute; reflexivity|].
  destruct (Hch "wi_c" w Hw) as [Hsame|(_ & _ & H)]; [|exact H]. exfalso.
  assert (open_blocker (core (RunUnblockDependentWI (inr true) ideal_env
            (clock 90 "" "g") stuck_db).2) "wi_c" "" = true) as Hx.
  { eapply (Hno "wi_c" w "wi_a" Hsame); [by row_fact Hw|].
    exists None. vm_compute. reflexivity. }
  vm_compute in Hx. discriminate Hx.
Defined.

(** ** Listing *)

(** The caller may read items of [project]. *)
Definition may_read (roles : gmap string string) (role project : string) : Prop :=
  role = "admin" ∨ ∃ r, roles !! project = Some r ∧ r ∈ ["viewer"; "writer"; "maintainer"].

Lemma accessible_iff roles role project :
  String.eqb role "admin"
    || Z.leb (RoleLevel "viewer") (RoleLevel (role_of roles project)) = true
  ↔ may_read roles role project.
Proof.
  unfold may_read, role_of. rewrite orb_true_iff, String.eqb_eq, Z.leb_le.
  apply or_iff_compat_l. unfold RoleLevel at 1. simpl.
  destruct (roles !! project) as [r|]; [|split; [unfold RoleLevel; simpl; lia|naive_solver]].
  unfold RoleLevel. rewrite !elem_of_cons, elem_of_nil || setoid_rewrite elem_of_cons.
  destruct (String.eqb_spec r "viewer"), (String.eqb_spec r "writer"),
    (String.eqb_spec r "maintainer"); split; try lia; try (intros _; exists r; set_solver);
    intros (? & [= <-] & Hin); set_solver.
Qed.

(** Listing dependencies reports every edge of the item whose other end
    exists, in both directions, and shows the other end's id exactly to callers
    who may read its project; everybody else sees the placeholder. *)
Theorem list_dependencies_hides wi roles role d resp :
  ListDependencies None None wi roles role d = inr resp →
  (∀ e, e ∈ dp_blocked_by resp ↔ ∃ b k n w,
     wi_dependencies (core d) !! (wi, b, k) = Some n ∧ work_items (core d) !! b = Some w
     ∧ e = dep_entry roles role w b k n)
  ∧ (∀ e, e ∈ dp_blocking resp ↔ ∃ b k n w,
     wi_dependencies (core d) !! (b, wi, k) = Some n ∧ work_items (core d) !! b = Some w
     ∧ e = dep_entry roles role w b k n)
  ∧ (∀ w b k n, let e := dep_entry roles role w b k n in
     (may_read roles role (wi_project w) → de_id e = b ∧ de_accessible e = true)
     ∧ (¬ may_read roles role (wi_project w) →
          de_id e = "hidden" ∧ de_accessible e = false)).
Proof.
  unfold ListDependencies, pool_query. intros [= <-]. simpl. split; [|split].
  - intros e. unfold list_side. rewrite list_elem_of_omap. split.
    + intros ([[[x b] k] n] & Hin%elem_of_map_to_list & He). simpl in He.
      destruct (String.eqb_spec x wi) as [->|]; [|done].
      destruct (work_items (core d) !! b) as [w|] eqn:Ew; [|done]. injection He as <-. eauto 10.
    + intros (b & k & n & w & Hd & Hw & ->). exists (wi, b, k, n).
      split; [by apply elem_of_map_to_list|]. simpl. by rewrite String.eqb_refl, Hw.
  - intros e. unfold list_side. rewrite list_elem_of_omap. split.
    + intros ([[[b x] k] n] & Hin%elem_of_map_to_list & He). simpl in He.
      destruct (String.eqb_spec x wi) as [->|]; [|done].
      destruct (work_items (core d) !! b) as [w|] eqn:Ew; [|done]. injection He as <-. eauto 10.
    + intros (b & k & n & w & Hd & Hw & ->). exists (b, wi, k, n).
      split; [by apply elem_of_map_to_list|]. simpl. by rewrite String.eqb_refl, Hw.
  - intros w b k n. cbv zeta. unfold dep_entry.
    pose proof (accessible_iff roles role (wi_project w)) as Hacc.
    destruct (String.eqb role "admin" || _); simpl; split; intros H; try done;
      exfalso; [apply H|]; apply Hacc in H || apply Hacc; done.
Qed.

Lemma list_dependencies_hides_witness :
  ∃ resp e, ListDependencies None None "wi_c" no_roles "user" db2_dep = inr resp
    ∧ e ∈ dp_blocked_by resp ∧ de_id e = "hidden".
Proof.
  destruct (ListDependencies None None "wi_c" no_roles "user" db2_dep) as [|resp] eqn:E;
    [by vm_compute in E|].
  destruct (work_items (core db2_dep) !! "wi_a") as [w|] eqn:Hw; [|by vm_compute in Hw].
  destruct (list_dependencies_hides "wi_c" no_roles "user" db2_dep resp E) as (Hb & _ & Hh).
  exists resp, (dep_entry no_roles "user" w "wi_a" "blocks" None).
  split; [done|]. split.
  - apply Hb. exists "wi_a", "blocks", None, w. split; [vm_compute; reflexivity|done].
  - apply (Hh w "wi_a" "blocks" None). intros [?|(r & Hr & _)]; [done|].
    unfold no_roles in Hr. by rewrite lookup_empty in Hr.
Defined.
