(* ===== verification/StepContracts.v ===== *)
(** * The contracts of the step transitions *)

From S2P Require Import Prelude GoStrings Errors Json Crypto Declared Locks Store.
From S2P Require Import TxLogic LifecycleSpec ResourceEvents Attempts Claim Complete.
From S2P Require Import Takeover Dependencies StepUpdate Lifecycle Handover DepGraph.
From S2P Require Import StepSpec System Scenario Contracts.

Open Scope list_scope.

(** The transaction of a transition that does not escalate. *)
Definition step_tx (env : Env) (cx : Ctx) (wi user : string) (req : UpdateStepRequest)
  (d : Db) : result AihubError unit * Db := runTx env (update_step_body cx wi user req) d.

Lemma step_ok env cx wi user req d u :
  us_escalated req = false → (step_tx env cx wi user req d).1 = inr u →
  step_result cx wi req (core d) (core (step_tx env cx wi user req d).2).
Proof.
  intros He H. pose proof (update_step_robust cx wi user req He).
  exact (runTx_success _ _ env d u (update_step_spec cx wi user req (core d) He) H).
Qed.

(** The version of a step state, [0] without one. *)
Definition version_of (o : option StepState) : Z :=
  match o with Some s => ss_version s | None => 0 end.

Lemma started_state_version now step sa o s :
  started_state now step sa o = Some s →
  ss_version s = (version_of o + 1)%Z ∧ ss_status s = StepInProgress ∧ ss_step s = step
  ∧ ss_attempt s = sa ∧ (∀ t, o = Some t → ss_status t = StepIdle).
Proof.
  unfold started_state, version_of. destruct o as [t|]; [|by intros [= <-]].
  destruct (decide (ss_status t = StepIdle)); [|done]. intros [= <-]. simpl.
  repeat split; try done. intros ? [= <-]. done.
Qed.

(** A successful transition: a start needs an idle step state and makes the
    named step the one in progress; a completion or failure ends it, and, with
    a next step, starts that one; each start and each end advances the version
    by one; the step state of every other item, the work items, attempts,
    locks and dependencies are untouched. *)
Theorem step_transition env cx wi user req d :
  us_escalated req = false → (step_tx env cx wi user req d).1 = inr tt →
  let c := core d in
  let c' := core (step_tx env cx wi user req d).2 in
  let old := wi_step_state c !! wi in
  same_tables c c'
  ∧ (∀ i, i ≠ wi → wi_step_state c' !! i = wi_step_state c !! i)
  ∧ (us_status req = "in_progress" →
       (∀ s, old = Some s → ss_status s = StepIdle)
       ∧ ∃ s', wi_step_state c' !! wi = Some s' ∧ ss_status s' = StepInProgress
           ∧ ss_step s' = us_step req ∧ ss_attempt s' = us_step_attempt req
           ∧ ss_version s' = (version_of old + 1)%Z)
  ∧ (ends_step (us_status req) = true → ∀ s, old = Some s →
       ∃ s', wi_step_state c' !! wi = Some s'
         ∧ if String.eqb (us_status req) "completed"
              && negb (String.eqb (derefStr (us_next req)) "")
           then ss_status s' = StepInProgress ∧ ss_step s' = us_next req
                ∧ ss_attempt s' = us_next_attempt req ∧ ss_version s' = (ss_version s + 2)%Z
           else ss_status s' = StepIdle ∧ ss_attempt s' = None
                ∧ ss_version s' = (ss_version s + 1)%Z).
Proof.
  intros He Hok. destruct (step_ok _ _ _ _ _ _ _ He Hok) as (_ & [Hs _] & Hp).
  set (c := core d) in *. set (c' := core (step_tx _ _ _ _ _ _).2) in *. clearbody c'.
  cbv zeta. split; [done|].
  destruct Hp as [s' Hst Hstart Hrow _|Hst _ _ Hrow|Hst _ Hrow]; rewrite Hst; simpl.
  - apply started_state_version in Hstart as (Hv & Hi & Hstep & Hsa & Hidle).
    split; [intros i Hi'; by rewrite Hrow, lookup_insert_ne|]. split; [|done].
    intros _. split; [done|]. exists s'. by rewrite Hrow, lookup_insert_eq.
  - simpl in Hrow. destruct (String.eqb (derefStr (us_next req)) "") eqn:En; simpl.
    + split; [intros i Hi; by rewrite Hrow, lookup_alter_ne|]. split; [done|].
      intros _ s Hold. eexists. rewrite Hrow, lookup_alter_eq, Hold. simpl. done.
    + destruct Hrow as (s' & Hstart & Hrow).
      apply started_state_version in Hstart as (Hv & Hi & Hstep & Hsa & _).
      split; [intros i Hi'; by rewrite Hrow, lookup_insert_ne, lookup_alter_ne|].
      split; [done|]. intros _ s Hold. exists s'. rewrite Hrow, lookup_insert_eq.
      rewrite lookup_alter_eq, Hold in Hv. simpl in Hv.
      repeat split; try done. rewrite Hv. lia.
  - split; [intros i Hi; by rewrite Hrow, lookup_alter_ne|]. split; [done|].
    intros _ s Hold. eexists. rewrite Hrow, lookup_alter_eq, Hold. simpl. done.
Qed.

(** Compare-and-set: while a step is in progress no second step can be
    started, neither directly nor as the next step of one that is not being
    completed; and ending a step under another step's name never succeeds. *)
Theorem step_cas env cx wi user req d s :
  us_escalated req = false → wi_step_state (core d) !! wi = Some s →
  ss_status s = StepInProgress →
  (us_status req = "in_progress" → ∀ u, (step_tx env cx wi user req d).1 ≠ inr u)
  ∧ (ends_step (us_status req) = true → us_heartbeat req = false →
     (∀ step, ss_step s = Some step → derefStr (us_step req) ≠ step →
        ∀ u, (step_tx env cx wi user req d).1 ≠ inr u)).
Proof.
  intros He Hs Hin. split.
  - intros Hst u Hok. destruct (step_ok _ _ _ _ _ _ _ He Hok) as (_ & _ & Hp).
    destruct Hp as [s' _ Hstart _ _|Hst' _ _ _|Hst' _ _]; [|congruence..].
    apply started_state_version in Hstart as (_ & _ & _ & _ & Hidle).
    rewrite (Hidle s Hs) in Hin. discriminate Hin.
  - intros Hends Hhb step Hstep Hne u Hok.
    destruct (step_ok _ _ _ _ _ _ _ He Hok) as (Hid & _). by apply Hne, (Hid Hends Hhb s).
Qed.

(** A step attempt ends at most once: a completion or failure that succeeds
    inserts the one row of its step attempt id, with the given step, attempt,
    artifact and error; if that id was already recorded, the transition fails
    whatever the environment. *)
Theorem step_recorded_once env cx wi user req d sa :
  us_escalated req = false → ends_step (us_status req) = true →
  us_step_attempt req = Some sa →
  (∀ u, (step_tx env cx wi user req d).1 = inr u →
     ∃ err, wi_step_completions (core (step_tx env cx wi user req d).2)
            = <[sa := completion_of cx wi req (us_status req) err]>
                (wi_step_completions (core d))
       ∧ wi_step_completions (core d) !! sa = None)
  ∧ (is_Some (wi_step_completions (core d) !! sa) →
     ∀ u, (step_tx env cx wi user req d).1 ≠ inr u).
Proof.
  intros He Hends Hsa.
  assert (∀ u, (step_tx env cx wi user req d).1 = inr u →
     ∃ err, wi_step_completions (core (step_tx env cx wi user req d).2)
            = <[sa := completion_of cx wi req (us_status req) err]>
                (wi_step_completions (core d))
       ∧ wi_step_completions (core d) !! sa = None) as H.
  { intros u Hok. destruct (step_ok _ _ _ _ _ _ _ He Hok) as (_ & _ & Hp).
    destruct Hp as [s' Hst _ _ _|Hst _ [Hn _ Hr] _|Hst [Hn _ Hr] _].
    - by rewrite Hst in Hends.
    - rewrite Hsa in Hn, Hr. simpl in Hn, Hr. rewrite Hst. eauto.
    - rewrite Hsa in Hn, Hr. simpl in Hn, Hr. rewrite Hst. eauto. }
  split; [exact H|]. intros [x Hx] u Hok. destruct (H u Hok) as (err & _ & Hn). congruence.
Qed.

Lemma step_transition_witness :
  ∃ s, wi_step_state (core (step_tx ideal_env (clock 23 "x2" "s") "wi_a" "u2" done_req
                              db_step1).2) !! "wi_a" = Some s
    ∧ ss_step s = Some "test" ∧ ss_version s = 3%Z.
Proof.
  destruct (wi_step_state (core db_step1) !! "wi_a") as [s|] eqn:Hs; [|by vm_compute in Hs].
  destruct (step_transition ideal_env (clock 23 "x2" "s") "wi_a" "u2" done_req db_step1)
    as (_ & _ & _ & H); [reflexivity|vm_compute; reflexivity|].
  destruct (H eq_refl s Hs) as (s' & Hs' & Hx). simpl in Hx.
  destruct Hx as (_ & Hstep & _ & Hv). exists s'. split; [exact Hs'|].
  split; [exact Hstep|]. rewrite Hv. vm_compute in Hs. by injection Hs as <-.
Defined.

Lemma step_cas_witness :
  (step_tx ideal_env (clock 24 "x3" "s") "wi_a" "u2" start_req db_step1).1 ≠ inr tt.
Proof.
  destruct (wi_step_state (core db_step1) !! "wi_a") as [s|] eqn:Hs; [|by vm_compute in Hs].
  destruct (step_cas ideal_env (clock 24 "x3" "s") "wi_a" "u2" start_req db_step1 s)
    as [H _]; [reflexivity|exact Hs|by row_fact Hs|]. by apply H.
Defined.

Lemma step_recorded_once_witness :
  (∃ err, wi_step_completions (core (step_tx ideal_env (clock 23 "x2" "s") "wi_a" "u2"
                                       done_req db_step1).2)
   = <["sa1" := completion_of (clock 23 "x2" "s") "wi_a" done_req "completed" err]>
       (wi_step_completions (core db_step1)))
  ∧ (step_tx ideal_env (clock 25 "x4" "s") "wi_a" "u2" done_req db_step2).1 ≠ inr tt.
Proof.
  split.
  - destruct (step_recorded_once ideal_env (clock 23 "x2" "s") "wi_a" "u2" done_req db_step1
      "sa1") as [H _]; [reflexivity..|].
    destruct (H tt) as (err & Hrow & _); [vm_compute; reflexivity|]. exists err. exact Hrow.
  - destruct (step_recorded_once ideal_env (clock 25 "x4" "s") "wi_a" "u2" done_req db_step2
      "sa1") as [_ H]; [reflexivity..|].
    apply H. vm_compute. eauto.
Defined.
