(* ===== verification/Findings.v ===== *)
(** * What the model showed about the code

    Executions on the installation of [Scenario.v] in which the handlers, run
    exactly as written, do something their surroundings do not mean. *)

From S2P Require Import Prelude GoStrings Errors Json Crypto Declared Locks Store.
From S2P Require Import TxLogic LifecycleSpec ResourceEvents Attempts Claim Complete.
From S2P Require Import Takeover Dependencies StepUpdate Lifecycle Handover DepGraph.
From S2P Require Import StepSpec System Scenario.

Open Scope list_scope.

Definition status_of (d : Db) (id : string) : option WiStatus :=
  wi_status <$> work_items (core d) !! id.
Definition attempt_status (d : Db) (a : string) : option RaStatus :=
  ra_status <$> run_attempts (core d) !! a.

(** ** A takeover decided on a stale read reopens a finished item

    The gate of [FnForceTakeover] runs before its transaction, which neither
    locks nor re-reads the work item: between the two, the running attempt
    wraps the item. *)
Definition late_force (d : Db) := FnForceTakeover ideal_env None None
  (clock 40 "ra_3" "f2") "fix-a" "u2" "Bob" "user" maintains
  (mkForce "stuck" "" "s3") "gen" db2 d.

Example takeover_reopens_wrapped_item :
  status_of db3 "wi_a" = Some WWrapped
  ∧ (∃ resp, (late_force db3).1 = inr resp)
  ∧ status_of (late_force db3).2 "wi_a" = Some WRunning
  ∧ attempt_status (late_force db3).2 "ra_2" = Some RSuperseded.
Proof.
  split; [vm_compute; reflexivity|]. split; [|split; vm_compute; reflexivity].
  eexists. vm_compute. reflexivity.
Qed.

(** ** The commit window of a takeover

    [FnForceTakeover] runs READ COMMITTED.  A claim that commits its attempt and
    its locks while the upsert of a lock waits for the same key is not in the
    snapshot of that statement, so the condition on the owner does not see a
    live foreign holder: the lock changes hands, and nothing reports whose it
    was. *)
Lemma window_without_commit typ key att epoch wi c :
  lockUpsert_window typ key att epoch wi c c = lockUpsert typ key att epoch wi c.
Proof.
  unfold lockUpsert_window, lockUpsert. destruct (lock_row_check c typ att); [done|]. simpl.
  by destruct (resource_locks c !! (typ, key)).
Qed.

(** Only a holder that the snapshot does not know as live and foreign loses its
    lock. *)
Lemma window_displaces typ key att epoch wi snap c p c' l :
  lockUpsert_window typ key att epoch wi snap c = inr (p, c') →
  resource_locks c !! (typ, key) = Some l → foreign_live snap wi l = false.
Proof.
  unfold lockUpsert_window. intros (_ & _ & H)%rbind_ok Hl. rewrite Hl in H.
  by destruct (foreign_live snap wi l).
Qed.

Definition before_claim : Db := Eval vm_compute in (claim_c db0).2.
Definition after_claim : Db := Eval vm_compute in (claim_a before_claim).2.

Example takeover_window_displaces_live_lock :
  let key := "p:r:a.go" in
  (∃ l, resource_locks (core after_claim) !! ("file_scope", key) = Some l
        ∧ lk_owner l = "ra_1" ∧ foreign_live (core after_claim) "wi_c" l = true)
  ∧ lockUpsert "file_scope" key "ra_3" 1 "wi_c" (core after_claim) = inl NoRows
  ∧ ∃ c', lockUpsert_window "file_scope" key "ra_3" 1 "wi_c" (core before_claim)
            (core after_claim) = inr (("", 0%Z), c')
          ∧ resource_locks c' !! ("file_scope", key) = Some (mkLock "ra_3" 1).
Proof.
  split; [|split; [vm_compute; reflexivity|]].
  - eexists. split; [vm_compute; reflexivity|]. split; vm_compute; reflexivity.
  - eexists. split; [vm_compute; reflexivity|]. vm_compute. reflexivity.
Qed.

(** ** Locks retained by a pause outlive the item

    A pause keeps the worktree lock for the resumption; the item is then
    claimed again by a new attempt, which does not inherit it, and wrapped.
    The paused attempt stays 'paused', so its lock counts as live: the sweep
    keeps it and every other item that wants the worktree is refused. *)
Definition claim_wt (id att op idem secret : string) (n : Z) (d : Db) :=
  FnClaimWorkItem ideal_env (clock n att op) id
    (mkClaim idem "m1" secret [mkLockReq "worktree" "wt1"] false None) alice d.
Definition claim_plain (id att op idem secret : string) (n : Z) (d : Db) :=
  FnClaimWorkItem ideal_env (clock n att op) id (claim_req idem secret) alice d.
Definition complete_c (att : string) (epoch : Z) (secret status : string) (d : Db) :=
  FnCompleteAttempt ideal_env (clock 60 "" "ec") "wi_c"
    (complete_req att epoch secret status) no_roles "user" d.

Definition paused_c : Db := Eval vm_compute in
  (complete_c "ra_5" 1 "s5" "paused" (claim_wt "wi_c" "ra_5" "c5" "k5" "s5" 50 db0).2).2.
Definition wrapped_c : Db := Eval vm_compute in
  (complete_c "ra_6" 2 "s6" "wrapped" (claim_plain "wi_c" "ra_6" "c6" "k6" "s6" 61 paused_c).2).2.
Definition swept_c : Db := Eval vm_compute in
  (RunOrphanLockSweep (inr true) ideal_env (clock 70 "" "g") wrapped_c).2.

Example paused_lock_leaks :
  status_of swept_c "wi_c" = Some WWrapped
  ∧ resource_locks (core swept_c) !! ("worktree", "wt1") = Some (mkLock "ra_5" 1)
  ∧ (claim_wt "wi_b" "ra_7" "c7" "k7" "s7" 80 swept_c).1
    = inl (NewErrDetails ErrConflictLockTaken (DConflictWith "ra_5" "Alice" "doc-c")).
Proof. split; [|split]; vm_compute; reflexivity. Qed.

(** ** An escalated step failure reopens a finished item

    [UPDATE work_items SET status='blocked' WHERE id=$1] has no condition on
    the status, and a request without a session secret skips the credential
    check. *)
Definition escalate_req (att : string) : UpdateStepRequest :=
  mkStepReq (mkAttReq att 0 "") "failed" (Some "code") (Some "sa9") false None
    (Some "stuck") true None None.
Definition escalate_a (d : Db) := handleUpdateStep ideal_env ideal_env None None
  (clock 95 "x9" "s") "wi_a" "u1" (escalate_req "ra_2") d d.

Example escalation_reopens_wrapped_item :
  status_of db3 "wi_a" = Some WWrapped
  ∧ (escalate_a db3).1 = inr tt
  ∧ status_of (escalate_a db3).2 "wi_a" = Some WBlocked.
Proof. split; [|split]; vm_compute; reflexivity. Qed.

(** ... and on a running item it leaves the attempt running: once the sweep
    requeues the item, a claim starts a second running attempt beside it. *)
Definition dep_ab (d0 d : Db) := CreateDependency ideal_env None None None
  (clock 29 "" "d") (mkDepReq "wi_a" "wi_b" "blocks" None) "u2" maintains "user" d0 d.
Definition escalated : Db := Eval vm_compute in
  (escalate_a (dep_ab db2 (cancel_b db2).2).2).2.
Definition reclaimed : Db := Eval vm_compute in
  (claim_plain "wi_a" "ra_8" "c8" "k8" "s8" 99
     (RunUnblockDependentWI (inr true) ideal_env (clock 98 "" "g") escalated).2).2.

Example escalation_allows_two_running_attempts :
  attempt_status reclaimed "ra_2" = Some RRunning
  ∧ attempt_status reclaimed "ra_8" = Some RRunning
  ∧ (ra_wi <$> run_attempts (core reclaimed) !! "ra_2") = Some "wi_a"
  ∧ (ra_wi <$> run_attempts (core reclaimed) !! "ra_8") = Some "wi_a".
Proof. split; [|split; [|split]]; vm_compute; reflexivity. Qed.

(** ** Two concurrent requests build a cycle

    [detectCycle] reads outside the transaction that inserts the edge. *)
Definition dep_ba (d0 d : Db) := CreateDependency ideal_env None None None
  (clock 29 "" "d") (mkDepReq "wi_b" "wi_a" "blocks" None) "u2" maintains "user" d0 d.

Example concurrent_edges_make_cycle :
  (dep_ab db0 db0).1 = inr tt
  ∧ (dep_ba db0 (dep_ab db0 db0).2).1 = inr tt
  ∧ detectCycle "wi_a" "wi_b" "blocks" (core (dep_ba db0 (dep_ab db0 db0).2).2)
    = inl (NewErrDetails ErrConflictDependencyCycle (DCyclePath ["wi_a"; "wi_b"])).
Proof. split; [|split]; vm_compute; reflexivity. Qed.

(** ** A dependency on a finished item blocks its dependent

    The derivation [SET status='blocked'] does not look at the blocker's
    status; the item waits for the next sweep. *)
Example finished_blocker_blocks :
  status_of db3 "wi_a" = Some WWrapped
  ∧ status_of stuck_db "wi_c" = Some WBlocked
  ∧ open_blocker (core stuck_db) "wi_c" "" = false.
Proof. split; [|split]; vm_compute; reflexivity. Qed.
