(* ===== verification/PolicyTheory.v ===== *)
(** * What the workflow policy accepts

    Inversions of [Validate] and [Decide]: what each accepted check says,
    in terms of the flow's steps and the history's events. *)

From S2P Require Import Prelude GoStrings Flow Policy.

Open Scope nat_scope.
Open Scope list_scope.

(** ** Searches *)

Lemma find_up_spec f i n :
  match find_up f i n with
  | Some j => i ≤ j < i + n ∧ f j = true ∧ ∀ k, i ≤ k < j → f k = false
  | None => ∀ k, i ≤ k < i + n → f k = false
  end.
Proof.
  revert i. induction n as [|n IH]; intros i; simpl; [intros k; lia|].
  destruct (f i) eqn:Hf; [split_and!; try lia; auto; intros k; lia|].
  specialize (IH (S i)). destruct (find_up f (S i) n) as [j|].
  - destruct IH as (? & ? & Hk). split_and!; try lia; auto. intros k Hr.
    destruct (decide (k = i)) as [->|]; [done|]. apply Hk. lia.
  - intros k Hr. destruct (decide (k = i)) as [->|]; [done|]. apply IH. lia.
Qed.

Lemma find_down_spec f n :
  match find_down f n with
  | Some j => j < n ∧ f j = true ∧ ∀ k, j < k < n → f k = false
  | None => ∀ k, k < n → f k = false
  end.
Proof.
  induction n as [|n IH]; simpl; [intros k; lia|].
  destruct (f n) eqn:Hf; [split_and!; try lia; auto; intros k; lia|].
  destruct (find_down f n) as [j|].
  - destruct IH as (? & ? & Hk). split_and!; try lia; auto. intros k Hr.
    destruct (decide (k = n)) as [->|]; [done|]. apply Hk. lia.
  - intros k Hr. destruct (decide (k = n)) as [->|]; [done|]. apply IH. lia.
Qed.

Lemma fold_left_inv {A B} (P : A → Prop) (f : A → B → A) (l : list B) a :
  P a → (∀ acc x, x ∈ l → P acc → P (f acc x)) → P (fold_left f l a).
Proof.
  revert a. induction l as [|x l IH]; intros a Ha Hf; simpl; [done|].
  apply IH; [apply Hf; [set_solver|done]|]. intros acc y Hy. apply Hf. set_solver.
Qed.

Lemma list_find_id {A} (f : A → string) id (l : list A) i x :
  list_find (λ s, f s = id) l = Some (i, x) → l !! i = Some x ∧ f x = id.
Proof. intros (? & ? & _)%list_find_Some. done. Qed.

(** ** Steps of a flow by id *)

Lemma find_step_some flow id s :
  findValidatedStep flow id = Some s →
  vf_steps flow !! stepPosition flow id = Some s ∧ vs_id s = id.
Proof.
  unfold findValidatedStep, stepPosition.
  destruct (list_find _ _) as [[i x]|] eqn:Hf; simpl; [|done].
  intros [= ->]. by apply (list_find_id vs_id).
Qed.

Lemma find_step_nodup flow i s :
  NoDup (vs_id <$> vf_steps flow) → vf_steps flow !! i = Some s →
  findValidatedStep flow (vs_id s) = Some s ∧ stepPosition flow (vs_id s) = i.
Proof.
  intros Hnd Hi. unfold findValidatedStep, stepPosition.
  assert (list_find (λ x, vs_id x = vs_id s) (vf_steps flow) = Some (i, s)) as ->; [|done].
  apply list_find_Some. split_and!; [done|done|].
  intros j y Hj Hlt Hid.
  assert ((vs_id <$> vf_steps flow) !! i = Some (vs_id s)) as H1
    by by rewrite list_lookup_fmap, Hi.
  assert ((vs_id <$> vf_steps flow) !! j = Some (vs_id s)) as H2
    by by rewrite list_lookup_fmap, Hj; simpl; rewrite Hid.
  pose proof (NoDup_lookup _ _ _ _ Hnd H1 H2). lia.
Qed.

Lemma at_step_true p steps j :
  at_step p steps j = true ↔ ∃ s, steps !! j = Some s ∧ p s = true.
Proof.
  unfold at_step. destruct (steps !! j) as [s|]; [|naive_solver].
  split; [eauto|by intros (? & [= ->] & ?)].
Qed.

Lemma at_result_true flow p results i :
  at_result flow p results i = true ↔
  ∃ r s, results !! i = Some r ∧ findValidatedStep flow (sr_step r) = Some s ∧ p r s = true.
Proof.
  unfold at_result. destruct (results !! i) as [r|]; [|naive_solver].
  destruct (findValidatedStep flow (sr_step r)) as [s|] eqn:Hs; [|naive_solver].
  split; [eauto 6|]. intros (? & ? & [= <-] & Hs' & ?). by simplify_eq.
Qed.

(** ** Gates *)

Definition review_gate (grants : gmap string StepGrant) (s : ValidatedStep) : bool :=
  isolated grants s && hasCapability (vs_contract s) CapReview.
Definition verification_gate (grants : gmap string StepGrant) (s : ValidatedStep) : bool :=
  isolated grants s && hasCapability (vs_contract s) CapVerification.

Lemma gates_distinct_spec steps grants a b :
  gates_distinct (gateIndexes steps grants a b) = true →
  ∃ r v, a ≤ r < b ∧ a ≤ v < b ∧ r ≠ v
    ∧ at_step (review_gate grants) steps r = true
    ∧ at_step (verification_gate grants) steps v = true.
Proof.
  assert (∀ i, i ∈ seq a (b - a) → a ≤ i < b) as Hr by (intros i ?%elem_of_seq; lia).
  assert ((∀ r, (gateIndexes steps grants a b).1 = Some r →
             a ≤ r < b ∧ at_step (review_gate grants) steps r = true)
          ∧ (∀ v, (gateIndexes steps grants a b).2 = Some v →
             a ≤ v < b ∧ at_step (verification_gate grants) steps v = true)) as [H1 H2].
  { unfold gateIndexes. apply fold_left_inv; [by split|].
    intros [x y] i Hi%Hr [Hx Hy]. unfold at_step, review_gate, verification_gate in *.
    destruct (steps !! i) as [s|] eqn:Hs; [|by split].
    destruct (isolated grants s) eqn:Hiso; simpl in *; [|by split]. split.
    - destruct (hasCapability (vs_contract s) CapReview) eqn:Hc; [|exact Hx].
      intros r [= <-]. by rewrite Hs, Hiso, Hc.
    - destruct (hasCapability (vs_contract s) CapVerification) eqn:Hc; [|exact Hy].
      intros r [= <-]. by rewrite Hs, Hiso, Hc. }
  destruct (gateIndexes steps grants a b) as [[r|] [v|]]; simpl; try done.
  intros Hne. apply negb_true_iff, Nat.eqb_neq in Hne. exists r, v.
  destruct (H1 r eq_refl), (H2 v eq_refl). done.
Qed.

Definition passing_review (flow : ValidatedFlow) (r : StepResult) (s : ValidatedStep) : bool :=
  gate_result flow r s && hasCapability (vs_contract s) CapReview && negb (failed_review r).
Definition passing_verification (flow : ValidatedFlow) (r : StepResult) (s : ValidatedStep)
  : bool := gate_result flow r s && hasCapability (vs_contract s) CapVerification.

Lemma gate_attempts_spec flow results a b review verify :
  gate_attempts flow results a b = (review, verify) →
  review ≠ "" → verify ≠ "" → review ≠ verify →
  ∃ r v, a ≤ r < b ∧ a ≤ v < b ∧ r ≠ v
    ∧ at_result flow (passing_review flow) results r = true
    ∧ at_result flow (passing_verification flow) results v = true.
Proof.
  intros Hg Hr0 Hv0 Hne.
  assert (∀ i, i ∈ seq a (b - a) → a ≤ i < b) as Hrange by (intros i ?%elem_of_seq; lia).
  set (ok (p : StepResult → ValidatedStep → bool) (x : string) := x = "" ∨ ∃ i, a ≤ i < b
        ∧ at_result flow p results i = true ∧ sr_attempt <$> results !! i = Some x).
  assert (ok (passing_review flow) (gate_attempts flow results a b).1
          ∧ ok (passing_verification flow) (gate_attempts flow results a b).2) as [H1 H2].
  { unfold gate_attempts. apply fold_left_inv; [by split; left|].
    assert (∀ p x y i, a ≤ i < b → ok p x → y = default "" (sr_attempt <$> results !! i) →
      ok p (if at_result flow p results i then y else x)) as Hstep.
    { intros p x y i Hi Hx ->. destruct (at_result flow p results i) eqn:Hp; [|done].
      right. exists i. split_and!; [lia|lia|done|].
      apply at_result_true in Hp as (r & _ & -> & _). done. }
    intros [x y] i Hi%Hrange [Hx Hy]. simpl in *. split; by apply Hstep. }
  rewrite Hg in *. simpl in *. destruct H1 as [?|(i & Hi & Hp & Hx)]; [done|].
  destruct H2 as [?|(j & Hj & Hq & Hy)]; [done|]. exists i, j. split_and!; try lia; try done.
  intros ->. rewrite Hx in Hy. congruence.
Qed.

(** ** What [Validate] establishes *)

Lemma validate_steps_spec pc sm bound granted i ix acc gs l out gs' :
  validate_steps pc sm bound granted i ix acc gs l = inr (out, gs') →
  dom ix = list_to_set (vs_id <$> acc) → NoDup (vs_id <$> acc) →
  NoDup (vs_id <$> out) ∧ vs_step <$> out = (vs_step <$> acc) ++ l.
Proof.
  revert i ix acc gs. induction l as [|s l IH]; intros i ix acc gs; simpl.
  { intros [= <- <-] _ ?. by rewrite app_nil_r. }
  intros H Hdom Hnd. apply rbind_ok in H as (? & _ & H).
  case_bool_decide as Hnew; [done|].
  destruct (bound !! _) as [c|]; [|done].
  destruct (granted !! st_id s) as [g|]; [|done].
  apply rbind_ok in H as (? & _ & H).
  destruct (ct_interactive c && negb (step_rhs s)); [done|].
  apply rbind_ok in H as (? & _ & H). apply rbind_ok in H as (? & _ & H).
  assert (st_id s ∉ vs_id <$> acc) as Hni.
  { rewrite <- eq_None_not_Some in Hnew. apply not_elem_of_dom in Hnew.
    rewrite Hdom in Hnew. set_solver. }
  apply IH in H as (? & Heq).
  - split; [done|]. rewrite Heq, fmap_app. simpl. by rewrite <- app_assoc.
  - rewrite dom_insert_L, Hdom, fmap_app, list_to_set_app_L. unfold vs_id at 2. simpl. set_solver.
  - rewrite fmap_app. simpl. apply NoDup_app. split_and!; [done| |apply NoDup_singleton].
    intros y Hy ->%list_elem_of_singleton. by apply Hni.
Qed.

Record valid_flow (flow : ValidatedFlow) : Prop := {
  va_nodup : NoDup (vs_id <$> vf_steps flow);
  va_nonempty : vf_steps flow ≠ [];
  va_steps : vs_step <$> vf_steps flow = fl_steps (vf_flow flow);
  va_gates : validateSafetyGates (vf_steps flow) (vf_grants flow) = inr tt;
}.

Lemma Validate_valid sc pc sm fl bs granted flow :
  Validate sc pc sm fl bs granted = inr flow → valid_flow flow.
Proof.
  unfold Validate. destruct (fl_version fl <=? 0)%Z; [done|].
  case_bool_decide as Hne; [done|]. intros (bound & _ & H)%rbind_ok.
  apply rbind_ok in H as ([out gs] & Hs & H). simpl in H.
  destruct (negb _); [done|]. apply rbind_ok in H as ([] & Hg & [= <-]).
  apply validate_steps_spec in Hs as [Hnd Heq]; [|done|constructor].
  simpl in Heq. constructor; simpl; try done.
  intros ->. by rewrite <- Heq in Hne.
Qed.

(** The write rule and the shipping rule, per step. *)
Lemma gates_write steps grants i s :
  validateSafetyGates steps grants = inr tt → steps !! i = Some s →
  impl_write grants s = true →
  (∀ j, i < j < length steps → at_step (impl_write grants) steps j = false) →
  ∃ r v, i < r < length steps ∧ i < v < length steps ∧ r ≠ v
    ∧ at_step (review_gate grants) steps r = true
    ∧ at_step (verification_gate grants) steps v = true
    ∧ ∀ k, i < k → k ≤ r ∨ k ≤ v → at_step is_shipping steps k = false.
Proof.
  intros Hv Hi Hw Hlast. pose proof (lookup_lt_Some _ _ _ Hi) as Hlt.
  pose proof (proj1 (check_from_ok _ _ _) Hv i s Hi) as Hs. simpl in Hs.
  unfold safety_step in Hs. destruct (is_shipping s && _); [done|].
  apply rbind_ok in Hs as ([] & Hs & _). unfold write_rule in Hs.
  rewrite Hw in Hs. simpl in Hs.
  pose proof (find_up_spec (at_step (impl_write grants) steps) (S i) (length steps - S i)) as Hn.
  destruct (find_up (at_step (impl_write grants) steps) _ _) as [j|].
  { destruct Hn as (? & Hj & _). rewrite Hlast in Hj by lia. done. }
  pose proof (find_up_spec (at_step is_shipping steps) (S i) (length steps - S i)) as Hb.
  destruct (gates_distinct _) eqn:Hg; [|by destruct (find_up _ _ _)].
  apply gates_distinct_spec in Hg as (r & v & Hr & Hv' & Hne & Hgr & Hgv).
  destruct (find_up (at_step is_shipping steps) _ _) as [b|]; simpl in *.
  - destruct Hb as (? & _ & Hb). exists r, v. split_and!; try lia; try done.
    intros k Hk Hle. apply Hb. lia.
  - exists r, v. split_and!; try lia; try done.
    intros k Hk Hle. apply Hb. lia.
Qed.

(** ** What [Decide] checks *)

Record accepted (flow : ValidatedFlow) (results : list StepResult) (input : PolicyInput)
    (d : Decision) : Prop := {
  ac_results : check_results flow 0 "" ∅ (zip results (pi_expected input)) = inr tt;
  ac_length : length (pi_expected input) = length results;
  ac_episodes : validateRepairEpisodes flow (pi_episodes input) results = inr tt;
  ac_order : check_order flow input 0 results = inr tt;
  ac_rest : ∃ fr early,
    check_retries input results None (vf_steps flow) = inr fr
    ∧ check_repair flow input results fr = inr early
    ∧ match early with
      | Some d' => d' = d
      | None => validateProducerIndependence flow results = inr tt
                ∧ validateShippingEventOrder flow results = inr tt
                ∧ progress input results (vf_steps flow) = inr d
      end;
}.

Lemma Decide_accepted flow results input d :
  Decide flow results input = inr d → accepted flow results input d.
Proof.
  unfold Decide. case_bool_decide as Hnil; [done|]. intros H.
  apply rbind_ok in H as ([] & _ & H).
  destruct (Nat.eqb _ _) eqn:Hlen; simpl in H; [|done]. apply Nat.eqb_eq in Hlen.
  apply rbind_ok in H as ([] & Hres & H).
  destruct (8 <? _); [done|].
  apply rbind_ok in H as ([] & Hep & H). apply rbind_ok in H as ([] & Hord & H).
  apply rbind_ok in H as (fr & Hfr & H). apply rbind_ok in H as (early & Hea & H).
  constructor; try done. exists fr, early. split_and!; [done|done|].
  destruct early as [d'|]; [by injection H|].
  apply rbind_ok in H as ([] & ? & H). by apply rbind_ok in H as ([] & ? & H).
Qed.

(** Every result is the one its invocation expected, of a step of the flow,
    and well formed there. *)
Lemma check_results_spec flow i wi ids l k r e :
  check_results flow i wi ids l = inr tt → l !! k = Some (r, e) →
  expectedFor r = e ∧ ∃ s, findValidatedStep flow (sr_step r) = Some s
    ∧ validateResult (i + k) r s = inr tt.
Proof.
  revert i wi ids k. induction l as [|[r' e'] l IH]; intros i wi ids k; simpl; [done|].
  intros H Hk. destruct (negb (expected_ok flow e')); [done|].
  destruct (_ && _); [done|]. case_bool_decide as He; simpl in H; [|done].
  case_bool_decide; [done|].
  destruct (findValidatedStep flow (ex_step e')) as [s|] eqn:Hs; [|done].
  apply rbind_ok in H as ([] & Hv & H). destruct k as [|k]; simpl in Hk.
  - injection Hk as -> ->. split; [done|]. exists s. rewrite Nat.add_0_r. split; [|done].
    by rewrite <- He in Hs.
  - rewrite <- Nat.add_succ_comm. by eapply IH.
Qed.

Lemma accepted_result flow results input d k r :
  accepted flow results input d → results !! k = Some r →
  ∃ s, findValidatedStep flow (sr_step r) = Some s ∧ validateResult k r s = inr tt.
Proof.
  intros [Hres Hlen _ _ _] Hk.
  destruct (lookup_lt_is_Some_2 (pi_expected input) k) as [e He].
  { rewrite Hlen. by eapply lookup_lt_Some. }
  destruct (check_results_spec _ _ _ _ _ k r e Hres) as [_ ?]; [|done].
  apply lookup_zip_with_Some. eauto.
Qed.

(** No attempt has two results. *)
Lemma check_results_nodup flow i wi ids l :
  check_results flow i wi ids l = inr tt →
  NoDup (sr_attempt <$> l.*1) ∧ ∀ r, r ∈ l.*1 → sr_attempt r ∉ ids.
Proof.
  revert i wi ids. induction l as [|[r e] l IH]; intros i wi ids; simpl.
  { intros _. split; [constructor|]. intros r Hr. by apply elem_of_nil in Hr. }
  destruct (negb (expected_ok flow e)); [done|]. destruct (_ && _); [done|].
  case_bool_decide as He; simpl; [|done]. case_bool_decide as Hid; [done|].
  destruct (findValidatedStep flow (ex_step e)); [|done].
  intros ([] & _ & H)%rbind_ok. apply IH in H as [Hnd Hout].
  assert (sr_attempt r = ex_attempt e) as Ha by by rewrite <- He.
  split.
  - constructor; [|done]. rewrite Ha. intros (r' & E & Hr')%list_elem_of_fmap.
    apply (Hout r' Hr'). rewrite <- E. set_solver.
  - intros r' [->|Hr']%elem_of_cons; [by rewrite Ha|]. pose proof (Hout r' Hr'). set_solver.
Qed.

Lemma accepted_unique flow results input d i j r r' :
  accepted flow results input d → results !! i = Some r → results !! j = Some r' →
  sr_attempt r = sr_attempt r' → i = j.
Proof.
  intros [Hres Hlen _ _ _] Hi Hj He. apply check_results_nodup in Hres as [Hnd _].
  rewrite fst_zip in Hnd by lia.
  apply (NoDup_lookup _ i j (sr_attempt r) Hnd); rewrite list_lookup_fmap;
    [by rewrite Hi|by rewrite Hj, He].
Qed.

(** The retry loop: with neither repair nor episode, one result per step. *)
Lemma check_candidates_some input first p l fr :
  pi_episodes input = [] → check_candidates input first (Some p) l = inr fr → l = [] ∧ fr = Some p.
Proof.
  intros Hep. destruct l as [|c l]; simpl; [by intros [= <-]|].
  unfold episodeContainsResult. rewrite Hep. by vm_compute.
Qed.

(** Without episodes a retry is the only one: the second result of a step
    whose first one failed. *)
Lemma check_candidates_spec input first l fr :
  pi_episodes input = [] → check_candidates input first None l = inr fr →
  match fr with
  | None => l = []
  | Some p => ∃ c, p = (first, c) ∧ l = [c]
                ∧ (completed first = false ∨ failed_review first = true)
  end.
Proof.
  intros Hep. destruct l as [|c l]; simpl; [by intros [= <-]|].
  unfold episodeContainsResult. rewrite Hep. simpl.
  destruct (completed first && _ || _ || _) eqn:Hc; [done|].
  intros [-> ->]%check_candidates_some; [|done]. exists c. split_and!; [done|done|].
  apply orb_false_split in Hc as [[Hc _]%orb_false_split _].
  apply andb_false_iff in Hc as [?|?%negb_false_iff]; auto.
Qed.

(** What the retry loop leaves: at most one result per step, except the one
    retry it reports. *)
Lemma check_retries_spec input results steps fr fr' :
  pi_episodes input = [] → check_retries input results fr steps = inr fr' →
  (∀ p, fr = Some p → fr' = Some p)
  ∧ ∀ s, s ∈ steps → length (by_step results (vs_id s)) ≤ 1
      ∨ ∃ first c, fr' = Some (first, c) ∧ by_step results (vs_id s) = [first; c]
          ∧ (completed first = false ∨ failed_review first = true).
Proof.
  intros Hep. revert fr. induction steps as [|s steps IH]; intros fr; simpl.
  { intros [= ->]. split; [done|]. intros s Hs. by apply elem_of_nil in Hs. }
  destruct (by_step results (vs_id s)) as [|first rest] eqn:Hby.
  - intros [Hkeep Hall]%IH. split; [done|]. intros s' [->|Hs]%elem_of_cons; [|by apply Hall].
    left. rewrite Hby. simpl. lia.
  - intros (fr1 & Hc & H)%rbind_ok. destruct (IH _ H) as [Hkeep Hall].
    destruct fr as [p|].
    + destruct (check_candidates_some _ _ _ _ _ Hep Hc) as [-> ->].
      split; [intros ? [= <-]; by apply Hkeep|].
      intros s' [->|Hs]%elem_of_cons; [left; rewrite Hby; simpl; lia|by apply Hall].
    + split; [done|]. intros s' [->|Hs]%elem_of_cons; [|by apply Hall].
      pose proof (check_candidates_spec _ _ _ _ Hep Hc) as Hsp.
      destruct fr1 as [p|]; [|subst; left; rewrite Hby; simpl; lia].
      destruct Hsp as (c & -> & -> & Hbad). right. exists first, c.
      split_and!; [by apply Hkeep|done|done].
Qed.

(** The retry that is found is one of the results. *)
Lemma check_candidates_from input first fr l p :
  check_candidates input first fr l = inr (Some p) → fr = Some p ∨ p.2 ∈ l.
Proof.
  revert fr. induction l as [|c l IH]; intros fr; simpl; [intros [= ->]; by left|].
  destruct (episodeContainsResult _ c).
  { intros [?|?]%IH; [by left|right; by constructor]. }
  destruct (_ || _); [done|]. destruct (_ || _ || _); [done|].
  destruct (bool_decide _); [done|].
  intros [[= <-]|?]%IH; right; [constructor|by constructor].
Qed.

Lemma check_retries_from input results fr steps p :
  check_retries input results fr steps = inr (Some p) → fr = Some p ∨ p.2 ∈ results.
Proof.
  revert fr. induction steps as [|s steps IH]; intros fr; simpl; [intros [= ->]; by left|].
  destruct (by_step results (vs_id s)) as [|first rest] eqn:Hby; [apply IH|].
  intros (fr' & Hc & [->|?]%IH)%rbind_ok; [|by right].
  apply check_candidates_from in Hc as [?|Hin]; [by left|right].
  assert (p.2 ∈ by_step results (vs_id s)) as Hp by (rewrite Hby; by constructor).
  unfold by_step in Hp. by apply list_elem_of_filter in Hp as [_ ?].
Qed.

(** The order rule: results that are no repairs follow the flow. *)
Lemma check_order_from flow input last l k r :
  check_order flow input last l = inr tt → l !! k = Some r → is_repair input r = false →
  last ≤ S (stepPosition flow (sr_step r)).
Proof.
  revert last k. induction l as [|r' l IH]; intros last k; simpl; [done|].
  intros H Hk Hn. destruct k as [|k]; simpl in Hk.
  - injection Hk as ->. rewrite Hn in H.
    destruct (Nat.ltb_spec (S (stepPosition flow (sr_step r))) last); [done|lia].
  - destruct (is_repair input r'); [by eapply IH|].
    destruct (Nat.ltb_spec (S (stepPosition flow (sr_step r'))) last); [done|].
    pose proof (IH _ _ H Hk Hn). lia.
Qed.

Lemma check_order_spec flow input last l i j r r' :
  check_order flow input last l = inr tt → l !! i = Some r → l !! j = Some r' → i < j →
  is_repair input r = false → is_repair input r' = false →
  stepPosition flow (sr_step r) ≤ stepPosition flow (sr_step r').
Proof.
  revert last i j. induction l as [|r0 l IH]; intros last i j; simpl; [done|].
  intros H Hi Hj Hlt Hn Hn'. destruct j as [|j]; [lia|]. simpl in Hj. destruct i as [|i].
  - simpl in Hi. injection Hi as ->. rewrite Hn in H.
    destruct (_ <? _) eqn:Hl; [done|].
    pose proof (check_order_from _ _ _ _ _ _ H Hj Hn'). lia.
  - simpl in Hi. destruct (is_repair input r0); [by eapply (IH _ i j); eauto; lia|].
    destruct (_ <? _) eqn:Hl; [done|]. eapply (IH _ i j); eauto. lia.
Qed.

Lemma is_repair_none input r :
  pi_repair input = None → pi_episodes input = [] → is_repair input r = false.
Proof.
  intros H1 H2. unfold is_repair, authorized_retry, episodeContainsResult.
  by rewrite H1, H2.
Qed.

(** The independence rule: a gate that must be independent shares no producer
    with an implementation write before it. *)
Lemma independent_spec flow results i j g w r x :
  validateProducerIndependence flow results = inr tt →
  vf_steps flow !! i = Some g → isolated (vf_grants flow) g = true → gate g = true →
  vf_steps flow !! j = Some w → j < i → impl_write (vf_grants flow) w = true →
  r ∈ by_step results (vs_id g) → x ∈ by_step results (vs_id w) →
  sr_producer x ≠ sr_producer r.
Proof.
  intros H Hi Hiso Hg Hj Hlt Hw [k Hr]%list_elem_of_lookup Hx Heq.
  pose proof (proj1 (check_from_ok _ _ _) H i g Hi) as Hs.
  unfold shared_producer in Hs. simpl in Hs.
  apply andb_true_iff in Hiso as [_ Hiso]. rewrite Hiso, Hg in Hs. simpl in Hs.
  pose proof (proj1 (check_from_ok _ _ _) Hs k r Hr) as Hs2. simpl in Hs2.
  assert (take i (vf_steps flow) !! j = Some w) as Hj' by by rewrite lookup_take_lt.
  pose proof (proj1 (check_from_ok _ _ _) Hs2 j w Hj') as Hs3. simpl in Hs3.
  rewrite Hw in Hs3. simpl in Hs3.
  destruct (existsb _ _) eqn:He; [done|].
  assert (existsb (λ x, String.eqb (sr_producer x) (sr_producer r)) (by_step results (vs_id w))
          = true); [|congruence].
  apply existsb_exists. exists x. rewrite <- list_elem_of_In. split; [done|].
  by apply String.eqb_eq.
Qed.

(** ** The history of one step *)

Lemma by_step_split results id i j r r' :
  results !! i = Some r → results !! j = Some r' → i < j →
  sr_step r = id → sr_step r' = id →
  ∃ l1 l2, by_step results id = l1 ++ r' :: l2 ∧ r ∈ l1.
Proof.
  intros Hi Hj Hlt Hr Hr'. exists (by_step (take j results) id), (by_step (drop (S j) results) id).
  split.
  - unfold by_step. rewrite <- (take_drop_middle results j r') at 1 by done.
    rewrite filter_app, filter_cons_True by done. done.
  - unfold by_step. rewrite list_elem_of_filter. split; [done|].
    apply list_elem_of_lookup. exists i.
    by rewrite lookup_take_lt.
Qed.

Lemma by_step_in results id r : r ∈ by_step results id ↔ sr_step r = id ∧ r ∈ results.
Proof. unfold by_step. by rewrite list_elem_of_filter. Qed.

Lemma latest_in results id r : latest results id = Some r → r ∈ by_step results id.
Proof. apply last_Some_elem_of. Qed.

Lemma latest_some results id r : r ∈ results → sr_step r = id → is_Some (latest results id).
Proof.
  intros Hr Hid. unfold latest. rewrite last_is_Some. intros Hnil.
  assert (r ∈ by_step results id) as H by by apply by_step_in. rewrite Hnil in H.
  by apply elem_of_nil in H.
Qed.

(** With episodes, every repeated result of a step belongs to one. *)
Lemma check_candidates_episode input first fr l fr' c :
  pi_episodes input ≠ [] → check_candidates input first fr l = inr fr' → c ∈ l →
  episodeContainsResult (pi_episodes input) c = true.
Proof.
  intros Hep. revert fr. induction l as [|c' l IH]; intros fr; simpl.
  { intros _ H. by apply elem_of_nil in H. }
  rewrite (bool_decide_eq_false_2 (pi_episodes input = [])) by done. simpl.
  intros H Hc. destruct (episodeContainsResult _ c') eqn:He; [|done].
  apply elem_of_cons in Hc as [->|Hc]; [done|]. by eapply IH.
Qed.

Lemma check_retries_episode input results steps fr fr' s first rest c :
  pi_episodes input ≠ [] → check_retries input results fr steps = inr fr' → s ∈ steps →
  by_step results (vs_id s) = first :: rest → c ∈ rest →
  episodeContainsResult (pi_episodes input) c = true.
Proof.
  intros Hep. revert fr. induction steps as [|s' steps IH]; intros fr; simpl.
  { intros _ H. by apply elem_of_nil in H. }
  intros H [->|Hs]%elem_of_cons Hby Hc.
  - rewrite Hby in H. apply rbind_ok in H as (? & H & _). by eapply check_candidates_episode.
  - destruct (by_step results (vs_id s')).
    + by eapply IH.
    + apply rbind_ok in H as (? & _ & H). by eapply IH.
Qed.

Lemma values_in results att r : values results !! att = Some r → r ∈ results ∧ sr_attempt r = att.
Proof.
  unfold values. assert (∀ l (m : gmap string StepResult), (∀ a x, m !! a = Some x → x ∈ results ∧ sr_attempt x = a) →
    (∀ x, x ∈ l → x ∈ results) →
    foldl (λ m r, <[sr_attempt r := r]> m) m l !! att = Some r →
    r ∈ results ∧ sr_attempt r = att) as H.
  { induction l as [|x l IH]; intros m Hm Hl; simpl; [by apply Hm|].
    apply IH; [|set_solver]. intros a y [[<- <-]|[_ ?]]%lookup_insert_Some; [|by apply Hm].
    split; [set_solver|done]. }
  apply H; [intros a x; by rewrite lookup_empty|done].
Qed.

Lemma positions_in results att i :
  positions results !! att = Some i → ∃ r, results !! i = Some r ∧ sr_attempt r = att.
Proof.
  unfold positions. assert (∀ l (m : gmap string nat),
    (∀ a k, m !! a = Some k → ∃ r, results !! k = Some r ∧ sr_attempt r = a) →
    (∀ k x, (k, x) ∈ l → results !! k = Some x) →
    foldl (λ m p, <[sr_attempt p.2 := p.1]> m) m l !! att = Some i →
    ∃ r, results !! i = Some r ∧ sr_attempt r = att) as H.
  { induction l as [|[k x] l IH]; intros m Hm Hl; simpl; [by apply Hm|].
    apply IH; [|intros k' x' ?; apply Hl; set_solver].
    intros a k' [[<- <-]|[_ ?]]%lookup_insert_Some; [|by apply Hm].
    exists x. split; [apply Hl; set_solver|done]. }
  apply H; [intros a k; by rewrite lookup_empty|].
  intros k x (k' & Hk)%list_elem_of_lookup. rewrite list_lookup_imap in Hk.
  destruct (results !! k') eqn:E; simplify_eq/=. done.
Qed.

Lemma position_of_last results att r :
  values results !! att = Some r → is_Some (positions results !! att).
Proof.
  unfold values, positions. assert (∀ l k (m : gmap string StepResult) (m' : gmap string nat),
    (∀ a, is_Some (m !! a) → is_Some (m' !! a)) →
    is_Some (foldl (λ m r, <[sr_attempt r := r]> m) m l !! att) →
    is_Some (foldl (λ m p, <[sr_attempt p.2 := p.1]> m) m' (imap (λ i, pair (k + i)) l) !! att))
    as H.
  { induction l as [|x l IH]; intros k m m' Hm; simpl; [by apply Hm|]. intros Hs.
    rewrite (imap_ext _ (λ i, pair (S k + i))) by (intros; simpl; f_equal; lia).
    eapply IH; [|exact Hs]. intros a. simpl.
    destruct (decide (sr_attempt x = a)) as [->|Hne].
    - by rewrite !lookup_insert_eq.
    - rewrite !lookup_insert_ne by done. apply Hm. }
  intros Hr. apply (H results 0 ∅ ∅); [intros a [? Ha]; by rewrite lookup_empty in Ha|].
  rewrite Hr. eauto.
Qed.

(** The event of an attempt, where [validateRepairEpisodes] looks it up. *)
Lemma value_at flow results input d att r :
  accepted flow results input d → values results !! att = Some r →
  results !! position_of results att = Some r.
Proof.
  intros Hac Hr. destruct (position_of_last _ _ _ Hr) as [i Hi]. unfold position_of. rewrite Hi.
  simpl. apply positions_in in Hi as (r' & Hi & Ha).
  apply values_in in Hr as [[j Hj]%list_elem_of_lookup Ha'].
  assert (j = i) as -> by (eapply accepted_unique; [exact Hac|done..|congruence]). congruence.
Qed.

(** ** The last loop *)

Lemma progress_advance input results steps s :
  progress input results steps = inr Advance → s ∈ steps →
  ∃ r, latest results (vs_id s) = Some r ∧ completed r = true ∧ failed_review r = false
    ∧ (hasCapability (vs_contract s) CapReview = true → sr_verdict r ≠ "")
    ∧ (pi_human input = true → step_rhs (vs_step s) = true →
       hasApproval (pi_approvals input) r = true).
Proof.
  induction steps as [|s' later IH]; simpl; [intros _ H; by apply elem_of_nil in H|].
  intros H [->|Hs]%elem_of_cons.
  - destruct (latest results (vs_id s')) as [r|]; [|by destruct (any_latest _ _)].
    destruct (negb (completed r) || failed_review r) eqn:Hc; [done|].
    apply orb_false_split in Hc as [Hc%negb_false_iff Hf].
    destruct (_ && (_ =? _)%string) eqn:Hv; [done|].
    destruct (pi_human input && _ && _) eqn:Ha; [by destruct (any_latest _ _)|].
    exists r. split_and!; try done.
    + intros Hcap Hnil. by rewrite Hcap, Hnil in Hv.
    + intros Hh Hr. rewrite Hh, Hr in Ha. by apply negb_false_iff in Ha.
  - apply IH; [|done]. destruct (latest results (vs_id s')); [|by destruct (any_latest _ _)].
    destruct (_ || _); [done|]. destruct (_ && _); [done|].
    destruct (_ && _ && _); [by destruct (any_latest _ _)|done].
Qed.

Lemma any_latest_false results steps s :
  any_latest results steps = false → s ∈ steps → latest results (vs_id s) = None.
Proof.
  unfold any_latest. intros H Hs. destruct (latest results (vs_id s)) eqn:Hl; [|done].
  assert (existsb (λ s, bool_decide (is_Some (latest results (vs_id s)))) steps = true);
    [|congruence].
  apply existsb_exists. exists s. rewrite <- list_elem_of_In. split; [done|].
  apply bool_decide_eq_true. rewrite Hl. eauto.
Qed.

(** Unless it pauses, the history is a prefix of the flow. *)
Lemma progress_prefix input results steps d :
  progress input results steps = inr d → d ≠ Pause →
  ∃ n, (∀ k s, steps !! k = Some s → k < n → is_Some (latest results (vs_id s)))
    ∧ (∀ k s, steps !! k = Some s → n ≤ k → latest results (vs_id s) = None)
    ∧ n ≤ length steps ∧ (d = Advance → n = length steps).
Proof.
  induction steps as [|s later IH]; simpl; intros H Hd.
  { exists 0. split_and!; [intros ? ?; lia|done|lia|done]. }
  assert (∀ k x m, (s :: later) !! k = Some x → S m ≤ k → ∃ k', later !! k' = Some x ∧ m ≤ k')
    as Hpred. { intros [|k] x m Hk Hle; [lia|]. exists k. split; [done|lia]. }
  destruct (latest results (vs_id s)) as [r|] eqn:Hl.
  - destruct (_ || _); [injection H as <-; done|].
    destruct (_ && _); [done|]. destruct (_ && _ && _).
    + destruct (any_latest results later) eqn:Ha; [done|]. injection H as <-.
      exists 1. split_and!; [|intros k x Hk Hle|lia|done].
      * intros [|k] x Hk Hlt; [|lia]. simpl in Hk. injection Hk as <-. eauto.
      * destruct (Hpred k x 0 Hk Hle) as (k' & Hk' & _).
        eapply any_latest_false; [done|by eapply list_elem_of_lookup_2].
    + destruct (IH H Hd) as (n & H1 & H2 & H3 & H4). exists (S n).
      split_and!; [| |lia|intros; f_equal; auto].
      * intros [|k] x Hk Hlt; simpl in Hk; [injection Hk as <-; eauto|].
        apply (H1 k); [done|lia].
      * intros k x Hk Hle. destruct (Hpred k x n Hk Hle) as (k' & Hk' & ?). by eapply H2.
  - destruct (any_latest results later) eqn:Ha; [done|]. injection H as <-. exists 0.
    split_and!; [intros; lia| |lia|done]. intros [|k] x Hk _; simpl in Hk.
    + by injection Hk as <-.
    + eapply any_latest_false; [done|by eapply list_elem_of_lookup_2].
Qed.
