(* ===== verification/PolicyContracts.v ===== *)
(** * The promises of the workflow policy

    What a flow that [Validate] accepted and [Decide] lets advance has behind
    it: every step done, every write inspected by others, nothing shipped
    before that, and no result replaced without authority. *)

From S2P Require Import Prelude GoStrings Flow Policy PolicyTheory.

Open Scope nat_scope.
Open Scope list_scope.

(** ** A flow to evaluate the policy on: write, review, verify, ship *)

Definition any_schema (_ : RawJson) : bool := true.
Definition any_params (_ _ : RawJson) : bool := true.
Definition any_match (_ : RawJson) (_ : string) (_ : RawJson) (_ : string) : bool := true.

Definition skill_of (id : string) (cap : string) : SkillBinding :=
  mkBinding id 1 (mkContract [cap] "" "" "" false).
Definition flow_step (id skill : string) (rhs : option bool) (inputs : list InputRef) : Step :=
  mkFlowStep id skill 1 rhs [mkCandidate "claude" "m" "high"] "" inputs.

Definition demo_flow : Flow :=
  mkFlow 3 [flow_step "write" "coder" None [];
            flow_step "review" "reviewer" (Some true) [mkInput "diff" "write" "diff"];
            flow_step "verify" "verifier" None [mkInput "diff" "write" "diff"];
            flow_step "ship" "shipper" None []].
Definition demo_bindings : list SkillBinding :=
  [skill_of "coder" "authoring"; skill_of "reviewer" CapReview;
   skill_of "verifier" CapVerification; skill_of "shipper" CapShipping].
Definition demo_grants : gmap string StepGrant :=
  list_to_map [("write", mkGrant AuthorityWrite IsolationShared);
               ("review", mkGrant AuthorityReadOnly IsolationRequired);
               ("verify", mkGrant AuthorityReadOnly IsolationRequired);
               ("ship", mkGrant AuthorityWrite IsolationShared)].

Definition digest : string :=
  "sha256:0123456789abcdef0123456789abcdef0123456789abcdef0123456789abcdef".
Definition artifact (id : string) : ArtifactRef := mkArtifact id 1 digest.
Definition result_of (step att verdict producer : string) : StepResult :=
  mkResult StatusCompleted verdict "wi_a" 3 step att 1 producer (artifact att)
    [mkEvidence "log" "run/1" digest].

Definition demo_history : list StepResult :=
  [result_of "write" "sa1" "" "alice"; result_of "review" "sa2" ReviewPass "bob";
   result_of "verify" "sa3" "" "carol"; result_of "ship" "sa4" "" "alice"].
Definition demo_approval : HumanApproval :=
  mkApproval "wi_a" 3 "review" (artifact "sa2") "u1" ApprovalGranted.
Definition policy_for (results : list StepResult) : PolicyInput :=
  mkPolicy true (expectedFor <$> results) [demo_approval] None [].

Definition demo_validated : result FlowErr ValidatedFlow := Eval vm_compute in
  Validate any_schema any_params any_match demo_flow demo_bindings demo_grants.
Definition demo : ValidatedFlow := Eval vm_compute in
  match demo_validated with inr f => f | inl _ => mkVFlow demo_flow [] ∅ end.

Lemma demo_valid :
  Validate any_schema any_params any_match demo_flow demo_bindings demo_grants = inr demo.
Proof. vm_compute. reflexivity. Qed.

Lemma demo_advances : Decide demo demo_history (policy_for demo_history) = inr Advance.
Proof. vm_compute. reflexivity. Qed.

(** A failed review and its authorized second attempt. *)
Definition retry_history : list StepResult :=
  [result_of "write" "sa1" "" "alice"; result_of "review" "sa2" ReviewFail "bob";
   result_of "review" "sa5" ReviewPass "bob"].
Definition retry_input : PolicyInput :=
  mkPolicy true (expectedFor <$> retry_history) []
    (Some (mkRepair "sa2" (expectedFor (result_of "review" "sa5" ReviewPass "bob")) true
             "reviewer misread the diff")) [].

Lemma retry_waits : Decide demo retry_history retry_input = inr Wait.
Proof. vm_compute. reflexivity. Qed.

(** ** What a result says *)

Lemma validateResult_spec k r s :
  validateResult k r s = inr tt →
  (hasCapability (vs_contract s) CapReview = true → sr_verdict r ≠ "" →
   sr_verdict r ∈ [ReviewPass; ReviewWarn; ReviewFail])
  ∧ (gate s = true → completed r = true → sr_evidence r ≠ []).
Proof.
  unfold validateResult, gate. destruct (negb (known_status _)); [done|].
  destruct (_ || _); [done|]. intros ([] & _ & H)%rbind_ok.
  apply rbind_ok in H as ([] & Hv & H). split.
  - intros Hrev Hne. unfold verdict_check in Hv. rewrite Hrev in Hv.
    destruct (bool_decide (sr_verdict r ∈ _)) eqn:Hin; [by apply bool_decide_eq_true in Hin|].
    by destruct (String.eqb_spec (sr_verdict r) "").
  - intros Hg Hc Hnil. rewrite Hg, Hc, Hnil in H. by rewrite bool_decide_eq_true_2 in H.
Qed.

(** Facts about the latest result of a step, from an accepted history. *)
Lemma accepted_latest flow results input d s r :
  NoDup (vs_id <$> vf_steps flow) → accepted flow results input d →
  s ∈ vf_steps flow → latest results (vs_id s) = Some r →
  sr_step r = vs_id s ∧ r ∈ results ∧ ∃ k, validateResult k r s = inr tt.
Proof.
  intros Hnd Hac [i Hi]%list_elem_of_lookup Hl.
  apply latest_in, by_step_in in Hl as [Hid Hin]. split; [done|]. split; [done|].
  apply list_elem_of_lookup in Hin as [k Hk].
  destruct (accepted_result _ _ _ _ _ _ Hac Hk) as (s' & Hs' & Hv).
  destruct (find_step_nodup flow i s Hnd Hi) as [Hf _].
  rewrite Hid, Hf in Hs'. injection Hs' as <-. eauto.
Qed.

Lemma accepted_advance flow results input :
  accepted flow results input Advance →
  (∃ fr, check_repair flow input results fr = inr None)
  ∧ validateProducerIndependence flow results = inr tt
  ∧ validateShippingEventOrder flow results = inr tt
  ∧ progress input results (vf_steps flow) = inr Advance.
Proof.
  intros [_ _ _ _ (fr & early & _ & Hrep & Hend)].
  destruct early as [d'|]; [|destruct Hend as (? & ? & ?); eauto].
  subst d'. exfalso. unfold check_repair in Hrep. break_all Hrep.
Qed.

Lemma hasApproval_spec approvals r :
  hasApproval approvals r = true →
  ∃ a, a ∈ approvals ∧ ap_decision a = ApprovalGranted ∧ ap_step a = sr_step r
    ∧ ap_artifact a = sr_artifact r ∧ ap_wi a = sr_wi r
    ∧ ap_flow_version a = sr_flow_version r.
Proof.
  unfold hasApproval. intros (a & Ha & H)%existsb_exists. apply list_elem_of_In in Ha.
  exists a. reflect_bools. by split_and!.
Qed.

(** ** Advancing *)

(** C22. When [Decide] lets a validated flow advance, every step's latest
    result is completed; a review carries a pass or a warning; a gate carries
    evidence; and where the item asks for a human and the step does too, a
    human approved exactly that artifact of that step. *)
Theorem advance_means_done sc pc sm fl bs granted flow results input s :
  Validate sc pc sm fl bs granted = inr flow →
  Decide flow results input = inr Advance → s ∈ vf_steps flow →
  ∃ r, latest results (vs_id s) = Some r ∧ sr_status r = StatusCompleted
    ∧ (hasCapability (vs_contract s) CapReview = true →
       sr_verdict r = ReviewPass ∨ sr_verdict r = ReviewWarn)
    ∧ (gate s = true → sr_evidence r ≠ [])
    ∧ (pi_human input = true → step_rhs (vs_step s) = true →
       ∃ a, a ∈ pi_approvals input ∧ ap_decision a = ApprovalGranted
         ∧ ap_step a = vs_id s ∧ ap_artifact a = sr_artifact r ∧ ap_wi a = sr_wi r
         ∧ ap_flow_version a = sr_flow_version r).
Proof.
  intros Hval%Validate_valid Hdec%Decide_accepted Hs.
  destruct (accepted_advance _ _ _ Hdec) as (_ & _ & _ & Hp).
  destruct (progress_advance _ _ _ _ Hp Hs) as (r & Hl & Hc & Hf & Hv & Ha).
  destruct (accepted_latest _ _ _ _ _ _ (va_nodup _ Hval) Hdec Hs Hl) as (Hid & _ & k & Hok).
  apply validateResult_spec in Hok as [Hok1 Hok2]. exists r. split_and!; [done| | |by auto|].
  - by apply String.eqb_eq in Hc.
  - intros Hrev. specialize (Hok1 Hrev (Hv Hrev)). apply String.eqb_neq in Hf. set_solver.
  - intros H1 H2. rewrite <- Hid. by apply hasApproval_spec, Ha.
Qed.

Lemma advance_means_done_witness :
  ∃ r, latest demo_history "review" = Some r ∧ sr_status r = StatusCompleted
    ∧ sr_verdict r = ReviewPass.
Proof.
  destruct (advance_means_done any_schema any_params any_match demo_flow demo_bindings
    demo_grants demo demo_history (policy_for demo_history)
    (mkVStep (flow_step "review" "reviewer" (Some true) [mkInput "diff" "write" "diff"])
       (mkContract [CapReview] "" "" "" false))) as (r & Hl & Hst & _).
  - exact demo_valid.
  - exact demo_advances.
  - apply list_elem_of_lookup. exists 1. reflexivity.
  - exists r. split; [exact Hl|]. split; [exact Hst|]. vm_compute in Hl.
    injection Hl as <-. reflexivity.
Defined.

(** ** Inspection by others *)

Lemma review_gate_gate g s : review_gate g s = true → isolated g s = true ∧ gate s = true.
Proof. unfold review_gate, gate. intros [-> ->]%andb_true_iff. done. Qed.

Lemma verification_gate_gate g s :
  verification_gate g s = true → isolated g s = true ∧ gate s = true.
Proof. unfold verification_gate, gate. intros [-> ->]%andb_true_iff. by rewrite orb_true_r. Qed.

(** ** Shipping *)

(** What precedes a shipping event. *)
Lemma ship_order_spec flow results k ship s :
  validateShippingEventOrder flow results = inr tt → results !! k = Some ship →
  findValidatedStep flow (sr_step ship) = Some s → is_shipping s = true →
  ∃ w a b, w < a < k ∧ w < b < k ∧ a ≠ b
    ∧ at_result flow (λ _ s, impl_write (vf_grants flow) s) results w = true
    ∧ (∀ j, w < j < k →
         at_result flow (λ _ s, impl_write (vf_grants flow) s) results j = false)
    ∧ at_result flow (passing_review flow) results a = true
    ∧ at_result flow (passing_verification flow) results b = true.
Proof.
  intros H Hk Hs Hship. pose proof (proj1 (check_from_ok _ _ _) H k ship Hk) as Ho.
  simpl in Ho. unfold ship_order in Ho.
  assert (at_result flow (λ _ s, is_shipping s) results k = true) as Hat
    by (apply at_result_true; eauto 6).
  rewrite Hat in Ho. simpl in Ho.
  pose proof (find_down_spec (at_result flow (λ _ s, impl_write (vf_grants flow) s) results) k)
    as Hd.
  destruct (find_down _ k) as [w|]; [|done]. destruct Hd as (Hlt & Hw & Hno).
  destruct (gate_attempts _ _ _ _) as [review verify] eqn:Hg.
  destruct (_ || _) eqn:Hb; [done|]. reflect_bools.
  destruct (gate_attempts_spec _ _ _ _ _ _ Hg) as (a & b & ? & ? & ? & ? & ?); [done..|].
  exists w, a, b. split_and!; try lia; done.
Qed.

(** An inspecting event shares no producer with the write it follows, when no
    repair reorders the history. *)
Lemma events_independent flow results input d w a rw ra sw sa :
  accepted flow results input d → validateProducerIndependence flow results = inr tt →
  pi_repair input = None → pi_episodes input = [] →
  results !! w = Some rw → findValidatedStep flow (sr_step rw) = Some sw →
  impl_write (vf_grants flow) sw = true →
  results !! a = Some ra → findValidatedStep flow (sr_step ra) = Some sa →
  isolated (vf_grants flow) sa = true → gate sa = true → w < a →
  sr_producer rw ≠ sr_producer ra.
Proof.
  intros Hac Hind Hr He Hw Hsw Hwr Ha Hsa Hiso Hg Hlt.
  pose proof (check_order_spec _ _ _ _ _ _ _ _ (ac_order _ _ _ _ Hac) Hw Ha Hlt
    (is_repair_none _ _ Hr He) (is_repair_none _ _ Hr He)) as Hpos.
  apply find_step_some in Hsw as [Hpw Hidw], Hsa as [Hpa Hida].
  eapply (independent_spec flow results _ _ sa sw ra rw Hind Hpa Hiso Hg Hpw); try done.
  - destruct (decide (stepPosition flow (sr_step rw) = stepPosition flow (sr_step ra)))
      as [Heq|]; [|lia].
    rewrite Heq, Hpa in Hpw. injection Hpw as <-.
    unfold isolated in Hiso. unfold impl_write, writes in Hwr. reflect_bools.
    unfold AuthorityReadOnly, AuthorityWrite in *. congruence.
  - apply by_step_in. split; [done|]. by eapply list_elem_of_lookup_2.
  - apply by_step_in. split; [done|]. by eapply list_elem_of_lookup_2.
Qed.

(** Nothing ships uninspected: in an accepted history (one that advances,
    or any decision when no repair is pending) each shipping event has a latest
    implementation write before it and, between the two, a completed passing
    review and a completed verification, distinct events of isolated read-only
    steps.  Without repairs neither has the producer of that write. *)
Theorem shipping_is_gated flow results input d k ship s :
  Decide flow results input = inr d → d = Advance ∨ pi_repair input = None →
  results !! k = Some ship → findValidatedStep flow (sr_step ship) = Some s →
  is_shipping s = true →
  ∃ w a b rw ra rb, w < a < k ∧ w < b < k ∧ a ≠ b
    ∧ results !! w = Some rw ∧ results !! a = Some ra ∧ results !! b = Some rb
    ∧ at_result flow (λ _ s, impl_write (vf_grants flow) s) results w = true
    ∧ (∀ j, w < j < k →
         at_result flow (λ _ s, impl_write (vf_grants flow) s) results j = false)
    ∧ at_result flow (passing_review flow) results a = true
    ∧ at_result flow (passing_verification flow) results b = true
    ∧ (pi_repair input = None → pi_episodes input = [] →
       sr_producer rw ≠ sr_producer ra ∧ sr_producer rw ≠ sr_producer rb).
Proof.
  intros Hdec%Decide_accepted Hd Hk Hs Hship.
  assert (validateProducerIndependence flow results = inr tt
          ∧ validateShippingEventOrder flow results = inr tt) as [Hind Hord].
  { destruct Hd as [->|Hr]; [by destruct (accepted_advance _ _ _ Hdec) as (_ & ? & ? & _)|].
    destruct Hdec as [_ _ _ _ (fr & early & _ & Hrep & Hend)].
    destruct early; [|by destruct Hend as (? & ? & _)].
    unfold check_repair in Hrep. rewrite Hr in Hrep. break_all Hrep. }
  destruct (ship_order_spec _ _ _ _ _ Hord Hk Hs Hship)
    as (w & a & b & Hwa & Hwb & Hne & Hw & Hno & Ha & Hb).
  pose proof Hw as (rw & sw & Hrw & Hsw & Hiw)%at_result_true.
  pose proof Ha as (ra & sa & Hra & Hsa & Hpa)%at_result_true.
  pose proof Hb as (rb & sb & Hrb & Hsb & Hpb)%at_result_true.
  exists w, a, b, rw, ra, rb. split_and!; try lia; try done. intros Hr He.
  unfold passing_review, passing_verification, gate_result in Hpa, Hpb. reflect_bools.
  split; eapply (events_independent _ _ _ _ w); eauto; try lia; unfold gate; by
    repeat match goal with H : hasCapability _ _ = true |- _ => rewrite H end;
    rewrite ?orb_true_r.
Qed.

Lemma shipping_is_gated_witness :
  ∃ w a b rw ra, w < a < 3 ∧ w < b < 3 ∧ a ≠ b
    ∧ demo_history !! w = Some rw ∧ demo_history !! a = Some ra
    ∧ sr_producer rw ≠ sr_producer ra.
Proof.
  destruct (findValidatedStep demo "ship") as [s|] eqn:Hs; [|by vm_compute in Hs].
  destruct (shipping_is_gated demo demo_history (policy_for demo_history) Advance 3
    (result_of "ship" "sa4" "" "alice") s demo_advances) as
    (w & a & b & rw & ra & rb & Hwa & Hwb & Hne & Hw & Ha & _ & _ & _ & _ & _ & Hp).
  - by left.
  - reflexivity.
  - exact Hs.
  - row_fact Hs.
  - destruct Hp as [Hp _]; [reflexivity..|]. by exists w, a, b, rw, ra.
Defined.

(** ** No result is replaced without authority *)

Lemma episode_spec flow results episodes r :
  validateRepairEpisodes flow episodes results = inr tt →
  episodeContainsResult episodes r = true →
  ∃ e f, e ∈ episodes ∧ ep_authorized e = true ∧ blank (ep_reason e) = false
    ∧ sr_attempt r ∈ [ex_attempt (ep_producer e); ex_attempt (ep_verification e);
                      ex_attempt (ep_review e)]
    ∧ f ∈ results ∧ sr_attempt f = ep_failed_review e ∧ failed_review f = true.
Proof.
  intros H (e & He & Hr)%existsb_exists.
  apply list_elem_of_In in He. pose proof He as [k Hk]%list_elem_of_lookup.
  pose proof (proj1 (check_from_ok _ _ _) H k e Hk) as Hv. simpl in Hv.
  unfold validate_episode in Hv. destruct (negb (ep_authorized e) || _) eqn:Ha; [done|].
  destruct (values results !! ep_failed_review e) as [f|] eqn:Hf; [|done].
  destruct (negb (failed_review f)) eqn:Hff; [done|].
  apply values_in in Hf as [Hin Hatt]. reflect_bools.
  exists e, f. split_and!; try done.
  apply orb_true_iff in Hr as [[Hr|Hr]%orb_true_iff|Hr]; apply String.eqb_eq in Hr; set_solver.
Qed.

(** No reroll: when [Decide] accepts a history in which a step has a second
    result, either that result belongs to an authorized repair episode with a
    reason, bound to a review that failed; or the controller's repair
    authorization, with a reason, names exactly the first attempt and the
    invocation of the second, and the first attempt had not succeeded.  A step
    that completed without failing a review is never run again this way. *)
Theorem retries_are_authorized sc pc sm fl bs granted flow results input d i j r r' :
  Validate sc pc sm fl bs granted = inr flow →
  Decide flow results input = inr d →
  results !! i = Some r → results !! j = Some r' → i < j → sr_step r = sr_step r' →
  (∃ e f, e ∈ pi_episodes input ∧ ep_authorized e = true ∧ blank (ep_reason e) = false
     ∧ sr_attempt r' ∈ [ex_attempt (ep_producer e); ex_attempt (ep_verification e);
                        ex_attempt (ep_review e)]
     ∧ f ∈ results ∧ sr_attempt f = ep_failed_review e ∧ failed_review f = true)
  ∨ (pi_episodes input = [] ∧ (completed r = false ∨ failed_review r = true)
     ∧ ∃ a, pi_repair input = Some a ∧ rp_authorized a = true ∧ blank (rp_reason a) = false
         ∧ rp_failed a = sr_attempt r ∧ rp_retry a = expectedFor r').
Proof.
  intros Hval%Validate_valid Hdec%Decide_accepted Hi Hj Hlt Hid.
  destruct (accepted_result _ _ _ _ _ _ Hdec Hj) as (s & Hs & _).
  apply find_step_some in Hs as [Hs Hids]. apply list_elem_of_lookup_2 in Hs.
  destruct (by_step_split _ (vs_id s) _ _ _ _ Hi Hj Hlt) as (l1 & l2 & Hby & Hr);
    [by rewrite Hid|done|].
  destruct l1 as [|first l1]; [by apply elem_of_nil in Hr|]. simpl in Hby.
  destruct Hdec as [_ _ Hep _ (fr & early & Hfr & Hrep & _)].
  destruct (decide (pi_episodes input = [])) as [Hnil|Hne].
  - right. destruct (check_retries_spec _ _ _ _ _ Hnil Hfr) as [_ Hall].
    destruct (Hall s Hs) as [Hlen|(f & c & -> & Hby' & Hbad)].
    { rewrite Hby in Hlen. simpl in Hlen. rewrite length_app in Hlen. simpl in Hlen. lia. }
    rewrite Hby in Hby'. destruct l1 as [|x l1]; [|by destruct l1].
    simpl in Hby'. injection Hby' as <- <- ->.
    apply list_elem_of_singleton in Hr as <-.
    split_and!; [done|done|]. unfold check_repair in Hrep. rewrite Hnil in Hrep. simpl in Hrep.
    destruct (pi_repair input) as [a|]; [|done].
    destruct (_ || _) eqn:Ha; [done|]. reflect_bools. exists a. by split_and!.
  - left. eapply (episode_spec flow); [exact Hep|].
    eapply (check_retries_episode _ _ _ _ _ s first); eauto. set_solver.
Qed.

Lemma retries_are_authorized_witness :
  ∃ r r' a, retry_history !! 1 = Some r ∧ retry_history !! 2 = Some r'
    ∧ pi_repair retry_input = Some a ∧ rp_failed a = sr_attempt r
    ∧ rp_retry a = expectedFor r'.
Proof.
  destruct (retries_are_authorized any_schema any_params any_match demo_flow demo_bindings
    demo_grants demo retry_history retry_input Wait 1 2 _ _ demo_valid retry_waits
    eq_refl eq_refl) as [(e & _ & He & _)|(_ & _ & a & Ha & _ & _ & Hf & Hr)].
  - lia.
  - reflexivity.
  - vm_compute in He. by inversion He.
  - eexists _, _, a. split; [reflexivity|]. split; [reflexivity|]. done.
Defined.

(** ** Without repairs a history is a prefix of the flow *)

Lemma positions_increase flow results input d i j r r' :
  valid_flow flow → accepted flow results input d →
  pi_repair input = None → pi_episodes input = [] →
  results !! i = Some r → results !! j = Some r' → i < j →
  stepPosition flow (sr_step r) < stepPosition flow (sr_step r').
Proof.
  intros Hval Hac Hrep Hep Hi Hj Hlt.
  pose proof (check_order_spec _ _ _ _ _ _ _ _ (ac_order _ _ _ _ Hac) Hi Hj Hlt
    (is_repair_none _ _ Hrep Hep) (is_repair_none _ _ Hrep Hep)) as Hle.
  destruct (accepted_result _ _ _ _ _ _ Hac Hi) as (s & Hs & _).
  destruct (accepted_result _ _ _ _ _ _ Hac Hj) as (s' & Hs' & _).
  apply find_step_some in Hs as [Hp Hid], Hs' as [Hp' Hid'].
  destruct (decide (stepPosition flow (sr_step r) = stepPosition flow (sr_step r')))
    as [Heq|]; [exfalso|lia].
  rewrite <- Heq, Hp in Hp'. injection Hp' as <-.
  destruct (by_step_split _ (vs_id s) _ _ _ _ Hi Hj Hlt) as (l1 & l2 & Hby & Hr); [done..|].
  destruct Hac as [_ _ _ _ (fr & early & Hfr & Hr2 & _)].
  destruct (check_retries_spec _ _ _ _ _ Hep Hfr) as [_ Hall].
  destruct (Hall s) as [Hlen|(f & c & -> & _)]; [by eapply list_elem_of_lookup_2| |].
  - rewrite Hby, length_app in Hlen. simpl in Hlen.
    destruct l1; [by apply elem_of_nil in Hr|simpl in Hlen; lia].
  - unfold check_repair in Hr2. rewrite Hep, Hrep in Hr2. by simpl in Hr2.
Qed.

(** A strictly increasing list whose values fill [0 .. n-1] counts up. *)
Lemma increasing_seq (l : list nat) n :
  (∀ i j x y, l !! i = Some x → l !! j = Some y → i < j → x < y) →
  (∀ x, x ∈ l ↔ x < n) → l = seq 0 n.
Proof.
  intros Hinc Hfill. apply list_eq. intros i.
  assert (∀ i x, l !! i = Some x → i ≤ x) as Hge.
  { induction i0 as [|i0 IH]; intros x Hx; [lia|].
    destruct (lookup_lt_is_Some_2 l i0) as [y Hy]; [apply lookup_lt_Some in Hx; lia|].
    pose proof (Hinc _ _ _ _ Hy Hx ltac:(lia)). pose proof (IH _ Hy). lia. }
  assert (∀ x, x < n → l !! x = Some x) as Hself.
  { induction x as [x IH] using lt_wf_ind. intros Hx.
    pose proof (proj2 (Hfill x) Hx) as [k Hk]%list_elem_of_lookup.
    pose proof (Hge _ _ Hk). destruct (decide (k = x)) as [->|]; [done|].
    pose proof (IH k ltac:(lia) ltac:(lia)) as Hkk. rewrite Hk in Hkk. congruence. }
  destruct (decide (i < n)) as [Hi|Hi].
  - rewrite Hself, lookup_seq_lt by done. done.
  - rewrite lookup_seq_ge by lia. destruct (l !! i) as [x|] eqn:Hx; [|done].
    pose proof (Hge _ _ Hx). assert (x < n) by (apply Hfill; by eapply list_elem_of_lookup_2).
    lia.
Qed.

(** Without repairs, a history that does not pause is the flow's steps in
    order, each once, up to where the flow stands; it advances only when all of
    them are there. *)
Lemma history_is_flow sc pc sm fl bs granted flow results input d :
  Validate sc pc sm fl bs granted = inr flow →
  Decide flow results input = inr d → d ≠ Pause →
  pi_repair input = None → pi_episodes input = [] →
  ∃ n, sr_step <$> results = take n (st_id <$> fl_steps (vf_flow flow))
    ∧ (d = Advance → n = length (fl_steps (vf_flow flow))).
Proof.
  intros Hval%Validate_valid Hdec%Decide_accepted Hd Hrep Hep.
  assert (progress input results (vf_steps flow) = inr d) as Hp.
  { destruct Hdec as [_ _ _ _ (fr & early & _ & Hr & Hend)].
    unfold check_repair in Hr. rewrite Hrep, Hep in Hr. simpl in Hr.
    destruct fr as [[]|]; [done|]. simpl in Hr. injection Hr as <-. by destruct Hend as (_ & _ & ?). }
  destruct (progress_prefix _ _ _ _ Hp Hd) as (n & Hin & Hout & Hle & Hadv).
  set (pos r := stepPosition flow (sr_step r)).
  assert (∀ r, r ∈ results → ∃ s, vf_steps flow !! pos r = Some s ∧ vs_id s = sr_step r) as Hpos.
  { intros r [k Hk]%list_elem_of_lookup.
    destruct (accepted_result _ _ _ _ _ _ Hdec Hk) as (s & Hs & _).
    exists s. by apply find_step_some. }
  assert (pos <$> results = seq 0 n) as Hseq.
  { apply increasing_seq.
    - intros i j x y Hx Hy Hlt. rewrite list_lookup_fmap in Hx, Hy.
      destruct (results !! i) as [r|] eqn:Hi; [|done].
      destruct (results !! j) as [r'|] eqn:Hj; [|done]. simplify_eq/=.
      by eapply positions_increase.
    - intros x. split.
      + intros (r & -> & Hr)%list_elem_of_fmap. destruct (Hpos r Hr) as (s & Hs & Hid).
        destruct (decide (pos r < n)) as [|Hge]; [done|exfalso].
        pose proof (Hout _ _ Hs ltac:(lia)) as Hnone.
        destruct (latest_some results (vs_id s) r Hr ltac:(done)) as [? ?]. congruence.
      + intros Hx. destruct (lookup_lt_is_Some_2 (vf_steps flow) x ltac:(lia)) as [s Hs].
        destruct (Hin _ _ Hs Hx) as [r Hr]. apply latest_in, by_step_in in Hr as [Hid Hr].
        apply list_elem_of_fmap. exists r. split; [|done]. unfold pos. rewrite Hid.
        by destruct (find_step_nodup flow x s (va_nodup _ Hval) Hs) as [_ ->]. }
  exists n. rewrite <- (va_steps _ Hval), length_fmap. split; [|done].
  apply list_eq. intros i. rewrite <- list_fmap_compose, !list_lookup_fmap.
  destruct (results !! i) as [r|] eqn:Hi; simpl.
  - destruct (Hpos r) as (s & Hs & Hid); [by eapply list_elem_of_lookup_2|].
    assert ((pos <$> results) !! i = Some (pos r)) as Hpi by by rewrite list_lookup_fmap, Hi.
    rewrite Hseq in Hpi. apply lookup_seq in Hpi as [Hpi Hlt]. simpl in Hpi.
    rewrite lookup_take_lt by lia. rewrite list_lookup_fmap, <- Hpi, Hs. simpl. by rewrite <- Hid.
  - assert ((pos <$> results) !! i = None) as Hpi by by rewrite list_lookup_fmap, Hi.
    rewrite Hseq in Hpi. apply lookup_ge_None in Hpi. rewrite length_seq in Hpi.
    by rewrite lookup_take_ge by lia.
Qed.

Lemma history_is_flow_witness :
  ∃ n, sr_step <$> demo_history = take n ["write"; "review"; "verify"; "ship"] ∧ n = 4.
Proof.
  destruct (history_is_flow any_schema any_params any_match demo_flow demo_bindings
    demo_grants demo demo_history (policy_for demo_history) Advance demo_valid demo_advances)
    as (n & Hn & Hadv).
  - discriminate.
  - reflexivity.
  - reflexivity.
  - exists n. split; [exact Hn|exact (Hadv eq_refl)].
Defined.

(** ** Every write is inspected *)

(** Without repairs the history of an advancing flow is the flow: the event at
    an index is the result of the step at that index. *)
Lemma advance_event sc pc sm fl bs granted flow results input k r :
  Validate sc pc sm fl bs granted = inr flow → Decide flow results input = inr Advance →
  pi_repair input = None → pi_episodes input = [] → results !! k = Some r →
  ∃ s, vf_steps flow !! k = Some s ∧ findValidatedStep flow (sr_step r) = Some s
    ∧ sr_step r = vs_id s.
Proof.
  intros Hval Hdec Hr He Hk.
  destruct (history_is_flow _ _ _ _ _ _ _ _ _ _ Hval Hdec ltac:(done) Hr He)
    as (n & Hn & Hadv).
  apply Validate_valid in Hval. specialize (Hadv eq_refl) as ->.
  rewrite firstn_all2 in Hn by (rewrite length_fmap; lia).
  rewrite <- (va_steps _ Hval), <- list_fmap_compose in Hn.
  assert ((vs_id <$> vf_steps flow) !! k = Some (sr_step r)) as Hs.
  { change (vs_id <$> vf_steps flow) with (st_id ∘ vs_step <$> vf_steps flow).
    by rewrite <- Hn, list_lookup_fmap, Hk. }
  rewrite list_lookup_fmap in Hs. destruct (vf_steps flow !! k) as [s|] eqn:E; [|done].
  simpl in Hs. injection Hs as Hs. exists s. split; [done|]. split; [|done].
  rewrite <- Hs. by destruct (find_step_nodup flow k s (va_nodup _ Hval) E).
Qed.

Lemma advance_at sc pc sm fl bs granted flow results input p k :
  Validate sc pc sm fl bs granted = inr flow → Decide flow results input = inr Advance →
  pi_repair input = None → pi_episodes input = [] →
  at_result flow (λ _ s, p s) results k = at_step p (vf_steps flow) k.
Proof.
  intros Hval Hdec Hr He. unfold at_result, at_step.
  destruct (results !! k) as [r|] eqn:Hk.
  - by destruct (advance_event _ _ _ _ _ _ _ _ _ _ _ Hval Hdec Hr He Hk) as (s & -> & -> & _).
  - destruct (history_is_flow _ _ _ _ _ _ _ _ _ _ Hval Hdec ltac:(done) Hr He)
      as (n & Hn & Hadv).
    apply Validate_valid in Hval. specialize (Hadv eq_refl) as ->.
    apply (f_equal length) in Hn.
    rewrite firstn_all2, !length_fmap, <- (va_steps _ Hval), length_fmap in Hn
      by (rewrite length_fmap; lia).
    apply lookup_ge_None in Hk. by rewrite lookup_ge_None_2 by lia.
Qed.

Lemma advance_passed sc pc sm fl bs granted flow results input k r s :
  Validate sc pc sm fl bs granted = inr flow → Decide flow results input = inr Advance →
  pi_repair input = None → pi_episodes input = [] →
  results !! k = Some r → findValidatedStep flow (sr_step r) = Some s →
  completed r = true ∧ failed_review r = false ∧ (gate s = true → sr_evidence r ≠ []).
Proof.
  intros Hval Hdec Hr He Hk Hs.
  destruct (advance_event _ _ _ _ _ _ _ _ _ _ _ Hval Hdec Hr He Hk) as (s' & Hs' & Hf & Hid).
  assert (s' = s) as -> by congruence. clear Hf.
  pose proof Hval as Hv%Validate_valid. pose proof Hdec as Hac%Decide_accepted.
  destruct (accepted_advance _ _ _ Hac) as (_ & _ & _ & Hp).
  destruct (progress_advance _ _ _ _ Hp (list_elem_of_lookup_2 _ _ _ Hs'))
    as (r' & Hl & Hc & Hnf & _).
  apply latest_in, by_step_in in Hl as [Hid' [k' Hk']%list_elem_of_lookup].
  destruct (advance_event _ _ _ _ _ _ _ _ _ _ _ Hval Hdec Hr He Hk') as (s2 & Hs2 & _ & Hid2).
  assert (k' = k) as ->.
  { apply (NoDup_lookup (vs_id <$> vf_steps flow) k' k (vs_id s)); [apply Hv| |];
      rewrite list_lookup_fmap; [rewrite Hs2|rewrite Hs']; simpl; congruence. }
  assert (r' = r) as -> by congruence. split; [done|]. split; [done|]. intros Hg.
  destruct (accepted_result _ _ _ _ _ _ Hac Hk) as (s3 & Hs3 & Hok).
  assert (s3 = s) as -> by congruence. apply validateResult_spec in Hok as [_ Hev]. auto.
Qed.

(** C20. Every write is inspected afterwards: in the history of a flow that
    advances without repairs, the last implementation write is followed, in the
    order of the events, by a completed passing review and by a different
    completed verification, both with evidence, both by read-only steps with
    producers of their own, neither of whom produced the write; and nothing
    ships between the write and the later of the two. *)
Theorem writes_are_inspected sc pc sm fl bs granted flow results input k rw :
  let write := at_result flow (λ _ s, impl_write (vf_grants flow) s) results in
  Validate sc pc sm fl bs granted = inr flow → Decide flow results input = inr Advance →
  pi_repair input = None → pi_episodes input = [] →
  results !! k = Some rw → write k = true → (∀ j, k < j → write j = false) →
  ∃ a ra b rb, k < a ∧ k < b ∧ a ≠ b ∧ results !! a = Some ra ∧ results !! b = Some rb
    ∧ at_result flow (passing_review flow) results a = true
    ∧ at_result flow (passing_verification flow) results b = true
    ∧ sr_evidence ra ≠ [] ∧ sr_evidence rb ≠ []
    ∧ sr_producer rw ≠ sr_producer ra ∧ sr_producer rw ≠ sr_producer rb
    ∧ ∀ j, k < j → j ≤ a ∨ j ≤ b → at_result flow (λ _ s, is_shipping s) results j = false.
Proof.
  intros write Hval Hdec Hr He Hk Hw Hlast. pose proof Hdec as Hac%Decide_accepted.
  destruct (accepted_advance _ _ _ Hac) as (_ & Hind & _).
  pose proof (λ p j, advance_at _ _ _ _ _ _ _ _ _ p j Hval Hdec Hr He) as Hat.
  pose proof Hw as (rw' & sw & Hrw & Hsw & Hiw)%at_result_true.
  assert (rw' = rw) as -> by congruence.
  destruct (advance_event _ _ _ _ _ _ _ _ _ _ _ Hval Hdec Hr He Hk) as (sw' & Hpw & Hfw & _).
  assert (sw' = sw) as -> by congruence.
  destruct (gates_write _ (vf_grants flow) k sw (va_gates _ (Validate_valid _ _ _ _ _ _ _ Hval))
    Hpw Hiw) as (a & b & Ha & Hb & Hne & Hga & Hgb & Hship).
  { intros j [Hj _]. rewrite <- Hat. by apply Hlast. }
  rewrite <- Hat in Hga, Hgb.
  apply at_result_true in Hga as (ra & sa & Hra & Hsa & Hga).
  apply at_result_true in Hgb as (rb & sb & Hrb & Hsb & Hgb).
  destruct (review_gate_gate _ _ Hga) as [Hia Hg1], (verification_gate_gate _ _ Hgb) as [Hib Hg2].
  destruct (advance_passed _ _ _ _ _ _ _ _ _ _ _ _ Hval Hdec Hr He Hra Hsa)
    as (Hca & Hna & Hea).
  destruct (advance_passed _ _ _ _ _ _ _ _ _ _ _ _ Hval Hdec Hr He Hrb Hsb)
    as (Hcb & _ & Heb).
  exists a, ra, b, rb. split_and!; try lia; try done; auto.
  - apply at_result_true. exists ra, sa. split_and!; try done.
    unfold passing_review, gate_result.
    apply andb_true_iff in Hga as [_ Hcap]. by rewrite Hca, Hia, Hna, Hcap.
  - apply at_result_true. exists rb, sb. split_and!; try done.
    unfold passing_verification, gate_result.
    apply andb_true_iff in Hgb as [_ Hcap]. by rewrite Hcb, Hib, Hcap.
  - eapply (events_independent flow results input Advance k a); eauto; lia.
  - eapply (events_independent flow results input Advance k b); eauto; lia.
  - intros j Hj Hle. rewrite Hat. by apply Hship.
Qed.

Lemma writes_are_inspected_witness :
  ∃ a ra b rb, demo_history !! a = Some ra ∧ demo_history !! b = Some rb ∧ a ≠ b
    ∧ 0 < a ∧ 0 < b ∧ sr_producer ra ≠ "alice" ∧ sr_producer rb ≠ "alice".
Proof.
  destruct (writes_are_inspected any_schema any_params any_match demo_flow demo_bindings
    demo_grants demo demo_history (policy_for demo_history) 0
    (result_of "write" "sa1" "" "alice") demo_valid demo_advances eq_refl eq_refl eq_refl)
    as (a & ra & b & rb & Ha & Hb & Hne & Hra & Hrb & _ & _ & _ & _ & Hpa & Hpb & _).
  - by vm_compute.
  - intros [|[|[|[|j]]]] Hj; [lia|by vm_compute..].
  - exists a, ra, b, rb. do 5 (split; [assumption|]).
    split; intros E; [apply Hpa|apply Hpb]; by rewrite E.
Defined.

(** ** Every repair is inspected *)

(** A completed event of an isolated step with the capability, after event [j]
    and in the same epoch or a later one. *)
Definition follow_up (flow : ValidatedFlow) (results : list StepResult) (j : nat)
    (r : StepResult) (cap : string) : Prop :=
  ∃ x rx s, j < x ∧ results !! x = Some rx ∧ findValidatedStep flow (sr_step rx) = Some s
    ∧ hasCapability (vs_contract s) cap = true ∧ completed rx = true
    ∧ gr_isolation (grant_of (vf_grants flow) (vs_id s)) = IsolationRequired
    ∧ (sr_epoch r <= sr_epoch rx)%Z ∧ (cap = CapReview → failed_review rx = false).

Lemma fresh_after_event flow results input d j r rx :
  accepted flow results input d → results !! j = Some r → rx ∈ results →
  fresh_after results (sr_attempt r) (sr_attempt rx) = true →
  ∃ x, j < x ∧ results !! x = Some rx.
Proof.
  intros Hac Hj [x Hx]%list_elem_of_lookup. unfold fresh_after.
  destruct (list_find (λ y, sr_attempt y = sr_attempt r) results) as [[i y]|] eqn:Hf.
  - apply list_find_Some in Hf as (Hi & Ha & _).
    assert (i = j) as -> by (by eapply accepted_unique).
    intros (z & Hz & Hza%String.eqb_eq)%existsb_exists.
    apply list_elem_of_In, list_elem_of_lookup in Hz as [k Hk]. rewrite lookup_drop in Hk.
    assert (S j + k = x) as <- by (by eapply accepted_unique). exists (S j + k).
    split; [lia|done].
  - apply list_find_None in Hf. rewrite Forall_forall in Hf.
    destruct (Hf r); [|done]. by eapply list_elem_of_lookup_2.
Qed.

Lemma fresh_gate_event flow results input d j r s rx :
  valid_flow flow → accepted flow results input d → results !! j = Some r →
  s ∈ vf_steps flow →
  fresh_gate flow (sr_epoch r) results (sr_attempt r) s = Some rx →
  ∃ x, j < x ∧ results !! x = Some rx ∧ findValidatedStep flow (sr_step rx) = Some s
    ∧ completed rx = true
    ∧ gr_isolation (grant_of (vf_grants flow) (vs_id s)) = IsolationRequired
    ∧ (sr_epoch r <= sr_epoch rx)%Z.
Proof.
  intros Hval Hac Hj [i Hi]%list_elem_of_lookup. unfold fresh_gate.
  destruct (latest results (vs_id s)) as [r'|] eqn:Hl; [|done].
  destruct (_ || _) eqn:Hb; [done|]. intros [= ->]. reflect_bools.
  apply latest_in, by_step_in in Hl as [Hid Hin].
  destruct (find_step_nodup flow i s (va_nodup _ Hval) Hi) as [Hf _].
  destruct (fresh_after_event _ _ _ _ _ _ rx Hac Hj Hin ltac:(done)) as (x & Hlt & Hx).
  exists x. rewrite Hid. split_and!; try done. lia.
Qed.

(** A conjunction of facts at hand. *)
Ltac use_bools :=
  repeat match goal with
    | H : ?x = ?y |- context [String.eqb ?x ?y] => rewrite H, String.eqb_refl
    | H : ?x = true |- context [?x] => rewrite H
    | H : ?x = false |- context [?x] => rewrite H
    end; reflexivity.

(** The events of an accepted episode, in order. *)
Definition episode_events (flow : ValidatedFlow) (results : list StepResult)
    (e : RepairEpisode) : Prop :=
  ∃ f i v w rf ri rv rw, f < i < v ∧ v < w
    ∧ results !! f = Some rf ∧ results !! i = Some ri
    ∧ results !! v = Some rv ∧ results !! w = Some rw
    ∧ sr_attempt rf = ep_failed_review e ∧ failed_review rf = true
    ∧ expectedFor ri = ep_producer e ∧ expectedFor rv = ep_verification e
    ∧ expectedFor rw = ep_review e
    ∧ at_result flow (λ r s, completed r && impl_write (vf_grants flow) s) results i = true
    ∧ at_result flow (passing_verification flow) results v = true
    ∧ at_result flow (λ r s, gate_result flow r s && hasCapability (vs_contract s) CapReview)
        results w = true.

Lemma episode_accepted flow results input d e :
  accepted flow results input d → e ∈ pi_episodes input →
  ep_authorized e = true ∧ blank (ep_reason e) = false ∧ episode_events flow results e.
Proof.
  intros Hac [k He]%list_elem_of_lookup.
  pose proof (proj1 (check_from_ok _ _ _) (ac_episodes _ _ _ _ Hac) k e He) as Hv.
  simpl in Hv. unfold validate_episode in Hv.
  destruct (negb (ep_authorized e) || _) eqn:Ha; [done|].
  destruct (values results !! ep_failed_review e) as [rf|] eqn:Hf; [|done].
  destruct (negb (failed_review rf)) eqn:Hff; [done|].
  destruct (values results !! ex_attempt (ep_producer e)) as [ri|] eqn:Hi; [|done].
  destruct (values results !! ex_attempt (ep_verification e)) as [rv|] eqn:Hvv; [|done].
  destruct (values results !! ex_attempt (ep_review e)) as [rw|] eqn:Hw; [|done].
  destruct (negb (bool_decide _ && _ && _)) eqn:Hb; [done|].
  destruct (negb (completed ri && _ && _)) eqn:Hc; [done|].
  destruct (findValidatedStep flow (sr_step rf)) as [sf|]; [|done].
  destruct (findValidatedStep flow (sr_step ri)) as [si|] eqn:Hsi; [|done].
  destruct (findValidatedStep flow (sr_step rv)) as [sv|] eqn:Hsv; [|done].
  destruct (findValidatedStep flow (sr_step rw)) as [sw|] eqn:Hsw; [|done].
  destruct (negb (episode_roles _ _ _ _ _ _ _ _ _)) eqn:Hr; [done|].
  destruct (negb (existsb _ _)); [done|].
  destruct (negb (episode_order _ _)) eqn:Ho; [done|].
  reflect_bools. unfold episode_roles, episode_order in *. reflect_bools.
  assert (∀ r s, findValidatedStep flow (sr_step r) = Some s → vs_id s = sr_step r) as Hid
    by (intros r s Hs; by apply find_step_some in Hs as [_ ?]).
  split_and!; [done..|].
  exists (position_of results (ep_failed_review e)),
    (position_of results (ex_attempt (ep_producer e))),
    (position_of results (ex_attempt (ep_verification e))),
    (position_of results (ex_attempt (ep_review e))), rf, ri, rv, rw.
  repeat match goal with H : (_ <? _) = true |- _ => apply Nat.ltb_lt in H end.
  pose proof (value_at _ _ _ _ _ _ Hac Hf). pose proof (value_at _ _ _ _ _ _ Hac Hi).
  pose proof (value_at _ _ _ _ _ _ Hac Hvv). pose proof (value_at _ _ _ _ _ _ Hac Hw).
  split_and!; try done.
  - by apply values_in in Hf as [_ ?].
  - apply at_result_true. exists ri, si. split_and!; try done.
    unfold impl_write, writes. rewrite (Hid _ _ Hsi). use_bools.
  - apply at_result_true. exists rv, sv. split_and!; try done.
    unfold passing_verification, gate_result, isolated. rewrite (Hid _ _ Hsv). use_bools.
  - apply at_result_true. exists rw, sw. split_and!; try done.
    unfold gate_result, isolated. rewrite (Hid _ _ Hsw). use_bools.
Qed.

Lemma retry_accepted flow results input a :
  valid_flow flow → accepted flow results input Advance →
  pi_episodes input = [] → pi_repair input = Some a →
  ∃ j r, results !! j = Some r ∧ expectedFor r = rp_retry a
    ∧ rp_authorized a = true ∧ blank (rp_reason a) = false
    ∧ completed r = true ∧ failed_review r = false
    ∧ follow_up flow results j r CapReview ∧ follow_up flow results j r CapVerification.
Proof.
  intros Hval Hac He Ha. pose proof Hac as [_ _ _ _ (fr & early & Hfr & Hrep & Hend)].
  destruct early as [d|].
  { subst d. exfalso. unfold check_repair in Hrep. break_all Hrep. }
  clear Hend. unfold check_repair in Hrep. rewrite He, Ha in Hrep. simpl in Hrep.
  destruct fr as [[failure retry]|]; [|done].
  apply check_retries_from in Hfr as [?|[j Hj]%list_elem_of_lookup]; [done|]. simpl in Hj.
  destruct (_ || negb (bool_decide _)) eqn:Hb; [done|].
  destruct (negb (completed retry) || _) eqn:Hc; [done|].
  destruct (hasDistinctFreshGates _ _ _ _) eqn:Hg; [|done].
  apply andb_true_iff in Hg as [Hrev Hver]. reflect_bools.
  exists j, retry. split_and!; try done.
  - apply existsb_exists in Hrev as (s & Hs%list_elem_of_In & Hr).
    destruct (fresh_gate _ _ _ _ s) as [rx|] eqn:Hf; [|done]. reflect_bools.
    eapply fresh_gate_event in Hf as (x & ? & ? & ? & ? & ? & ?); [|done..].
    by exists x, rx, s.
  - apply existsb_exists in Hver as (s & Hs%list_elem_of_In & Hr).
    destruct (fresh_gate _ _ _ _ s) as [rx|] eqn:Hf; [|done].
    eapply fresh_gate_event in Hf as (x & ? & ? & ? & ? & ? & ?); [|done..].
    by exists x, rx, s.
Qed.

(** C21. Every repair is inspected afterwards.  In every accepted history the
    repair of an episode (authorized, with a reason) follows the failed review it
    answers, and is followed, in the order of the events, by the verification
    and then the review of the episode, all completed, by read-only steps with
    producers of their own.  And a flow that advances after the one retry of a
    controller has, after the retry and in no older epoch, a completed passing
    review and a completed verification with producers of their own. *)
Theorem repairs_are_inspected sc pc sm fl bs granted flow results input d :
  Validate sc pc sm fl bs granted = inr flow → Decide flow results input = inr d →
  (∀ e, e ∈ pi_episodes input →
     ep_authorized e = true ∧ blank (ep_reason e) = false ∧ episode_events flow results e)
  ∧ (∀ a, d = Advance → pi_episodes input = [] → pi_repair input = Some a →
     ∃ j r, results !! j = Some r ∧ expectedFor r = rp_retry a
       ∧ rp_authorized a = true ∧ blank (rp_reason a) = false
       ∧ completed r = true ∧ failed_review r = false
       ∧ follow_up flow results j r CapReview ∧ follow_up flow results j r CapVerification).
Proof.
  intros Hval%Validate_valid Hac%Decide_accepted. split.
  - intros e. by apply (episode_accepted _ _ _ _ _ Hac).
  - intros a ->. by apply retry_accepted.
Qed.

(** A failed review answered by a repair, and a write tried twice. *)
Definition failed_write : StepResult :=
  mkResult StatusProviderError "" "wi_a" 3 "write" "sa0" 1 "alice" (artifact "sa0") [].
Definition episode_history : list StepResult :=
  [result_of "write" "sa1" "" "alice"; result_of "review" "sa2" ReviewFail "bob";
   result_of "write" "sa5" "" "alice"; result_of "verify" "sa6" "" "carol";
   result_of "review" "sa7" ReviewPass "bob"; result_of "ship" "sa8" "" "alice"].
Definition demo_episode : RepairEpisode :=
  mkEpisode "sa2" (expectedFor (result_of "write" "sa5" "" "alice"))
    (expectedFor (result_of "verify" "sa6" "" "carol"))
    (expectedFor (result_of "review" "sa7" ReviewPass "bob")) true "the diff lacks a test".
Definition episode_input : PolicyInput :=
  mkPolicy false (expectedFor <$> episode_history) [] None [demo_episode].

Definition rewrite_history : list StepResult := failed_write :: demo_history.
Definition rewrite_input : PolicyInput :=
  mkPolicy false (expectedFor <$> rewrite_history) []
    (Some (mkRepair "sa0" (expectedFor (result_of "write" "sa1" "" "alice")) true
             "the provider was down")) [].

Lemma episode_advances : Decide demo episode_history episode_input = inr Advance.
Proof. vm_compute. reflexivity. Qed.
Lemma rewrite_advances : Decide demo rewrite_history rewrite_input = inr Advance.
Proof. vm_compute. reflexivity. Qed.

Lemma repairs_are_inspected_witness :
  episode_events demo episode_history demo_episode
  ∧ ∃ j r, rewrite_history !! j = Some r ∧ sr_attempt r = "sa1"
      ∧ follow_up demo rewrite_history j r CapVerification.
Proof.
  split.
  - destruct (repairs_are_inspected any_schema any_params any_match demo_flow demo_bindings
      demo_grants demo episode_history episode_input Advance demo_valid episode_advances)
      as [He _]. apply (He demo_episode). by constructor.
  - destruct (repairs_are_inspected any_schema any_params any_match demo_flow demo_bindings
      demo_grants demo rewrite_history rewrite_input Advance demo_valid rewrite_advances)
      as [_ Hr].
    destruct (Hr _ eq_refl eq_refl eq_refl) as (j & r & Hj & Hx & _ & _ & _ & _ & _ & Hv).
    exists j, r. split; [exact Hj|]. split; [|exact Hv].
    change (ex_attempt (expectedFor r) = "sa1"). by rewrite Hx.
Defined.
