(* ===== verification/PinContracts.v ===== *)
(** * What a pinned workflow promises

    A generation holds a flow that was validated, with the grants and the
    metadata of exactly the skill versions its client named. *)

From S2P Require Import Prelude GoStrings Errors Json Crypto Flow Policy WorkflowTables.
From S2P Require Import WorkflowPin Store WorkflowStart WorkflowRun PolicyTheory.
From S2P Require Import WorkflowScenario.

Open Scope list_scope.

(** ** The loops *)

(** The skills a request resolved. *)
Definition registered (o : Outside) (caller : UserRecord)
  (resolved : gmap (string * Z) (Z * SkillContract)) : Prop :=
  ∀ k ref, resolved !! k = Some ref → ou_skill o caller k.1 k.2 = inr ref.

Lemma resolve_refs_spec o caller specs resolved resolved' :
  resolve_refs o caller resolved specs = inr resolved' → registered o caller resolved →
  registered o caller resolved' ∧ resolved ⊆ resolved'
  ∧ ∀ s, s ∈ specs → is_Some (resolved' !! (sp_skill s, sp_skill_version s)).
Proof.
  revert resolved. induction specs as [|s specs IH]; intros resolved; simpl.
  { intros [= <-] ?. split_and!; [done..|]. by intros s ?%elem_of_nil. }
  destruct (String.eqb _ _); [done|]. intros H Hr.
  destruct (resolved !! (sp_skill s, sp_skill_version s)) as [ref|] eqn:E.
  - destruct (IH _ H Hr) as (? & Hs & ?). split_and!; [done..|].
    intros x [->|Hx]%elem_of_cons; [|auto]. exists ref. by eapply lookup_weaken.
  - apply rbind_ok in H as (ref & Href & H).
    destruct (IH _ H) as (? & Hs & ?).
    { intros k r. rewrite lookup_insert_Some. intros [[<- <-]|[_ ?]]; [done|auto]. }
    split_and!; [done| |].
    + etransitivity; [|exact Hs]. by apply insert_subseteq.
    + intros x [->|Hx]%elem_of_cons; [|auto]. exists ref.
      eapply lookup_weaken; [|exact Hs]. apply lookup_insert_eq.
Qed.

Definition binding_of (resolved : gmap (string * Z) (Z * SkillContract)) (s : WorkflowStepSpec)
  : SkillBinding := mkBinding (sp_skill s) (ref_of resolved s).1 (ref_of resolved s).2.
Definition meta_of (c : SkillContract) : wiStepMeta :=
  mkMeta (ct_capabilities c) (ct_interactive c).

Lemma pin_steps_lists resolved specs p p' :
  pin_steps resolved p specs = inr p' →
  pg_steps p' = pg_steps p ++ ((λ s, pinned_step s (ref_of resolved s).1) <$> specs)
  ∧ pg_bindings p' = pg_bindings p ++ (binding_of resolved <$> specs).
Proof.
  revert p. induction specs as [|s specs IH]; intros p; simpl.
  { intros [= <-]. by rewrite !app_nil_r. }
  destruct (workflowGrantForContract _) as [g|]; [|done]. intros [E1 E2]%IH.
  simpl in *. by rewrite E1, E2, <- !app_assoc.
Qed.

(** Where the ids are distinct, each step has its own grant and metadata. *)
Lemma pin_steps_maps resolved specs p p' :
  pin_steps resolved p specs = inr p' → NoDup (sp_id <$> specs) →
  (∀ k, k ∉ sp_id <$> specs →
     pg_grants p' !! k = pg_grants p !! k ∧ pg_meta p' !! k = pg_meta p !! k)
  ∧ ∀ s, s ∈ specs →
     pg_grants p' !! sp_id s = workflowGrantForContract (ref_of resolved s).2
     ∧ is_Some (workflowGrantForContract (ref_of resolved s).2)
     ∧ pg_meta p' !! sp_id s = Some (meta_of (ref_of resolved s).2).
Proof.
  revert p. induction specs as [|s specs IH]; intros p; simpl.
  { intros [= <-] _. split; [done|]. by intros s ?%elem_of_nil. }
  destruct (workflowGrantForContract _) as [g|] eqn:Eg; [|done].
  intros H [Hni Hnd]%NoDup_cons. destruct (IH _ H Hnd) as [Hout Hin]. split.
  - intros k [Hk Hk']%not_elem_of_cons. destruct (Hout k Hk') as [-> ->]. simpl.
    by rewrite !lookup_insert_ne by done.
  - intros x [->|Hx]%elem_of_cons; [|by apply Hin].
    destruct (Hout _ Hni) as [-> ->]. simpl. rewrite !lookup_insert_eq, Eg. by split_and!.
Qed.

(** ** Validation *)

Lemma bind_all_nodup sc i bound l bound' :
  bind_all sc i bound l = inr bound' →
  NoDup ((λ b, (bd_skill b, bd_version b)) <$> l)
  ∧ ∀ b, b ∈ l → bound !! (bd_skill b, bd_version b) = None.
Proof.
  revert i bound. induction l as [|b l IH]; intros i bound; simpl.
  { intros _. split; [constructor|]. by intros b ?%elem_of_nil. }
  destruct (_ || _); [done|]. case_bool_decide as Hb; [done|].
  destruct (negb _); [done|]. intros [Hnd Hin]%IH.
  assert (∀ x, x ∈ l → (bd_skill x, bd_version x) ≠ (bd_skill b, bd_version b)
                       ∧ bound !! (bd_skill x, bd_version x) = None) as H.
  { intros x Hx. specialize (Hin x Hx). apply lookup_insert_None in Hin as [? ?]. by split. }
  split.
  - constructor; [|done]. intros (x & E & Hx)%list_elem_of_fmap. by destruct (H x Hx).
  - intros x [->|Hx]%elem_of_cons; [by apply eq_None_not_Some|by apply H].
Qed.

Lemma Validate_bindings sc pc sm fl bs granted vf :
  Validate sc pc sm fl bs granted = inr vf →
  vf_flow vf = fl ∧ NoDup ((λ b, (bd_skill b, bd_version b)) <$> bs).
Proof.
  unfold Validate. destruct (fl_version fl <=? 0)%Z; [done|].
  case_bool_decide as Hne; [done|]. intros (bound & Hb & H)%rbind_ok.
  apply rbind_ok in H as (p & _ & H). destruct (negb _); [done|].
  apply rbind_ok in H as (u & _ & [= <-]). by apply bind_all_nodup in Hb as [? _].
Qed.

Lemma pinWorkflowGeneration_spec o v caller rhs specs pin :
  pinWorkflowGeneration o v caller rhs specs = inr pin →
  ∃ resolved p vf,
    resolve_refs o caller ∅ specs = inr resolved
    ∧ pin_steps resolved (mkPinning [] [] ∅ ∅) specs = inr p
    ∧ Validate (ou_compiles o) (ou_params_conform o) (ou_schemas_match o)
        (mkFlow v (pg_steps p)) (pg_bindings p) (pg_grants p) = inr vf
    ∧ (rhs = true ∨ existsb (step_interactive (pg_meta p)) specs = false)
    ∧ pn_flow pin = mkFlow v (pg_steps p) ∧ pn_grants pin = pg_grants p
    ∧ pn_meta pin = pg_meta p.
Proof.
  unfold pinWorkflowGeneration. destruct (String.eqb _ _); [done|].
  destruct (Z.ltb v 1); [done|]. destruct (bool_decide _); [done|].
  intros (resolved & Hres & H)%rbind_ok. apply rbind_ok in H as (p & Hp & H).
  destruct (Validate _ _ _ _ _ _) as [e|vf] eqn:Hv; [done|].
  destruct (negb rhs && _) eqn:Hi; [done|]. injection H as <-.
  destruct (Validate_bindings _ _ _ _ _ _ _ Hv) as [Hf _].
  exists resolved, p, vf. split_and!; try done.
  destruct rhs; [by left|right]. by simpl in Hi.
Qed.

(** C16. A workflow that is pinned was checked as a whole.  Its flow has the
    version asked for and exactly the steps asked for, in order, each at the
    version its skill resolved to; the ids are distinct; each step's grant is
    the one its skill's contract allows, its metadata that contract's
    capabilities, and an interactive skill needs the item's human session; the
    gate rules of [Validate] hold; and no two steps share a skill version. *)
Theorem pin_is_validated o v caller rhs specs pin :
  pinWorkflowGeneration o v caller rhs specs = inr pin →
  fl_version (pn_flow pin) = v
  ∧ Forall2 (λ s st, ∃ c, ou_skill o caller (sp_skill s) (sp_skill_version s)
                            = inr (st_skill_version st, c)
                   ∧ st = pinned_step s (st_skill_version st)
                   ∧ pn_grants pin !! st_id st = workflowGrantForContract c
                   ∧ is_Some (pn_grants pin !! st_id st)
                   ∧ pn_meta pin !! st_id st = Some (meta_of c)
                   ∧ (ct_interactive c = true → rhs = true))
      specs (fl_steps (pn_flow pin))
  ∧ NoDup (st_id <$> fl_steps (pn_flow pin))
  ∧ NoDup ((λ st, (st_skill st, st_skill_version st)) <$> fl_steps (pn_flow pin))
  ∧ ∃ vf, valid_flow vf ∧ vf_flow vf = pn_flow pin.
Proof.
  intros (resolved & p & vf & Hres & Hp & Hv & Hi & Ef & Eg & Em)%pinWorkflowGeneration_spec.
  destruct (resolve_refs_spec _ _ _ _ _ Hres) as (Hreg & _ & Hall);
    [by intros k ref; rewrite lookup_empty|].
  destruct (pin_steps_lists _ _ _ _ Hp) as [Es Eb]. simpl in Es, Eb.
  destruct (Validate_bindings _ _ _ _ _ _ _ Hv) as [Hvf Hnb].
  pose proof (Validate_valid _ _ _ _ _ _ _ Hv) as Hval.
  assert (NoDup (sp_id <$> specs)) as Hids.
  { pose proof (va_nodup _ Hval) as Hnd. change vs_id with (st_id ∘ vs_step) in Hnd.
    rewrite list_fmap_compose, (va_steps _ Hval), Hvf in Hnd. simpl in Hnd.
    by rewrite Es, <- list_fmap_compose in Hnd. }
  destruct (pin_steps_maps _ _ _ _ Hp Hids) as [_ Hmaps].
  rewrite Ef, Eg, Em. simpl. rewrite Es. split_and!; [done|..].
  - apply Forall2_fmap_r, Forall_Forall2_diag, Forall_forall. intros s Hs.
    destruct (Hall s Hs) as [ref Href]. destruct (Hmaps s Hs) as (Hg & Hsome & Hm).
    unfold ref_of in *. cbn beta. rewrite Href in *. simpl in *. exists ref.2.
    split_and!; try done.
    + pose proof (Hreg _ _ Href) as Hsk. simpl in Hsk. rewrite Hsk. simpl. rewrite Href. by destruct ref.
    + by rewrite Hg.
    + intros Hint. destruct Hi as [|Hi]; [done|]. exfalso.
      assert (existsb (step_interactive (pg_meta p)) specs = true) as Ht; [|congruence].
      apply existsb_exists. exists s. split; [by apply list_elem_of_In|].
      unfold step_interactive. by rewrite Hm.
  - by rewrite <- list_fmap_compose.
  - rewrite <- list_fmap_compose. rewrite Eb, <- list_fmap_compose in Hnb. exact Hnb.
  - exists vf. split; [done|]. by rewrite Hvf, Es.
Qed.

Lemma pin_is_validated_witness :
  match pinWorkflowGeneration demo_outside 1 reporter true demo_specs with
  | inr pin => fl_version (pn_flow pin) = 1%Z
  | inl _ => False
  end.
Proof.
  destruct (pinWorkflowGeneration demo_outside 1 reporter true demo_specs) as [e|pin] eqn:H;
    [by vm_compute in H|].
  exact (proj1 (pin_is_validated demo_outside 1 reporter true demo_specs pin H)).
Defined.

(** ** Two validators of a result *)

Lemma hex_char c :
  negb (upper c) && bool_decide (is_Some (hex_value c)) = digit c || in_range 97 102 c.
Proof. by destruct c as [[] [] [] [] [] [] [] []]. Qed.

Lemma hex_text n s :
  String.length s = n + n →
  all_chars (λ c, negb (upper c)) s && bool_decide (is_Some (DecodeString s))
  = all_chars (λ c, digit c || in_range 97 102 c) s.
Proof.
  revert s. induction n as [|n IH]; intros s Hl; [by destruct s|].
  destruct s as [|a [|b s]]; simpl in Hl; [lia|lia|].
  cbn [all_chars DecodeString]. rewrite <- (IH s) by lia. rewrite <- !hex_char.
  destruct (hex_value a), (hex_value b), (DecodeString s);
    rewrite ?bool_decide_eq_true_2, ?bool_decide_eq_false_2 by (by eauto || by intros []);
    destruct (negb (upper a)), (negb (upper b)); simpl; try done;
    by rewrite ?andb_false_r.
Qed.

Lemma isSHA256Digest_sha256RE s : isSHA256Digest s = sha256RE s.
Proof.
  unfold isSHA256Digest, sha256RE. destruct (strip_prefix "sha256:" s) as [h|] eqn:E; [|done].
  apply strip_prefix_spec in E as ->.
  change (String.length ("sha256:" +:+ h)) with (7 + String.length h)%nat.
  destruct (Nat.eqb_spec (String.length h) 64) as [Hl|Hl].
  - rewrite Hl. change (Nat.eqb (7 + 64) 71) with true. rewrite <- (hex_text 32 h Hl).
    cbn [andb]. f_equal.
    destruct (DecodeString h); [by rewrite bool_decide_eq_true_2 by eauto|].
    rewrite bool_decide_eq_false_2; [done|]. by intros [].
  - by rewrite (proj2 (Nat.eqb_neq (7 + String.length h) 71)) by lia.
Qed.

Definition artifact_named (r : StepResult) : bool :=
  validIdentifier (af_id (sr_artifact r)).
Definition evidence_named (r : StepResult) : bool :=
  forallb (λ e, validIdentifier (evd_kind e)) (sr_evidence r).

Lemma identifier_nonempty s : validIdentifier s = true → String.eqb s "" = false.
Proof. by destruct s. Qed.

Lemma evidence_both e :
  evidence_ok e = validIdentifier (evd_kind e) && run_evidence_ok e.
Proof.
  unfold evidence_ok, run_evidence_ok. rewrite isSHA256Digest_sha256RE.
  destruct (validIdentifier _) eqn:E; [|done]. by rewrite (identifier_nonempty _ E).
Qed.

Lemma evidence_checks i l :
  check_from (λ k e, if evidence_ok e then Ok tt else Err (PEvidence i k)) 0 l = inr tt
  ↔ forallb (λ e, validIdentifier (evd_kind e)) l = true ∧ forallb run_evidence_ok l = true.
Proof.
  rewrite check_from_ok, !forallb_forall. split.
  - intros H. split; intros e [k Hk]%list_elem_of_In%list_elem_of_lookup;
      specialize (H k e Hk); rewrite evidence_both in H;
      by destruct (validIdentifier _), (run_evidence_ok e).
  - intros [H1 H2] k e Hk. rewrite evidence_both.
    assert (In e l) as Hin by (apply list_elem_of_In; by eapply list_elem_of_lookup_2).
    by rewrite H1, H2.
Qed.

Lemma verdicts_agree i r review :
  verdict_check i r review = inr tt
  ↔ (if review then review_verdict_ok r else String.eqb (sr_verdict r) "") = true.
Proof.
  unfold verdict_check, review_verdict_ok. destruct review.
  - case_bool_decide; [done|]. by destruct (String.eqb (sr_verdict r) ""), (String.eqb _ _).
  - by destruct (String.eqb _ _).
Qed.

(** The server's check of a result agrees with the policy's, but for
    names.  [validateWorkflowResultShape], on a step's frozen metadata, accepts
    what [validateResult] of the policy accepts on its contract, and nothing
    else, except that the policy also asks the artifact's id and the kinds of
    the evidence to be identifiers.  In particular a digest that is decoded and
    lower case is one the regular expression matches. *)
Theorem shape_checks_agree i r s :
  validateResult i r s = inr tt
  ↔ validateWorkflowResultShape r (meta_of (vs_contract s)) = true
    ∧ artifact_named r = true ∧ evidence_named r = true.
Proof.
  unfold validateResult, validateWorkflowResultShape, artifact_named, evidence_named, known_status.
  change (stepMetaIsReview (meta_of (vs_contract s))) with (hasCapability (vs_contract s) CapReview).
  change (meta_has CapVerification (meta_of (vs_contract s)))
    with (hasCapability (vs_contract s) CapVerification).
  rewrite isSHA256Digest_sha256RE, Z.leb_antisym.
  destruct (bool_decide (_ ∈ _)); cbn [negb andb]; [|split; [done|by intros (? & _)]].
  destruct (validIdentifier (af_id _)) eqn:Ea; cbn [negb orb];
    [|split; [done|by intros (_ & ? & _)]].
  rewrite (identifier_nonempty _ Ea). cbn [negb andb].
  destruct (0 <? _)%Z; cbn [negb orb andb]; [|split; [done|by intros (? & _)]].
  destruct (sha256RE _); cbn [negb orb andb]; [|split; [done|by intros (? & _)]].
  rewrite rbind_ok, !andb_true_iff. setoid_rewrite rbind_ok.
  unfold completed. split.
  - intros ([] & [H1 H2]%evidence_checks & [] & H3%verdicts_agree & H4).
    destruct (_ && bool_decide _); [done|]. by split_and!.
  - intros (((H2 & H3) & H4) & _ & H1). exists tt. split; [by apply evidence_checks|].
    exists tt. split; [by apply verdicts_agree|]. by apply negb_true_iff in H4 as ->.
Qed.
