(* ===== verification/ContentContracts.v ===== *)
(** * Promises of the skill content rules

    What [internal/skillregistry] guarantees of canonical texts, schemas, bundles
    and contracts. *)

From Stdlib Require Import Ascii.
From S2P Require Import Prelude GoStrings Json Crypto GoJson JsonText Canonical.
From S2P Require Import CanonicalTheory Schema SchemaTheory Flow Bundle BundleTheory.

Open Scope nat_scope.
Open Scope list_scope.

Definition all_compile (_ : string) : bool := true.

Lemma short_by_length s : Nat.leb (String.length s) 1000 = true → text_short s.
Proof. intros H%Nat.leb_le. unfold text_short. lia. Qed.

(** ** Canonical texts *)

(** C31. Two documents have one canonical text exactly when they are the same JSON
    value: numbers by value, members in any order. *)
Theorem canonical_text_decides s1 s2 t1 t2 j1 j2 :
  text_short s1 → text_short s2 →
  canonicalizeJSON s1 = Some t1 → canonicalizeJSON s2 = Some t2 →
  parse_json s1 = Some j1 → parse_json s2 = Some j2 →
  t1 = t2 ↔ json_eqv j1 j2.
Proof. apply canonicalize_iff. Qed.

Definition doc_a : string := quoted "{'b':[1.50,'x'],'a':1e2}".
Definition doc_b : string := quoted " { 'a' : 100, 'b' : [15E-1, '\u0078'] }".
Definition doc_c : string := quoted "{'a':100,'b':[1.5000001,'x']}".

Lemma canonical_text_decides_witness :
  (∃ j1 j2, parse_json doc_a = Some j1 ∧ parse_json doc_b = Some j2 ∧ j1 ≠ j2 ∧ json_eqv j1 j2)
  ∧ (∃ j1 j2, parse_json doc_a = Some j1 ∧ parse_json doc_c = Some j2 ∧ ¬ json_eqv j1 j2).
Proof.
  split.
  - eexists _, _. split; [by vm_compute|]. split; [by vm_compute|]. split; [done|].
    eapply (canonical_text_decides doc_a doc_b); first [by apply short_by_length | by vm_compute].
  - eexists _, _. split; [by vm_compute|]. split; [by vm_compute|]. intros H.
    eapply (canonical_text_decides doc_a doc_c) in H;
      [|by apply short_by_length|by apply short_by_length|by vm_compute..]. done.
Defined.

(** The canonical text of a document is its own canonical text. *)
Theorem canonical_text_is_fixed s t :
  text_short s → canonicalizeJSON s = Some t → canonicalizeJSON t = Some t.
Proof. apply canonicalize_fixed_point. Qed.

Lemma canonical_text_is_fixed_witness :
  ∃ t, canonicalizeJSON doc_a = Some t ∧ t ≠ doc_a ∧ canonicalizeJSON t = Some t.
Proof.
  eexists. split; [by vm_compute|]. split; [done|].
  apply (canonical_text_is_fixed doc_a); [by apply short_by_length|by vm_compute].
Defined.

(** ** Schemas *)

(** C32. Fail closed: a schema compiles only if every node of it is an object all of
    whose keywords are implemented and none of which is null; and each node's
    fields passed their checks: known types, required names distinct, not empty
    and among the properties when there are any, a pattern that compiles, no
    minItems, minLength or minimum above its maximum, no [enum] value twice. *)
Theorem schema_fails_closed regexp_compiles raw s :
  text_short raw → CompileSchema regexp_compiles raw = Some s →
  ∃ c, strict_document raw = Some c ∧
  ∀ n, schema_node c n →
    ∃ o d ps items, n = JObj o
      ∧ (∀ k v, (k, v) ∈ o → k ∈ SupportedSchemaKeywords ∧ v ≠ JNull)
      ∧ compile_node regexp_compiles n = Some (mkCompiled d ps items)
      ∧ doc_checked regexp_compiles (map fst ps) d.
Proof.
  intros Hs Hc. destruct (compile_closed regexp_compiles raw s Hs Hc) as (c & Hd & Hn).
  exists c. split; [done|]. intros n Hnode. destruct (Hn n Hnode) as (o & -> & Hk).
  unfold CompileSchema in Hc. rewrite Hd in Hc. cbn [mbind option_bind] in Hc.
  pose proof (strict_document_exact raw c Hs Hd) as (He & _).
  destruct (nodes_compile regexp_compiles c s He Hc _ Hnode) as [_ (t & Ht)].
  destruct (compile_node_obj regexp_compiles o t Ht) as (_ & _ & ps & it & d & _ & _ & Hdoc & ->).
  exists o, d, ps, it. split; [done|]. split; [done|]. split; [done|].
  by apply (compile_doc_checked regexp_compiles o).
Qed.

Definition schema_a : string :=
  quoted "{'type':'object','properties':{'n':{'type':['integer','null'],'minimum':0}},'required':['n']}".
Definition schema_ref : string := quoted "{'properties':{'n':{'$ref':'#'}}}".

Lemma schema_fails_closed_witness :
  (∃ s c, CompileSchema all_compile schema_a = Some s ∧ strict_document schema_a = Some c
    ∧ ∃ o, c = JObj o ∧ ∀ k v, (k, v) ∈ o → k ∈ SupportedSchemaKeywords ∧ v ≠ JNull)
  ∧ CompileSchema all_compile schema_ref = None.
Proof.
  split; [|by vm_compute]. destruct (CompileSchema all_compile schema_a) as [s|] eqn:E; [|by vm_compute in E].
  destruct (schema_fails_closed all_compile schema_a s ltac:(by apply short_by_length) E) as (c & Hc & Hn).
  exists s, c. split; [done|]. split; [done|].
  destruct (Hn c (node_root c)) as (o & _ & _ & _ & -> & Hk & _). exists o. split; [reflexivity|exact Hk].
Defined.

(** C33. A value decoded with [UseNumber] (its numbers within what [big.Rat]
    reads, an exponent of at most a million) that passes the check of a compiled
    schema conforms to it as JSON Schema reads the keywords: numbers, [enum] and
    [uniqueItems] by value, never by spelling.  And one that conforms passes,
    if it has a canonical form, that is, no number of more than 1000 digits or
    an exponent beyond 1000: without one, an array whose items must be unique
    is refused. *)
Theorem value_check_conforms rc rm raw s N v :
  text_short raw → CompileSchema rc raw = Some s →
  (Z.of_nat N < 2 ^ 61)%Z → fine N v → exact v →
  (CheckValue rm s v = true → conforms rm s v)
  ∧ (is_Some (writeCanonicalValue v) → conforms rm s v → CheckValue rm s v = true).
Proof.
  intros Hs Hc HN Hf Hx. rewrite (CheckValue_accepts rc rm raw s v Hs Hc N HN Hf Hx).
  split; [apply accepted_conforms|apply conforms_accepted].
Qed.

(** The bound is there: [[1e2000]] conforms and is refused. *)
Definition checked_by (schema : string) (v : json) : option bool :=
  (λ s, CheckValue (λ _ _, true) s v) <$> CompileSchema all_compile schema.

Example unique_needs_canonical :
  checked_by (quoted "{'uniqueItems':true}") (JArr [JNum "1e2000"]) = Some false
  ∧ checked_by (quoted "{'minItems':1}") (JArr [JNum "1e2000"]) = Some true.
Proof. split; by vm_compute. Qed.

Definition schema_enum : string := quoted "{'items':{'enum':[1.0,{'b':2,'a':1}]},'uniqueItems':true}".
Definition value_good : json := JArr [JObj [("a", JNum "1e0"); ("b", JNum "2")]; JNum "1"].
Definition value_twice : json := JArr [JNum "1"; JNum "1.0"].

Lemma fine_good : fine 10 value_good ∧ exact value_good.
Proof.
  split.
  - repeat (constructor; cbn [fst snd]); first [done | by vm_compute | lia].
  - repeat (constructor; cbn [fst snd]); try (by vm_compute); try (eapply ex_num; by vm_compute).
    + by apply not_elem_of_cons; split; [|apply not_elem_of_nil].
    + apply not_elem_of_nil.
Defined.

Lemma value_check_conforms_witness :
  ∃ s, CompileSchema all_compile schema_enum = Some s
    ∧ conforms (λ _ _, true) s value_good ∧ CheckValue (λ _ _, true) s value_twice = false.
Proof.
  destruct (CompileSchema all_compile schema_enum) as [s|] eqn:E; [|by vm_compute in E].
  exists s. split; [done|]. split.
  - destruct (value_check_conforms all_compile (λ _ _, true) schema_enum s 10 value_good)
      as [H _]; [by apply short_by_length|done|lia|apply fine_good|apply fine_good|].
    apply H. vm_compute in E. injection E as <-. by vm_compute.
  - vm_compute in E. injection E as <-. by vm_compute.
Defined.

(** ** Bundles *)

(** C29. Written below any directory, every file of an accepted bundle lands below
    it, at the path's own segments; no file lands on another or on a directory
    another needs; and the entry is one of them. *)
Theorem bundle_lands_below raw b root :
  text_short raw → DecodeBundle raw = Some b →
  (∀ f, f ∈ sb_files b → locate root (sf_path f) = root ++ split_on slash (sf_path f)
                         ∧ split_on slash (sf_path f) ≠ [])
  ∧ (∀ i k f g, sb_files b !! i = Some f → sb_files b !! k = Some g → i ≠ k →
       ¬ locate root (sf_path f) `prefix_of` locate root (sf_path g))
  ∧ (∃ f, f ∈ sb_files b ∧ sf_path f = sb_entry b)
  ∧ length (sb_files b) <= MaxBundleFiles
  ∧ (Z.of_nat (String.length (bundle_text b)) <= MaxBundleBytes)%Z.
Proof.
  intros Hs [Hv _]%DecodeBundle_Some; [|done].
  pose proof (bundle_parts b Hv) as (Hf & _ & _ & He & Hl & [_ Hc] & _). split; [|split; [|split; [|by split]]].
  - intros f Hin. destruct (Hf f Hin) as [Hp _]. split; [by apply locate_below|apply split_on_nonnil].
  - intros i k f g Hi Hk Hne. by apply (files_apart root b i k f g).
  - apply list_elem_of_fmap in He as (f & E & Hin). by exists f.
Qed.

Definition bundle_a : string :=
  quoted "{'entry':'SKILL.md','files':[{'path':'SKILL.md','content':'do it'},{'path':'lib/a.txt','content':'aGk=','encoding':'base64'}],'license':{'name':'MIT'}}".
Definition bundle_up : string :=
  quoted "{'entry':'a/../../x','files':[{'path':'a/../../x','content':''}],'license':{'name':'MIT'}}".
Definition bundle_clash : string :=
  quoted "{'entry':'a','files':[{'path':'a/b','content':''},{'path':'a','content':''}],'license':{'name':'MIT'}}".

Lemma bundle_lands_below_witness :
  (∃ b, DecodeBundle bundle_a = Some b
     ∧ ∀ f, f ∈ sb_files b → locate ["srv"; "skill"] (sf_path f) = ["srv"; "skill"] ++ split_on slash (sf_path f))
  ∧ DecodeBundle bundle_up = None ∧ DecodeBundle bundle_clash = None.
Proof.
  split; [|split; by vm_compute]. destruct (DecodeBundle bundle_a) as [b|] eqn:E; [|by vm_compute in E].
  exists b. split; [done|]. intros f Hf.
  by apply (bundle_lands_below bundle_a b ["srv"; "skill"] ltac:(by apply short_by_length) E).
Defined.

(** ** The digest of a version *)

(** C30. What is stored is found again: any spelling of the stored texts, such as the
    one PostgreSQL's [jsonb] gives back, has the same content and the same
    digest. *)
Theorem digest_reproduces rc bundle contract bundleJSON contractJSON digest :
  text_short bundle → text_short contract →
  version_content rc bundle contract = Some (bundleJSON, contractJSON, digest) →
  ∀ bundle' contract', text_short bundle' → text_short contract' →
    canonicalizeJSON bundle' = canonicalizeJSON bundleJSON →
    canonicalizeJSON contract' = Some contractJSON →
    version_content rc bundle' contract' = Some (bundleJSON, contractJSON, digest).
Proof.
  intros Sb Sc. unfold version_content.
  intros (b & Hb & (c & Hc & (bj & Hbj & (cj & Hcj & [= -> -> <-])%bind_Some)%bind_Some)%bind_Some)%bind_Some.
  intros bundle' contract' Sb' Sc' Eb Ec. destruct (DecodeBundle_Some bundle b Sb Hb) as [Hv Hw].
  unfold CanonicalBundleJSON in Hbj. rewrite Hv in Hbj. injection Hbj as <-.
  rewrite (bundle_roundtrip b bundle' Hv Hw Sb' Eb). cbn [mbind option_bind].
  destruct (contract_roundtrip rc contract c Sc Hc) as (t & Ht & Hback).
  rewrite Hcj in Ht. injection Ht as <-. rewrite (Hback contract' Sc' Ec). cbn [mbind option_bind].
  unfold CanonicalBundleJSON. rewrite Hv. cbn [mbind option_bind]. by rewrite Hcj.
Qed.

Definition contract_a : string :=
  quoted "{'runtime':{'interactive':false},'capabilities':['review'],'params_schema':{'type':'object','minProperties':1}}".
Definition contract_b : string :=
  quoted "{'params_schema':{'maxLength':3.0,'type':'string'},'capabilities':['review']}".
Definition bundle_b : string :=
  quoted "{'license':{'name':'MIT'},'files':[{'content':'do it','path':'SKILL.md'},{'encoding':'base64','path':'lib/a.txt','content':'aGk='}],'entry':'SKILL.md','provenance':{}}".

Lemma digest_reproduces_witness :
  version_content all_compile bundle_a contract_a = None
  ∧ ∃ bj cj d, version_content all_compile bundle_a contract_b = Some (bj, cj, d)
      ∧ version_content all_compile bundle_b cj = Some (bj, cj, d).
Proof.
  split; [by vm_compute|].
  destruct (version_content all_compile bundle_a contract_b) as [[[bj cj] d]|] eqn:E; [|by vm_compute in E].
  exists bj, cj, d. split; [done|]. pose proof E as E'. vm_compute in E'. injection E' as <- <- _.
  apply (digest_reproduces all_compile bundle_a contract_b _ _ d);
    [by apply short_by_length|by apply short_by_length|exact E
    |by apply short_by_length|by apply short_by_length|by vm_compute|by vm_compute].
Defined.
