(* ===== verification/SkillsContracts.v ===== *)
(** * A small registry

    Anna publishes two versions of a skill and shares the first with a project
    that Ben is a member of; Cara takes no part. *)

From stdpp Require Import sorting.
From S2P Require Import Prelude GoStrings Errors Json JsonText Bundle WorkflowTables.
From S2P Require Import WorkflowTables WorkflowPin Store Attempts Edit Pooled Dependencies.
From S2P Require Import Skills SkillsSpec SkillsTheory.

Open Scope list_scope.

Definition anna : UserRecord := mkUser "u_anna" "writer" None.
Definition ben : UserRecord := mkUser "u_ben" "writer" None.
Definition cara : UserRecord := mkUser "u_cara" "writer" None.
(** Ben's key for another project *)
Definition ben_elsewhere : UserRecord := mkUser "u_ben" "writer" (Some "other").

Definition person (name : string) : UserRow := mkUserRow "" name "human" "writer" [].

Definition some_project : ProjectRow :=
  mkProject None true None (JArr [])
    (JArr [JObj [("role", JStr "viewer"); ("user_id", JStr "u_ben")]]) 0 0 None "u_anna".

Definition registry_db : Db := mkDb
  (mkCore ∅ ∅ ∅ ∅ ∅ ∅ [] ∅ no_workflows {[ "p" := some_project ]}
     (mkReg {[ "u_anna" := person "Anna"; "u_ben" := person "Ben"; "u_cara" := person "Cara" ]} ∅ ∅ ∅)) [].

Definition seen (d : Db) : Pool := mkPool (λ _, core d) (λ _, None).
Definition any_regexp (_ : string) : bool := true.

(** The row is read back from the database the INSERT left. *)
Definition registry_inserted : Db := (autocommit ideal_env (insert_skill 10 "skill_1" "u_anna" "grill-me") registry_db).2.
Definition did_create : result AihubError SkillDetail * Db :=
  CreateSkill ideal_env (seen registry_inserted) 10 "skill_1" anna "grill-me" registry_db.

Definition a_bundle (content : string) : string :=
  quoted ("{'entry':'S.md','files':[{'path':'S.md','content':'" +:+ content +:+ "'}],'license':{'name':'MIT'}}").
Definition a_contract : string := quoted "{'capabilities':['review']}".
Definition a_release (expected : Z) (content : string) : PublishSkillVersionRequest :=
  mkPublish "skill_1" expected (a_bundle content) a_contract "".

Definition publish_one (d : Db) (now expected : Z) (content : string) :=
  PublishSkillVersion any_regexp ideal_env now (now + 1) anna (a_release expected content) d.

Definition did_first := publish_one did_create.2 20 0 "one".
Definition did_share : result AihubError unit * Db :=
  ShareSkillVersionWithProject ideal_env (seen did_first.2) anna (mkShare "skill_1" 1 "p") did_first.2.
Definition did_second := publish_one did_share.2 30 1 "two".

Definition answers_ok {A} (r : result AihubError A) : bool :=
  match r with inr _ => true | inl _ => false end.

Example everything_succeeds :
  answers_ok did_create.1 && answers_ok did_first.1 && answers_ok did_share.1 && answers_ok did_second.1 = true.
Proof. by vm_compute. Qed.

Definition brief (r : result AihubError SkillDetail * nat) : result AihubError (Z * Z * option Z) :=
  match r.1 with
  | inl e => inl e
  | inr d => inr (si_latest (sd_identity d), si_updated (sd_identity d), vs_version <$> sd_accessible d)
  end.

(** Anna sees both versions; Ben the shared one, without the count and with its
    own time; Cara, and Ben's key for another project, nothing. *)
Example four_views :
  map (λ who, brief (GetSkill who "skill_1" (seen did_second.2) 0)) [anna; ben; cara; ben_elsewhere]
  = [inr (2, 30, Some 2); inr (0, 20, Some 1); inl notFound; inl notFound]%Z.
Proof. by vm_compute. Qed.

(** A publication that expects a latest version of the past. *)
Example late_publication :
  (publish_one did_second.2 40 1 "three").1 = inl (casFailed 1 2).
Proof. by vm_compute. Qed.

(** * Promises of the skill registry *)

Open Scope nat_scope.

(** ** Versions *)

(** C27. In every reachable state the versions of a skill are 1 to its latest, each
    with content that passed validation and the digest of that content; grants
    name versions that exist, and a user has one skill of a name.  From there
    on no skill or version is lost, and nothing of a version changes but who may
    read it. *)
Theorem versions_are_kept rc d0 d :
  no_skills d0 → skill_run rc d0 d →
  reg_ok rc (regs d) ∧ ∀ d', skill_run rc d d' → reg_grows (regs d) (regs d').
Proof.
  intros H0%(empty_ok rc) Hr. destruct (run_ok rc d0 d Hr H0) as [Hok _].
  split; [done|]. intros d' Hr'. by apply (run_ok rc d d').
Qed.

Lemma scenario_empty : no_skills registry_db.
Proof. by repeat split. Qed.

Lemma created_run : skill_run any_regexp registry_db did_create.2.
Proof. eapply rtc_once. apply rq_create. Qed.
Lemma first_run : skill_run any_regexp did_create.2 did_first.2.
Proof. eapply rtc_once. apply rq_publish. Qed.
Lemma shared_run : skill_run any_regexp did_first.2 did_share.2.
Proof. eapply rtc_once. apply rq_share. Qed.
Lemma second_run : skill_run any_regexp did_share.2 did_second.2.
Proof. eapply rtc_once. apply rq_publish. Qed.

Lemma first_ok : reg_ok any_regexp (regs did_first.2).
Proof.
  apply (run_ok any_regexp registry_db); [|by apply empty_ok].
  etransitivity; [apply created_run|apply first_run].
Qed.
Lemma shared_ok : reg_ok any_regexp (regs did_share.2).
Proof. by apply (run_ok any_regexp did_first.2); [apply shared_run|apply first_ok]. Qed.

Lemma versions_are_kept_witness :
  reg_grows (regs did_first.2) (regs did_second.2)
  ∧ bool_decide (is_Some (rg_versions (regs did_first.2) !! ("skill_1", 1%Z))) = true
  ∧ bool_decide (is_Some (rg_versions (regs did_second.2) !! ("skill_1", 2%Z))) = true.
Proof.
  split; [|split; by vm_compute].
  apply (versions_are_kept any_regexp registry_db did_first.2).
  - apply scenario_empty.
  - etransitivity; [apply created_run|apply first_run].
  - etransitivity; [apply shared_run|apply second_run].
Defined.

(** ** Publishing *)

Lemma publish_outcome rc env now answered caller req d :
  let d' := (PublishSkillVersion rc env now answered caller req d).2 in
  core d' = core d ∨
  skillRequireWriteCaller caller = None ∧
  ∃ content s b ct, version_content rc (pq_bundle req) (pq_contract req) = Some content
    ∧ published_row now caller req content (core d) (core d') s b ct.
Proof.
  destruct (publish_spec rc env now answered caller req d) as [H|(Hw & content & out & Hc & s & b & ct & H & _)].
  - by left.
  - right. split; [done|]. by exists content, s, b, ct.
Qed.

Lemma published_latest now caller req content c c' s b ct :
  published_row now caller req content c c' s b ct →
  ∃ s', rg_skills (registry c') !! pq_skill req = Some s'
    ∧ sk_latest s' = wrap64 (pq_expected req + 1).
Proof.
  intros [_ _ He _ _ _ Ha _]. rewrite Ha. simpl. rewrite lookup_insert_eq. eexists. split; [done|].
  simpl. by rewrite He.
Qed.

(** C23. Publishing is all or nothing, under any faults: either nothing changes, or
    the caller governs the skill, expected its latest version, and adds exactly
    the next one, private, with the validated content.  A success answer is that
    of the version that was added.  And once a publication took effect, no later
    one that expects the same latest version does. *)
Theorem publish_is_cas rc env now answered caller req d :
  reg_ok rc (regs d) →
  let out := PublishSkillVersion rc env now answered caller req d in
  (core out.2 = core d ∨
   skillRequireWriteCaller caller = None ∧
   ∃ content s b ct, version_content rc (pq_bundle req) (pq_contract req) = Some content
     ∧ published_row now caller req content (core d) (core out.2) s b ct)
  ∧ (∀ sum, out.1 = inr sum →
       ∃ content, version_content rc (pq_bundle req) (pq_contract req) = Some content
         ∧ sum = mkSummary (pq_skill req) (pq_expected req + 1) "private" content.2 (us_id caller) answered
         ∧ core out.2 ≠ core d)
  ∧ (core out.2 ≠ core d →
     ∀ d2 env2 now2 answered2 caller2 req2, skill_run rc out.2 d2 →
       pq_skill req2 = pq_skill req → pq_expected req2 = pq_expected req →
       let out2 := PublishSkillVersion rc env2 now2 answered2 caller2 req2 d2 in
       core out2.2 = core d2 ∧ ∃ e, out2.1 = inl e).
Proof.
  intros Hok. cbn zeta. pose proof (publish_outcome rc env now answered caller req d) as Ho. cbn zeta in Ho.
  split; [exact Ho|]. split.
  - intros sum Hs. destruct (publish_success rc env now answered caller req d sum Hs) as (content & Hc & s & b & ct & Hp & ->).
    exists content. split; [done|]. pose proof (ok_latest rc _ Hok _ _ (pn_locked _ _ _ _ _ _ _ _ _ Hp)) as Hl.
    rewrite (pn_expected _ _ _ _ _ _ _ _ _ Hp). rewrite wrap64_id by (unfold in_int64, max_int64; lia).
    split; [done|]. intros He. pose proof (pn_fresh _ _ _ _ _ _ _ _ _ Hp) as Hf.
    pose proof (pn_after _ _ _ _ _ _ _ _ _ Hp) as Ha. rewrite He in Ha.
    rewrite Ha in Hf. simpl in Hf. by rewrite lookup_insert_eq in Hf.
  - intros Hne d2 env2 now2 answered2 caller2 req2 Hr Hsk Hex. destruct Ho as [Ho|(_ & content & s & b & ct & Hc & Hp)]; [done|].
    pose proof (ok_latest rc _ Hok _ _ (pn_locked _ _ _ _ _ _ _ _ _ Hp)) as Hl.
    pose proof (pn_expected _ _ _ _ _ _ _ _ _ Hp) as He.
    assert (reg_step rc (regs d) (regs (PublishSkillVersion rc env now answered caller req d).2)) as Hstep
      by (by eapply publish_row_step).
    pose proof (reg_step_ok rc _ _ Hstep Hok) as Hok1. destruct (run_ok rc _ _ Hr Hok1) as [Hok2 Hg].
    destruct (published_latest _ _ _ _ _ _ _ _ _ Hp) as (s1 & Hs1 & Hl1).
    destruct (gr_skills _ _ Hg _ _ Hs1) as (s2 & Hs2 & _ & _ & _ & Hle).
    rewrite Hl1, He, wrap64_id in Hle by (unfold in_int64, max_int64; lia).
    assert (∀ c' content' t b' ct', ¬ published_row now2 caller2 req2 content' (core d2) c' t b' ct') as Hno.
    { intros c' content' t b' ct' [Hk _ He2 _ _ _ _ _]. rewrite Hsk in Hk. unfold regs in Hs2.
      rewrite Hk in Hs2. injection Hs2 as ->. lia. }
    split.
    + destruct (publish_outcome rc env2 now2 answered2 caller2 req2 d2) as [H|(_ & ? & ? & ? & ? & _ & H)]; [done|].
      by apply Hno in H.
    + destruct (PublishSkillVersion rc env2 now2 answered2 caller2 req2 d2).1 as [e|sum] eqn:E; [by exists e|].
      apply publish_success in E as (content' & _ & t & b' & ct' & H & _). by apply Hno in H.
Qed.

(** The second publication takes effect; a third that expects version 1 does
    nothing. *)
Lemma publish_is_cas_witness :
  did_second.1 = inr (mkSummary "skill_1" 2 "private"
    "sha256:57a818166b17b5babb1cc83a28498d70d1f9158221eb06353698bf5fddc530a1" "u_anna" 31)
  ∧ core (publish_one did_second.2 40 1 "three").2 = core did_second.2.
Proof.
  assert (did_second.1 = inr (mkSummary "skill_1" 2 "private"
    "sha256:57a818166b17b5babb1cc83a28498d70d1f9158221eb06353698bf5fddc530a1" "u_anna" 31)) as E
    by (by vm_compute).
  split; [exact E|].
  destruct (publish_is_cas any_regexp ideal_env 30 31 anna (a_release 1 "two") did_share.2 shared_ok)
    as (_ & Hs & Hc).
  destruct (Hs _ E) as (_ & _ & _ & Hne).
  by apply (Hc Hne did_second.2 ideal_env 40%Z 41%Z anna (a_release 1 "three")).
Defined.

(** ** What callers learn *)

Lemma publish_hidden rc env now answered caller req d other :
  reg_ok rc (regs d) →
  (∀ s, rg_skills (regs d) !! pq_skill req = Some s → ¬ governs other s) →
  sees_same other (core d) (core (PublishSkillVersion rc env now answered caller req d).2).
Proof.
  intros Hok Hng. destruct (publish_outcome rc env now answered caller req d) as [->|(_ & content & s & b & ct & _ & Hp)];
    [reflexivity|].
  destruct Hp as [Hs _ _ _ _ Hf Ha Hpr]. set (c' := core (PublishSkillVersion rc env now answered caller req d).2) in *. set (v := wrap64 _) in *.
  set (sk := pq_skill req) in *. pose proof (Hng s Hs) as Hn.
  assert (∀ project, rg_grants (regs d) !! (sk, v, project) = None) as Hgr.
  { intros project. apply eq_None_not_Some. intros H%(ok_grants rc _ Hok). unfold regs in H. by rewrite Hf in H. }
  assert (∀ k n row, may_read c' other k n row ↔ may_read (core d) other k n row) as Hmay.
  { intros k n row. unfold may_read, granted_in. rewrite Hpr, Ha. cbn [rg_grants rg_skills].
    assert ((∃ t, <[sk:=mkSkill (sk_owner s) (sk_name s) v (sk_created s) now]> (rg_skills (reg (core d))) !! k
                  = Some t ∧ sk_owner t = us_id other)
            ↔ (∃ t, rg_skills (reg (core d)) !! k = Some t ∧ sk_owner t = us_id other)) as Hown.
    { destruct (decide (k = sk)) as [->|]; [|by rewrite lookup_insert_ne].
      rewrite lookup_insert_eq, Hs. split; intros (t & [= <-] & H); eexists; (split; [done|exact H]). }
    destruct (us_scope other); [done|by rewrite Hown]. }
  assert (∀ row, ¬ may_read (core d) other sk v row ∨ sv_visibility row = "public") as Hnew.
  { intros row. destruct (decide (sv_visibility row = "public")) as [|Hv]; [by right|left]. unfold may_read, granted_in.
    destruct (us_scope other) as [project|] eqn:Esc.
    - intros [H _]. specialize (Hgr project). unfold regs in Hgr. rewrite Hgr in H. by destruct H.
    - intros [H|[H|[(t & H & Ho)|(project & H & _)]]]; [|done| |].
      + apply Hn, sees_all_governs, sees_all_iff. done.
      + rewrite Hs in H. injection H as <-. apply Hn, owns_governs; [|done]. unfold unscoped. by rewrite Esc.
      + specialize (Hgr project). unfold regs in Hgr. rewrite Hgr in H. by destruct H. }
  assert (∀ k n row, readable c' other k n row ↔ readable (core d) other k n row) as Hread.
  { intros k n row. unfold readable. rewrite Hmay, Ha. cbn [rg_versions].
    destruct (decide ((k, n) = (sk, v))) as [[= -> ->]|Hne]; [|by rewrite lookup_insert_ne].
    rewrite lookup_insert_eq, Hf. split; [|by intros []]. intros [[= <-] H].
    by destruct (Hnew (mkVersion b ct content.2 "private" (us_id caller) now)) as [|]. }
  split.
  - intros k n row. symmetry. apply Hread.
  - intros k t Hg. rewrite Ha. cbn [rg_skills]. destruct (decide (k = sk)) as [->|]; [|by rewrite lookup_insert_ne].
    rewrite lookup_insert_eq, Hs. split; intros [= <-]; [done|]. by destruct Hn.
  - intros k n row _. rewrite Ha. cbn [rg_skills]. destruct (decide (k = sk)) as [->|]; [|by rewrite lookup_insert_ne].
    by rewrite lookup_insert_eq, Hs.
  - intros k t _ _. unfold display_of. by rewrite Ha.
Qed.

(** C24. The queries answer from what the caller may read and nothing else: on two
    databases that agree on the versions it may read, on the skills it governs
    and on the name, owner and creation of the skills it reads, every query
    gives the same answer, whatever else was published, shared or hidden. *)
Theorem reads_reveal_only_readable caller p1 p2 :
  live p1 → live p2 → (∀ n, pool_fault p1 n = pool_fault p2 n) →
  (∀ n, sees_same caller (pool_core p1 n) (pool_core p2 n)) →
  ∀ n, (∀ sk, GetSkill caller sk p1 n = GetSkill caller sk p2 n)
    ∧ (∀ sk v, GetSkillVersion caller sk v p1 n = GetSkillVersion caller sk v p2 n)
    ∧ (∀ req, ListSkills caller req p1 n = ListSkills caller req p2 n)
    ∧ (∀ sk, ListSkillVersions caller sk p1 n = ListSkillVersions caller sk p2 n).
Proof.
  intros L1 L2 Hf Hs n. split; [|split; [|split]]; intros.
  - by apply GetSkill_same.
  - by apply GetSkillVersion_same.
  - by apply ListSkills_same.
  - by apply ListSkillVersions_same.
Qed.

Lemma seen_live d : live (seen d).
Proof. intros n. reflexivity. Qed.

Lemma ben_not_governs s : rg_skills (regs did_share.2) !! "skill_1" = Some s → ¬ governs ben s.
Proof.
  intros H. assert (sk_owner <$> rg_skills (regs did_share.2) !! "skill_1" = Some "u_anna") as E by (by vm_compute).
  rewrite H in E. injection E as E. unfold governs. by rewrite E.
Qed.

(** Ben cannot tell the registry before Anna's second publication from the one
    after it, while Anna can. *)
Lemma reads_reveal_only_readable_witness :
  GetSkill ben "skill_1" (seen did_share.2) 0 = GetSkill ben "skill_1" (seen did_second.2) 0
  ∧ ∃ d, (GetSkill ben "skill_1" (seen did_second.2) 0).1 = inr d.
Proof.
  split.
  - apply (reads_reveal_only_readable ben (seen did_share.2) (seen did_second.2)).
    + apply seen_live.
    + apply seen_live.
    + done.
    + intros n. apply publish_hidden; [apply shared_ok|apply ben_not_governs].
  - eexists. by vm_compute.
Defined.

(** C25. A publication is invisible to everyone who does not govern the skill. *)
Theorem publication_is_private rc env now answered caller req d other :
  reg_ok rc (regs d) →
  (∀ s, rg_skills (regs d) !! pq_skill req = Some s → ¬ governs other s) →
  sees_same other (core d) (core (PublishSkillVersion rc env now answered caller req d).2).
Proof. apply publish_hidden. Qed.

Lemma publication_is_private_witness :
  sees_same ben (core did_share.2) (core did_second.2)
  ∧ brief (GetSkill anna "skill_1" (seen did_share.2) 0) ≠ brief (GetSkill anna "skill_1" (seen did_second.2) 0).
Proof.
  split; [|by vm_compute].
  apply (publication_is_private any_regexp ideal_env 30 31 anna (a_release 1 "two") did_share.2 ben).
  - apply shared_ok.
  - apply ben_not_governs.
Defined.

(** ** Sharing *)

Lemma read_row_inr {A} e (f : Core → result DbErr A) p n a n' :
  read_row e f p n = (inr a, n') → n' = S n ∧ f (pool_core p n) = inr a.
Proof.
  unfold read_row, rdbind, rread. destruct (pool_fault p n) as [[]|]; [done|done|].
  destruct (f (pool_core p n)) as [[]|x]; unfold rthrow, rret; by intros [= -> <-].
Qed.

Lemma rdbind_inr {A B} (m : Rd A) (k : A → Rd B) p n b n' :
  rdbind m k p n = (inr b, n') → ∃ a n1, m p n = (inr a, n1) ∧ k a p n1 = (inr b, n').
Proof. unfold rdbind. destruct (m p n) as [[e|a] n1]; [done|eauto]. Qed.

Lemma write_guard caller p n u n' :
  rguard (skillRequireWriteCaller caller) p n = (inr u, n') →
  n' = n ∧ us_scope caller = None ∧ (us_role caller = "writer" ∨ us_role caller = "admin").
Proof.
  unfold skillRequireWriteCaller, skillRequireReadCaller, rguard, rthrow, rret.
  destruct (String.eqb (us_id caller) ""); [done|].
  destruct (String.eqb_spec (us_role caller) "writer"), (String.eqb_spec (us_role caller) "admin"); simpl; try done;
    destruct (us_scope caller); try done; intros [= _ <-]; auto.
Qed.

Lemma version_guard caller sk v p n u n' :
  skillRequireSkillVersionForWrite caller sk v p n = (inr u, n') →
  n' = S (S n) ∧ ∃ s, rg_skills (registry (pool_core p n)) !! sk = Some s ∧ governs caller s.
Proof.
  unfold skillRequireSkillVersionForWrite. destruct (String.eqb sk ""); [done|].
  destruct (Z.ltb v 1); [done|].
  intros (owner & n1 & [-> Ho%found_inr]%read_row_inr & H)%rdbind_inr.
  apply fmap_Some in Ho as (s & Hs & ->).
  destruct (skillOwnerOrAdmin caller (sk_owner s)) eqn:Hg; [|done].
  apply read_row_inr in H as [-> _]. split; [done|]. by exists s.
Qed.

(** The caller may change who reads this version. *)
Definition controls (caller : UserRecord) (d : Db) (sk : string) (v : Z) : Prop :=
  us_scope caller = None ∧ (us_role caller = "writer" ∨ us_role caller = "admin")
  ∧ is_Some (rg_versions (regs d) !! (sk, v))
  ∧ ∃ s, rg_skills (regs d) !! sk = Some s ∧ (us_role caller = "admin" ∨ sk_owner s = us_id caller).

(** The reads before the statement met earlier states of the execution. *)
Definition read_before (rc : string → bool) (p : Pool) (d : Db) : Prop :=
  ∀ n, n < 3 → ∃ dn, pool_core p n = core dn ∧ reg_ok rc (regs dn) ∧ skill_run rc dn d.

Lemma governs_controls rc caller p d sk v u n' :
  read_before rc p d → reg_ok rc (regs d) →
  us_scope caller = None → (us_role caller = "writer" ∨ us_role caller = "admin") →
  skillRequireSkillVersionForWrite caller sk v p 0 = (inr u, n') →
  is_Some (rg_versions (regs d) !! (sk, v)) → controls caller d sk v.
Proof.
  intros Hp Hok Hsc Hr [_ (s & Hs & Hg)]%version_guard Hv. split; [done|]. split; [done|]. split; [done|].
  destruct (Hp 0) as (d1 & E & Hok1 & Hrun); [lia|]. rewrite E in Hs.
  destruct (run_ok rc _ _ Hrun Hok1) as [_ Hgr]. destruct (gr_skills _ _ Hgr sk s Hs) as (s' & Hs' & Ho & _).
  exists s'. split; [done|]. unfold governs, skillOwnerOrAdmin in Hg.
  apply orb_true_iff in Hg as [[Ha _]%sees_all_iff|[Hid%String.eqb_eq _]%andb_true_iff]; [by left|right]. congruence.
Qed.

(** C26. Sharing, revoking and changing the visibility of a version take the
    skill's owner or an administrator, with an unscoped key.  A share also takes
    an existing project that the caller owns or is a member of; an administrator
    with an unscoped key may share into any project.  Each changes that one
    grant or that one row and nothing else. *)
Theorem sharing_is_authorized rc env p caller d :
  reg_ok rc (regs d) → read_before rc p d →
  (∀ req, let d' := (ShareSkillVersionWithProject env p caller req d).2 in regs d' ≠ regs d →
     controls caller d (hq_skill req) (hq_version req)
     ∧ (∃ n pr, n < 3 ∧ projects (pool_core p n) !! hq_project req = Some pr
          ∧ (us_role caller = "admin" ∨ pr_owner pr = us_id caller
             ∨ is_member (pr_members pr) (us_id caller) = true))
     ∧ regs d' = mkReg (rg_users (regs d)) (rg_skills (regs d)) (rg_versions (regs d))
                   (<[(hq_skill req, hq_version req, hq_project req) := us_id caller]> (rg_grants (regs d))))
  ∧ (∀ req, let d' := (RevokeSkillVersionFromProject env p caller req d).2 in regs d' ≠ regs d →
     controls caller d (hq_skill req) (hq_version req)
     ∧ regs d' = mkReg (rg_users (regs d)) (rg_skills (regs d)) (rg_versions (regs d))
                   (delete (hq_skill req, hq_version req, hq_project req) (rg_grants (regs d))))
  ∧ (∀ sk v vis, let d' := (SetSkillVersionVisibility env p caller sk v vis d).2 in regs d' ≠ regs d →
     controls caller d sk v
     ∧ ∃ row, rg_versions (regs d) !! (sk, v) = Some row
         ∧ regs d' = mkReg (rg_users (regs d)) (rg_skills (regs d))
                       (<[(sk, v) := with_visibility vis row]> (rg_versions (regs d))) (rg_grants (regs d))).
Proof.
  intros Hok Hp. split; [|split].
  - intros req. cbn zeta. unfold ShareSkillVersionWithProject.
    destruct_checked H Hc; [by rewrite H|]. intros Hne.
    apply (insert_grant_step rc) in H as [H|(_ & Hv & _ & Ha)]; [done|].
    apply rdbind_inr in Hc as (u1 & n1 & [-> [Hsc Hr]]%write_guard & Hc).
    apply rdbind_inr in Hc as (u2 & n2 & Hg & Hc). pose proof Hg as [-> _]%version_guard.
    split; [by eapply governs_controls|]. split; [|exact Ha].
    destruct (String.eqb (hq_project req) ""); [done|].
    apply rdbind_inr in Hc as (pr & n3 & [-> Hpr%found_inr]%read_row_inr & Hc).
    exists 2, pr. split; [lia|]. split; [done|].
    destruct (skillSeesAllVersions caller) eqn:Es; [apply sees_all_iff in Es as [Es _]; by auto|].
    destruct (String.eqb_spec (pr_owner pr) (us_id caller)); [auto|].
    destruct (is_member (pr_members pr) (us_id caller)); [auto|done].
  - intros req. cbn zeta. unfold RevokeSkillVersionFromProject.
    destruct_checked H Hc; [by rewrite H|]. intros Hne.
    apply (delete_grant_step rc) in H as [_ Ha].
    apply rdbind_inr in Hc as (u1 & n1 & [-> [Hsc Hr]]%write_guard & Hc).
    apply rdbind_inr in Hc as (u2 & n2 & Hg & Hc). split; [|exact Ha].
    eapply governs_controls; [done..|]. apply (ok_grants rc _ Hok _ _ (hq_project req)).
    apply not_eq_None_Some. intros E. apply Hne. unfold regs in *. rewrite Ha, delete_id by done. apply reg_same.
  - intros sk v vis. cbn zeta. unfold SetSkillVersionVisibility.
    destruct_checked H Hc; [by rewrite H|]. intros Hne.
    apply (update_visibility_step rc) in H as [H|(row & Hrow & _ & Ha)]; [done|].
    apply rdbind_inr in Hc as (u1 & n1 & [-> [Hsc Hr]]%write_guard & Hc).
    destruct (bool_decide _); [|done]. split; [|by exists row].
    eapply governs_controls; [done..|]. by exists row.
Qed.

Lemma sharing_is_authorized_witness :
  controls anna did_first.2 "skill_1" 1 ∧ answers_ok did_share.1 = true
  ∧ (ShareSkillVersionWithProject ideal_env (seen did_first.2) ben (mkShare "skill_1" 1 "p") did_first.2).1
    = inl notFound.
Proof.
  split; [|split; by vm_compute].
  destruct (sharing_is_authorized any_regexp ideal_env (seen did_first.2) anna did_first.2 first_ok)
    as (Hs & _ & _).
  { intros n _. exists did_first.2. split; [done|]. split; [apply first_ok|apply rtc_refl]. }
  pose proof (Hs (mkShare "skill_1" 1 "p")) as H. cbn zeta in H.
  change (ShareSkillVersionWithProject ideal_env (seen did_first.2) anna
    (mkShare "skill_1" 1 "p") did_first.2) with did_share in H.
  cbn [hq_skill hq_version] in H.
  assert (regs did_share.2 ≠ regs did_first.2) as Hne.
  { assert (size (rg_grants (regs did_share.2)) = 1 ∧ size (rg_grants (regs did_first.2)) = 0) as [H1 H0]
      by (split; by vm_compute).
    intros E. rewrite E, H0 in H1. discriminate H1. }
  exact (proj1 (H Hne)).
Defined.

(** ** Listing *)

Lemma omap_shorter {A B} (f : A → option B) l : length (omap f l) <= length l.
Proof. induction l as [|x l IH]; [done|]. cbn. destruct (f x); simpl; lia. Qed.
Lemma filter_shorter {A} (P : A → Prop) `{!∀ x, Decision (P x)} l : length (filter P l) <= length l.
Proof. induction l as [|x l IH]; [done|]. rewrite filter_cons. case_decide; simpl; lia. Qed.

(** Follow the cursor from page to page. *)
Fixpoint pages (fuel : nat) (p : Pool) (caller : UserRecord) (owner : option string) (limit : Z)
  (cursor : string) : result AihubError (list SkillDetail) :=
  match fuel with
  | O => Ok []
  | S fuel =>
      rbind (ListSkills caller (mkListSkills owner limit cursor) p 0).1 (λ page,
      match last page with
      | None => Ok []
      | Some d =>
          rbind (pages fuel p caller owner limit (si_id (sd_identity d))) (λ rest, Ok (page ++ rest))
      end)
  end.

Lemma ListSkills_quiet caller owner limit cursor d :
  skillRequireReadCaller caller = None → (1 <= limit <= 200)%Z →
  (ListSkills caller (mkListSkills owner limit cursor) (mkPool (λ _, core d) (λ _, None)) 0).1
  = inr (take (Z.to_nat limit) (filter (wanted (mkListSkills owner limit cursor)) (all_shown (core d) caller))).
Proof.
  intros Hc Hl. unfold ListSkills, rdbind, rguard, rret. rewrite Hc. cbn [lq_limit].
  destruct (Z.eqb_spec limit 0); [lia|]. unfold skillListMaxLimit.
  destruct (Z.ltb_spec limit 1); [lia|]. destruct (Z.ltb_spec 200 limit); [lia|]. cbn [orb].
  unfold read_rows, rdbind, rread, rret. cbn [pool_fault pool_core]. by rewrite ListSkills_page.
Qed.

Lemma wanted_after owner limit x y d :
  y = "" ∨ string_le y x → x ≠ "" →
  wanted (mkListSkills owner limit x) d
  ↔ wanted (mkListSkills owner limit y) d ∧ ¬ string_le (si_id (sd_identity d)) x.
Proof.
  intros Hy Hx. unfold wanted. cbn [lq_owner lq_cursor]. split.
  - intros [Ho Hc]. specialize (Hc Hx). split; [|done]. split; [done|]. intros Hne Hle.
    destruct Hy as [->|Hy]; [done|]. apply Hc. by etransitivity.
  - intros [[Ho _] Hc]. split; [done|]. by intros _.
Qed.

(** The elements after the last one of a first part are the second part. *)
Lemma sorted_last_split (l1 l2 : list SkillDetail) d :
  StronglySorted detail_lt (l1 ++ l2) → last l1 = Some d →
  filter (λ e, ¬ string_le (si_id (sd_identity e)) (si_id (sd_identity d))) (l1 ++ l2) = l2.
Proof.
  intros Hs [l ->]%last_Some. apply (strongly_sorted_ext detail_lt).
  - by apply strict_filter.
  - by apply StronglySorted_app_1_r in Hs.
  - intros e. rewrite list_elem_of_filter, elem_of_app. split.
    + intros [Hn [He|]]; [|done]. exfalso. apply Hn.
      apply elem_of_app in He as [He|He%list_elem_of_singleton]; [|by subst e].
      apply StronglySorted_app_1_l in Hs.
      by apply (StronglySorted_app_1_elem_of detail_lt l [d] e d Hs He (list_elem_of_here d [])).
    + intros He. split; [|by right]. intros Hle.
      assert (detail_lt d e) as [Hde Hne].
      { apply (StronglySorted_app_1_elem_of detail_lt (l ++ [d]) l2); [done| |done].
        apply elem_of_app. right. left. }
      by apply Hne, (anti_symm string_le).
Qed.

Lemma filter_wanted_step owner limit y n l d :
  StronglySorted detail_lt l → si_id (sd_identity d) ≠ "" →
  last (take n (filter (wanted (mkListSkills owner limit y)) l)) = Some d →
  filter (wanted (mkListSkills owner limit (si_id (sd_identity d)))) l
  = drop n (filter (wanted (mkListSkills owner limit y)) l).
Proof.
  intros Hs Hne Hl. set (F := filter (wanted (mkListSkills owner limit y)) l) in *.
  assert (d ∈ F) as Hd.
  { apply last_Some_elem_of in Hl. by apply elem_of_take in Hl as (i & Hi%list_elem_of_lookup_2 & _). }
  apply list_elem_of_filter in Hd as [[_ Hy] _]. cbn [lq_cursor] in Hy.
  assert (y = "" ∨ string_le y (si_id (sd_identity d))) as Hyd.
  { destruct (decide (y = "")) as [|Hn]; [by left|right]. specialize (Hy Hn).
    by destruct (total string_le y (si_id (sd_identity d))). }
  transitivity (filter (λ e, ¬ string_le (si_id (sd_identity e)) (si_id (sd_identity d))) F).
  - apply (strongly_sorted_ext detail_lt); [by apply strict_filter|by apply strict_filter, strict_filter|].
    intros e. unfold F. rewrite !list_elem_of_filter, (wanted_after owner limit _ y) by done. tauto.
  - rewrite <- (take_drop n F) at 1. apply sorted_last_split; [|done].
    rewrite take_drop. by apply strict_filter.
Qed.

Lemma pages_rest owner caller limit d fuel cursor :
  skillRequireReadCaller caller = None → (1 <= limit <= 200)%Z →
  (∀ e, e ∈ all_shown (core d) caller → si_id (sd_identity e) ≠ "") →
  let F := filter (wanted (mkListSkills owner limit cursor)) (all_shown (core d) caller) in
  length F < fuel → pages fuel (mkPool (λ _, core d) (λ _, None)) caller owner limit cursor = Ok F.
Proof.
  intros Hc Hl Hids. revert cursor. induction fuel as [|fuel IH]; intros cursor F HF; [lia|].
  cbn [pages]. rewrite ListSkills_quiet by done. cbn [rbind]. fold F.
  assert (1 <= Z.to_nat limit) as Hn by lia.
  destruct (last (take (Z.to_nat limit) F)) as [e|] eqn:El.
  - assert (e ∈ F) as He.
    { apply last_Some_elem_of in El. by apply elem_of_take in El as (i & Hi%list_elem_of_lookup_2 & _). }
    assert (si_id (sd_identity e) ≠ "") as Hne by (apply Hids; by apply list_elem_of_filter in He as [_ He]).
    pose proof (filter_wanted_step owner limit cursor (Z.to_nat limit) _ e
      (all_shown_sorted (core d) caller) Hne El) as Hstep.
    rewrite IH; rewrite Hstep; fold F.
    + unfold rbind, Ok. by rewrite take_drop.
    + rewrite length_drop. destruct F; [by apply not_elem_of_nil in He|]. simpl in *. lia.
  - apply last_None in El. destruct F as [|a F']; [done|].
    destruct (Z.to_nat limit); [lia|done].
Qed.

(** C28. Following the cursor lists every skill the caller can see, and no other,
    once each and in byte order of the ids, whatever the size of the pages; and
    each entry is what [GetSkill] answers for its id. *)
Theorem pages_cover caller owner limit d :
  skillRequireReadCaller caller = None → (1 <= limit <= 200)%Z →
  rg_skills (regs d) !! "" = None →
  let quiet := mkPool (λ _, core d) (λ _, None) in
  ∃ l, pages (S (size (rg_skills (regs d)))) quiet caller owner limit "" = Ok l
    ∧ StronglySorted detail_lt l
    ∧ ∀ e, e ∈ l ↔ (GetSkill caller (si_id (sd_identity e)) quiet 0).1 = inr e
                   ∧ ∀ o, owner = Some o → o ≠ "" → si_owner (sd_identity e) = o.
Proof.
  intros Hc Hl Hid. cbn zeta.
  assert (∀ e, e ∈ all_shown (core d) caller → si_id (sd_identity e) ≠ "") as Hids.
  { intros e (sk & He)%elem_of_shown Hn. rewrite (shown_id _ _ _ _ He) in Hn. subst sk.
    apply shown_row in He as (row & Hr & _). unfold skill_row in Hr. unfold regs in Hid. by rewrite Hid in Hr. }
  eexists. split; [apply pages_rest; [done|done|done|]|split].
  - assert (length (all_shown (core d) caller) <= size (rg_skills (regs d))) as Hlen.
    { unfold all_shown, skill_ids. etransitivity; [apply omap_shorter|].
      rewrite merge_sort_Permutation, length_map. unfold regs. by rewrite length_map_to_list. }
    pose proof (filter_shorter (wanted (mkListSkills owner limit "")) (all_shown (core d) caller)). lia.
  - apply strict_filter, all_shown_sorted.
  - intros e. rewrite list_elem_of_filter, elem_of_shown. unfold wanted. cbn [lq_owner lq_cursor].
    assert ((∃ sk, shown caller (core d) sk = Some e)
      ↔ (GetSkill caller (si_id (sd_identity e)) (mkPool (λ _, core d) (λ _, None)) 0).1 = inr e) as ->; [|naive_solver].
    unfold GetSkill, rdbind, rguard, rret. rewrite Hc. unfold read_row, rdbind, rread, found, rret. cbv beta iota delta [pool_fault pool_core].
    split.
    + intros (sk & He). assert (si_id (sd_identity e) ≠ "") as Hne by (apply Hids, elem_of_shown; eauto).
      pose proof (shown_id _ _ _ _ He) as Hsk. rewrite Hsk in Hne |- *.
      destruct (String.eqb_spec sk ""); [done|]. apply shown_row in He as (row & -> & Hb).
      unfold rresult, rret. by rewrite Hb.
    + destruct (String.eqb _ ""); [done|]. intros He. exists (si_id (sd_identity e)). apply shown_row.
      destruct (skill_row (core d) caller (si_id (sd_identity e))) as [row|]; [|done]. exists row. split; [done|].
      unfold rresult, rthrow, rret in He. by destruct (buildSkillDetail caller row).
Qed.

Lemma pages_cover_witness :
  ∃ l, pages 2 (seen did_second.2) ben None 1 "" = Ok l ∧ length l = 1
    ∧ ∀ e, e ∈ l → (GetSkill ben (si_id (sd_identity e)) (seen did_second.2) 0).1 = inr e.
Proof.
  assert (skillRequireReadCaller ben = None) as Hb by (by vm_compute).
  assert (rg_skills (regs did_second.2) !! "" = None) as Hn by (by vm_compute).
  assert (size (rg_skills (regs did_second.2)) = 1) as Hs by (by vm_compute).
  destruct (pages_cover ben None 1 did_second.2 Hb ltac:(lia) Hn) as (l & Hl & _ & Hi).
  rewrite Hs in Hl. exists l. split; [exact Hl|]. split.
  - assert (length <$> (match pages 2 (seen did_second.2) ben None 1 "" with inr x => Some x | inl _ => None end)
            = Some 1) as E by (by vm_compute).
    unfold seen in E. rewrite Hl in E. by injection E.
  - intros e He. by apply Hi in He as [He _].
Defined.
