(* ===== verification/Fallback.v ===== *)
(** * The model fallback chain

    [internal/modelruntime/fallback.go]: the ordered list of model candidates
    one step attempt may try, as a state machine.  A Go method on [*Fallback]
    is a function from the chain to its answer and the chain it leaves. *)

From S2P Require Import Prelude GoStrings Flow Policy.

Open Scope nat_scope.
Open Scope list_scope.

(** ** Data *)

Record AttemptIdentity : Type := mkIdentity {
  id_wi : string; id_flow_version : Z; id_step : string; id_attempt : string; id_epoch : Z }.

Inductive CandidateState : Type :=
  | StateUnused | StateUnavailable | StateStarted | StateReconcileRequired
  | StateReconciled | StateNoFallback | StateSucceeded.

#[export] Instance CandidateState_eq_dec : EqDecision CandidateState.
Proof. solve_decision. Defined.

Record Fallback : Type := mkChain {
  fb_identity : AttemptIdentity;
  fb_candidates : list ModelCandidate;
  fb_grant : StepGrant;
  fb_states : list CandidateState;
  fb_reasons : list string;
}.

Record Selection : Type := mkSel { sel_index : Z; sel_candidate : ModelCandidate }.

Record AttemptRecord : Type := mkARec {
  ar_identity : AttemptIdentity; ar_index : nat; ar_candidate : ModelCandidate;
  ar_state : CandidateState; ar_reason : string }.

(** The errors; the first five are the package's error values. *)
Inductive FbErr : Type :=
  | ErrExhausted | ErrReconcile | ErrNoFallback | ErrDone | ErrSelectionClosed
  | EPending (i : nat) | EIndex | ECandidate | EState (i : nat)
  | EEvidence | EReason
  | EIdentity | ENoCandidates | EIncomplete (i : nat) | EDuplicate (i : nat)
  | EAuthority | EIsolation | EUnknown (i : nat).

(** ** Construction *)

Definition word_ok (s : string) : bool :=
  negb (String.eqb s "" || containsAny s (bytes [32; 9; 13; 10])).

(** [AttemptIdentity.Valid] (true: no error). *)
Definition Valid (id : AttemptIdentity) : bool :=
  word_ok (id_wi id) && (0 <? id_flow_version id)%Z && word_ok (id_step id)
  && word_ok (id_attempt id) && (0 <? id_epoch id)%Z.

Definition candidate_key (c : ModelCandidate) : string :=
  mc_harness c +:+ bytes [0] +:+ mc_model c +:+ bytes [0] +:+ mc_effort c.

Fixpoint check_candidates_list (i : nat) (seen : gset string) (l : list ModelCandidate)
  : result FbErr unit :=
  match l with
  | [] => Ok tt
  | c :: l =>
      if String.eqb (mc_harness c) "" || String.eqb (mc_model c) ""
         || String.eqb (mc_effort c) "" then Err (EIncomplete i)
      else if bool_decide (candidate_key c ∈ seen) then Err (EDuplicate i)
      else check_candidates_list (S i) ({[candidate_key c]} ∪ seen) l
  end.

Definition NewFallback (id : AttemptIdentity) (candidates : list ModelCandidate)
    (grant : StepGrant) : result FbErr Fallback :=
  if negb (Valid id) then Err EIdentity
  else if bool_decide (candidates = []) then Err ENoCandidates
  else rbind (check_candidates_list 0 ∅ candidates) (λ _,
  if negb (String.eqb (gr_authority grant) AuthorityReadOnly
           || String.eqb (gr_authority grant) AuthorityWrite) then Err EAuthority
  else if negb (String.eqb (gr_isolation grant) IsolationShared
                || String.eqb (gr_isolation grant) IsolationRequired) then Err EIsolation
  else Ok (mkChain id candidates grant (replicate (length candidates) StateUnused)
             (replicate (length candidates) ""))).

(** ** Offering *)

(** The loop of [Next] from index [i]. *)
Fixpoint next_from (i : nat) (cs : list ModelCandidate) (sts : list CandidateState)
  : result FbErr Selection :=
  match cs, sts with
  | c :: cs, st :: sts =>
      match st with
      | StateUnused => Ok (mkSel (Z.of_nat i) c)
      | StateUnavailable | StateReconciled => next_from (S i) cs sts
      | StateStarted => Err (EPending i)
      | StateReconcileRequired => Err ErrReconcile
      | StateNoFallback => Err ErrNoFallback
      | StateSucceeded => Err ErrDone
      end
  | _, _ => Err ErrExhausted
  end.

Definition Next (f : Fallback) : result FbErr Selection :=
  next_from 0 (fb_candidates f) (fb_states f).

(** ** Recording *)

Definition in_bounds (f : Fallback) (i : Z) : bool :=
  (0 <=? i)%Z && (i <? Z.of_nat (length (fb_candidates f)))%Z.

Definition set_state (f : Fallback) (i : nat) (to : CandidateState) (reason : string)
  : Fallback :=
  mkChain (fb_identity f) (fb_candidates f) (fb_grant f)
    (<[i := to]> (fb_states f)) (<[i := reason]> (fb_reasons f)).

(** A method answering [error]: the error, if any, and the chain afterwards. *)
Definition Answer : Type := (option FbErr * Fallback)%type.

Definition mark (f : Fallback) (sel : Selection) (from to : CandidateState)
    (reason : string) : Answer :=
  if negb (in_bounds f (sel_index sel)) then (Some EIndex, f)
  else
    let i := Z.to_nat (sel_index sel) in
    if negb (bool_decide (fb_candidates f !! i = Some (sel_candidate sel)))
    then (Some ECandidate, f)
    else
      let st := default StateUnused (fb_states f !! i) in
      if negb (bool_decide (st = from)) then
        (if negb (bool_decide (st = StateUnused)) && negb (bool_decide (from = StateUnused))
         then (Some ErrSelectionClosed, f) else (Some (EState i), f))
      else (None, set_state f i to reason).

Definition MarkUnavailable (f : Fallback) (sel : Selection) (reason : string) : Answer :=
  mark f sel StateUnused StateUnavailable reason.

Definition MarkStarted (f : Fallback) (sel : Selection) : Answer :=
  mark f sel StateUnused StateStarted "".

Definition MarkInfrastructureFailure (f : Fallback) (sel : Selection) (detail : string)
  : Answer := mark f sel StateStarted StateReconcileRequired detail.

Definition Reconciled (f : Fallback) (sel : Selection) (evidence : string) : Answer :=
  if blank evidence then (Some EEvidence, f)
  else
    let i := Z.to_nat (sel_index sel) in
    if negb (in_bounds f (sel_index sel))
       || negb (bool_decide (fb_candidates f !! i = Some (sel_candidate sel)))
    then (Some ECandidate, f)
    else if negb (bool_decide (fb_states f !! i = Some StateReconcileRequired))
    then (Some (EState i), f)
    else
      (None, set_state f i StateReconciled
               (default "" (fb_reasons f !! i) +:+ " | reconciled: " +:+ evidence)).

Definition MarkNoFallback (f : Fallback) (sel : Selection) (reason : string) : Answer :=
  if blank reason then (Some EReason, f)
  else mark f sel StateStarted StateNoFallback reason.

Definition MarkSucceeded (f : Fallback) (sel : Selection) : Answer :=
  mark f sel StateStarted StateSucceeded "".

(** The resolved history, in candidate order. *)
Definition Records (f : Fallback) : list AttemptRecord :=
  omap (λ p : nat * (ModelCandidate * (CandidateState * string)),
          let '(i, (c, (st, reason))) := p in
          match st with
          | StateUnused => None
          | _ => Some (mkARec (fb_identity f) i c st reason)
          end)
    (imap pair (zip (fb_candidates f) (zip (fb_states f) (fb_reasons f)))).

(** ** Outcomes *)

Inductive Outcome : Type := OutcomeSucceeded | OutcomeInfrastructure | OutcomeNoFallback.

Definition ClassifyOutcome (r : StepResult) : Outcome :=
  if failed_review r then OutcomeNoFallback
  else if String.eqb (sr_status r) StatusProviderError then OutcomeInfrastructure
  else if completed r then OutcomeSucceeded
  else OutcomeNoFallback.

(** [%q], for text without quotes, backslashes or control characters. *)
Definition quote (s : string) : string := bytes [34] +:+ s +:+ bytes [34].

Definition infrastructure_reason (r : StepResult) : string :=
  "provider_error (status " +:+ quote (sr_status r)
    +:+ "): infrastructure failure after start".
Definition no_fallback_reason (r : StepResult) : string :=
  if failed_review r
  then "review/test FAIL (verdict " +:+ quote (sr_verdict r)
         +:+ "): switching models on a FAIL is a reroll, never a fallback"
  else "status " +:+ quote (sr_status r).

Definition Apply (f : Fallback) (sel : Selection) (r : StepResult) : Answer :=
  match ClassifyOutcome r with
  | OutcomeSucceeded => MarkSucceeded f sel
  | OutcomeInfrastructure => MarkInfrastructureFailure f sel (infrastructure_reason r)
  | OutcomeNoFallback => MarkNoFallback f sel (no_fallback_reason r)
  end.

(** ** Driving a chain

    The calls a controller can make, with selections [Next] gave it: the
    second component remembers every selection offered so far. *)
Inductive ChainOp : Type :=
  | OpUnavailable (reason : string) | OpStarted | OpInfrastructure (detail : string)
  | OpReconciled (evidence : string) | OpNoFallback (reason : string) | OpSucceeded
  | OpApply (r : StepResult).

Definition run_op (f : Fallback) (sel : Selection) (op : ChainOp) : Answer :=
  match op with
  | OpUnavailable reason => MarkUnavailable f sel reason
  | OpStarted => MarkStarted f sel
  | OpInfrastructure detail => MarkInfrastructureFailure f sel detail
  | OpReconciled evidence => Reconciled f sel evidence
  | OpNoFallback reason => MarkNoFallback f sel reason
  | OpSucceeded => MarkSucceeded f sel
  | OpApply r => Apply f sel r
  end.

Inductive chain_step : Fallback * list Selection → Fallback * list Selection → Prop :=
  | c_next f offered sel :
      Next f = inr sel → chain_step (f, offered) (f, sel :: offered)
  | c_op f offered sel op :
      sel ∈ offered → chain_step (f, offered) ((run_op f sel op).2, offered).
