(* ===== verification/FallbackContracts.v ===== *)
(** * The fallback chain tries its candidates in order, each once, and never
      past a verdict *)

From stdpp Require Import relations.
From S2P Require Import Prelude GoStrings Flow Policy Fallback.

Open Scope nat_scope.
Open Scope list_scope.

(** ** What one call does *)

(** The transitions a mark can make. *)
Inductive moves : CandidateState → CandidateState → Prop :=
  | m_unavailable : moves StateUnused StateUnavailable
  | m_started : moves StateUnused StateStarted
  | m_infrastructure : moves StateStarted StateReconcileRequired
  | m_reconciled : moves StateReconcileRequired StateReconciled
  | m_no_fallback : moves StateStarted StateNoFallback
  | m_succeeded : moves StateStarted StateSucceeded.

#[local] Hint Constructors moves : core.

Lemma mark_spec f sel from to reason e f' :
  mark f sel from to reason = (e, f') →
  (f' = f ∧ is_Some e)
  ∨ e = None ∧ ∃ i, sel_index sel = Z.of_nat i ∧ fb_candidates f !! i = Some (sel_candidate sel)
      ∧ default StateUnused (fb_states f !! i) = from ∧ f' = set_state f i to reason.
Proof.
  unfold mark. destruct (in_bounds f (sel_index sel)) eqn:Hb; simpl;
    [|by intros [= <- <-]; eauto].
  case_bool_decide as Hc; simpl; [|by intros [= <- <-]; eauto].
  destruct (decide (default StateUnused (fb_states f !! Z.to_nat (sel_index sel)) = from))
    as [Hst|Hst].
  - rewrite (bool_decide_eq_true_2 _ Hst). simpl. intros [= <- <-]. right. split; [done|].
    exists (Z.to_nat (sel_index sel)). split_and!; [|done|done|done].
    unfold in_bounds in Hb. apply andb_true_iff in Hb as [Hb _]. apply Z.leb_le in Hb. lia.
  - rewrite (bool_decide_eq_false_2 _ Hst). simpl.
    destruct (_ && _); intros [= <- <-]; eauto.
Qed.

Lemma set_state_same f i to reason :
  fb_identity (set_state f i to reason) = fb_identity f
  ∧ fb_candidates (set_state f i to reason) = fb_candidates f
  ∧ fb_grant (set_state f i to reason) = fb_grant f.
Proof. done. Qed.

(** Every call either refuses and leaves the chain alone, or makes one
    candidate, the selected one, move along [moves]. *)
Lemma run_op_spec f sel op e f' :
  length (fb_states f) = length (fb_candidates f) →
  run_op f sel op = (e, f') →
  (f' = f ∧ is_Some e)
  ∨ e = None ∧ ∃ i st st' reason, sel_index sel = Z.of_nat i
      ∧ fb_candidates f !! i = Some (sel_candidate sel)
      ∧ fb_states f !! i = Some st ∧ moves st st' ∧ f' = set_state f i st' reason.
Proof.
  intros Hlen H.
  assert (∀ from to reason, mark f sel from to reason = (e, f') → moves from to →
    (f' = f ∧ is_Some e) ∨ e = None ∧ ∃ i st st' reason, sel_index sel = Z.of_nat i
      ∧ fb_candidates f !! i = Some (sel_candidate sel)
      ∧ fb_states f !! i = Some st ∧ moves st st' ∧ f' = set_state f i st' reason) as Hmark.
  { intros from to reason [?|(-> & i & Hi & Hc & Hst & ->)]%mark_spec Hm; [by left|right].
    split; [done|]. destruct (lookup_lt_is_Some_2 (fb_states f) i) as [st Hl].
    { rewrite Hlen. by eapply lookup_lt_Some. }
    rewrite Hl in Hst. simpl in Hst. subst st. eauto 10. }
  destruct op; simpl in H; unfold MarkUnavailable, MarkStarted, MarkInfrastructureFailure,
    MarkSucceeded in H; try (by eapply Hmark; [exact H|]; auto).
  - unfold Reconciled, in_bounds in H. destruct (blank evidence); [injection H as <- <-; eauto|].
    destruct (negb _ || _) eqn:Hb; [injection H as <- <-; eauto|].
    case_bool_decide as Hst; simpl in H; injection H as <- <-; [|eauto].
    reflect_bools. apply Z.leb_le in H. right. split; [done|].
    exists (Z.to_nat (sel_index sel)), StateReconcileRequired. eexists _, _.
    split_and!; [lia|done|done|exact m_reconciled|done].
  - unfold MarkNoFallback in H. destruct (blank reason); [injection H as <- <-; eauto|].
    eapply Hmark; eauto.
  - unfold Apply, MarkSucceeded, MarkInfrastructureFailure, MarkNoFallback in H.
    destruct (ClassifyOutcome r); [by eapply Hmark; eauto..|].
    destruct (blank _); [injection H as <- <-; eauto|]. eapply Hmark; eauto.
Qed.

(** ** The shape of a chain driven by its own offers *)

Definition resolved (st : CandidateState) : bool :=
  match st with StateUnavailable | StateReconciled => true | _ => false end.

Lemma moves_source st st' : moves st st' → resolved st = false.
Proof. by destruct 1. Qed.

Lemma next_from_spec i cs sts sel :
  next_from i cs sts = inr sel →
  ∃ j, sel_index sel = Z.of_nat (i + j) ∧ cs !! j = Some (sel_candidate sel)
    ∧ sts !! j = Some StateUnused ∧ ∀ k st, k < j → sts !! k = Some st → resolved st = true.
Proof.
  revert i sts. induction cs as [|c cs IH]; intros i [|st sts]; simpl; try done.
  assert (resolved st = true → next_from (S i) cs sts = inr sel →
    ∃ j, sel_index sel = Z.of_nat (i + j) ∧ (c :: cs) !! j = Some (sel_candidate sel)
    ∧ (st :: sts) !! j = Some StateUnused
    ∧ ∀ k st', k < j → (st :: sts) !! k = Some st' → resolved st' = true) as Hrec.
  { intros Hr (j & Hj & Hc & Hs & Hb)%IH. exists (S j).
    split_and!; [by rewrite Nat.add_succ_r|done|done|].
    intros [|k] st' Hk Hl; simpl in Hl; [by simplify_eq|]. apply (Hb k); [lia|done]. }
  destruct st; simpl in *; try done; auto. intros [= <-]. exists 0.
  split_and!; simpl; [by rewrite Nat.add_0_r|done|done|intros; lia].
Qed.

Record shaped (f : Fallback) (offered : list Selection) : Prop := {
  sh_len : length (fb_states f) = length (fb_candidates f);
  sh_frontier : ∃ k, ∀ i st, fb_states f !! i = Some st →
    (i < k → resolved st = true) ∧ (k < i → st = StateUnused);
  sh_offered : ∀ sel, sel ∈ offered → ∃ i, sel_index sel = Z.of_nat i
    ∧ fb_candidates f !! i = Some (sel_candidate sel)
    ∧ ∀ j st, j < i → fb_states f !! j = Some st → resolved st = true;
  sh_touched : ∀ i st, fb_states f !! i = Some st → st ≠ StateUnused →
    ∃ sel, sel ∈ offered ∧ sel_index sel = Z.of_nat i
      ∧ fb_candidates f !! i = Some (sel_candidate sel);
}.

Lemma shaped_next f offered sel :
  shaped f offered → Next f = inr sel → shaped f (sel :: offered).
Proof.
  intros [Hl Hf Ho Ht] Hn. constructor; [done|done| |].
  - intros s [->|Hs]%elem_of_cons; [|by apply Ho].
    destruct (next_from_spec _ _ _ _ Hn) as (j & Hj & Hc & _ & Hb). eauto.
  - intros i st Hi Hne. destruct (Ht i st Hi Hne) as (s & Hs & ?). exists s. set_solver.
Qed.

(** The selected candidate is the frontier. *)
Lemma shaped_at f offered sel i st :
  shaped f offered → sel ∈ offered → sel_index sel = Z.of_nat i →
  fb_states f !! i = Some st → resolved st = false →
  (∀ j st', j < i → fb_states f !! j = Some st' → resolved st' = true)
  ∧ (∀ j st', i < j → fb_states f !! j = Some st' → st' = StateUnused).
Proof.
  intros [Hl [k Hf] Ho Ht] Hsel Hi Hst Hr.
  destruct (Ho sel Hsel) as (i' & Hi' & Hc & Hb).
  assert (i' = i) as -> by lia. split; [done|].
  intros j st' Hlt Hj. destruct (Hf i st Hst) as [Hik _], (Hf j st' Hj) as [_ Hjk].
  apply Hjk. destruct (decide (i < k)) as [Hlt'|]; [|lia]. rewrite Hik in Hr by done. done.
Qed.

Lemma shaped_op f offered sel op :
  shaped f offered → sel ∈ offered → shaped (run_op f sel op).2 offered.
Proof.
  intros Hsh Hsel. destruct (run_op f sel op) as [e f'] eqn:Hop. simpl.
  destruct (run_op_spec f sel op e f' (sh_len _ _ Hsh) Hop)
    as [[-> _]|(-> & i & st & st' & reason & Hi & Hc & Hst & Hm & ->)]; [done|].
  destruct (shaped_at _ _ _ _ _ Hsh Hsel Hi Hst (moves_source _ _ Hm)) as [Hbelow Habove].
  destruct Hsh as [Hl _ Ho Ht].
  assert (∀ j x, j ≠ i → <[i:=st']> (fb_states f) !! j = Some x → fb_states f !! j = Some x)
    as Hother by (intros j x Hne; by rewrite list_lookup_insert_ne).
  constructor; simpl.
  - by rewrite length_insert.
  - exists i. intros j x Hj. split; intros Hlt; apply Hother in Hj; try lia; eauto.
  - intros s Hs. destruct (Ho s Hs) as (i' & Hi' & Hc' & Hb). exists i'. split_and!; [done|done|].
    intros j x Hlt Hj. destruct (decide (j = i)) as [->|Hne]; [|eauto].
    pose proof (Hb i st Hlt Hst) as Hr. by rewrite (moves_source _ _ Hm) in Hr.
  - intros j x Hj Hne. destruct (decide (j = i)) as [->|Hji]; [by exists sel|eauto].
Qed.

Lemma new_shaped id cs g f : NewFallback id cs g = inr f → shaped f [].
Proof.
  unfold NewFallback. destruct (negb (Valid id)); [done|]. case_bool_decide; [done|].
  intros ([] & _ & Hf)%rbind_ok. destruct (negb _); [done|]. destruct (negb _); [done|].
  injection Hf as <-. constructor; simpl.
  - by rewrite length_replicate.
  - exists 0. intros i st [-> _]%lookup_replicate. split; [lia|done].
  - intros sel Hs. by apply elem_of_nil in Hs.
  - intros i st [-> _]%lookup_replicate Hne. done.
Qed.

Definition same_chain (f f' : Fallback) : Prop :=
  fb_identity f' = fb_identity f ∧ fb_candidates f' = fb_candidates f
  ∧ fb_grant f' = fb_grant f.

Lemma chain_step_shaped x y :
  chain_step x y → shaped x.1 x.2 → shaped y.1 y.2 ∧ same_chain x.1 y.1.
Proof.
  destruct 1 as [f offered sel Hn|f offered sel op Hs]; simpl; intros Hsh.
  - split; [by apply shaped_next|done].
  - split; [by apply shaped_op|]. destruct (run_op f sel op) as [e f'] eqn:Hop.
    destruct (run_op_spec f sel op e f' (sh_len _ _ Hsh) Hop)
      as [[-> _]|(_ & i & st & st' & reason & _ & _ & _ & _ & ->)]; done.
Qed.

Lemma chain_run_shaped x y :
  rtc chain_step x y → shaped x.1 x.2 → shaped y.1 y.2 ∧ same_chain x.1 y.1.
Proof.
  induction 1 as [x|x y z Hxy _ IH]; intros Hsh; [done|].
  destruct (chain_step_shaped _ _ Hxy Hsh) as [Hy (H1 & H2 & H3)].
  destruct (IH Hy) as [Hz (H4 & H5 & H6)]. split; [done|]. unfold same_chain. split_and!; congruence.
Qed.

(** ** Verdicts are final *)

Definition verdict (st : CandidateState) : bool :=
  match st with StateNoFallback | StateSucceeded => true | _ => false end.

Lemma verdict_frontier f offered i st :
  shaped f offered → fb_states f !! i = Some st → verdict st = true →
  ∀ j st', fb_states f !! j = Some st' →
    (j < i → resolved st' = true) ∧ (i < j → st' = StateUnused).
Proof.
  intros [_ [k Hf] _ _] Hi Hv j st' Hj. destruct (Hf i st Hi) as [H1 H2], (Hf j st' Hj) as [H3 H4].
  assert (i = k) as ->; [|done].
  destruct (Nat.lt_trichotomy i k) as [Hlt|[?|Hlt]]; [|done|].
  - specialize (H1 Hlt). by destruct st.
  - specialize (H2 Hlt). by subst.
Qed.

Lemma verdict_stuck f offered i st sel op :
  shaped f offered → fb_states f !! i = Some st → verdict st = true → sel ∈ offered →
  (run_op f sel op).2 = f ∧ is_Some (run_op f sel op).1.
Proof.
  intros Hsh Hi Hv Hsel. destruct (run_op f sel op) as [e f'] eqn:Hop.
  destruct (run_op_spec f sel op e f' (sh_len _ _ Hsh) Hop)
    as [?|(-> & j & st1 & st2 & reason & Hj & Hc & Hst & Hm & ->)]; [done|exfalso].
  destruct (shaped_at _ _ _ _ _ Hsh Hsel Hj Hst (moves_source _ _ Hm)) as [Hb Ha].
  destruct (verdict_frontier _ _ _ _ Hsh Hi Hv j st1 Hst) as [H1 H2].
  destruct (Nat.lt_trichotomy j i) as [Hlt|[->|Hlt]].
  - pose proof (moves_source _ _ Hm). rewrite H1 in * by done. done.
  - simplify_eq. by inversion Hm; subst.
  - specialize (Hb i st Hlt Hi). by destruct st.
Qed.

Lemma next_from_verdict i j cs sts st :
  length sts = length cs → sts !! j = Some st → verdict st = true →
  (∀ k st', k < j → sts !! k = Some st' → resolved st' = true) →
  next_from i cs sts = inl (match st with StateSucceeded => ErrDone | _ => ErrNoFallback end).
Proof.
  revert i j sts. induction cs as [|c cs IH]; intros i j [|x sts] Hlen Hj Hv Hb;
    simpl in Hlen; try lia; [done|].
  destruct j as [|j]; simpl in Hj.
  - injection Hj as ->. by destruct st.
  - pose proof (Hb 0 x ltac:(lia) eq_refl) as Hx.
    assert (next_from (S i) cs sts
            = inl (match st with StateSucceeded => ErrDone | _ => ErrNoFallback end)) as Hrec.
    { apply (IH (S i) j); [lia|done|done|]. intros k st' Hk Hl. apply (Hb (S k)); [lia|done]. }
    by destruct x.
Qed.

(** ** Termination *)

Definition weight (st : CandidateState) : nat :=
  match st with
  | StateUnused => 3 | StateStarted => 2 | StateReconcileRequired => 1 | _ => 0
  end.
Definition chain_weight (f : Fallback) : nat := sum_list_with weight (fb_states f).

Lemma sum_insert {A} (w : A → nat) (l : list A) i x y :
  l !! i = Some x → sum_list_with w (<[i:=y]> l) + w x = sum_list_with w l + w y.
Proof.
  revert i. induction l as [|z l IH]; intros [|i] Hi; simpl in *; try done.
  - injection Hi as ->. lia.
  - specialize (IH i Hi). lia.
Qed.

Lemma moves_weight st st' : moves st st' → weight st' < weight st.
Proof. destruct 1; simpl; lia. Qed.

Lemma run_op_weight f sel op f' :
  length (fb_states f) = length (fb_candidates f) →
  run_op f sel op = (None, f') → chain_weight f' < chain_weight f.
Proof.
  intros Hl Hop. destruct (run_op_spec f sel op None f' Hl Hop)
    as [[_ [? ?]]|(_ & i & st & st' & reason & _ & _ & Hst & Hm & ->)]; [done|].
  unfold chain_weight. simpl. pose proof (sum_insert weight _ _ _ st' Hst).
  pose proof (moves_weight _ _ Hm). lia.
Qed.

(** ** Nothing gets stuck *)

Lemma next_from_pending i cs sts e :
  next_from i cs sts = inl e → length sts = length cs →
  e = ErrExhausted ∨ e = ErrDone ∨ e = ErrNoFallback
  ∨ ∃ j, sts !! j = Some StateStarted ∨ sts !! j = Some StateReconcileRequired.
Proof.
  revert i sts. induction cs as [|c cs IH]; intros i [|st sts]; simpl; try done;
    [by intros [= <-]; left|].
  intros H Hlen. assert (next_from (S i) cs sts = inl e →
    e = ErrExhausted ∨ e = ErrDone ∨ e = ErrNoFallback
    ∨ ∃ j, (st :: sts) !! j = Some StateStarted
           ∨ (st :: sts) !! j = Some StateReconcileRequired) as Hrec.
  { intros [?|[?|[?|[j Hj]]]]%IH; [by auto..| |lia]. do 3 right. by exists (S j). }
  destruct st; try done; auto; try (injection H as <-; auto); do 3 right; exists 0; auto.
Qed.

Lemma in_bounds_nat f i c :
  fb_candidates f !! i = Some c → in_bounds f (Z.of_nat i) = true.
Proof.
  intros H%lookup_lt_Some. unfold in_bounds. apply andb_true_iff.
  split; [apply Z.leb_le|apply Z.ltb_lt]; lia.
Qed.

(** A mark whose selection and source state fit is made. *)
Lemma mark_made f sel i from to reason :
  sel_index sel = Z.of_nat i → fb_candidates f !! i = Some (sel_candidate sel) →
  fb_states f !! i = Some from → (mark f sel from to reason).1 = None.
Proof.
  intros Hi Hc Hs. unfold mark. rewrite Hi, (in_bounds_nat _ _ _ Hc), Nat2Z.id.
  rewrite bool_decide_eq_true_2 by done. simpl. rewrite Hs. simpl.
  by rewrite bool_decide_eq_true_2.
Qed.

Lemma reconcile_made f sel i evidence :
  sel_index sel = Z.of_nat i → fb_candidates f !! i = Some (sel_candidate sel) →
  fb_states f !! i = Some StateReconcileRequired → blank evidence = false →
  (Reconciled f sel evidence).1 = None.
Proof.
  intros Hi Hc Hs Hb. unfold Reconciled. rewrite Hb, Hi, (in_bounds_nat _ _ _ Hc), Nat2Z.id.
  rewrite bool_decide_eq_true_2 by done. simpl. by rewrite bool_decide_eq_true_2.
Qed.

Lemma new_chain id cs g f :
  NewFallback id cs g = inr f →
  f = mkChain id cs g (replicate (length cs) StateUnused) (replicate (length cs) "").
Proof.
  unfold NewFallback. destruct (negb (Valid id)); [done|]. case_bool_decide; [done|].
  intros ([] & _ & Hf)%rbind_ok. destruct (negb _); [done|]. destruct (negb _); [done|].
  by injection Hf as <-.
Qed.

(** * The promises of the fallback chain *)

(** ** A chain of three candidates to evaluate it on *)

Definition demo_identity : AttemptIdentity := mkIdentity "wi_a" 3 "code" "sa1" 1.
Definition demo_candidates : list ModelCandidate :=
  [mkCandidate "claude" "opus" "high"; mkCandidate "codex" "gpt" "high";
   mkCandidate "claude" "sonnet" "low"].
Definition read_grant : StepGrant := mkGrant AuthorityReadOnly IsolationRequired.
Definition chain0 : Fallback :=
  mkChain demo_identity demo_candidates read_grant
    (replicate 3 StateUnused) (replicate 3 "").

Lemma chain0_new : NewFallback demo_identity demo_candidates read_grant = inr chain0.
Proof. vm_compute. reflexivity. Qed.

Definition nth_sel (i : nat) : Selection :=
  mkSel (Z.of_nat i) (default (mkCandidate "" "" "") (demo_candidates !! i)).
Definition after (f : Fallback) (ops : list (Selection * ChainOp)) : Fallback :=
  foldl (λ f p, (run_op f p.1 p.2).2) f ops.

(** The first candidate is missing, the second starts and its review fails. *)
Definition chain_failed : Fallback := Eval vm_compute in
  after chain0 [(nth_sel 0, OpUnavailable "not installed"); (nth_sel 1, OpStarted);
                (nth_sel 1, OpNoFallback "review FAIL")].

Lemma chain_failed_run :
  rtc chain_step (chain0, []) (chain_failed, [nth_sel 1; nth_sel 0]).
Proof.
  eapply rtc_l; [apply (c_next chain0 [] (nth_sel 0)); vm_compute; reflexivity|].
  eapply rtc_l; [apply (c_op _ _ (nth_sel 0) (OpUnavailable "not installed")); set_solver|].
  eapply rtc_l; [apply (c_next _ _ (nth_sel 1)); vm_compute; reflexivity|].
  eapply rtc_l; [apply (c_op _ _ (nth_sel 1) OpStarted); set_solver|].
  eapply rtc_l; [apply (c_op _ _ (nth_sel 1) (OpNoFallback "review FAIL")); set_solver|].
  match goal with |- rtc _ ?x ?y => replace x with y by (vm_compute; reflexivity) end.
  apply rtc_refl.
Qed.

(** ** Order *)

(** A chain driven by its own offers tries its candidates in list order:
    there is a frontier below which every candidate was unavailable or
    reconciled and above which none was touched, so at most one candidate is
    started, failing or decided; every offer names a candidate of the list at
    its own position, and identity, list and grant never change. *)
Theorem chain_in_order id cs g f0 f offered :
  NewFallback id cs g = inr f0 → rtc chain_step (f0, []) (f, offered) →
  fb_identity f = id ∧ fb_candidates f = cs ∧ fb_grant f = g
  ∧ (∃ k, ∀ i st, fb_states f !! i = Some st →
      (i < k → st = StateUnavailable ∨ st = StateReconciled)
      ∧ (k < i → st = StateUnused))
  ∧ ∀ sel, sel ∈ offered → ∃ i, sel_index sel = Z.of_nat i
      ∧ cs !! i = Some (sel_candidate sel).
Proof.
  intros Hnew Hrun. pose proof (chain_run_shaped _ _ Hrun (new_shaped _ _ _ _ Hnew))
    as [[Hl [k Hf] Ho Ht] (H1 & H2 & H3)]. simpl in *.
  pose proof (new_chain _ _ _ _ Hnew) as E. rewrite E in H1, H2, H3. simpl in *.
  split_and!; try congruence.
  - exists k. intros i st Hi. destruct (Hf i st Hi) as [Hr Hu]. split; [|done].
    intros Hlt. specialize (Hr Hlt). destruct st; try done; auto.
  - intros sel Hsel. destruct (Ho sel Hsel) as (i & Hi & Hc & _). exists i.
    by rewrite <- H2.
Qed.

Lemma chain_in_order_witness :
  ∃ k, (0 < k → fb_states chain_failed !! 0 = Some StateUnavailable)
    ∧ fb_candidates chain_failed = demo_candidates.
Proof.
  destruct (chain_in_order demo_identity demo_candidates read_grant chain0 chain_failed _
    chain0_new chain_failed_run) as (_ & Hc & _ & (k & Hk) & _).
  exists k. split; [intros _; reflexivity|exact Hc].
Defined.

(** C40. No reroll: once a candidate ended in a verdict (a FAIL that never falls
    back, or a success), nothing a controller does with any selection it was
    ever offered changes the chain, and [Next] only reports that verdict. *)
Theorem verdict_is_final id cs g f0 f offered f' offered' i st :
  NewFallback id cs g = inr f0 → rtc chain_step (f0, []) (f, offered) →
  fb_states f !! i = Some st → st = StateNoFallback ∨ st = StateSucceeded →
  rtc chain_step (f, offered) (f', offered') →
  f' = f ∧ Next f' = inl (match st with StateSucceeded => ErrDone | _ => ErrNoFallback end).
Proof.
  intros Hnew Hrun Hi Hst Hmore.
  pose proof (chain_run_shaped _ _ Hrun (new_shaped _ _ _ _ Hnew)) as [Hsh _]. simpl in Hsh.
  assert (verdict st = true) as Hv by (by destruct Hst as [-> | ->]).
  assert (Next f = inl (match st with StateSucceeded => ErrDone | _ => ErrNoFallback end)) as Hn.
  { apply (next_from_verdict 0 i); [apply Hsh|done|done|]. intros k st' Hk Hl.
    by apply (verdict_frontier _ _ _ _ Hsh Hi Hv k st' Hl). }
  assert (∀ x y, rtc chain_step x y → x.1 = f → shaped x.1 x.2 → y.1 = f) as Hind.
  { induction 1 as [|x y z Hxy _ IH]; intros Hx Hs; [done|].
    apply IH; [|by apply (chain_step_shaped _ _ Hxy)].
    destruct Hxy as [f1 off sel|f1 off sel op Hin]; simpl in *; [done|]. subst f1.
    by destruct (verdict_stuck _ _ _ _ sel op Hs Hi Hv Hin). }
  assert (f' = f) as -> by (exact (Hind _ _ Hmore eq_refl Hsh)). done.
Qed.

Lemma verdict_is_final_witness :
  fb_states chain_failed !! 1 = Some StateNoFallback ∧ Next chain_failed = inl ErrNoFallback.
Proof.
  split; [reflexivity|].
  destruct (verdict_is_final demo_identity demo_candidates read_grant chain0 chain_failed _
    chain_failed _ 1 StateNoFallback chain0_new chain_failed_run eq_refl (or_introl eq_refl)
    (rtc_refl _ _)) as [_ H]. exact H.
Defined.

(** A chain terminates without getting stuck: a new chain of [n]
    candidates allows at most [3 n] successful records, because each lowers
    [chain_weight]; and as long as [Next] reports neither exhaustion nor a
    verdict there is a next move: a candidate on offer that can be started, or
    an offered one whose pending outcome or reconciliation can be recorded. *)
Theorem chain_terminates id cs g f0 f offered :
  NewFallback id cs g = inr f0 → rtc chain_step (f0, []) (f, offered) →
  chain_weight f0 = 3 * length cs
  ∧ (∀ sel op f', run_op f sel op = (None, f') → chain_weight f' < chain_weight f)
  ∧ (Next f = inl ErrExhausted ∨ Next f = inl ErrDone ∨ Next f = inl ErrNoFallback
     ∨ (∃ sel, Next f = inr sel ∧ (run_op f sel OpStarted).1 = None)
     ∨ (∃ sel op, sel ∈ offered ∧ (run_op f sel op).1 = None)).
Proof.
  intros Hnew Hrun.
  pose proof (chain_run_shaped _ _ Hrun (new_shaped _ _ _ _ Hnew)) as [Hsh _]. simpl in Hsh.
  split_and!.
  - apply new_chain in Hnew as ->. unfold chain_weight. simpl.
    assert (∀ n, sum_list_with weight (replicate n StateUnused) = 3 * n) as Hsum
      by (induction n as [|n IH]; simpl; [done|rewrite IH; lia]).
    by rewrite Hsum.
  - intros sel op f' Hop. eapply run_op_weight; [apply Hsh|done].
  - destruct (Next f) as [e|sel] eqn:Hn.
    + destruct (next_from_pending _ _ _ _ Hn (sh_len _ _ Hsh)) as [->|[->|[->|[j Hj]]]];
        [by auto..|]. do 4 right.
      assert (∃ st, fb_states f !! j = Some st ∧ st ≠ StateUnused) as (st & Hst & Hne)
        by (destruct Hj; eauto).
      destruct (sh_touched _ _ Hsh j st Hst Hne) as (sel & Hs & Hi & Hc). exists sel.
      destruct Hj as [Hj|Hj].
      * exists (OpInfrastructure ""). split; [done|]. by eapply mark_made.
      * exists (OpReconciled "stopped"). split; [done|]. by eapply reconcile_made.
    + do 3 right. left. exists sel. split; [done|].
      destruct (next_from_spec _ _ _ _ Hn) as (j & Hi & Hc & Hst & _).
      by eapply mark_made.
Qed.

Lemma chain_terminates_witness :
  chain_weight chain0 = 9 ∧ Next chain_failed = inl ErrNoFallback.
Proof.
  destruct (chain_terminates demo_identity demo_candidates read_grant chain0 chain_failed _
    chain0_new chain_failed_run) as (Hw & _ & _).
  split; [exact Hw|reflexivity].
Defined.

(** ** A selection [Next] never made

    [mark] looks only at the selected candidate: with a hand-made selection a
    later candidate starts although an earlier one already failed its review. *)
Example constructed_selection_reopens :
  Next chain_failed = inl ErrNoFallback
  ∧ (MarkStarted chain_failed (nth_sel 2)).1 = None.
Proof. split; reflexivity. Qed.
