(* ===== verification/Idempotency.v ===== *)
(** * The idempotency cache of the HTTP layer

    [internal/server/idempotency.go]: the in-process cache that replays the
    response of a mutating request, its two bounds, and the middleware around
    it.  The cache is a map of pointers into a doubly linked list; the pointers
    are kept here ([ca_elems] is the heap of list elements), because the map
    and the list must agree about them. *)

From stdpp Require Import pretty.
From S2P Require Import Prelude GoStrings Errors Crypto.

Open Scope Z_scope.
Open Scope list_scope.

(** ** Constants *)

Definition idempotencyTTL : Z := 24 * 3600 * 1000000000.
Definition maxIdempotencyEntries : Z := 4096.
Definition maxIdempotencyBodyBytes : Z := Z.shiftl 1 20.
Definition maxIdempotencyTotalBytes : Z := Z.shiftl 32 20.
Definition idempotencyEntryOverhead : Z := 256.
Definition maxIdempotencyRequestBytes : Z := Z.shiftl 4 20.

(** ** Data *)

Record cachedResponse : Type := mkCached {
  cr_status : Z; cr_body : string; cr_fingerprint : string; cr_expires : Z }.

Record idempotencyEntry : Type := mkEntry {
  ie_key : string; ie_resp : cachedResponse; ie_bytes : Z }.

(** The cumulative counters are [uint64]. *)
Record IdempotencyStats : Type := mkStats {
  is_peak_entries : Z; is_peak_bytes : Z; is_stores : Z; is_hits : Z; is_replays : Z;
  is_rejected : Z; is_evicted_entries : Z; is_evicted_bytes : Z; is_purged : Z;
  is_scanned : Z }.

Definition u64_succ (z : Z) : Z := (z + 1) mod 2 ^ 64.

Record Cache : Type := mkCache {
  ca_map : gmap string nat;                  (* idempotencyCache *)
  ca_lru : list nat;                         (* idempotencyLRU, front first *)
  ca_elems : gmap nat idempotencyEntry;      (* the elements themselves *)
  ca_next : nat;                             (* the next address *)
  ca_bytes : Z;                              (* idempotencyBytes *)
  ca_stats : IdempotencyStats;
}.

Definition empty_cache : Cache := mkCache ∅ [] ∅ 0 0 (mkStats 0 0 0 0 0 0 0 0 0 0).

Definition slen (s : string) : Z := Z.of_nat (String.length s).

Definition with_stats (f : IdempotencyStats → IdempotencyStats) (c : Cache) : Cache :=
  mkCache (ca_map c) (ca_lru c) (ca_elems c) (ca_next c) (ca_bytes c) (f (ca_stats c)).

Definition count_hit (s : IdempotencyStats) : IdempotencyStats :=
  mkStats (is_peak_entries s) (is_peak_bytes s) (is_stores s) (u64_succ (is_hits s))
    (is_replays s) (is_rejected s) (is_evicted_entries s) (is_evicted_bytes s) (is_purged s)
    (is_scanned s).
Definition count_replay (s : IdempotencyStats) : IdempotencyStats :=
  mkStats (is_peak_entries s) (is_peak_bytes s) (is_stores s) (is_hits s)
    (u64_succ (is_replays s)) (is_rejected s) (is_evicted_entries s) (is_evicted_bytes s)
    (is_purged s) (is_scanned s).
Definition count_rejected (s : IdempotencyStats) : IdempotencyStats :=
  mkStats (is_peak_entries s) (is_peak_bytes s) (is_stores s) (is_hits s) (is_replays s)
    (u64_succ (is_rejected s)) (is_evicted_entries s) (is_evicted_bytes s) (is_purged s)
    (is_scanned s).
Definition count_store (s : IdempotencyStats) : IdempotencyStats :=
  mkStats (is_peak_entries s) (is_peak_bytes s) (u64_succ (is_stores s)) (is_hits s)
    (is_replays s) (is_rejected s) (is_evicted_entries s) (is_evicted_bytes s) (is_purged s)
    (is_scanned s).
Definition count_evicted (for_entries : bool) (s : IdempotencyStats) : IdempotencyStats :=
  mkStats (is_peak_entries s) (is_peak_bytes s) (is_stores s) (is_hits s) (is_replays s)
    (is_rejected s)
    (if for_entries then u64_succ (is_evicted_entries s) else is_evicted_entries s)
    (if for_entries then is_evicted_bytes s else u64_succ (is_evicted_bytes s))
    (is_purged s) (is_scanned s).
Definition count_scanned (s : IdempotencyStats) : IdempotencyStats :=
  mkStats (is_peak_entries s) (is_peak_bytes s) (is_stores s) (is_hits s) (is_replays s)
    (is_rejected s) (is_evicted_entries s) (is_evicted_bytes s) (is_purged s)
    (u64_succ (is_scanned s)).
Definition count_purged (s : IdempotencyStats) : IdempotencyStats :=
  mkStats (is_peak_entries s) (is_peak_bytes s) (is_stores s) (is_hits s) (is_replays s)
    (is_rejected s) (is_evicted_entries s) (is_evicted_bytes s) (u64_succ (is_purged s))
    (is_scanned s).

(** ** Fingerprints *)

(** [%d] of a length. *)
Definition decimal (n : nat) : string := pretty (N.of_nat n).

(** What [requestFingerprint] hashes. *)
Definition fingerprint_input (method target body : string) : string :=
  decimal (String.length method) +:+ ":" +:+ method
  +:+ decimal (String.length target) +:+ ":" +:+ target
  +:+ decimal (String.length body) +:+ ":" +:+ body.

Definition requestFingerprint (method target body : string) : string :=
  EncodeToString (Sum256 (bytes_of (fingerprint_input method target body))).

(** ** The cache *)

Definition idempotencyEntrySize (key : string) (r : cachedResponse) : Z :=
  idempotencyEntryOverhead + slen key + slen (cr_body r) + slen (cr_fingerprint r).

(** [removeElementLocked]; an address without an element would be a nil
    dereference in Go and changes nothing here. *)
Definition removeElementLocked (el : nat) (c : Cache) : Cache :=
  match ca_elems c !! el with
  | None => c
  | Some e =>
      mkCache (delete (ie_key e) (ca_map c)) (filter (λ x, x ≠ el) (ca_lru c))
        (delete el (ca_elems c)) (ca_next c) (ca_bytes c - ie_bytes e) (ca_stats c)
  end.

Definition move_to_front (el : nat) (c : Cache) : Cache :=
  mkCache (ca_map c) (el :: filter (λ x, x ≠ el) (ca_lru c)) (ca_elems c) (ca_next c)
    (ca_bytes c) (ca_stats c).

Definition loadIdempotent (now : Z) (key : string) (c : Cache)
  : option cachedResponse * Cache :=
  match ca_map c !! key with
  | None => (None, c)
  | Some el =>
      match ca_elems c !! el with
      | None => (None, c)
      | Some e =>
          if negb (now <? cr_expires (ie_resp e)) then (None, removeElementLocked el c)
          else (Some (ie_resp e), with_stats count_hit (move_to_front el c))
      end
  end.

Definition entries (c : Cache) : Z := Z.of_nat (size (ca_map c)).

Definition over_caps (c : Cache) : bool :=
  (maxIdempotencyEntries <? entries c) || (maxIdempotencyTotalBytes <? ca_bytes c).

(** One round of the loop of [makeRoomLocked]. *)
Definition evict_one (victim : nat) (c : Cache) : Cache :=
  removeElementLocked victim
    (with_stats (count_evicted (maxIdempotencyEntries <? entries c))
       (with_stats count_scanned c)).

(** [makeRoomLocked]; every round removes an element, so the length of the list
    is enough fuel. *)
Fixpoint make_room (fuel : nat) (c : Cache) : Cache :=
  match fuel with
  | O => c
  | S fuel =>
      if over_caps c then
        match last (ca_lru c) with
        | None => with_stats count_scanned c
        | Some victim => make_room fuel (evict_one victim c)
        end
      else c
  end.

Definition makeRoomLocked (c : Cache) : Cache := make_room (S (length (ca_lru c))) c.

Definition recordPeaksLocked (c : Cache) : Cache :=
  with_stats (λ s,
    mkStats (Z.max (is_peak_entries s) (entries c)) (Z.max (is_peak_bytes s) (ca_bytes c))
      (is_stores s) (is_hits s) (is_replays s) (is_rejected s) (is_evicted_entries s)
      (is_evicted_bytes s) (is_purged s) (is_scanned s)) c.

(** The insertion of [storeIdempotent], before it makes room. *)
Definition put_entry (key : string) (r : cachedResponse) (c : Cache) : Cache :=
  let size := idempotencyEntrySize key r in
  match ca_map c !! key with
  | Some el =>
      match ca_elems c !! el with
      | None => c
      | Some prev =>
          mkCache (ca_map c) (el :: filter (λ x, x ≠ el) (ca_lru c))
            (<[el := mkEntry (ie_key prev) r size]> (ca_elems c)) (ca_next c)
            (ca_bytes c + (size - ie_bytes prev)) (ca_stats c)
      end
  | None =>
      mkCache (<[key := ca_next c]> (ca_map c)) (ca_next c :: ca_lru c)
        (<[ca_next c := mkEntry key r size]> (ca_elems c)) (S (ca_next c))
        (ca_bytes c + size) (ca_stats c)
  end.

Definition storeIdempotent (key : string) (r : cachedResponse) (c : Cache) : Cache :=
  recordPeaksLocked (makeRoomLocked (with_stats count_store (put_entry key r c))).

(** [purgeExpiredLocked]: the walk reads each successor before it removes. *)
Definition purge_one (now : Z) (el : nat) (c : Cache) : Cache :=
  match ca_elems c !! el with
  | None => c
  | Some e =>
      if negb (now <? cr_expires (ie_resp e))
      then with_stats count_purged (removeElementLocked el c) else c
  end.

Definition purgeExpiredLocked (now : Z) (c : Cache) : Cache :=
  foldl (λ c el, purge_one now el c) c (ca_lru c).

(** ** The captured response *)

Inductive WriteOp : Type := WriteHeader (code : Z) | Write (b : string).

Record responseWriter : Type := mkWriter {
  rw_status : Z; rw_body : string; rw_too_large : bool }.

Definition write_op (w : responseWriter) (op : WriteOp) : responseWriter :=
  match op with
  | WriteHeader code => mkWriter code (rw_body w) (rw_too_large w)
  | Write b =>
      let st := if rw_status w =? 0 then 200 else rw_status w in
      if rw_too_large w then mkWriter st (rw_body w) true
      else if maxIdempotencyBodyBytes <? slen (rw_body w) + slen b
      then mkWriter st "" true
      else mkWriter st (rw_body w +:+ b) false
  end.

Definition capture (ops : list WriteOp) : responseWriter :=
  foldl write_op (mkWriter 0 "" false) ops.

(** ** The middleware *)

(** A request as it reaches the middleware: [rq_user] is the API key id of the
    authenticated user, [rq_body] what its body holds, [None] when reading it
    failed. *)
Record Request : Type := mkRequest {
  rq_key : string; rq_method : string; rq_target : string; rq_user : option string;
  rq_body : option string }.

Definition bufferRequestBody (r : Request) : option string :=
  b ← rq_body r; if maxIdempotencyRequestBytes <? slen b then None else Some b.

Definition cache_key (user key : string) : string := user +:+ ":" +:+ key.

(** What the middleware does before the handler: pass the request on
    untouched, reject it, replay a response, or run the handler to cache its
    response under a key and fingerprint. *)
Inductive Before : Type :=
  | PassOn
  | Reject (e : AihubError)
  | Replay (status : Z) (body : string)
  | RunAndCache (key fingerprint : string).

Definition middleware_before (now : Z) (r : Request) (c : Cache) : Before * Cache :=
  if String.eqb (rq_key r) "" then (PassOn, c)
  else if negb (String.eqb (rq_method r) "POST" || String.eqb (rq_method r) "PATCH")
  then (PassOn, c)
  else match rq_user r with
  | None => (PassOn, c)
  | Some user =>
      match bufferRequestBody r with
      | None => (PassOn, c)
      | Some body =>
          let key := cache_key user (rq_key r) in
          let fp := requestFingerprint (rq_method r) (rq_target r) body in
          match loadIdempotent now key c with
          | (Some cached, c) =>
              if negb (String.eqb (cr_fingerprint cached) fp)
              then (Reject (NewErr ErrIdempotencyKeyReused), with_stats count_rejected c)
              else (Replay (cr_status cached) (cr_body cached), with_stats count_replay c)
          | (None, c) => (RunAndCache key fp, c)
          end
      end
  end.

(** ... and after it, with what the handler wrote. *)
Definition middleware_after (now : Z) (key fp : string) (ops : list WriteOp) (c : Cache)
  : Cache :=
  let w := capture ops in
  if (200 <=? rw_status w) && (rw_status w <? 300) && negb (rw_too_large w)
  then storeIdempotent key
         (mkCached (rw_status w) (rw_body w) fp (now + idempotencyTTL)) c
  else c.
