(* ===== verification/IdempotencyTheory.v ===== *)
(** * The idempotency cache refines an LRU list

    The specification is a list of keys and responses, most recently used
    first; [repr] says that the map, the linked list and the byte count of the
    implementation describe such a list, and every operation keeps it. *)

From stdpp Require Import pretty.
From S2P Require Import Prelude GoStrings Errors Crypto Idempotency.

Open Scope Z_scope.
Open Scope list_scope.

(** ** The specification *)

Notation LRU := (list (string * cachedResponse)%type).

Definition psize (p : string * cachedResponse) : Z := idempotencyEntrySize p.1 p.2.
Fixpoint total (l : LRU) : Z := match l with [] => 0 | p :: l => psize p + total l end.

Definition drop_key (k : string) (l : LRU) : LRU := filter (λ p, p.1 ≠ k) l.
Definition find_key (k : string) (l : LRU) : option cachedResponse :=
  p ← list_find (λ p, p.1 = k) l; Some p.2.2.

Definition lru_load (now : Z) (k : string) (l : LRU) : option cachedResponse * LRU :=
  match find_key k l with
  | None => (None, l)
  | Some r =>
      if negb (now <? cr_expires r) then (None, drop_key k l)
      else (Some r, (k, r) :: drop_key k l)
  end.

Definition fits (l : LRU) : bool :=
  (Z.of_nat (length l) <=? maxIdempotencyEntries) && (total l <=? maxIdempotencyTotalBytes).

(** The longest prefix, of at most [n] entries, that fits. *)
Fixpoint fitting_prefix (n : nat) (l : LRU) : LRU :=
  match n with
  | O => []
  | S n' => if fits (take n l) then take n l else fitting_prefix n' l
  end.

Definition lru_store (k : string) (r : cachedResponse) (l : LRU) : LRU :=
  let l := (k, r) :: drop_key k l in fitting_prefix (length l) l.

Definition lru_purge (now : Z) (l : LRU) : LRU :=
  filter (λ p, now < cr_expires p.2) l.

Lemma total_app l1 l2 : total (l1 ++ l2) = total l1 + total l2.
Proof. induction l1; simpl; lia. Qed.

Lemma psize_pos p : 256 <= psize p.
Proof. unfold psize, idempotencyEntrySize, idempotencyEntryOverhead, slen. lia. Qed.

Lemma total_nonneg l : 0 <= total l.
Proof. induction l as [|p l IH]; simpl; [done|]. pose proof (psize_pos p). lia. Qed.

(** ** Representation *)

Notation Slots := (list (nat * (string * cachedResponse))%type).

Record holds (c : Cache) (L : Slots) : Prop := {
  ho_lru : ca_lru c = L.*1;
  ho_elems : ∀ el p, (el, p) ∈ L → ca_elems c !! el = Some (mkEntry p.1 p.2 (psize p));
  ho_map : ∀ k el, ca_map c !! k = Some el ↔ ∃ r, (el, (k, r)) ∈ L;
  ho_keys : NoDup (L.*2.*1);
  ho_ids : NoDup (L.*1);
  ho_fresh : ∀ el p, (el, p) ∈ L → (el < ca_next c)%nat;
  ho_bytes : ca_bytes c = total (L.*2);
}.

Definition repr (c : Cache) (l : LRU) : Prop := ∃ L, L.*2 = l ∧ holds c L.

Lemma holds_stats f c L : holds c L → holds (with_stats f c) L.
Proof. by intros []. Qed.

Lemma repr_stats f c l : repr c l → repr (with_stats f c) l.
Proof. intros (L & HL & H). exists L. split; [done|by apply holds_stats]. Qed.

Lemma empty_repr : repr empty_cache [].
Proof.
  exists []. split; [done|]. constructor; simpl; try done; try constructor.
  - intros el p H. by apply elem_of_nil in H.
  - by rewrite lookup_empty.
  - intros [r H]. by apply elem_of_nil in H.
  - intros el p H. by apply elem_of_nil in H.
Qed.

(** ** Lists whose slots have distinct addresses and keys *)

Lemma filter_all {A} (P : A → Prop) `{∀ x, Decision (P x)} (l : list A) :
  (∀ x, x ∈ l → P x) → filter P l = l.
Proof.
  induction l as [|x l IH]; intros H1; [done|].
  rewrite filter_cons_True by (apply H1; left). f_equal. apply IH. set_solver.
Qed.

Lemma filter_slot {A K} `{EqDecision K} (f : A → K) (L1 L2 : list A) x :
  NoDup (f <$> L1 ++ x :: L2) → filter (λ y, f y ≠ f x) (L1 ++ x :: L2) = L1 ++ L2.
Proof.
  intros Hnd. rewrite fmap_app, fmap_cons in Hnd.
  apply NoDup_app in Hnd as (_ & H1 & H2). apply NoDup_cons in H2 as [H2 _].
  rewrite filter_app, filter_cons_False by naive_solver. f_equal; apply filter_all; intros y Hy Heq.
  - apply (H1 (f y)); [by apply list_elem_of_fmap_2|]. rewrite Heq. left.
  - apply H2. rewrite <- Heq. by apply list_elem_of_fmap_2.
Qed.

Lemma nodup_split {A K} (f : A → K) (L1 L2 : list A) x :
  NoDup (f <$> L1 ++ x :: L2) → NoDup (f <$> L1 ++ L2) ∧ ∀ y, y ∈ L1 ++ L2 → f y ≠ f x.
Proof.
  rewrite !fmap_app, fmap_cons, !NoDup_app, NoDup_cons. intros (H1 & H2 & H3 & H4). split.
  - split_and!; [done| |done]. intros y Hy Hy2. apply (H2 y Hy). by right.
  - intros y [Hy|Hy]%elem_of_app Heq; apply (list_elem_of_fmap_2 f) in Hy;
      rewrite Heq in Hy; [apply (H2 _ Hy); left|done].
Qed.

Lemma holds_split c L1 L2 el p :
  holds c (L1 ++ (el, p) :: L2) →
  filter (λ x, x ≠ el) (ca_lru c) = (L1 ++ L2).*1
  ∧ drop_key p.1 ((L1 ++ (el, p) :: L2).*2) = (L1 ++ L2).*2
  ∧ total ((L1 ++ L2).*2) = ca_bytes c - psize p
  ∧ NoDup ((L1 ++ L2).*2.*1) ∧ NoDup ((L1 ++ L2).*1)
  ∧ ∀ x, x ∈ L1 ++ L2 → x.1 ≠ el ∧ x.2.1 ≠ p.1.
Proof.
  intros [Hl _ _ Hk Hi _ Hb]. pose proof Hk as Hk0.
  pose proof (nodup_split fst L1 L2 (el, p) Hi) as [Hi' Hne].
  rewrite <- list_fmap_compose in Hk.
  pose proof (nodup_split (fst ∘ snd) L1 L2 (el, p) Hk) as [Hk' Hnk].
  split_and!.
  - rewrite Hl, !fmap_app, fmap_cons. apply (filter_slot id).
    rewrite list_fmap_id. by rewrite fmap_app, fmap_cons in Hi.
  - unfold drop_key. rewrite !fmap_app, fmap_cons. apply (filter_slot fst).
    by rewrite fmap_app, fmap_cons in Hk0.
  - rewrite Hb, !fmap_app, fmap_cons, !total_app. simpl. lia.
  - by rewrite <- list_fmap_compose.
  - done.
  - intros x Hx. split; [by apply Hne|by apply Hnk].
Qed.

(** ** One slot removed, moved, added *)

Lemma slot_in {A} (L1 L2 : list A) x y : y ∈ L1 ++ x :: L2 ↔ y = x ∨ y ∈ L1 ++ L2.
Proof. rewrite !elem_of_app, elem_of_cons. tauto. Qed.

Lemma holds_remove c L1 L2 el p :
  holds c (L1 ++ (el, p) :: L2) → holds (removeElementLocked el c) (L1 ++ L2).
Proof.
  intros Hh. destruct (holds_split _ _ _ _ _ Hh) as (Hf & _ & Ht & Hk & Hi & Hne).
  destruct Hh as [Hl He Hm _ _ Hfr Hb].
  unfold removeElementLocked. rewrite (He el p) by (apply slot_in; by left).
  constructor; simpl; try done.
  - intros el' p' Hin. destruct (Hne _ Hin) as [Hne' _]. simpl in Hne'.
    rewrite lookup_delete_ne by done. apply He, slot_in. by right.
  - intros k el'. rewrite lookup_delete_Some, Hm. split.
    + intros [Hkne (r & [[= -> <-]|Hin]%slot_in)]; [done|by exists r].
    + intros (r & Hin). split; [|exists r; apply slot_in; by right].
      destruct (Hne _ Hin) as [_ Hn]. simpl in Hn. congruence.
  - intros el' p' Hin. eapply Hfr, slot_in. by right.
Qed.

Lemma holds_front c L1 L2 el p :
  holds c (L1 ++ (el, p) :: L2) → holds (move_to_front el c) ((el, p) :: L1 ++ L2).
Proof.
  intros Hh. destruct (holds_split _ _ _ _ _ Hh) as (Hf & _ & Ht & Hk & Hi & Hne).
  destruct Hh as [Hl He Hm Hk0 Hi0 Hfr Hb].
  assert (∀ y, y ∈ (el, p) :: L1 ++ L2 ↔ y ∈ L1 ++ (el, p) :: L2) as Hin
    by (intros y; by rewrite slot_in, elem_of_cons).
  constructor; simpl.
  - by rewrite Hf.
  - intros el' p' H. by apply He, Hin.
  - intros k el'. rewrite Hm. by split; intros (r & H); exists r; apply Hin.
  - apply NoDup_cons. split; [|done]. intros (x & Hx & H)%list_elem_of_fmap.
    apply list_elem_of_fmap in H as (y & -> & Hy). by destruct (Hne y Hy) as [_ []].
  - apply NoDup_cons. split; [|done]. intros (y & Hx & Hy)%list_elem_of_fmap.
    by destruct (Hne y Hy) as [[] _].
  - intros el' p' H. eapply Hfr, Hin, H.
  - change (ca_bytes c = psize p + total ((L1 ++ L2).*2)). lia.
Qed.

(** Writing through the pointer of the front slot. *)
Lemma holds_replace c L el k r0 r :
  holds c ((el, (k, r0)) :: L) →
  holds (mkCache (ca_map c) (ca_lru c)
           (<[el := mkEntry k r (idempotencyEntrySize k r)]> (ca_elems c)) (ca_next c)
           (ca_bytes c + (idempotencyEntrySize k r - psize (k, r0))) (ca_stats c))
        ((el, (k, r)) :: L).
Proof.
  intros Hh. destruct (holds_split _ [] _ _ _ Hh) as (_ & _ & _ & _ & _ & Hne).
  destruct Hh as [Hl He Hm Hk Hi Hfr Hb]. constructor; simpl in *; try done.
  - intros el' p' [[= -> ->]|Hin]%elem_of_cons; [by rewrite lookup_insert_eq|].
    destruct (Hne _ Hin) as [Hn _]. simpl in Hn.
    rewrite lookup_insert_ne by done. apply He. by right.
  - intros k' el'. rewrite Hm. split; intros (x & [[= -> -> ->]|Hin]%elem_of_cons);
      [by eexists; left|by exists x; right|by eexists; left|by exists x; right].
  - intros el' p' [[= -> ->]|Hin]%elem_of_cons; [|eapply Hfr; by right].
    eapply (Hfr el (k, r0)). left.
  - rewrite Hb. unfold psize. simpl. lia.
Qed.

Lemma holds_add c L k r :
  holds c L → ca_map c !! k = None →
  holds (mkCache (<[k := ca_next c]> (ca_map c)) (ca_next c :: ca_lru c)
           (<[ca_next c := mkEntry k r (idempotencyEntrySize k r)]> (ca_elems c))
           (S (ca_next c)) (ca_bytes c + idempotencyEntrySize k r) (ca_stats c))
        ((ca_next c, (k, r)) :: L).
Proof.
  intros [Hl He Hm Hk Hi Hfr Hb] Hnone.
  assert (∀ el p, (el, p) ∈ L → el ≠ ca_next c ∧ p.1 ≠ k) as Hne.
  { intros el p Hin. split; [apply Hfr in Hin; lia|]. intros <-.
    assert (ca_map c !! p.1 = Some el) as H; [|congruence].
    apply Hm. exists p.2. by destruct p. }
  constructor; simpl.
  - by rewrite Hl.
  - intros el p [[= -> ->]|Hin]%elem_of_cons; [by rewrite lookup_insert_eq|].
    destruct (Hne _ _ Hin). rewrite lookup_insert_ne by done. by apply He.
  - intros k' el. rewrite lookup_insert_Some. split.
    + intros [[-> <-]|[Hn H]]; [by exists r; left|].
      apply Hm in H as (x & H). exists x. by right.
    + intros (x & [[= -> -> ->]|Hin]%elem_of_cons); [by left|]. right.
      destruct (Hne _ _ Hin) as [_ Hn]. simpl in Hn. split; [congruence|]. apply Hm. eauto.
  - apply NoDup_cons. split; [|done]. intros (x & Hx & H)%list_elem_of_fmap.
    apply list_elem_of_fmap in H as ([el y] & -> & Hy). by destruct (Hne el y Hy) as [_ []].
  - apply NoDup_cons. split; [|done]. intros ([el y] & Hx & Hy)%list_elem_of_fmap.
    destruct (Hne el y Hy) as [Hn _]. simpl in Hx. congruence.
  - intros el p [[= -> ->]|Hin]%elem_of_cons; [lia|]. apply Hfr in Hin. lia.
  - change (ca_bytes c + psize (k, r) = psize (k, r) + total (L.*2)). lia.
Qed.

(** ** Lookups *)

Lemma find_key_none k l : (∀ p, p ∈ l → p.1 ≠ k) → find_key k l = None.
Proof.
  intros H. unfold find_key. assert (list_find (λ p, p.1 = k) l = None) as ->; [|done].
  apply list_find_None, Forall_forall. exact H.
Qed.

Lemma find_key_mid k r l1 l2 :
  (∀ p, p ∈ l1 → p.1 ≠ k) → find_key k (l1 ++ (k, r) :: l2) = Some r.
Proof.
  intros H. unfold find_key.
  assert (list_find (λ p, p.1 = k) (l1 ++ (k, r) :: l2) = Some (length l1, (k, r))) as ->;
    [|done].
  apply list_find_Some. split_and!; [by rewrite list_lookup_middle|done|].
  intros j p Hj Hlt. rewrite lookup_app_l in Hj by done.
  apply H. by eapply list_elem_of_lookup_2.
Qed.

Lemma holds_lookup c L k :
  holds c L →
  match ca_map c !! k with
  | None => find_key k (L.*2) = None ∧ drop_key k (L.*2) = L.*2
  | Some el => ∃ L1 L2 r, L = L1 ++ (el, (k, r)) :: L2 ∧ find_key k (L.*2) = Some r
      ∧ drop_key k (L.*2) = (L1 ++ L2).*2
      ∧ ca_elems c !! el = Some (mkEntry k r (psize (k, r)))
  end.
Proof.
  intros Hh. destruct (ca_map c !! k) as [el|] eqn:Hm.
  - pose proof (proj1 (ho_map _ _ Hh k el) Hm) as (r & Hin).
    pose proof (ho_elems _ _ Hh _ _ Hin) as Hel.
    apply list_elem_of_split in Hin as (L1 & L2 & ->). exists L1, L2, r.
    destruct (holds_split _ _ _ _ _ Hh) as (_ & Hd & _ & _ & _ & Hne).
    split_and!; [done| |done|done]. rewrite fmap_app, fmap_cons. apply find_key_mid.
    intros p ([el' p'] & -> & Hp)%list_elem_of_fmap.
    by apply (Hne (el', p')), elem_of_app; left.
  - assert (∀ p, p ∈ L.*2 → p.1 ≠ k) as Hne.
    { intros p ([el p'] & -> & Hp)%list_elem_of_fmap <-. simpl in Hm.
      rewrite (proj2 (ho_map _ _ Hh p'.1 el)) in Hm; [done|]. exists p'.2. by destruct p'. }
    split; [by apply find_key_none|]. apply filter_all. exact Hne.
Qed.

(** ** The operations *)

Lemma load_refines now k c l :
  repr c l →
  (loadIdempotent now k c).1 = (lru_load now k l).1
  ∧ repr (loadIdempotent now k c).2 (lru_load now k l).2.
Proof.
  intros (L & <- & Hh). pose proof (holds_lookup c L k Hh) as Hk.
  unfold loadIdempotent, lru_load. destruct (ca_map c !! k) as [el|].
  - destruct Hk as (L1 & L2 & r & -> & -> & -> & ->). simpl.
    destruct (negb (now <? cr_expires r)); simpl; split; try done.
    + exists (L1 ++ L2). split; [done|by eapply holds_remove].
    + apply repr_stats. exists ((el, (k, r)) :: L1 ++ L2). split; [done|by apply holds_front].
  - destruct Hk as [-> _]. split; [done|by exists L].
Qed.

Lemma put_refines k r c l : repr c l → repr (put_entry k r c) ((k, r) :: drop_key k l).
Proof.
  intros (L & <- & Hh). pose proof (holds_lookup c L k Hh) as Hk. unfold put_entry.
  destruct (ca_map c !! k) as [el|] eqn:Hm.
  - destruct Hk as (L1 & L2 & r0 & -> & _ & -> & ->). cbn [ie_key ie_bytes].
    exists ((el, (k, r)) :: L1 ++ L2). split; [done|].
    by apply (holds_replace (move_to_front el c) (L1 ++ L2) el k r0 r), holds_front.
  - destruct Hk as [_ ->]. exists ((ca_next c, (k, r)) :: L). split; [done|]. by apply holds_add.
Qed.

Lemma holds_entries c L : holds c L → entries c = Z.of_nat (length L).
Proof.
  intros Hh. unfold entries. f_equal. rewrite <- (size_dom (D := gset string)).
  replace (dom (ca_map c)) with (list_to_set (L.*2.*1) : gset string).
  - by rewrite size_list_to_set, !length_fmap by apply Hh.
  - apply set_eq. intros k. rewrite elem_of_list_to_set, elem_of_dom. split.
    + intros (p & -> & Hp)%list_elem_of_fmap. apply list_elem_of_fmap in Hp as ([el q] & -> & Hq).
      exists el. apply (ho_map _ _ Hh). exists q.2. by destruct q.
    + intros [el (r & Hin)%(ho_map _ _ Hh)].
      apply list_elem_of_fmap. exists (k, r). split; [done|].
      apply list_elem_of_fmap. by exists (el, (k, r)).
Qed.

Lemma over_caps_fits c L : holds c L → over_caps c = negb (fits (L.*2)).
Proof.
  intros Hh. unfold over_caps, fits.
  rewrite (holds_entries _ _ Hh), (ho_bytes _ _ Hh), length_fmap, negb_andb.
  by rewrite !Z.leb_antisym, !negb_involutive.
Qed.

Lemma fitting_prefix_app n l1 l2 :
  (n <= length l1)%nat → fitting_prefix n (l1 ++ l2) = fitting_prefix n l1.
Proof.
  induction n as [|n IH]; intros Hn; [done|]. cbn [fitting_prefix].
  by rewrite take_app_le, IH by lia.
Qed.

Lemma fits_nil : fits [] = true.
Proof. done. Qed.

(** Making room is cutting the list down to its longest prefix that fits. *)
Lemma make_room_refines fuel c L :
  holds c L → (length L < fuel)%nat →
  repr (make_room fuel c) (fitting_prefix (length L) (L.*2)).
Proof.
  revert c L. induction fuel as [|fuel IH]; intros c L Hh Hlen; [lia|]. cbn [make_room].
  rewrite (over_caps_fits _ _ Hh).
  destruct L as [|[el p] L' _] using rev_ind; [by exists []|].
  rewrite length_app, Nat.add_1_r. cbn [fitting_prefix length].
  rewrite (firstn_all2 ((L' ++ [(el, p)]).*2)) by (rewrite length_fmap, length_app; simpl; lia).
  destruct (fits _) eqn:Hf; cbn [negb]; [by exists (L' ++ [(el, p)])|].
  replace (last (ca_lru c)) with (Some el)
    by by rewrite (ho_lru _ _ Hh), fmap_app, fmap_cons, fmap_nil, last_snoc.
  rewrite length_app in Hlen. simpl in Hlen.
  assert (holds (evict_one el c) L') as Hev.
  { unfold evict_one. rewrite <- (app_nil_r L'). eapply holds_remove, holds_stats, holds_stats.
    exact Hh. }
  rewrite fmap_app, fitting_prefix_app by (rewrite length_fmap; lia).
  apply IH; [exact Hev|lia].
Qed.

Lemma store_refines k r c l : repr c l → repr (storeIdempotent k r c) (lru_store k r l).
Proof.
  intros Hr. apply (put_refines k r) in Hr as (L & HL & Hh).
  unfold storeIdempotent, recordPeaksLocked, makeRoomLocked, lru_store.
  apply repr_stats. rewrite <- HL, length_fmap.
  apply make_room_refines; [by apply holds_stats|]. simpl. rewrite (ho_lru _ _ Hh), length_fmap. lia.
Qed.

Lemma lru_purge_cons now p l :
  lru_purge now (p :: l)
  = if now <? cr_expires p.2 then p :: lru_purge now l else lru_purge now l.
Proof.
  unfold lru_purge. destruct (Z.ltb_spec now (cr_expires p.2)) as [H|H].
  - by rewrite filter_cons_True.
  - by rewrite filter_cons_False by lia.
Qed.

Lemma purge_refines now c l : repr c l → repr (purgeExpiredLocked now c) (lru_purge now l).
Proof.
  intros (L & <- & Hh). unfold purgeExpiredLocked. rewrite (ho_lru _ _ Hh).
  assert (∀ L2 L1 c, holds c (L1 ++ L2) →
    repr (foldl (λ c el, purge_one now el c) c (L2.*1)) (L1.*2 ++ lru_purge now (L2.*2))) as H.
  { clear. induction L2 as [|[el p] L2 IH]; intros L1 c Hh.
    { exists (L1 ++ []). split; [by rewrite fmap_app|done]. }
    rewrite !fmap_cons, lru_purge_cons. cbn [foldl fst snd].
    assert (purge_one now el c = if negb (now <? cr_expires p.2)
              then with_stats count_purged (removeElementLocked el c) else c) as ->.
    { unfold purge_one. rewrite (ho_elems _ _ Hh el p); [done|apply slot_in; by left]. }
    destruct (now <? cr_expires p.2); cbn [negb].
    - specialize (IH (L1 ++ [(el, p)]) c). rewrite fmap_app, <- !app_assoc in IH. by apply IH.
    - by eapply IH, holds_stats, holds_remove. }
  apply (H L [] c Hh).
Qed.

(** ** What the specification promises *)

Lemma fitting_prefix_spec n l :
  (n <= length l)%nat →
  ∃ m, fitting_prefix n l = take m l ∧ (m <= n)%nat ∧ fits (take m l) = true
    ∧ ∀ j, (m < j <= n)%nat → fits (take j l) = false.
Proof.
  induction n as [|n IH]; intros Hn; cbn [fitting_prefix].
  { exists 0%nat. split_and!; [done|lia|done|lia]. }
  destruct (fits (take (S n) l)) eqn:Hf.
  - exists (S n). split_and!; [done|lia|done|lia].
  - destruct IH as (m & -> & Hm & Hfm & Hno); [lia|]. exists m. split_and!; [done|lia|done|].
    intros j Hj. destruct (decide (j = S n)) as [->|]; [done|]. apply Hno. lia.
Qed.

Lemma fits_mono l1 l2 : fits (l1 ++ l2) = true → fits l1 = true.
Proof.
  unfold fits. rewrite length_app, total_app, !andb_true_iff, !Z.leb_le.
  pose proof (total_nonneg l2). lia.
Qed.
