(* ===== verification/IdempotencyContracts.v ===== *)
(** * The promises of the idempotency cache *)

From stdpp Require Import pretty.
From stdpp Require Import relations.
From Stdlib Require Import Ascii.
From S2P Require Import Prelude GoStrings Errors Crypto Idempotency IdempotencyTheory.

Open Scope Z_scope.
Open Scope list_scope.

(** ** Fingerprints *)

(** A reader of what [requestFingerprint] hashes. *)
Fixpoint read_decimal (acc : N) (s : string) : option (N * string) :=
  match s with
  | "" => None
  | String c r =>
      if Ascii.eqb c ":"%char then Some (acc, r)
      else if in_range 48 57 c
      then read_decimal (acc * 10 + N.of_nat (byte_of c - 48)) r
      else None
  end.

Definition read_field (s : string) : option (string * string) :=
  p ← read_decimal 0 s;
  let n := N.to_nat p.1 in Some (stake n p.2, sdrop n p.2).

Definition read_fingerprint (s : string) : option (string * string * string) :=
  m ← read_field s; t ← read_field m.2; b ← read_field t.2; Some (m.1, t.1, b.1).

Lemma pretty_N_char_read x acc r :
  (x < 10)%N →
  read_decimal acc (String (pretty_N_char x) r) = read_decimal (acc * 10 + x) r.
Proof.
  intros Hx. assert (x ∈ (N.of_nat <$> seq 0 10)) as Hin.
  { apply list_elem_of_fmap. exists (N.to_nat x). rewrite N2Nat.id, elem_of_seq. lia. }
  cbn in Hin. repeat (apply elem_of_cons in Hin as [->|Hin]; [done|]).
  by apply elem_of_nil in Hin.
Qed.

Lemma pretty_N_go_read x s : read_decimal 0 (pretty_N_go x s) = read_decimal x s.
Proof.
  revert s. induction (N.lt_wf_0 x) as [x _ IH]. intros s.
  destruct (decide (x = 0%N)) as [->|Hx]; [by rewrite pretty_N_go_0|].
  rewrite pretty_N_go_step by lia.
  rewrite IH by (apply N.div_lt; lia).
  rewrite pretty_N_char_read by (apply N.mod_lt; lia). f_equal.
  pose proof (N.div_mod x 10). lia.
Qed.

Lemma pretty_N_go_app x s r : pretty_N_go x (s +:+ r) = pretty_N_go x s +:+ r.
Proof.
  revert s. induction (N.lt_wf_0 x) as [x _ IH]. intros s.
  destruct (decide (x = 0%N)) as [->|Hx]; [by rewrite !pretty_N_go_0|].
  rewrite (pretty_N_go_step x (s +:+ r)), (pretty_N_go_step x s) by lia.
  rewrite <- IH by (apply N.div_lt; lia). done.
Qed.

Lemma read_field_spec f r :
  read_field (decimal (String.length f) +:+ ":" +:+ f +:+ r) = Some (f, r).
Proof.
  unfold read_field, decimal, pretty, pretty_N.
  assert (∀ n, read_decimal 0 ((if decide (n = 0%N) then "0" else pretty_N_go n "")
            +:+ ":" +:+ f +:+ r) = Some (n, f +:+ r)) as ->.
  { intros n. destruct (decide (n = 0%N)) as [->|Hn]; [done|].
    rewrite <- pretty_N_go_app, pretty_N_go_read. done. }
  simpl. rewrite Nat2N.id. by rewrite stake_app, sdrop_app.
Qed.

Lemma read_fingerprint_input method target body :
  read_fingerprint (fingerprint_input method target body) = Some (method, target, body).
Proof.
  unfold read_fingerprint, fingerprint_input. rewrite read_field_spec.
  cbn [mbind option_bind fst snd]. rewrite read_field_spec.
  cbn [mbind option_bind fst snd]. rewrite <- (sapp_nil_r body) at 2.
  by rewrite read_field_spec.
Qed.

(** The text a fingerprint hashes can be read back: its length prefixes
    make it denote one method, target and body only, so no reshuffling of the
    three collides before the hash. *)
Theorem fingerprint_roundtrip method target body :
  read_fingerprint (fingerprint_input method target body) = Some (method, target, body).
Proof. apply read_fingerprint_input. Qed.

(** ** The cache as a whole *)

Inductive CacheOp : Type :=
  | OpLoad (now : Z) (k : string) | OpStore (k : string) (r : cachedResponse)
  | OpPurge (now : Z).

Definition cache_op (c : Cache) (op : CacheOp) : option cachedResponse * Cache :=
  match op with
  | OpLoad now k => loadIdempotent now k c
  | OpStore k r => (None, storeIdempotent k r c)
  | OpPurge now => (None, purgeExpiredLocked now c)
  end.

Definition lru_op (l : LRU) (op : CacheOp) : option cachedResponse * LRU :=
  match op with
  | OpLoad now k => lru_load now k l
  | OpStore k r => (None, lru_store k r l)
  | OpPurge now => (None, lru_purge now l)
  end.

(** The answers of a sequence of operations, and the state it leaves. *)
Fixpoint run_ops {S} (op : S → CacheOp → option cachedResponse * S) (s : S) (ops : list CacheOp)
  : list (option cachedResponse) * S :=
  match ops with
  | [] => ([], s)
  | o :: ops => let '(a, s) := op s o in
                let '(rest, s) := run_ops op s ops in (a :: rest, s)
  end.

Lemma op_refines c l op :
  repr c l → (cache_op c op).1 = (lru_op l op).1 ∧ repr (cache_op c op).2 (lru_op l op).2.
Proof.
  intros H. destruct op; simpl; [by apply load_refines|split; [done|by apply store_refines]|].
  split; [done|by apply purge_refines].
Qed.

Lemma run_ops_refines ops c l :
  repr c l →
  (run_ops cache_op c ops).1 = (run_ops lru_op l ops).1
  ∧ repr (run_ops cache_op c ops).2 (run_ops lru_op l ops).2.
Proof.
  revert c l. induction ops as [|op ops IH]; intros c l H; simpl; [done|].
  destruct (op_refines c l op H) as [Ha Hr].
  destruct (cache_op c op) as [a c'], (lru_op l op) as [a' l']. simpl in *. subst a'.
  destruct (IH c' l' Hr) as [Hrest Hr'].
  destruct (run_ops cache_op c' ops), (run_ops lru_op l' ops). simpl in *. by subst.
Qed.

(** C35. The cache is an LRU list: whatever sequence of lookups, stores and
    purges an empty cache serves, it answers like a list of responses, most
    recently used first, in which a store keeps the longest prefix that
    satisfies both caps; map, linked list and byte count agree throughout. *)
Theorem cache_refines_lru ops :
  (run_ops cache_op empty_cache ops).1 = (run_ops lru_op [] ops).1
  ∧ repr (run_ops cache_op empty_cache ops).2 (run_ops lru_op [] ops).2.
Proof. apply run_ops_refines, empty_repr. Qed.

(** ** Bounds *)

Lemma drop_key_length k l : (length (drop_key k l) <= length l)%nat.
Proof. apply length_filter. Qed.

Lemma drop_key_total k l : total (drop_key k l) <= total l.
Proof.
  induction l as [|p l IH]; [done|]. unfold drop_key in *. cbn [total].
  pose proof (psize_pos p). destruct (decide (p.1 = k)) as [Hk|Hk].
  - rewrite filter_cons_False by naive_solver. lia.
  - rewrite filter_cons_True by done. cbn [total]. lia.
Qed.

Lemma purge_total now l : total (lru_purge now l) <= total l.
Proof.
  induction l as [|p l IH]; [done|]. rewrite lru_purge_cons. cbn [total].
  pose proof (psize_pos p). destruct (_ <? _); cbn [total]; lia.
Qed.

Lemma store_fits k r l : fits (lru_store k r l) = true.
Proof.
  unfold lru_store. cbv zeta.
  destruct (fitting_prefix_spec (length ((k, r) :: drop_key k l)) ((k, r) :: drop_key k l))
    as (m & -> & _ & Hf & _); [lia|done].
Qed.

Lemma op_fits l op : fits l = true → fits (lru_op l op).2 = true.
Proof.
  unfold fits at 1. rewrite andb_true_iff, !Z.leb_le. intros [Hl Ht].
  destruct op as [now k|k r|now]; simpl; [|by apply store_fits|].
  - unfold lru_load. destruct (find_key k l) as [r|] eqn:Hf; simpl.
    2: { unfold fits. rewrite andb_true_iff, !Z.leb_le. done. }
    pose proof (drop_key_length k l). pose proof (drop_key_total k l).
    destruct (negb _); unfold fits; simpl; rewrite andb_true_iff, !Z.leb_le; [lia|].
    unfold find_key in Hf. destruct (list_find _ l) as [[i p]|] eqn:Hi; [|done].
    simpl in Hf. injection Hf as <-. apply list_find_Some in Hi as (Hi & <- & _).
    apply list_elem_of_lookup_2, list_elem_of_split in Hi as (l1 & l2 & ->).
    unfold drop_key in *. rewrite !filter_app, filter_cons_False, !length_app, !total_app in *
      by naive_solver. simpl in *.
    pose proof (drop_key_length p.1 l1). pose proof (drop_key_length p.1 l2).
    pose proof (drop_key_total p.1 l1). pose proof (drop_key_total p.1 l2).
    unfold drop_key in *. rewrite <- surjective_pairing. lia.
  - pose proof (purge_total now l). unfold fits. rewrite andb_true_iff, !Z.leb_le.
    pose proof (length_filter (λ p : string * cachedResponse, now < cr_expires p.2) l).
    unfold lru_purge. split; [lia|]. fold (lru_purge now l). lia.
Qed.

Lemma run_ops_fits ops l : fits l = true → fits (run_ops lru_op l ops).2 = true.
Proof.
  revert l. induction ops as [|op ops IH]; intros l H; simpl; [done|].
  pose proof (op_fits l op H) as Hf. destruct (lru_op l op) as [a l']. simpl in Hf.
  specialize (IH l' Hf). by destruct (run_ops lru_op l' ops).
Qed.

(** The cache some history of operations leaves. *)
Definition cache_after (ops : list CacheOp) : Cache := (run_ops cache_op empty_cache ops).2.
Definition lru_after (ops : list CacheOp) : LRU := (run_ops lru_op [] ops).2.

Lemma fits_caps c l :
  repr c l → fits l = true →
  entries c <= maxIdempotencyEntries ∧ ca_bytes c <= maxIdempotencyTotalBytes.
Proof.
  intros (L & <- & Hh). rewrite (holds_entries _ _ Hh), (ho_bytes _ _ Hh).
  unfold fits. rewrite andb_true_iff, !Z.leb_le, length_fmap. done.
Qed.

(** Looking up what was just stored. *)
Lemma find_key_stored k r l m :
  find_key k (take (S m) ((k, r) :: l)) = Some r.
Proof. apply (find_key_mid k r [] (take m l)). intros p Hp. by apply elem_of_nil in Hp. Qed.

(** C36. Both caps hold after every sequence of operations, with the byte count
    exact.  A response that fits the budget by itself can be loaded right
    after it was stored, until it expires; what a store evicts is a suffix of
    the recency list, and no more of it than the caps require. *)
Theorem cache_is_bounded ops k r now :
  let c := storeIdempotent k r (cache_after ops) in
  let old := drop_key k (lru_after ops) in
  (entries (cache_after ops) <= maxIdempotencyEntries
   ∧ ca_bytes (cache_after ops) <= maxIdempotencyTotalBytes
   ∧ ca_bytes (cache_after ops) = total (lru_after ops))
  ∧ (idempotencyEntrySize k r <= maxIdempotencyTotalBytes → now < cr_expires r →
     (loadIdempotent now k c).1 = Some r)
  ∧ ∃ m, repr c (take m ((k, r) :: old))
      ∧ ∀ j, (m < j <= S (length old))%nat → fits (take j ((k, r) :: old)) = false.
Proof.
  intros c old.
  assert (repr (cache_after ops) (lru_after ops)) as Hr
    by apply (run_ops_refines ops empty_cache [] empty_repr).
  pose proof (run_ops_fits ops [] fits_nil) as Hfit.
  pose proof (store_refines k r _ _ Hr) as Hs. unfold lru_store in Hs. cbv zeta in Hs.
  destruct (fitting_prefix_spec (length ((k, r) :: old)) ((k, r) :: old))
    as (m & Hm & Hle & Hf & Hno); [lia|].
  fold old in Hs. rewrite Hm in Hs. split_and!.
  - by destruct (fits_caps _ _ Hr Hfit).
  - by destruct (fits_caps _ _ Hr Hfit).
  - destruct Hr as (L & HL & Hh). by rewrite (ho_bytes _ _ Hh), HL.
  - intros Hsize Hnow. unfold c. destruct (load_refines now k _ _ Hs) as [-> _].
    unfold lru_load. destruct m as [|m].
    + exfalso. assert (fits (take 1 ((k, r) :: old)) = false) as H.
      { apply Hno. simpl. lia. }
      change (take 1 ((k, r) :: old)) with [(k, r)] in H.
      unfold fits in H. cbn [total length] in H.
      apply andb_false_iff in H as [H|H]; [done|]. apply Z.leb_gt in H.
      unfold psize in H. simpl in H. lia.
    + rewrite find_key_stored. destruct (Z.ltb_spec now (cr_expires r)); [done|lia].
  - exists m. split; [exact Hs|]. intros j Hj. apply Hno. simpl. lia.
Qed.

(** ** Replays *)

(** The body a handler wrote. *)
Fixpoint written (ops : list WriteOp) : string :=
  match ops with
  | [] => ""
  | WriteHeader _ :: ops => written ops
  | Write b :: ops => b +:+ written ops
  end.

Lemma capture_written ops w :
  rw_too_large (foldl write_op w ops) = false →
  rw_too_large w = false ∧ rw_body (foldl write_op w ops) = rw_body w +:+ written ops.
Proof.
  revert w. induction ops as [|op ops IH]; intros w; simpl; [by rewrite sapp_nil_r|].
  intros H. destruct (IH _ H) as [Ht Hb]. rewrite Hb. destruct op as [code|b]; simpl in *; [done|].
  destruct (rw_too_large w); [done|].
  destruct (_ <? _); simpl in *; [done|]. by rewrite sapp_assoc.
Qed.

(** A request the handler ran for. *)
Record Exec : Type := mkExec {
  xe_request : Request; xe_user : string; xe_body : string; xe_ops : list WriteOp; xe_at : Z }.

Definition xe_key (x : Exec) : string := cache_key (xe_user x) (rq_key (xe_request x)).
Definition xe_input (x : Exec) : string :=
  fingerprint_input (rq_method (xe_request x)) (rq_target (xe_request x)) (xe_body x).
Definition xe_fingerprint (x : Exec) : string :=
  requestFingerprint (rq_method (xe_request x)) (rq_target (xe_request x)) (xe_body x).

(** The middleware under any interleaving of requests: one looks up, another
    finishes, the purger runs; the log holds every handler run so far. *)
Inductive mw_step : Cache * list Exec → Cache * list Exec → Prop :=
  | w_before now r c log : mw_step (c, log) ((middleware_before now r c).2, log)
  | w_after x c log :
      rq_user (xe_request x) = Some (xe_user x) →
      bufferRequestBody (xe_request x) = Some (xe_body x) →
      mw_step (c, log)
        (middleware_after (xe_at x) (xe_key x) (xe_fingerprint x) (xe_ops x) c, x :: log)
  | w_purge now c log : mw_step (c, log) (purgeExpiredLocked now c, log).

(** The response [p] was written by a logged run. *)
Definition from_log (log : list Exec) (p : string * cachedResponse) : Prop :=
  ∃ x, x ∈ log ∧ p.1 = xe_key x ∧ cr_fingerprint p.2 = xe_fingerprint x
    ∧ cr_status p.2 = rw_status (capture (xe_ops x)) ∧ 200 <= cr_status p.2 < 300
    ∧ cr_body p.2 = written (xe_ops x) ∧ cr_expires p.2 = xe_at x + idempotencyTTL.

Definition logged (s : Cache * list Exec) : Prop :=
  ∃ l, repr s.1 l ∧ Forall (from_log s.2) l.

Lemma find_key_in k r l : find_key k l = Some r → (k, r) ∈ l.
Proof.
  unfold find_key. destruct (list_find _ l) as [[i p]|] eqn:Hi; [|done].
  intros [= <-]. apply list_find_Some in Hi as (Hi & <- & _). simpl.
  rewrite <- surjective_pairing. by eapply list_elem_of_lookup_2.
Qed.

Lemma lru_load_in now k l :
  (∀ p, p ∈ (lru_load now k l).2 → p ∈ l)
  ∧ ∀ r, (lru_load now k l).1 = Some r → (k, r) ∈ l ∧ now < cr_expires r.
Proof.
  unfold lru_load. destruct (find_key k l) as [r|] eqn:Hf; [|done].
  apply find_key_in in Hf.
  destruct (Z.ltb_spec now (cr_expires r)) as [Hlt|]; simpl; split; try done.
  - intros p [->|Hp]%elem_of_cons; [done|]. by apply list_elem_of_filter in Hp as [_ ?].
  - by intros ? [= <-].
  - intros p Hp. by apply list_elem_of_filter in Hp as [_ ?].
Qed.

Lemma middleware_before_cache now r c :
  (middleware_before now r c).2 = c
  ∨ ∃ k f, (middleware_before now r c).2 = with_stats f (loadIdempotent now k c).2.
Proof.
  unfold middleware_before. destruct (String.eqb _ ""); [by left|].
  destruct (negb _); [by left|]. destruct (rq_user r) as [u|]; [|by left].
  destruct (bufferRequestBody r) as [b|]; [|by left]. right.
  exists (cache_key u (rq_key r)).
  destruct (loadIdempotent now _ c) as [[cached|] c']; simpl.
  - destruct (negb _); simpl; eauto.
  - exists id. by destruct c'.
Qed.

Lemma Forall_filtered {A} (P Q : A → Prop) `{∀ x, Decision (Q x)} (l : list A) :
  Forall P l → Forall P (filter Q l).
Proof.
  rewrite !Forall_forall. intros Hl x Hx. apply Hl. by apply list_elem_of_filter in Hx as [_ ?].
Qed.

Lemma mw_step_logged s s' : mw_step s s' → logged s → logged s'.
Proof.
  destruct 1 as [now r c log|x c log Hu Hb|now c log]; intros (l & Hr & Hl); simpl in *.
  - destruct (middleware_before_cache now r c) as [->|(k & f & ->)]; [by exists l|].
    exists (lru_load now k l).2. split; [by apply repr_stats, load_refines|].
    rewrite Forall_forall in *. intros p Hp. by apply Hl, (lru_load_in now k l).
  - assert (Forall (from_log (x :: log)) l) as Hl'.
    { eapply Forall_impl; [exact Hl|]. intros p (y & Hy & ?). exists y. split; [by right|done]. }
    unfold middleware_after. destruct (_ && _ && _) eqn:Hok; [|by exists l].
    apply andb_true_iff in Hok as [[H1 H2]%andb_true_iff H3%negb_true_iff].
    apply Z.leb_le in H1. apply Z.ltb_lt in H2.
    destruct (capture_written _ _ H3) as [_ Hbody].
    eexists. split; [by apply store_refines|]. unfold lru_store. cbv zeta.
    match goal with |- context [fitting_prefix ?n ?L] =>
      destruct (fitting_prefix_spec n L) as (m & -> & _ & _ & _); [lia|];
      apply (Forall_take _ m L) end.
    constructor; [|by apply Forall_filtered].
    exists x. split; [left|]. simpl. split_and!; try done.
  - exists (lru_purge now l). split; [by apply purge_refines|]. by apply Forall_filtered.
Qed.

Lemma EncodeToString_inj a b :
  EncodeToString (Sum256 a) = EncodeToString (Sum256 b) → Sum256 a = Sum256 b.
Proof.
  intros H. apply (f_equal DecodeString) in H.
  rewrite !DecodeString_EncodeToString in H by apply Sum256_bytes. by injection H.
Qed.

(** C34. A replay answers its own request: under any interleaving, a response
    replayed for a request was written, whole and with a 2xx status, less than
    24 hours ago by a handler run under the same cache key (the same API key and
    idempotency key, when API key ids have no colon) whose method, target and
    body are the request's, unless the two fingerprinted texts are a SHA-256
    collision. *)
Theorem replay_is_faithful c log now r status body c' :
  rtc mw_step (empty_cache, []) (c, log) →
  middleware_before now r c = (Replay status body, c') →
  ∃ x user rbody, x ∈ log ∧ rq_user r = Some user ∧ bufferRequestBody r = Some rbody
    ∧ xe_key x = cache_key user (rq_key r)
    ∧ (no_colon user = true → no_colon (xe_user x) = true →
       xe_user x = user ∧ rq_key (xe_request x) = rq_key r)
    ∧ status = rw_status (capture (xe_ops x)) ∧ 200 <= status < 300
    ∧ body = written (xe_ops x) ∧ now < xe_at x + idempotencyTTL
    ∧ ((rq_method (xe_request x), rq_target (xe_request x), xe_body x)
         = (rq_method r, rq_target r, rbody)
       ∨ let input := fingerprint_input (rq_method r) (rq_target r) rbody in
         xe_input x ≠ input ∧ Sum256 (bytes_of (xe_input x)) = Sum256 (bytes_of input)).
Proof.
  intros Hrun Hbefore.
  assert (logged (c, log)) as (l & Hr & Hl).
  { assert (∀ s s', rtc mw_step s s' → logged s → logged s') as H.
    { induction 1; eauto using mw_step_logged. }
    apply (H _ _ Hrun). exists []. split; [apply empty_repr|constructor]. }
  unfold middleware_before in Hbefore. destruct (String.eqb _ ""); [done|].
  destruct (negb _); [done|]. destruct (rq_user r) as [user|]; [|done].
  destruct (bufferRequestBody r) as [rbody|]; [|done].
  destruct (load_refines now (cache_key user (rq_key r)) c l Hr) as [Heq _].
  destruct (loadIdempotent now _ c) as [[cached|] c1]; [|done]. simpl in Heq.
  destruct (String.eqb_spec (cr_fingerprint cached)
    (requestFingerprint (rq_method r) (rq_target r) rbody)) as [Hfp|]; simpl in Hbefore; [|done].
  injection Hbefore as <- <- _. symmetry in Heq.
  destruct (proj2 (lru_load_in _ _ _) _ Heq) as [Hin Hnow].
  rewrite Forall_forall in Hl. simpl in Hl.
  destruct (Hl _ Hin) as (x & Hx & Hk & Hf & Hst & H2 & Hb & He). simpl in *.
  exists x, user, rbody. split_and!; try done; try lia.
  - intros Hu Hxu. unfold xe_key, cache_key in Hk.
    destruct (colon_split _ _ _ _ Hu Hxu Hk). by split.
  - rewrite Hfp in Hf. unfold xe_fingerprint, requestFingerprint in Hf.
    apply EncodeToString_inj in Hf.
    destruct (decide (xe_input x = fingerprint_input (rq_method r) (rq_target r) rbody))
      as [Hsame|Hne]; [left|by right].
    apply (f_equal read_fingerprint) in Hsame. unfold xe_input in Hsame.
    rewrite !read_fingerprint_input in Hsame. by injection Hsame as -> -> ->.
Qed.

(** One request, its execution, and the same request again. *)
Definition post_wi : Request :=
  mkRequest "i1" "POST" "/v1/work_items" (Some "key1") (Some "{}").
Definition post_exec : Exec :=
  mkExec post_wi "key1" "{}" [WriteHeader 201; Write "{id"; Write ":1}"] 1000.
Definition cache_posted : Cache :=
  middleware_after (xe_at post_exec) (xe_key post_exec) (xe_fingerprint post_exec)
    (xe_ops post_exec) empty_cache.

Lemma replay_is_faithful_witness :
  ∃ x, x ∈ [post_exec] ∧ "{id:1}" = written (xe_ops x).
Proof.
  destruct (replay_is_faithful cache_posted [post_exec] 2000 post_wi 201 "{id:1}"
    (middleware_before 2000 post_wi cache_posted).2) as
    (x & user & rbody & Hx & _ & _ & _ & _ & _ & _ & Hb & _).
  - apply rtc_once, (w_after post_exec); reflexivity.
  - vm_compute. reflexivity.
  - exists x. split; [exact Hx|exact Hb].
Defined.

(** ** The least recently used entry is not always the one closest to expiry

    A hit moves an entry to the front without extending its life, so after one
    the next victim can be a younger entry than the one it spares. *)
Definition response_at (t : Z) : cachedResponse := mkCached 200 "" "f" (t + idempotencyTTL).
Definition after_hit : Cache :=
  cache_after [OpStore "old" (response_at 0); OpStore "young" (response_at 10);
               OpLoad 20 "old"].

Example victim_expires_later :
  (ie_key <$> (last (ca_lru after_hit) ≫= λ el, ca_elems after_hit !! el)) = Some "young"
  ∧ (cr_expires <$> (lru_load 30 "old" (lru_after
       [OpStore "old" (response_at 0); OpStore "young" (response_at 10)])).1)
    = Some idempotencyTTL
  ∧ (idempotencyTTL < cr_expires (response_at 10)).
Proof. split; [vm_compute; reflexivity|]. split; [vm_compute; reflexivity|]. vm_compute. done. Qed.
